(** * gscache: a shallow embedding of the cache core and its verified properties

    The development follows the package layout of the Go sources:
    - [time], [io], [hex], [filepath], [os]: the library calls the code
      relies on, as far as the code uses them;
    - [protocol]: request and response records;
    - [cache]: the [EntryMeta] binary codec ([internal/cache/entrymeta.go]);
    - [util]: single flight and the line reader ([internal/util]);
    - [local]: the on-disk cache ([backends/local/local.go]);
    - [blob]: object keys, archive readers, the bundle local store and its
      synchronization with the bucket, the blob backend's get, put and
      upload, and the compaction job ([backends/blob]);
    - [cacheprog]: the read loop of the protocol engine;
    - [server]: the reader of a put body;
    - [stats]: persisting the statistics at a limited rate.

    Part I holds the definitions, Part II the lemmas and theorems. Every
    function of the sources keeps its name; a method [T.m] is [T.m] in the
    module of its package. *)

From Stdlib Require Import ZArith List Bool Lia.
From Stdlib.Strings Require Import String Ascii Byte.
From stdpp Require Import base option gmap strings list.
Import ListNotations.

Local Open Scope Z_scope.

(* ===================================================================== *)
(** * Part I: definitions                                                 *)
(* ===================================================================== *)

(** ** Outcomes of calls

    A Go call either returns a value, returns a non-nil [error], or panics
    (an index out of range on [actionID[0]]). Errors are tagged by the place
    that raises them. *)

Inductive error : Type :=
| ErrEOF                                   (* io.EOF *)
| ErrUnexpectedEOF                         (* io.ErrUnexpectedEOF *)
| ErrIO                                    (* any other failure of a reader or of a syscall *)
| ErrNoProgress                            (* io.ErrNoProgress *)
| ErrClosedStore                           (* "... store is closed" *)
| ErrActionIDUnspecified                   (* "actionID must be specified in GetRequest" *)
| ErrActionIDMismatch                      (* "action ID mismatch" / "actionID mismatch" *)
| ErrReadMeta (cause : error)              (* "failed to read entry metadata" *)
| ErrStatOutput                            (* "failed to stat output file" *)
| ErrOutputIsDir                           (* "output path is a directory" *)
| ErrOutputSizeMismatch (expected got : Z) (* "output file size mismatch" *)
| ErrEmptyOutput                           (* "failed to prepare empty output file" *)
| ErrMkdir                                 (* "failed to create ... directory" *)
| ErrCreate                                (* "failed to create ... file" *)
| ErrWriteBody                             (* "failed to write output body" *)
| ErrBodySizeMismatch (expected got : Z)   (* "body size mismatch" *)
| ErrRename                                (* "failed to rename ... file" *)
| ErrWriteMeta                             (* "failed to write entry metadata" *)
| ErrOpenArEntry                           (* "failed to open archive entry" *)
| ErrPutArEntry (cause : error)            (* "failed to put archive entry in disk store" *)
| ErrPutDownloaded (cause : error)         (* "failed to put entry in disk store" *)
| ErrHex                                   (* encoding/hex: invalid byte or odd length *)
| ErrInvalidKey                            (* "invalid cache entity key" *)
| ErrList                                  (* "failed to list objects using prefix" *)
| ErrLargeLine                             (* "unexpected large line from stdin" *)
| ErrDecodeRequest                         (* "failed to decode incoming request" *)
| ErrReadStdin (cause : error)             (* "failed to read from stdin" *)
| ErrReadPutBody (cause : error)           (* "failed to read CmdPut body" *)
| ErrStep2 (cause : error)                 (* "failed to download and fill new BlobArchive file" *)
| ErrStep3 (cause : error)                 (* "failed to ingest new BlobArchive file" *)
| ErrFindBlobs (cause : error).            (* "failed to find blobs to compact" *)

Inductive result (A : Type) : Type :=
| Ok (a : A)
| Err (e : error)
| Panic.

Arguments Ok {A} a.
Arguments Err {A} e.
Arguments Panic {A}.

Definition bind {A B : Type} (r : result A) (k : A -> result B) : result B :=
  match r with
  | Ok a => k a
  | Err e => Err e
  | Panic => Panic
  end.

Notation "'let*' x ':=' r 'in' k" := (bind r (fun x => k))
  (at level 10, x pattern, r at level 100, k at level 200).

Definition panics {A : Type} (r : result A) : bool :=
  match r with
  | Panic => true
  | _ => false
  end.

Definition is_Some_b {A : Type} (o : option A) : bool :=
  match o with
  | Some _ => true
  | None => false
  end.

(** [fmt.Errorf("...: %w", err)]: wrap the error of a failed call. *)
Definition wrap {A : Type} (w : error -> error) (r : result A) : result A :=
  match r with
  | Ok a => Ok a
  | Err e => Err (w e)
  | Panic => Panic
  end.

(** ** Bytes and fixed-width integers *)

Definition byte_of_Z (z : Z) : byte :=
  match Byte.of_N (Z.to_N (z mod 256)) with
  | Some b => b
  | None => x00
  end.

Definition Z_of_byte (b : byte) : Z := Z.of_N (Byte.to_N b).

(** [uint32(x)], [uint64(x)] and [int64(u)] conversions, with wrap-around. *)
Definition uint32 (z : Z) : Z := z mod 2 ^ 32.
Definition uint64 (z : Z) : Z := z mod 2 ^ 64.
Definition int64 (z : Z) : Z := (z + 2 ^ 63) mod 2 ^ 64 - 2 ^ 63.

Definition is_int64 (z : Z) : Prop := - 2 ^ 63 <= z < 2 ^ 63.

(** [binary.LittleEndian.PutUintN]: the low byte first, then the value
    shifted right by eight bits. *)
Fixpoint put_le (n : nat) (v : Z) : list byte :=
  match n with
  | O => []
  | S n' => byte_of_Z v :: put_le n' (Z.shiftr v 8)
  end.

(** [binary.LittleEndian.UintN]. *)
Fixpoint get_le (bs : list byte) : Z :=
  match bs with
  | [] => 0
  | b :: bs' => Z_of_byte b + 256 * get_le bs'
  end.

Definition PutUint32 (v : Z) : list byte := put_le 4 v.
Definition PutUint64 (v : Z) : list byte := put_le 8 v.
Definition Uint32 (bs : list byte) : Z := get_le (firstn 4 bs).
Definition Uint64 (bs : list byte) : Z := get_le (firstn 8 bs).

(** ** package time

    A [Time] is an instant: whole seconds since the Unix epoch and a
    nanosecond part in [0, 10^9). Location and monotonic reading are not
    part of the model; instants are compared as [Time.Equal] does. *)

Module time.

Record Time : Type := mkTime { unixSec : Z; nsec : Z }.

Definition wf (t : Time) : Prop := 0 <= nsec t < 10 ^ 9.

(** [time.Time{}]: January 1, year 1, 00:00:00 UTC. *)
Definition zero : Time := mkTime (-62135596800) 0.

(** [t.UnixNano()]: computed in int64, wrapping when out of range. *)
Definition UnixNano (t : Time) : Z := int64 (unixSec t * 10 ^ 9 + nsec t).

(** [time.Unix(sec, nsec)]: [nsec] outside [0, 10^9) is carried into [sec]. *)
Definition Unix (sec ns : Z) : Time :=
  if (ns <? 0) || (10 ^ 9 <=? ns) then
    let n := Z.quot ns (10 ^ 9) in
    let sec1 := sec + n in
    let ns1 := ns - n * 10 ^ 9 in
    if ns1 <? 0 then mkTime (sec1 - 1) (ns1 + 10 ^ 9) else mkTime sec1 ns1
  else mkTime sec ns.

End time.

(** ** package io: readers

    A reader delivers the bytes of [avail] and then ends, with [io.EOF]
    when [failing] is [false] and with a read error otherwise. *)

Module io.

Record Reader : Type := mkReader { avail : list byte; failing : bool }.

Definition of_bytes (bs : list byte) : Reader := mkReader bs false.

(** [io.ReadFull(r, buf)] with [len(buf) = n]. *)
Definition ReadFull (r : Reader) (n : nat) : result (list byte * Reader) :=
  if (n <=? length (avail r))%nat then
    Ok (firstn n (avail r), mkReader (skipn n (avail r)) (failing r))
  else if failing r then Err ErrIO
  else match avail r with
       | [] => Err ErrEOF
       | _ :: _ => Err ErrUnexpectedEOF
       end.

(** [io.Copy(dst, r)]: the bytes copied before the reader ends, and the
    error it ended with, if any. *)
Definition Copy (r : Reader) : list byte * option error :=
  (avail r, if failing r then Some ErrIO else None).

End io.

(** ** package encoding/hex and the [%x] verbs of fmt *)

Module hex.

Definition digit (n : N) : ascii :=
  match n with
  | 0 => "0" | 1 => "1" | 2 => "2" | 3 => "3" | 4 => "4"
  | 5 => "5" | 6 => "6" | 7 => "7" | 8 => "8" | 9 => "9"
  | 10 => "a" | 11 => "b" | 12 => "c" | 13 => "d" | 14 => "e"
  | _ => "f"
  end%N%char.

(** [fmt.Sprintf("%02x", b)] for a byte [b]. *)
Definition EncodeByte (b : byte) : string :=
  String (digit (Byte.to_N b / 16)) (String (digit (Byte.to_N b mod 16)) EmptyString).

(** [fmt.Sprintf("%x", bs)] for a byte slice, and [hex.EncodeToString]. *)
Fixpoint EncodeToString (bs : list byte) : string :=
  match bs with
  | [] => EmptyString
  | b :: bs' => EncodeByte b +:+ EncodeToString bs'
  end.

(** The reverse table of the decoder: both letter cases are accepted. *)
Definition fromHexChar (c : ascii) : option N :=
  let n := N_of_ascii c in
  if ((48 <=? n) && (n <=? 57))%N then Some (n - 48)%N
  else if ((97 <=? n) && (n <=? 102))%N then Some (n - 97 + 10)%N
  else if ((65 <=? n) && (n <=? 70))%N then Some (n - 65 + 10)%N
  else None.

(** [hex.DecodeString]: pairs of digits; an invalid digit or an odd length
    is an error. *)
Fixpoint DecodeString (s : string) : result (list byte) :=
  match s with
  | EmptyString => Ok []
  | String _ EmptyString => Err ErrHex
  | String p (String q s') =>
      match fromHexChar p, fromHexChar q with
      | Some a, Some b =>
          let* rest := DecodeString s' in
          Ok (byte_of_Z (Z.of_N (a * 16 + b)) :: rest)
      | _, _ => Err ErrHex
      end
  end.

End hex.

(** ** package path/filepath and the file system

    A path is the list of its elements, so that [filepath.Join] appends
    elements and [filepath.Dir] drops the last one. *)

Module filepath.

Definition path : Type := list string.

Definition Join (p : path) (elems : list string) : path := p ++ elems.

Definition Dir (p : path) : path := List.removelast p.

(** [p + suffix] on the path as a string: the suffix extends the last element. *)
Definition add_suffix (p : path) (suffix : string) : path :=
  List.removelast p ++ [List.last p EmptyString +:+ suffix].

End filepath.

Module os.

Inductive node : Type :=
| File (content : list byte)
| Directory.

Inductive syscall : Type :=
| SysStat | SysOpen | SysMkdirAll | SysCreate | SysWrite | SysRename
| SysRemove | SysWriteFile.

(** The state of the disk: the nodes present, and the calls that fail with an
    IO error whatever the nodes are. *)
Record FS : Type := mkFS {
  nodes : gmap (list string) node;
  broken : syscall -> list string -> bool
}.

Definition with_nodes (fs : FS) (m : gmap (list string) node) : FS :=
  mkFS m (broken fs).

Inductive stat_error : Type := NotExist | OtherError.

(** [os.Stat]. *)
Definition Stat (fs : FS) (p : filepath.path) : node + stat_error :=
  if broken fs SysStat p then inr OtherError
  else match nodes fs !! p with
       | Some n => inl n
       | None => inr NotExist
       end.

(** [os.Open]. *)
Definition Open (fs : FS) (p : filepath.path) : node + stat_error :=
  if broken fs SysOpen p then inr OtherError
  else match nodes fs !! p with
       | Some n => inl n
       | None => inr NotExist
       end.

(** Whether [p] is a directory. Paths are relative to the empty path, the
    working directory, which is one. *)
Definition isDir (fs : FS) (p : filepath.path) : bool :=
  match p with
  | [] => true
  | _ => match nodes fs !! p with
         | Some Directory => true
         | _ => false
         end
  end.

(** Whether [p] names an entry of a directory that is there: a file can be
    created at [p] only then ([ENOENT], [ENOTDIR] otherwise). The empty path
    names no file. *)
Definition parentIsDir (fs : FS) (p : filepath.path) : bool :=
  match p with
  | [] => false
  | _ => isDir fs (filepath.Dir p)
  end.

(** The directories [os.MkdirAll] goes through, from the outermost one:
    [done] is there, the elements [rest] are still to go. A missing
    directory is created, a file in the way is an error. *)
Fixpoint mkdirAll (m : gmap (list string) node) (done : filepath.path)
    (rest : list string) : option (gmap (list string) node) :=
  match rest with
  | [] => Some m
  | c :: rest' =>
      let q := done ++ [c] in
      match m !! q with
      | Some Directory => mkdirAll m q rest'
      | Some (File _) => None
      | None => mkdirAll (<[q := Directory]> m) q rest'
      end
  end.

(** [os.MkdirAll] creates the directory [p] along with any necessary
    parents. When [p] is a directory already it does nothing; when [p] or
    one of its parents is a file it fails and creates nothing. *)
Definition MkdirAll (fs : FS) (p : filepath.path) : option FS :=
  if broken fs SysMkdirAll p then None
  else match nodes fs !! p with
       | Some (File _) => None
       | Some Directory => Some fs
       | None => option_map (with_nodes fs) (mkdirAll (nodes fs) [] p)
       end.

(** [os.Create]: a new or truncated empty file, in a directory that is
    there. *)
Definition Create (fs : FS) (p : filepath.path) : option FS :=
  if broken fs SysCreate p then None
  else if negb (parentIsDir fs p) then None
  else match nodes fs !! p with
       | Some Directory => None
       | _ => Some (with_nodes fs (<[p := File []]> (nodes fs)))
       end.

(** Writing [data] to the file created at [p]. A failed write leaves the
    file as it was. *)
Definition Write (fs : FS) (p : filepath.path) (data : list byte) : option FS :=
  if broken fs SysWrite p then None
  else Some (with_nodes fs (<[p := File data]> (nodes fs))).

(** [os.Rename]: [src] takes the place of [dst], in the directory of [dst];
    the callers rename a file within its directory. *)
Definition Rename (fs : FS) (src dst : filepath.path) : option FS :=
  if broken fs SysRename src then None
  else match nodes fs !! src, nodes fs !! dst with
       | None, _ => None
       | Some (File _), Some Directory => None
       | Some n, _ => Some (with_nodes fs (<[dst := n]> (delete src (nodes fs))))
       end.

(** [os.Remove], its error ignored by every caller. A removal that fails, as
    that of a directory that is not empty does, is a fault of [broken]. *)
Definition Remove (fs : FS) (p : filepath.path) : FS :=
  if broken fs SysRemove p then fs
  else with_nodes fs (delete p (nodes fs)).

(** [os.WriteFile(path, data, 0644)]: creates or truncates the file, in a
    directory that is there. *)
Definition WriteFile (fs : FS) (p : filepath.path) (data : list byte) : option FS :=
  if broken fs SysWriteFile p then None
  else if negb (parentIsDir fs p) then None
  else match nodes fs !! p with
       | Some Directory => None
       | _ => Some (with_nodes fs (<[p := File data]> (nodes fs)))
       end.

End os.

(** ** Calls that change the disk

    A call that works on the disk returns its outcome together with the disk
    it leaves behind: an error or a panic does not undo what was written. *)

Definition M (A : Type) : Type := os.FS -> result A * os.FS.

Definition ret {A : Type} (a : A) : M A := fun fs => (Ok a, fs).

Definition fail {A : Type} (e : error) : M A := fun fs => (Err e, fs).

Definition lift {A : Type} (r : result A) : M A := fun fs => (r, fs).

Definition bindM {A B : Type} (m : M A) (k : A -> M B) : M B :=
  fun fs =>
    match m fs with
    | (Ok a, fs') => k a fs'
    | (Err e, fs') => (Err e, fs')
    | (Panic, fs') => (Panic, fs')
    end.

Notation "'let!' x ':=' m 'in' k" := (bindM m (fun x => k))
  (at level 10, x pattern, m at level 100, k at level 200).

(** A syscall whose failure is returned as the error [e]. *)
Definition sys (e : error) (call : os.FS -> option os.FS) : M unit :=
  fun fs =>
    match call fs with
    | Some fs' => (Ok tt, fs')
    | None => (Err e, fs)
    end.

(** The arguments of a log call are evaluated even when nothing is logged. *)
Definition logArgs {A : Type} (args : list (result A)) : M unit :=
  fun fs => (if existsb panics args then Panic else Ok tt, fs).

(** [fmt.Errorf("...: %w", err)] around a call on the disk. *)
Definition wrapM {A : Type} (w : error -> error) (m : M A) : M A :=
  fun fs => let '(r, fs') := m fs in (wrap w r, fs').

(** ** package protocol *)

Module protocol.

Record GetRequest : Type := mkGetRequest { get_ActionID : list byte }.

Record GetResponse : Type := mkGetResponse {
  Miss : bool;
  OutputID : list byte;
  Size : Z;
  Time : option time.Time;
  DiskPath : filepath.path
}.

Record PutRequest : Type := mkPutRequest {
  put_ActionID : list byte;
  put_OutputID : list byte;
  BodySize : Z
}.

Record PutResponse : Type := mkPutResponse { put_DiskPath : filepath.path }.

(** [&protocol.GetResponse{Miss: true}] *)
Definition miss : GetResponse := mkGetResponse true [] 0 None [].

End protocol.

(** ** package cache: EntryMeta *)

Module cache.

Record EntryMeta : Type := mkEntryMeta {
  ActionID : list byte;
  OutputID : list byte;
  Size : Z;
  Time : time.Time
}.

Definition SerializedSize (em : EntryMeta) : nat :=
  (4 + 4 + length (ActionID em) + length (OutputID em) + 8 + 8)%nat.

(** [WriteTo]: the buffer handed to [w.Write]. Layout:
    [ActionID length][OutputID length][ActionID][OutputID][Size][Time unix nano] *)
Definition WriteTo (em : EntryMeta) : list byte :=
  PutUint32 (uint32 (Z.of_nat (length (ActionID em))))
  ++ PutUint32 (uint32 (Z.of_nat (length (OutputID em))))
  ++ ActionID em
  ++ OutputID em
  ++ PutUint64 (uint64 (Size em))
  ++ PutUint64 (uint64 (time.UnixNano (Time em))).

Definition ReadEntryMeta (r : io.Reader) : result (EntryMeta * io.Reader) :=
  let* (lengthHeader, r1) := io.ReadFull r 8 in
  let actionIDLen := Z.to_nat (Uint32 (firstn 4 lengthHeader)) in
  let outputIDLen := Z.to_nat (Uint32 (skipn 4 lengthHeader)) in
  let* (remainingBuf, r2) := io.ReadFull r1 (actionIDLen + outputIDLen + 16) in
  let actionID := firstn actionIDLen remainingBuf in
  let buf1 := skipn actionIDLen remainingBuf in
  let outputID := firstn outputIDLen buf1 in
  let buf2 := skipn outputIDLen buf1 in
  let size := int64 (Uint64 (firstn 8 buf2)) in
  let timeNano := int64 (Uint64 (firstn 8 (skipn 8 buf2))) in
  let t := if timeNano =? time.UnixNano time.zero
           then time.zero
           else time.Unix 0 timeNano in
  Ok (mkEntryMeta actionID outputID size t, r2).

Record PutOpts : Type := mkPutOpts {
  put_Req : protocol.PutRequest;
  Body : io.Reader;
  OverrideTime : option time.Time;
  put_IsInCompaction : bool
}.

Record GetOpts : Type := mkGetOpts {
  get_Req : protocol.GetRequest;
  get_IsInCompaction : bool
}.

End cache.

(** ** package util: single flight

    [g.Do(key, fn)] for a caller that finds no flight for [key] in progress:
    it runs [fn] and returns what [fn] returned. *)

Module util.

Definition Do {A : Type} (key : list byte) (fn : M A) : M A := fn.

End util.

(** ** package local: the on-disk cache ([backends/local/local.go]) *)

#[global] Instance byte_eq_dec : EqDecision byte := Byte.byte_eq_dec.

(** [bytes.Equal] *)
Definition bytes_Equal (a b : list byte) : bool := bool_decide (a = b).

Module local.

Record LocalBackend : Type := mkLocalBackend {
  dir : filepath.path;   (* filepath.Join(workDir, "data") *)
  closed : bool
}.

Definition emptyOutputPath (store : LocalBackend) : filepath.path :=
  filepath.Join (dir store) ["_empty.output"%string].

Definition EnsureEmptyOutputFile (store : LocalBackend) : M filepath.path :=
  fun fs =>
    let path := emptyOutputPath store in
    match os.Stat fs path with
    | inl (os.File []) => (Ok path, fs)
    | _ =>
        match os.WriteFile fs path [] with
        | Some fs' => (Ok path, fs')
        | None => (Err ErrEmptyOutput, fs)
        end
    end.

(** The loop of [Open], from the counter [i] with [n] subdirectories left to
    create. [fmt.Sprintf("%02x", i)] is taken at the byte [i]. *)
Fixpoint mkdirShards (store : LocalBackend) (i n : nat) : M unit :=
  match n with
  | O => ret tt
  | S n' =>
      let subdir :=
        filepath.Join (dir store) [hex.EncodeByte (byte_of_Z (Z.of_nat i))] in
      let! _ := sys ErrMkdir (fun fs => os.MkdirAll fs subdir) in
      mkdirShards store (S i) n'
  end.

Definition Open (store : LocalBackend) : M unit :=
  let! _ := mkdirShards store 0 256 in
  let! _ := EnsureEmptyOutputFile store in
  ret tt.

Definition Close (store : LocalBackend) : LocalBackend :=
  mkLocalBackend (dir store) true.

(** [actionID[0]] panics on an empty slice. *)
Definition actionPath (store : LocalBackend) (actionID : list byte) : result filepath.path :=
  match actionID with
  | [] => Panic
  | b0 :: _ =>
      Ok (filepath.Join (dir store)
            [hex.EncodeByte b0; hex.EncodeToString actionID +:+ ".action"])
  end.

Definition outputPath (store : LocalBackend) (outputID : list byte) : result filepath.path :=
  match outputID with
  | [] => Panic
  | b0 :: _ =>
      Ok (filepath.Join (dir store)
            [hex.EncodeByte b0; hex.EncodeToString outputID +:+ ".output"])
  end.

(** Reading the EntryMeta from the opened action file. *)
Definition readMeta (actionFile : os.node) : result cache.EntryMeta :=
  match actionFile with
  | os.File content =>
      let* (meta, _) := wrap ErrReadMeta (cache.ReadEntryMeta (io.of_bytes content)) in
      Ok meta
  | os.Directory => Err (ErrReadMeta ErrIO)
  end.

(** The check of the body file of a non-empty entry; a failed check prunes
    the entry. *)
Definition checkOutput (actionPath outputPath : filepath.path) (size : Z) : M filepath.path :=
  fun fs =>
    match os.Stat fs outputPath with
    | inr _ => (Err ErrStatOutput, os.Remove fs actionPath)
    | inl os.Directory =>
        (Err ErrOutputIsDir, os.Remove (os.Remove fs actionPath) outputPath)
    | inl (os.File content) =>
        if Z.of_nat (length content) =? size then (Ok outputPath, fs)
        else (Err (ErrOutputSizeMismatch size (Z.of_nat (length content))),
              os.Remove (os.Remove fs actionPath) outputPath)
    end.

(** [get]. The last-access times that [markRecentlyUsed] bumps are not part
    of the disk model. *)
Definition get (store : LocalBackend) (opts : cache.GetOpts) : M protocol.GetResponse :=
  let actionID := protocol.get_ActionID (cache.get_Req opts) in
  let! actionPath := lift (actionPath store actionID) in
  fun fs =>
    match os.Open fs actionPath with
    | inr os.NotExist => (Ok protocol.miss, fs)
    | inr os.OtherError => (Err ErrIO, fs)
    | inl actionFile =>
        (let! meta := lift (readMeta actionFile) in
         if negb (bytes_Equal (cache.ActionID meta) actionID)
         then fail ErrActionIDMismatch
         else
           let! outputPath := lift (outputPath store (cache.OutputID meta)) in
           let! outputPath :=
             (if cache.Size meta =? 0
              then EnsureEmptyOutputFile store
              else checkOutput actionPath outputPath (cache.Size meta)) in
           ret (protocol.mkGetResponse false (cache.OutputID meta) (cache.Size meta)
                  (Some (cache.Time meta)) outputPath)) fs
    end.

(** [io.Copy(outputFile, opts.Body)] into the file created at [p]: the
    number of bytes copied and whether the copy failed. *)
Definition copyBody (p : filepath.path) (body : io.Reader) : M (Z * bool) :=
  fun fs =>
    let '(data, rerr) := io.Copy body in
    match os.Write fs p data with
    | Some fs' => (Ok (Z.of_nat (length data), is_Some_b rerr), fs')
    | None => (Ok (0, true), fs)
    end.

(** [put]. [uniqueId] is the value of [gonanoid.Must(8)] and [now] the
    value of [time.Now()]. *)
Definition put (store : LocalBackend) (opts : cache.PutOpts)
    (uniqueId : string) (now : time.Time) : M protocol.PutResponse :=
  let req := cache.put_Req opts in
  let! actionPath := lift (actionPath store (protocol.put_ActionID req)) in
  let! outputPath := lift (outputPath store (protocol.put_OutputID req)) in
  (* Write object first to ensure atomicity *)
  let! outputPath :=
    (if 0 <? protocol.BodySize req then
       let! _ := sys ErrMkdir (fun fs => os.MkdirAll fs (filepath.Dir outputPath)) in
       let outputPathTmp := filepath.add_suffix outputPath (".tmp." +:+ uniqueId) in
       let! _ := sys ErrCreate (fun fs => os.Create fs outputPathTmp) in
       let! (n, failed) := copyBody outputPathTmp (cache.Body opts) in
       if failed then fail ErrWriteBody
       else if negb (n =? protocol.BodySize req)
       then fail (ErrBodySizeMismatch (protocol.BodySize req) n)
       else
         let! _ := sys ErrRename (fun fs => os.Rename fs outputPathTmp outputPath) in
         ret outputPath
     else EnsureEmptyOutputFile store) in
  let! _ := sys ErrMkdir (fun fs => os.MkdirAll fs (filepath.Dir actionPath)) in
  let actionPathTmp := filepath.add_suffix actionPath (".tmp." +:+ uniqueId) in
  let! _ := sys ErrCreate (fun fs => os.Create fs actionPathTmp) in
  let meta :=
    cache.mkEntryMeta (protocol.put_ActionID req) (protocol.put_OutputID req)
      (protocol.BodySize req)
      (match cache.OverrideTime opts with
       | Some t => t
       | None => now
       end) in
  let! _ := sys ErrWriteMeta (fun fs => os.Write fs actionPathTmp (cache.WriteTo meta)) in
  let! _ := sys ErrRename (fun fs => os.Rename fs actionPathTmp actionPath) in
  ret (protocol.mkPutResponse outputPath).

Definition Get (store : LocalBackend) (opts : cache.GetOpts) : M protocol.GetResponse :=
  if closed store then fail ErrClosedStore
  else fun fs =>
    let actionID := protocol.get_ActionID (cache.get_Req opts) in
    match util.Do actionID (get store opts) fs with
    | (Err _, fs') =>
        (let! _ := logArgs [actionPath store actionID] in
         ret protocol.miss) fs'
    | other => other
    end.

Definition Put (store : LocalBackend) (opts : cache.PutOpts)
    (uniqueId : string) (now : time.Time) : M protocol.PutResponse :=
  if closed store then fail ErrClosedStore
  else fun fs =>
    let req := cache.put_Req opts in
    match util.Do (protocol.put_ActionID req) (put store opts uniqueId now) fs with
    | (Panic, fs') => (Panic, fs')
    | (r, fs') =>
        (let! _ := logArgs [actionPath store (protocol.put_ActionID req);
                            outputPath store (protocol.put_OutputID req)] in
         lift r) fs'
    end.

End local.

(** ** package blob: keys ([backends/blob/key.go]) *)

(** [key[n:]] *)
Fixpoint string_drop (n : nat) (s : string) : string :=
  match n, s with
  | O, _ => s
  | S n', String _ s' => string_drop n' s'
  | S _, EmptyString => EmptyString
  end.

(** [key[i] != c], for [i] within the string. *)
Definition char_differs (key : string) (i : nat) (c : ascii) : bool :=
  match String.get i key with
  | Some c' => negb (Ascii.eqb c' c)
  | None => true
  end.

Module blob.

Definition CacheEntityKey (actionID : list byte) : result string :=
  match actionID with
  | [] => Panic
  | b0 :: _ => Ok ("b/" +:+ hex.EncodeByte b0 +:+ "/" +:+ hex.EncodeToString actionID)
  end.

Definition DecodeCacheEntityKey (key : string) : result (list byte) :=
  if (String.length key <? 5)%nat
     || char_differs key 0 "b" || char_differs key 1 "/" || char_differs key 4 "/"
  then Err ErrInvalidKey
  else
    let actionIDInHex := string_drop 5 key in
    match hex.DecodeString actionIDInHex with
    | Ok actionIdInBytes =>
        let* key' := CacheEntityKey actionIdInBytes in
        if String.eqb key' key then Ok actionIdInBytes
        else Err ErrInvalidKey (* This also compares the b/%02x part *)
    | Err _ => Err ErrInvalidKey
    | Panic => Panic
    end.

Definition CacheEntityNameInArchive (actionID : list byte) : string :=
  hex.EncodeToString actionID.

Definition ArchiveListPrefixKey (keyspace : string) : string := "b/" +:+ keyspace.

Definition ArchiveKey (keyspace : string) : string := "blobar/" +:+ keyspace +:+ ".zip".

Definition ArchiveFilePath (workDir : filepath.path) (keyspace : string) : filepath.path :=
  filepath.Join workDir ["blobar"%string; keyspace +:+ ".zip"].

Definition ArchiveKeyspaces : list string :=
  ["0"; "1"; "2"; "3"; "4"; "5"; "6"; "7";
   "8"; "9"; "a"; "b"; "c"; "d"; "e"; "f"]%string.

(** [fmt.Sprintf("%02x", actionID[0])[0:1]] *)
Definition CacheEntityKeyspace (actionID : list byte) : result string :=
  match actionID with
  | [] => Panic
  | b0 :: _ => Ok (String.substring 0 1 (hex.EncodeByte b0))
  end.

(** *** BlobArchive readers ([backends/blob/ar.go])

    An entry embeds its EntryMeta and the zip file it opens: [f] is [None]
    when opening fails, and otherwise the reader over the entry's data. *)

Record ArEntry : Type := mkArEntry {
  meta : cache.EntryMeta;
  f : option io.Reader
}.

Definition Open (e : ArEntry) : result io.Reader :=
  match f e with
  | Some r => Ok r
  | None => Err ErrOpenArEntry
  end.

(** A reader keeps the archive it was opened on: replacing the file under
    its path leaves it as it is (UNIX rename semantics). *)
Record ArReader : Type := mkArReader {
  z_closed : bool;
  files : gmap string ArEntry
}.

Module ArReader.

Definition Get (r : ArReader) (name : string) : option ArEntry := files r !! name.

Definition List (r : ArReader) : list string := (map_to_list (files r)).*1.

(** [Close]: [r.files = nil; r.z.Close()] *)
Definition Close (r : ArReader) : ArReader := mkArReader true ∅.

End ArReader.

(** *** ArLocalStore ([backends/blob/arlocalstore.go])

    [readers] maps a keyspace to a pointer; [heap] holds every reader ever
    allocated, and [next] is the next free pointer. *)

Record ArLocalStore : Type := mkArLocalStore {
  workDir : filepath.path;
  readers : gmap string nat;
  heap : gmap nat ArReader;
  next : nat
}.

Module ArLocalStore.

Section WithArchiveFormat.

(** The zip container and the JSON comments of its entries are the work of
    libraries: [parse] stands for [zip.OpenReader] followed by the decoding
    of every entry's comment, and is [None] when either fails. *)
Variable parse : list byte -> option (gmap string ArEntry).

Definition NewArLocalStore (workDir : filepath.path) : ArLocalStore :=
  mkArLocalStore workDir ∅ ∅ 0.

(** [NewArReader(path)] *)
Definition NewArReader (fs : os.FS) (p : filepath.path) : option ArReader :=
  match os.Open fs p with
  | inl (os.File content) =>
      match parse content with
      | Some entries => Some (mkArReader false entries)
      | None => None
      end
  | _ => None
  end.

(** Allocation of a reader. *)
Definition alloc (s : ArLocalStore) (r : ArReader) : nat * ArLocalStore :=
  (next s, mkArLocalStore (workDir s) (readers s) (<[next s := r]> (heap s)) (S (next s))).

(** [set]: the old reader is not closed, because it may still be in use. *)
Definition set (s : ArLocalStore) (keyspace : string) (arReader : nat) : ArLocalStore :=
  mkArLocalStore (workDir s) (<[keyspace := arReader]> (readers s)) (heap s) (next s).

(** [arReader.Close()] on the reader at a pointer. *)
Definition close (s : ArLocalStore) (p : nat) : ArLocalStore :=
  mkArLocalStore (workDir s) (readers s) (alter ArReader.Close p (heap s)) (next s).

Definition LoadLocal (s : ArLocalStore) (keyspace : string) (fs : os.FS)
    : result unit * ArLocalStore :=
  let filePath := ArchiveFilePath (workDir s) keyspace in
  match os.Stat fs filePath with
  | inr os.NotExist => (Ok tt, s)
  | inr os.OtherError => (Err ErrIO, s)
  | inl _ =>
      match NewArReader fs filePath with
      | None => (Err ErrIO, s) (* file is broken for some reason *)
      | Some arReader =>
          let '(p, s1) := alloc s arReader in
          (Ok tt, set s1 keyspace p)
      end
  end.

(** [Put]: write to a temporary file, open it, rename it to the final name
    (this keeps original readers working), make the new reader available. *)
Definition Put (s : ArLocalStore) (keyspace : string) (r : io.Reader)
    (uniqueId : string) (fs : os.FS) : result unit * ArLocalStore * os.FS :=
  let newFilePath := ArchiveFilePath (workDir s) keyspace in
  let newFilePathTmp := filepath.add_suffix newFilePath (".tmp." +:+ uniqueId) in
  let fs0 := match os.MkdirAll fs (filepath.Dir newFilePathTmp) with
             | Some fs' => fs'
             | None => fs
             end in
  match os.Create fs0 newFilePathTmp with
  | None => (Err ErrCreate, s, fs0)
  | Some fs1 =>
      let '(data, rerr) := io.Copy r in
      match (if is_Some_b rerr then None else os.Write fs1 newFilePathTmp data) with
      | None => (Err ErrIO, s, os.Remove fs1 newFilePathTmp)
      | Some fs2 =>
          match NewArReader fs2 newFilePathTmp with
          | None => (Err ErrIO, s, os.Remove fs2 newFilePathTmp)
          | Some arReader =>
              let '(p, s1) := alloc s arReader in
              match os.Rename fs2 newFilePathTmp newFilePath with
              | None => (Err ErrRename, close s1 p, os.Remove fs2 newFilePathTmp)
              | Some fs3 => (Ok tt, set s1 keyspace p, fs3)
              end
          end
      end
  end.

Definition Get (s : ArLocalStore) (keyspace : string) : option nat :=
  readers s !! keyspace.

(** The finalizer that [set] registers closes a reader once nothing refers
    to it any more: neither the store's map nor a consumer that got the
    pointer from [Get]. [held] are the pointers consumers hold. *)
Definition installed (s : ArLocalStore) (p : nat) : bool :=
  bool_decide (p ∈ (map_to_list (readers s)).*2).

Definition finalize (held : gset nat) (s : ArLocalStore) (p : nat) : ArLocalStore :=
  if installed s p || bool_decide (p ∈ held) then s else close s p.

(** The calls made on a store, and the garbage collector running a
    finalizer. *)
Inductive op : Type :=
| OpLoadLocal (keyspace : string)
| OpPut (keyspace : string) (r : io.Reader) (uniqueId : string)
| OpGet (keyspace : string)
| OpFinalize (p : nat).

Definition step (held : gset nat) (st : ArLocalStore * os.FS) (o : op)
    : ArLocalStore * os.FS :=
  let '(s, fs) := st in
  match o with
  | OpLoadLocal k => ((LoadLocal s k fs).2, fs)
  | OpPut k r uniqueId => let '(_, s', fs') := Put s k r uniqueId fs in (s', fs')
  | OpGet k => (s, fs)
  | OpFinalize p => (finalize held s p, fs)
  end.

Definition run (held : gset nat) (st : ArLocalStore * os.FS) (ops : list op)
    : ArLocalStore * os.FS :=
  fold_left (step held) ops st.

End WithArchiveFormat.

End ArLocalStore.

(** What [bucket.NewReader(ctx, key, nil)] returns. *)
Inductive remote : Type :=
| NotFound
| Unavailable
| Object (r : io.Reader).

(** [bucket.Upload(ctx, key, body, ...)] when it succeeds: the object under
    [key] is replaced. *)
Definition Upload (b : string -> remote) (key : string) (body : list byte)
    : string -> remote :=
  fun k => if String.eqb k key then Object (io.of_bytes body) else b k.

(** *** ArStore ([backends/blob/ar.go])

    The store connects the local bundle store with the bucket. [lastSyncAt]
    holds, for a keyspace, the reading of the clock at its last sync, in
    nanoseconds. *)

Record ArStore : Type := mkArStore {
  local : ArLocalStore;
  lastSyncAt : gmap string Z
}.

Definition ArStoreMinSyncInterval : Z := 5 * 10 ^ 9. (* 5 * time.Second *)

Module ArStore.

Definition GetArchive (s : ArLocalStore) (keyspace : string) : option ArReader :=
  p ← ArLocalStore.Get s keyspace; heap s !! p.

Definition GetBlob (s : ArLocalStore) (keyspace : string) (actionID : list byte)
    : option ArEntry :=
  match GetArchive s keyspace with
  | None => None
  | Some r =>
      match ArReader.Get r (CacheEntityNameInArchive actionID) with
      | None => None
      | Some entry =>
          if negb (bytes_Equal (cache.ActionID (meta entry)) actionID)
          then None (* corrupted BlobArchive entry *)
          else Some entry
      end
  end.

Section WithArchiveFormat.

Variable parse : list byte -> option (gmap string ArEntry).

(** [SyncFromRemote]: [now] is the clock when the call starts, [done] the
    clock once the bundle is installed. *)
Definition SyncFromRemote (bucket : string -> remote) (s : ArStore) (keyspace : string)
    (now done : Z) (uniqueId : string) (fs : os.FS) : result unit * ArStore * os.FS :=
  (* Skip syncing this keyspace if it has been synced recently. *)
  let shouldSkipSync :=
    match lastSyncAt s !! keyspace with
    | Some lastSync => now - lastSync <? ArStoreMinSyncInterval
    | None => false
    end in
  if shouldSkipSync then (Ok tt, s, fs)
  else
    match bucket (ArchiveKey keyspace) with
    | NotFound => (Ok tt, s, fs)
    | Unavailable => (Err ErrIO, s, fs)
    | Object blobReader =>
        match ArLocalStore.Put parse (local s) keyspace blobReader uniqueId fs with
        | (Ok _, l', fs') =>
            (Ok tt, mkArStore l' (<[keyspace := done]> (lastSyncAt s)), fs')
        | (r, l', fs') => (r, mkArStore l' (lastSyncAt s), fs')
        end
    end.

(** [IngestNewArchive]: the file is first ingested locally, to make sure it
    is fine, and then uploaded. [uploadFails] tells whether the bucket
    refuses the upload. Returns the store, the bucket and the disk. *)
Definition IngestNewArchive (bucket : string -> remote) (uploadFails : bool)
    (s : ArStore) (keyspace : string) (localFilePath : filepath.path)
    (done : Z) (uniqueId : string) (fs : os.FS)
    : result unit * ArStore * (string -> remote) * os.FS :=
  match os.Open fs localFilePath with
  | inr _ => (Err ErrIO, s, bucket, fs)
  | inl file =>
      let r := match file with
               | os.File content => io.of_bytes content
               | os.Directory => io.mkReader [] true (* reading a directory fails *)
               end in
      match ArLocalStore.Put parse (local s) keyspace r uniqueId fs with
      | (Ok _, l', fs') =>
          match os.Open fs' localFilePath with
          | inl (os.File content2) =>
              if uploadFails then (Err ErrIO, mkArStore l' (lastSyncAt s), bucket, fs')
              else (Ok tt, mkArStore l' (<[keyspace := done]> (lastSyncAt s)),
                    Upload bucket (ArchiveKey keyspace) content2, fs')
          | _ => (Err ErrIO, mkArStore l' (lastSyncAt s), bucket, fs')
          end
      | (r', l', fs') => (r', mkArStore l' (lastSyncAt s), bucket, fs')
      end
  end.

End WithArchiveFormat.

End ArStore.

(** *** BlobBackend: get and Get *)

Record BlobBackend : Type := mkBlobBackend {
  closed : bool;
  bucket : string -> remote;
  diskStore : local.LocalBackend;
  archiveStore : ArLocalStore
}.

Module BlobBackend.

(** The hit built from an EntryMeta and the path of its body. *)
Definition hit (m : cache.EntryMeta) (diskPath : filepath.path) : protocol.GetResponse :=
  protocol.mkGetResponse false (cache.OutputID m) (cache.Size m) (Some (cache.Time m))
    diskPath.

(** The put of an entry found in the archive or downloaded. *)
Definition putOpts (m : cache.EntryMeta) (body : io.Reader) (isInCompaction : bool)
    : cache.PutOpts :=
  cache.mkPutOpts
    (protocol.mkPutRequest (cache.ActionID m) (cache.OutputID m) (cache.Size m))
    body (Some (cache.Time m)) isInCompaction.

(** The four tiers of [get], in the order the function tries them.
    [uniqueId] and [now] are what the local put draws from [gonanoid] and
    the clock. The statistics counters are not modelled. *)

(** Fast path: We can serve from archive store in-memory directly. *)
Definition fastPath (store : BlobBackend) (e : ArEntry) : M protocol.GetResponse :=
  let! outputPath := local.EnsureEmptyOutputFile (diskStore store) in
  ret (hit (meta e) outputPath).

(** The entry is in the archive store: its body goes through a local put. *)
Definition fromArchive (store : BlobBackend) (opts : cache.GetOpts)
    (uniqueId : string) (now : time.Time) (e : ArEntry) : M protocol.GetResponse :=
  let! zipFileHandle := lift (Open e) in
  let! putResp :=
    wrapM ErrPutArEntry
      (local.Put (diskStore store)
         (putOpts (meta e) zipFileHandle (cache.get_IsInCompaction opts))
         uniqueId now) in
  ret (hit (meta e) (protocol.put_DiskPath putResp)).

(** The header part of the remote object is the entry metadata, the
    remaining part is the cache data. *)
Definition download (store : BlobBackend) (opts : cache.GetOpts)
    (uniqueId : string) (now : time.Time) : M protocol.GetResponse :=
  let actionID := protocol.get_ActionID (cache.get_Req opts) in
  let! key := lift (CacheEntityKey actionID) in
  match bucket store key with
  | NotFound => ret protocol.miss
  | Unavailable => fail ErrIO
  | Object r =>
      let! (m, r') := lift (wrap ErrReadMeta (cache.ReadEntryMeta r)) in
      if negb (bytes_Equal (cache.ActionID m) actionID)
      then fail ErrActionIDMismatch
      else
        let! diskPutResp :=
          wrapM ErrPutDownloaded
            (local.Put (diskStore store)
               (putOpts m r' (cache.get_IsInCompaction opts))
               uniqueId now) in
        ret (hit m (protocol.put_DiskPath diskPutResp))
  end.

(** What [get] does once the fast path did not apply. *)
Definition afterFastPath (store : BlobBackend) (opts : cache.GetOpts)
    (uniqueId : string) (now : time.Time) (arEntry : option ArEntry)
    : M protocol.GetResponse :=
  let! diskResp := local.Get (diskStore store) opts in
  if negb (protocol.Miss diskResp) then ret diskResp
  else
    (* Before looking up in blob store, let's check if we have the entry in
       archive store. *)
    match arEntry with
    | Some e => fromArchive store opts uniqueId now e
    | None => download store opts uniqueId now
    end.

Definition get (store : BlobBackend) (opts : cache.GetOpts)
    (uniqueId : string) (now : time.Time) : M protocol.GetResponse :=
  let actionID := protocol.get_ActionID (cache.get_Req opts) in
  if (length actionID =? 0)%nat then fail ErrActionIDUnspecified
  else
    let! keyspace := lift (CacheEntityKeyspace actionID) in
    let arEntry := ArStore.GetBlob (archiveStore store) keyspace actionID in
    match arEntry with
    | Some e =>
        if cache.Size (meta e) =? 0 then fastPath store e
        else afterFastPath store opts uniqueId now arEntry
    | None => afterFastPath store opts uniqueId now arEntry
    end.

Definition Get (store : BlobBackend) (opts : cache.GetOpts)
    (uniqueId : string) (now : time.Time) : M protocol.GetResponse :=
  if closed store then fail ErrClosedStore
  else fun fs =>
    let actionID := protocol.get_ActionID (cache.get_Req opts) in
    match util.Do actionID (get store opts uniqueId now) fs with
    | (Err _, fs') =>
        (let! _ := logArgs [CacheEntityKey actionID] in
         ret protocol.miss) fs'
    | other => other
    end.

(** [Put]: first make the file available locally; the upload is then left
    to [doBgUpload], called in the background with [opts] and the path the
    local put returned. *)
Definition Put (store : BlobBackend) (opts : cache.PutOpts)
    (uniqueId : string) (now : time.Time) : M protocol.PutResponse :=
  if closed store then fail ErrClosedStore
  else
    let! diskPutResp :=
      wrapM ErrPutDownloaded (local.Put (diskStore store) opts uniqueId now) in
    ret (protocol.mkPutResponse (protocol.put_DiskPath diskPutResp)).

(** [doBgUpload]: the object name and the bytes handed to [bucket.Upload],
    or [None] when the payload cannot be read and nothing is uploaded. The
    real upload file first contains the metadata header, and then the payload
    data. [now] is the value of [time.Now()] in this function. *)
Definition doBgUpload (opts : cache.PutOpts) (payloadPathOnDisk : filepath.path)
    (now : time.Time) (fs : os.FS) : result (option (string * list byte)) :=
  let req := cache.put_Req opts in
  let* objName := CacheEntityKey (protocol.put_ActionID req) in
  let meta :=
    cache.mkEntryMeta (protocol.put_ActionID req) (protocol.put_OutputID req)
      (protocol.BodySize req)
      (match cache.OverrideTime opts with
       | Some t => t
       | None => now
       end) in
  let metadataBuf := cache.WriteTo meta in
  if 0 <? protocol.BodySize req then
    match os.Open fs payloadPathOnDisk with
    | inl (os.File payload) => Ok (Some (objName, metadataBuf ++ payload))
    | inl os.Directory => Ok None (* reading the payload fails, and so does the upload *)
    | inr _ => Ok None            (* "Failed to open file for upload" *)
    end
  else Ok (Some (objName, metadataBuf)).

End BlobBackend.

(** *** CompactionJob: finding the blobs to compact, and the driver *)

Definition CompactionSmallBlobSize : Z := 1 * 1024 * 1024. (* 1 MiB *)

(** Minimum number of new small blob files to trigger compaction *)
Definition CompactionAtLeastAddFiles : Z := 10.

Record compactItem : Type := mkCompactItem {
  ActionID : list byte;
  ObjectKey : string;
  ObjectSize : Z (* Size in the bucket, always includes the EntryMeta header *)
}.

(** What [iter.Next] yields. *)
Record ListObject : Type := mkListObject {
  Key : string;
  Size : Z;
  IsDir : bool
}.

(** The objects the iterator yields, and how it ends: with [io.EOF]
    ([listFails = false]) or with an error. *)
Record listing : Type := mkListing {
  objects : list ListObject;
  listFails : bool
}.

Record CompactionJob : Type := mkCompactionJob {
  Keyspace : string;
  isSkipped : bool;
  plannedList : list compactItem;
  nNewlyAddedFiles : Z;
  nNewlyAddedBytes : Z;
  nNewlyRemovedFiles : Z
}.

Module CompactionJob.

Definition NewCompactionJob (keyspace : string) : CompactionJob :=
  mkCompactionJob keyspace false [] 0 0 0.

(** The listing loop of step 1: directories, big objects and keys that do
    not decode are skipped. Returns the planned list and its total size. *)
Fixpoint scan (objs : list ListObject) (planned : list compactItem) (total : Z)
    : result (list compactItem * Z) :=
  match objs with
  | [] => Ok (planned, total)
  | obj :: rest =>
      if IsDir obj then scan rest planned total
      else if CompactionSmallBlobSize <=? Size obj then scan rest planned total
      else
        match DecodeCacheEntityKey (Key obj) with
        | Err _ => scan rest planned total (* Skip object which does not seem to be a cache entry *)
        | Panic => Panic
        | Ok actionID =>
            scan rest (planned ++ [mkCompactItem actionID (Key obj) (Size obj)])
              (total + Size obj)
        end
  end.

(** [nNewlyAddedFiles] and [nNewlyAddedBytes] against an existing archive. *)
Definition isAdded (ar : ArReader) (item : compactItem) : bool :=
  negb (is_Some_b (ArReader.Get ar (CacheEntityNameInArchive (ActionID item)))).

Definition countAdded (ar : ArReader) (planned : list compactItem) : Z :=
  Z.of_nat (length (filter (fun item => isAdded ar item = true) planned)).

Definition addedBytes (ar : ArReader) (planned : list compactItem) : Z :=
  fold_left (fun acc item => acc + ObjectSize item)
    (filter (fun item => isAdded ar item = true) planned) 0.

(** How many files of the archive are not in the listing any more. *)
Definition countRemoved (ar : ArReader) (planned : list compactItem) : Z :=
  let finalArchiveNames : gset string :=
    list_to_set (map (fun item => CacheEntityNameInArchive (ActionID item)) planned) in
  Z.of_nat (length (filter (fun name => name ∉ finalArchiveNames) (ArReader.List ar))).

Definition step1FindBlobsToCompact (c : CompactionJob) (l : listing)
    (ar : option ArReader) : result bool * CompactionJob :=
  match scan (objects l) [] 0 with
  | Panic => (Panic, c)
  | Err e => (Err e, c)
  | Ok (planned, plannedTotalSize) =>
      let c1 := mkCompactionJob (Keyspace c) (isSkipped c) planned
                  (nNewlyAddedFiles c) (nNewlyAddedBytes c) (nNewlyRemovedFiles c) in
      if listFails l then (Err ErrList, c1)
      else if (length planned =? 0)%nat then (Ok false, c1)
      else
        let c2 :=
          match ar with
          | Some r =>
              mkCompactionJob (Keyspace c) (isSkipped c) planned
                (countAdded r planned)
                (nNewlyAddedBytes c + addedBytes r planned)
                (nNewlyRemovedFiles c + countRemoved r planned)
          | None =>
              mkCompactionJob (Keyspace c) (isSkipped c) planned
                (Z.of_nat (length planned)) plannedTotalSize 0
          end in
        if nNewlyAddedFiles c2 <? CompactionAtLeastAddFiles then (Ok false, c2)
        else (Ok true, c2)
  end.

Section Work.

(** The world the job works in: the bundle store, the local cache and the
    bucket. What the other steps do to it is left to them:
    - [SyncFromRemote] refreshes the bundle of the keyspace, best effort;
    - [List] is the listing of the bucket under the keyspace's prefix;
    - [GetArchive] is the current bundle reader of the keyspace, if any;
    - [step2DownloadAndFill] builds the new bundle file from the planned list;
    - [step3IngestNewArFile] installs it locally and uploads it. *)
Context {W : Type}.
Variable SyncFromRemote : string -> W -> W.
Variable List : string -> W -> listing.
Variable GetArchive : string -> W -> option ArReader.
Variable step2DownloadAndFill : list compactItem -> W -> result unit * W.
Variable step3IngestNewArFile : string -> W -> result unit * W.

Definition setSkipped (c : CompactionJob) : CompactionJob :=
  mkCompactionJob (Keyspace c) true (plannedList c)
    (nNewlyAddedFiles c) (nNewlyAddedBytes c) (nNewlyRemovedFiles c).

Definition work (c : CompactionJob) (w : W) : result unit * CompactionJob * W :=
  let w1 := SyncFromRemote (Keyspace c) w in
  match step1FindBlobsToCompact c (List (ArchiveListPrefixKey (Keyspace c)) w1)
          (GetArchive (Keyspace c) w1) with
  | (Panic, c1) => (Panic, c1, w1)
  | (Err e, c1) => (Err (ErrFindBlobs e), c1, w1)
  | (Ok false, c1) => (Ok tt, setSkipped c1, w1)
  | (Ok true, c1) =>
      match step2DownloadAndFill (plannedList c1) w1 with
      | (Panic, w2) => (Panic, c1, w2)
      | (Err e, w2) => (Err (ErrStep2 e), c1, w2)
      | (Ok _, w2) =>
          match step3IngestNewArFile (Keyspace c1) w2 with
          | (Panic, w3) => (Panic, c1, w3)
          | (Err e, w3) => (Err (ErrStep3 e), c1, w3)
          | (Ok _, w3) => (Ok tt, c1, w3)
          end
      end
  end.

End Work.

End CompactionJob.

End blob.

(** ** package util: LineChunkedReader ([internal/util/linereader.go])

    The buffered reader is seen through [ReadLine]: [pending] are the reads
    it still returns without error, and [final] the error every call
    returns after them ([io.EOF] at the end of the input). A read is a line
    or, flagged [isPrefix], a chunk of a line that does not fit the buffer
    of 4096 bytes. An empty line is an empty read. So is the end of a line
    whose length is a positive multiple of the size of the buffer: the line
    comes as full chunks, all flagged [isPrefix], and one empty read. *)

Record LineChunkedReader : Type := mkLineChunkedReader {
  pending : list (list byte * bool);
  final : error
}.

Module LineChunkedReader.

Definition ReadLine (r : LineChunkedReader)
    : (list byte * bool * option error) * LineChunkedReader :=
  match pending r with
  | [] => (([], false, Some (final r)), r)
  | (line, isPrefix) :: rest => ((line, isPrefix, None), mkLineChunkedReader rest (final r))
  end.

(** The loop of [NextValidLine], with [remaining = 10 - attempts] calls of
    [ReadLine] left before it gives up. *)
Fixpoint nextValidLine (remaining : nat) (r : LineChunkedReader)
    : (list byte * bool * option error) * LineChunkedReader :=
  match remaining with
  | O => (([], false, Some ErrNoProgress), r)
  | S remaining' =>
      let '((line, isPrefix, err), r') := ReadLine r in
      if (length line =? 0)%nat && negb (is_Some_b err)
      then nextValidLine remaining' r'
      else ((line, isPrefix, err), r')
  end.

Definition NextValidLine (r : LineChunkedReader)
    : (list byte * bool * option error) * LineChunkedReader :=
  nextValidLine 10 r.

End LineChunkedReader.

(** ** package cacheprog: the read loop ([internal/cacheprog/cacheprog.go]) *)

Module cacheprog.

(** Modelled from the spec: the commands and the request record of
    [internal/protocol], whose declarations are not among the sources. A
    request carries an [ID], a [Command] among "get", "put" and "close", the
    [ActionID] (get and put), the [OutputID] and the [BodySize] (put). *)
Inductive Cmd : Type :=
| CmdPut
| CmdGet
| CmdClose
| CmdOther (name : string).

Record CacheProgRequest : Type := mkCacheProgRequest {
  ID : Z;
  Command : Cmd;
  ActionID : list byte;
  OutputID : list byte;
  BodySize : Z
}.

(** What the loop hands to [runAsync], in the order it does. A put handler
    reads its body from a pipe: [body] is what the loop wrote into it, and
    [pipeError] tells whether the loop closed it with an error. *)
Inductive dispatch : Type :=
| DispatchPut (req : CacheProgRequest) (body : list byte) (pipeError : bool)
| DispatchGet (req : CacheProgRequest)
| DispatchUnknown (req : CacheProgRequest).

(** How [readLoop] ends. [OutOfFuel] is an artefact of the recursion on
    fuel; [readLoop] never ends with it. *)
Inductive ending : Type :=
| Returned (err : option error)
| OutOfFuel.

Definition isEOF (e : error) : bool :=
  match e with
  | ErrEOF => true
  | _ => false
  end.

Section ReadLoop.

(** [json.Unmarshal(line, &req)] *)
Variable decode : list byte -> option CacheProgRequest.

(** The body loop of a put: chunks are written to the pipe until one is not
    a prefix. Returns the bytes written, the read error if any, and the
    reader. *)
Fixpoint readBody (fuel : nat) (r : LineChunkedReader) (written : list byte)
    : option (list byte * option error * LineChunkedReader) :=
  match fuel with
  | O => None
  | S fuel' =>
      let '((lineChunk, isPrefix, err), r') := LineChunkedReader.NextValidLine r in
      match err with
      | Some e => Some (written, Some e, r')
      | None =>
          if negb isPrefix then Some (written ++ lineChunk, None, r')
          else readBody fuel' r' (written ++ lineChunk)
      end
  end.

(** [readLoop], by recursion on fuel. The lifecycle is not cancelled while
    the loop runs (no write of a response fails), so the [select] at the head
    of the loop falls through. *)
Fixpoint readLoop_fuel (fuel : nat) (r : LineChunkedReader) : list dispatch * ending :=
  match fuel with
  | O => ([], OutOfFuel)
  | S fuel' =>
      let '((line, isPrefix, err), r') := LineChunkedReader.NextValidLine r in
      match err with
      | Some e =>
          if isEOF e then ([], Returned None)
          else ([], Returned (Some (ErrReadStdin e)))
      | None =>
          if isPrefix then ([], Returned (Some ErrLargeLine))
          else
            match decode line with
            | None => ([], Returned (Some ErrDecodeRequest))
            | Some req =>
                match Command req with
                | CmdClose => ([], Returned None)
                | CmdPut =>
                    if BodySize req =? 0 then
                      let '(ds, e) := readLoop_fuel fuel' r' in
                      (DispatchPut req [] false :: ds, e)
                    else
                      match readBody fuel' r' [] with
                      | None => ([], OutOfFuel)
                      | Some (body, Some e, _) =>
                          ([DispatchPut req body true],
                           Returned (Some (ErrReadPutBody e)))
                      | Some (body, None, r'') =>
                          let '(ds, e) := readLoop_fuel fuel' r'' in
                          (DispatchPut req body false :: ds, e)
                      end
                | CmdGet =>
                    let '(ds, e) := readLoop_fuel fuel' r' in
                    (DispatchGet req :: ds, e)
                | CmdOther _ =>
                    let '(ds, e) := readLoop_fuel fuel' r' in
                    (DispatchUnknown req :: ds, e)
                end
            end
      end
  end.

(** Every iteration consumes a line, so one unit of fuel per pending line,
    and one for the end of the input, is enough. *)
Definition readLoop (r : LineChunkedReader) : list dispatch * ending :=
  readLoop_fuel (S (length (pending r))) r.

End ReadLoop.

End cacheprog.

(** ** package server: the reader of a put body ([quoteCloseReader])

    [quoteCloseReader] emits EOF when it meets a quote and swallows the
    quote. The wrapped reader is seen through its [Read] calls: [wrapped]
    holds what they return one after the other, the bytes read and the
    error, and [wrappedFinal] is the error of every call after them. *)

Module server.

Record quoteCloseReader : Type := mkQuoteCloseReader {
  wrapped : list (list byte * option error);
  wrappedFinal : error;
  closed : bool
}.

(** The first [i] at which [p[i]] is the quote character (0x22). *)
Fixpoint indexQuote (p : list byte) : option nat :=
  match p with
  | [] => None
  | b :: p' => if Byte.eqb b x22 then Some O else option_map S (indexQuote p')
  end.

Definition Read (r : quoteCloseReader)
    : (list byte * option error) * quoteCloseReader :=
  if closed r then (([], Some ErrEOF), r)
  else
    match wrapped r with
    | [] => (([], Some (wrappedFinal r)), r)
    | (p, err) :: rest =>
        match indexQuote p with
        | Some i => ((firstn i p, err), mkQuoteCloseReader rest (wrappedFinal r) true)
        | None => ((p, err), mkQuoteCloseReader rest (wrappedFinal r) false)
        end
    end.

End server.

(** ** package stats: persisting at a limited rate ([internal/stats/persist.go])

    Of the metrics only the fields that drive the flushing are kept.
    [lastPersistAt] is [None] for the zero [time.Time], and the clock counts
    nanoseconds. [pendingPersist] is the timer set by [time.AfterFunc], with
    the time it fires at. *)

Module stats.

Definition MinPersistInterval : Z := 10 ^ 9. (* 1 * time.Second *)

Record Metrics : Type := mkMetrics {
  diskPath : string;           (* If set, stats are ondisk. *)
  lastPersistAt : option Z;
  pendingPersist : option Z
}.

(** [time.Since(m.lastPersistAt)] at the clock [now]: the difference
    saturates at the largest duration for the zero time. *)
Definition Since (lastPersistAt : option Z) (now : Z) : Z :=
  match lastPersistAt with
  | Some t => now - t
  | None => 2 ^ 63 - 1
  end.

(** [Persist]: [now] is the clock at [time.Since] and [now'] the clock at
    [time.Now()]. Returns the metrics and whether [ForcePersist] ran. *)
Definition Persist (m : Metrics) (now now' : Z) : Metrics * bool :=
  if String.eqb (diskPath m) EmptyString then (m, false)
  else
    let elapsed := Since (lastPersistAt m) now in
    if elapsed <? MinPersistInterval then
      match pendingPersist m with
      | None =>
          let after := MinPersistInterval - elapsed + 50 * 10 ^ 6 in
          (mkMetrics (diskPath m) (lastPersistAt m) (Some (now + after)), false)
      | Some _ => (m, false)
      end
    else
      (* Here: Elapsed >= MinPersistInterval, so we can proceed with saving. *)
      (mkMetrics (diskPath m) (Some now') None, true).

End stats.

(* ===================================================================== *)
(** * Specification vocabulary

    The predicates and helper values the theorems of Part II are stated
    with. *)
(* ===================================================================== *)

(** What reading back yields on the time field when the write side stored
    [time.UnixNano t]. *)
Definition reread_time (t : time.Time) : time.Time :=
  if time.UnixNano t =? time.UnixNano time.zero
  then time.zero
  else time.Unix 0 (time.UnixNano t).

(** The times that survive the codec: the zero value, and every instant
    that [UnixNano] represents without wrapping and whose nanosecond count is
    not the one the zero value is stored as. *)
Definition time_round_trips (t : time.Time) : Prop :=
  t = time.zero \/
  (time.wf t /\
   is_int64 (time.unixSec t * 10 ^ 9 + time.nsec t) /\
   time.unixSec t * 10 ^ 9 + time.nsec t <> time.UnixNano time.zero).

(** The instant 1754-08-30T22:43:41.128654848Z, whose nanosecond count is
    the one [time.Time{}.UnixNano()] wraps to. *)
Definition sentinel_twin : time.Time := time.mkTime (-6795364579) 128654848.

(** The EntryMeta that [put] writes. *)
Definition put_meta (opts : cache.PutOpts) (now : time.Time) : cache.EntryMeta :=
  let req := cache.put_Req opts in
  cache.mkEntryMeta (protocol.put_ActionID req) (protocol.put_OutputID req)
    (protocol.BodySize req)
    (match cache.OverrideTime opts with
     | Some t => t
     | None => now
     end).

(** [addedCount]: the number of listed objects that are not already present
    in the bundle, all of them when the bundle is absent. An object is
    present when the bundle has an entry under the hex form of its
    ActionID. *)
Fixpoint addedCount (ar : option blob.ArReader) (planned : list blob.compactItem) : Z :=
  match planned with
  | [] => 0
  | item :: rest =>
      match ar with
      | Some r =>
          match blob.files r !! hex.EncodeToString (blob.ActionID item) with
          | Some _ => addedCount ar rest
          | None => 1 + addedCount ar rest
          end
      | None => 1 + addedCount ar rest
      end
  end.

(** Installed readers are allocated and open, and the heap lies below the
    next free pointer. *)
Definition store_wf (s : blob.ArLocalStore) : Prop :=
  (forall k p, blob.readers s !! k = Some p ->
     exists r, blob.heap s !! p = Some r /\ blob.z_closed r = false)
  /\ (forall p, is_Some (blob.heap s !! p) -> (p < blob.next s)%nat).

(** One step keeps a reader [p] that is allocated and held as it is. *)
Definition keeps (p : nat) (s s' : blob.ArLocalStore) : Prop :=
  forall r, blob.heap s !! p = Some r -> blob.heap s' !! p = Some r.

(** [k] empty lines, as [ReadLine] returns them: [k] empty reads. *)
Definition emptyLines (k : nat) : list (list byte * bool) := repeat ([], false) k.

(** No empty read at the end of [pre], none at the start of [rest]: the
    empty reads between the two are a whole run. *)
Definition ends_nonempty (pre : list (list byte * bool)) : Prop :=
  forall pre0 b, pre <> pre0 ++ [([], b)].

Definition starts_nonempty (rest : list (list byte * bool)) : Prop :=
  forall b rest', rest <> ([], b) :: rest'.

(** Two readers that differ by a run of at most nine empty reads. *)
Definition differ_by_empty_lines (r1 r2 : LineChunkedReader) : Prop :=
  r1 = r2
  \/ exists pre k rest,
       (k <= 9)%nat /\ ends_nonempty pre /\ starts_nonempty rest
       /\ pending r1 = pre ++ emptyLines k ++ rest
       /\ pending r2 = pre ++ rest
       /\ final r1 = final r2.

(** A decoder for one-letter records: [g] is a get, [p] a put of an empty
    body, [P] a put with a body of 4096 bytes, anything else a close. *)
Definition decode_letter (line : list byte) : option cacheprog.CacheProgRequest :=
  match line with
  | [x67] => Some (cacheprog.mkCacheProgRequest 1 cacheprog.CmdGet [x01] [] 0)
  | [x70] => Some (cacheprog.mkCacheProgRequest 2 cacheprog.CmdPut [x01] [x02] 0)
  | [x50] => Some (cacheprog.mkCacheProgRequest 4 cacheprog.CmdPut [x01] [x02] 4096)
  | _ => Some (cacheprog.mkCacheProgRequest 3 cacheprog.CmdClose [] [] 0)
  end.

(** The entry [m] with body [body] is in the local cache: its action file
    holds the EntryMeta [m] (with the time of [m], not the time of the put),
    and [diskPath] is its output file, holding the body. *)
Definition materialized (disk : local.LocalBackend) (m : cache.EntryMeta)
    (body : list byte) (diskPath : filepath.path) (fs : os.FS) : Prop :=
  exists aP,
    local.actionPath disk (cache.ActionID m) = Ok aP
    /\ local.outputPath disk (cache.OutputID m) = Ok diskPath
    /\ os.nodes fs !! aP = Some (os.File (cache.WriteTo m))
    /\ os.nodes fs !! diskPath = Some (os.File body).

Section CompactionSpec.

Context {W : Type}.
Variable step2DownloadAndFill : list blob.compactItem -> W -> result unit * W.
Variable step3IngestNewArFile : string -> W -> result unit * W.

(** Building the bundle from the planned list and ingesting it. *)
Definition buildAndIngest (planned : list blob.compactItem) (keyspace : string) (w : W)
    : result unit * W :=
  match step2DownloadAndFill planned w with
  | (Ok _, w2) => let '(r3, w3) := step3IngestNewArFile keyspace w2 in (wrap ErrStep3 r3, w3)
  | (r2, w2) => (wrap ErrStep2 r2, w2)
  end.

End CompactionSpec.

Section ResolutionSpec.

(** A get of the ActionID [a0 :: A] on [store], with what the local put
    draws from [gonanoid] and the clock. *)
Variables (store : blob.BlobBackend) (opts : cache.GetOpts)
          (uniqueId : string) (now : time.Time).
Variables (a0 : byte) (A : list byte).

(** [bundleStore.getBlob(k, ActionID)] *)
Definition bundleEntry : option blob.ArEntry :=
  blob.ArStore.GetBlob (blob.archiveStore store)
    (String.substring 0 1 (hex.EncodeByte a0)) (a0 :: A).

(** The remote object key [b/XX/hex(ActionID)]. *)
Definition objectKey : string :=
  "b/" +:+ hex.EncodeByte a0 +:+ "/" +:+ hex.EncodeToString (a0 :: A).

(** The keyspace of the ActionID: the first hex digit of its first byte. *)
Definition keyspaceOf : string := String.substring 0 1 (hex.EncodeByte a0).

(** The entry the keyspace bundle holds for the ActionID: the bundle in
    service for the keyspace has an entry filed under the hex form of the
    ActionID, and the EntryMeta of that entry names the ActionID. *)
Definition heldByBundle : option blob.ArEntry :=
  match blob.readers (blob.archiveStore store) !! keyspaceOf with
  | None => None
  | Some p =>
      match blob.heap (blob.archiveStore store) !! p with
      | None => None
      | Some r =>
          match blob.files r !! hex.EncodeToString (a0 :: A) with
          | Some e =>
              if decide (cache.ActionID (blob.meta e) = a0 :: A) then Some e else None
          | None => None
          end
      end
  end.

(** The hit that answers with the entry [m] and the path of its body. *)
Definition hitWith (m : cache.EntryMeta) (diskPath : filepath.path) : protocol.GetResponse :=
  protocol.mkGetResponse false (cache.OutputID m) (cache.Size m) (Some (cache.Time m))
    diskPath.

(** The put of the entry [m] with the body [body] on the local cache, with
    the time of [m] as [OverrideTime]. *)
Definition localPutOf (m : cache.EntryMeta) (body : io.Reader) : M protocol.PutResponse :=
  local.Put (blob.diskStore store)
    (cache.mkPutOpts
       (protocol.mkPutRequest (cache.ActionID m) (cache.OutputID m) (cache.Size m))
       body (Some (cache.Time m)) (cache.get_IsInCompaction opts))
    uniqueId now.

(** Tier 1: the bundle holds the entry with an empty body. The get answers
    with a hit at the shared empty-output path, whatever the local cache
    holds. With the empty output file in place the disk is left as it is;
    otherwise the file is written first, and the get fails when it cannot
    be. No other path of the disk changes: nothing is put in the local
    cache. *)
Definition tier1 (fs : os.FS) : Prop :=
  forall e, heldByBundle = Some e -> cache.Size (blob.meta e) = 0 ->
    let p := local.emptyOutputPath (blob.diskStore store) in
    (os.Stat fs p = inl (os.File []) ->
     blob.BlobBackend.get store opts uniqueId now fs
     = (Ok (hitWith (blob.meta e) p), fs))
    /\ (os.Stat fs p <> inl (os.File []) ->
        forall fs', os.WriteFile fs p [] = Some fs' ->
          blob.BlobBackend.get store opts uniqueId now fs
          = (Ok (hitWith (blob.meta e) p), fs'))
    /\ (os.Stat fs p <> inl (os.File []) -> os.WriteFile fs p [] = None ->
        exists err, blob.BlobBackend.get store opts uniqueId now fs = (Err err, fs))
    /\ (forall r fs',
          blob.BlobBackend.get store opts uniqueId now fs = (r, fs') ->
          forall q, q <> p -> os.nodes fs' !! q = os.nodes fs !! q).

(** Tier 2: otherwise the local disk cache is asked, and its hit is the
    answer, as it is; so is its failure. *)
Definition tier2 (fs : os.FS) : Prop :=
  (forall e, heldByBundle = Some e -> cache.Size (blob.meta e) <> 0) ->
  forall r fs1,
    local.Get (blob.diskStore store) opts fs = (r, fs1) ->
    match r with
    | Ok resp =>
        protocol.Miss resp = false ->
        blob.BlobBackend.get store opts uniqueId now fs = (Ok resp, fs1)
    | Err err => blob.BlobBackend.get store opts uniqueId now fs = (Err err, fs1)
    | Panic => blob.BlobBackend.get store opts uniqueId now fs = (Panic, fs1)
    end.

(** Tier 3: otherwise, on a miss of the local cache, a non-empty entry of
    the bundle is put in the local cache with the entry's time. When the
    put succeeds the get answers with a hit at the path the put returns,
    and the entry is in the local cache; when the put fails, or the entry
    cannot be opened, the get fails. *)
Definition tier3 (fs : os.FS) : Prop :=
  forall e, heldByBundle = Some e -> cache.Size (blob.meta e) <> 0 ->
  forall r fs1,
    local.Get (blob.diskStore store) opts fs = (Ok r, fs1) ->
    protocol.Miss r = true ->
    (forall body putResp fs',
       blob.f e = Some body ->
       localPutOf (blob.meta e) body fs1 = (Ok putResp, fs') ->
       blob.BlobBackend.get store opts uniqueId now fs
       = (Ok (hitWith (blob.meta e) (protocol.put_DiskPath putResp)), fs')
       /\ (0 < cache.Size (blob.meta e) ->
           materialized (blob.diskStore store) (blob.meta e) (io.avail body)
             (protocol.put_DiskPath putResp) fs'))
    /\ (forall body err fs',
          blob.f e = Some body ->
          localPutOf (blob.meta e) body fs1 = (Err err, fs') ->
          exists err', blob.BlobBackend.get store opts uniqueId now fs = (Err err', fs'))
    /\ (forall body fs',
          blob.f e = Some body ->
          localPutOf (blob.meta e) body fs1 = (Panic, fs') ->
          blob.BlobBackend.get store opts uniqueId now fs = (Panic, fs'))
    /\ (blob.f e = None ->
        exists err, blob.BlobBackend.get store opts uniqueId now fs = (Err err, fs1)).

(** Tier 4: otherwise, on a miss of the local cache and with no entry in
    the bundle, the remote object [b/XX/hex(ActionID)] is asked for. The get
    answers with a miss when the object is not found, and fails when the
    bucket fails, when no EntryMeta can be read at the head of the object, or
    when the EntryMeta names another ActionID. Otherwise the rest of the
    object is put in the local cache with the meta's time: when the put
    succeeds the get answers with a hit at the path the put returns, and
    the entry is in the local cache; when the put fails the get fails. *)
Definition tier4 (fs : os.FS) : Prop :=
  heldByBundle = None ->
  forall r fs1,
    local.Get (blob.diskStore store) opts fs = (Ok r, fs1) ->
    protocol.Miss r = true ->
    (blob.bucket store objectKey = blob.NotFound ->
     blob.BlobBackend.get store opts uniqueId now fs = (Ok protocol.miss, fs1))
    /\ (blob.bucket store objectKey = blob.Unavailable ->
        exists err, blob.BlobBackend.get store opts uniqueId now fs = (Err err, fs1))
    /\ (forall rd, blob.bucket store objectKey = blob.Object rd ->
          (forall err, cache.ReadEntryMeta rd = Err err ->
             exists err',
               blob.BlobBackend.get store opts uniqueId now fs = (Err err', fs1))
          /\ (forall m rd',
                cache.ReadEntryMeta rd = Ok (m, rd') ->
                cache.ActionID m <> a0 :: A ->
                blob.BlobBackend.get store opts uniqueId now fs
                = (Err ErrActionIDMismatch, fs1))
          /\ (forall m rd',
                cache.ReadEntryMeta rd = Ok (m, rd') ->
                cache.ActionID m = a0 :: A ->
                (forall putResp fs',
                   localPutOf m rd' fs1 = (Ok putResp, fs') ->
                   blob.BlobBackend.get store opts uniqueId now fs
                   = (Ok (hitWith m (protocol.put_DiskPath putResp)), fs')
                   /\ (0 < cache.Size m ->
                       materialized (blob.diskStore store) m (io.avail rd')
                         (protocol.put_DiskPath putResp) fs'))
                /\ (forall err fs',
                      localPutOf m rd' fs1 = (Err err, fs') ->
                      exists err',
                        blob.BlobBackend.get store opts uniqueId now fs
                        = (Err err', fs'))
                /\ (forall fs',
                      localPutOf m rd' fs1 = (Panic, fs') ->
                      blob.BlobBackend.get store opts uniqueId now fs = (Panic, fs')))).

End ResolutionSpec.

(** ** What a call leaves on the disk

    [respects R m]: every run of [m], whatever it returns, takes a disk to
    one that is [R]-related to it. *)
Definition respects {A : Type} (R : os.FS -> os.FS -> Prop) (m : M A) : Prop :=
  forall fs r fs', m fs = (r, fs') -> R fs fs'.

(** [frame P]: the faults are the same and every path outside [P] holds
    what it held. *)
Definition frame (P : filepath.path -> Prop) (fs fs' : os.FS) : Prop :=
  os.broken fs' = os.broken fs
  /\ forall q, ~ P q -> os.nodes fs' !! q = os.nodes fs !! q.

(** [only_removes P]: the faults are the same and every path outside [P]
    holds what it held, or nothing. *)
Definition only_removes (P : filepath.path -> Prop) (fs fs' : os.FS) : Prop :=
  os.broken fs' = os.broken fs
  /\ forall q, ~ P q ->
       os.nodes fs' !! q = os.nodes fs !! q \/ os.nodes fs' !! q = None.

(** The answer of a get for the entry [m] whose body is at [diskPath]. *)
Definition hit_of (m : cache.EntryMeta) (diskPath : filepath.path) : protocol.GetResponse :=
  protocol.mkGetResponse false (cache.OutputID m) (cache.Size m)
    (Some (reread_time (cache.Time m))) diskPath.

(** The paths a put of [actionID] and [outputID] may touch: the shared
    empty output, and for the action file and the output file the shard
    directory with the directories it is in, the temporary file and the file
    itself. *)
Definition put_footprint (store : local.LocalBackend) (actionID outputID : list byte)
    (uniqueId : string) (q : filepath.path) : Prop :=
  q = local.emptyOutputPath store
  \/ exists p,
       (local.actionPath store actionID = Ok p \/ local.outputPath store outputID = Ok p)
       /\ (q `prefix_of` filepath.Dir p
           \/ q = filepath.add_suffix p (".tmp." +:+ uniqueId)
           \/ q = p).

(** The shard directory of the byte [b]. *)
Definition shardPath (store : local.LocalBackend) (b : byte) : filepath.path :=
  filepath.Join (local.dir store) [hex.EncodeByte b].

(** What a path holds after [Open] or a part of it: what it held, or a new
    directory, which is a shard or on the way to the store's directory. *)
Definition kept_or_made (store : local.LocalBackend) (fs fs' : os.FS)
    (q : filepath.path) : Prop :=
  os.nodes fs' !! q = os.nodes fs !! q
  \/ (os.nodes fs !! q = None /\ os.nodes fs' !! q = Some os.Directory
      /\ ((exists b, q = shardPath store b) \/ q `prefix_of` local.dir store)).

(** ** Uploads, bundles and planned items *)

(** The bytes of the body that a put stores: none when [BodySize] is not
    positive, whatever the reader holds. *)
Definition put_payload (opts : cache.PutOpts) : list byte :=
  if 0 <? protocol.BodySize (cache.put_Req opts) then io.avail (cache.Body opts) else [].

(** The EntryMeta that a reader gets back from the bytes of [put_meta]. *)
Definition stored_meta (opts : cache.PutOpts) (now : time.Time) : cache.EntryMeta :=
  cache.mkEntryMeta (protocol.put_ActionID (cache.put_Req opts))
    (protocol.put_OutputID (cache.put_Req opts))
    (protocol.BodySize (cache.put_Req opts))
    (reread_time (cache.Time (put_meta opts now))).

(** The file of the bundle of a keyspace, and the temporary file an
    install of it writes first. *)
Definition bundlePath (s : blob.ArLocalStore) (keyspace : string) : filepath.path :=
  blob.ArchiveFilePath (blob.workDir s) keyspace.

Definition bundleTmpPath (s : blob.ArLocalStore) (keyspace uniqueId : string) : filepath.path :=
  filepath.add_suffix (bundlePath s keyspace) (".tmp." +:+ uniqueId).

(** A planned item stands for a listed object that is no directory and is
    small, and its ActionID is the one the object's key is the key of. *)
Definition planned_for (l : blob.listing) (item : blob.compactItem) : Prop :=
  exists obj,
    In obj (blob.objects l)
    /\ blob.IsDir obj = false
    /\ blob.Size obj < blob.CompactionSmallBlobSize
    /\ blob.Key obj = blob.ObjectKey item
    /\ blob.Size obj = blob.ObjectSize item
    /\ blob.CacheEntityKey (blob.ActionID item) = Ok (blob.ObjectKey item).

(** A listed object that step 1 is to plan under [actionID]. *)
Definition plannable (obj : blob.ListObject) (actionID : list byte) : Prop :=
  blob.IsDir obj = false
  /\ blob.Size obj < blob.CompactionSmallBlobSize
  /\ blob.CacheEntityKey actionID = Ok (blob.Key obj).

(** ** Lines, requests and readers *)

(** The reads of a put body before the read that ends it: a segment
    [(k, c)] stands for [k] empty reads followed by the chunk [c], which
    [ReadLine] flags [isPrefix]. In what [ReadLine] returns, an empty read
    is an empty line, or the end of a line whose length is a positive
    multiple of the size of the buffer, 4096 bytes: such a line comes as
    full chunks, all flagged [isPrefix], and one empty read. *)
Fixpoint bodyReads (segs : list (nat * list byte)) : list (list byte * bool) :=
  match segs with
  | [] => []
  | (k, c) :: segs' => emptyLines k ++ (c, true) :: bodyReads segs'
  end.

(** The bytes of the chunks of [segs]. *)
Definition bodyBytes (segs : list (nat * list byte)) : list byte :=
  concat (map snd segs).

(** A request that carries no body: a get, an unknown command, or a put
    with [BodySize] zero. *)
Definition bodyless (req : cacheprog.CacheProgRequest) : Prop :=
  match cacheprog.Command req with
  | cacheprog.CmdClose => False
  | cacheprog.CmdPut => cacheprog.BodySize req = 0
  | _ => True
  end.

(** What the loop hands to [runAsync] for a bodyless request. *)
Definition dispatch_of (req : cacheprog.CacheProgRequest) : cacheprog.dispatch :=
  match cacheprog.Command req with
  | cacheprog.CmdGet => cacheprog.DispatchGet req
  | cacheprog.CmdPut => cacheprog.DispatchPut req [] false
  | _ => cacheprog.DispatchUnknown req
  end.

(** Complete lines, as [ReadLine] returns them. *)
Definition fullLines (lines : list (list byte)) : list (list byte * bool) :=
  map (fun l => (l, false)) lines.

(** The bytes before the first quote character. *)
Fixpoint before_quote (bs : list byte) : list byte :=
  match bs with
  | [] => []
  | b :: bs' => if Byte.eqb b x22 then [] else b :: before_quote bs'
  end.

(** What [k] calls of [Read] deliver, one after the other, and the reader
    they leave. *)
Fixpoint reads (k : nat) (r : server.quoteCloseReader) : list byte * server.quoteCloseReader :=
  match k with
  | O => ([], r)
  | S k' =>
      let '((data, _), r1) := server.Read r in
      let '(more, r2) := reads k' r1 in
      (data ++ more, r2)
  end.

(** A pending timer fires no sooner than one interval after the last save. *)
Definition timer_after_interval (m : stats.Metrics) : Prop :=
  forall t, stats.pendingPersist m = Some t ->
    exists l, stats.lastPersistAt m = Some l /\ l + stats.MinPersistInterval <= t.

(* ===================================================================== *)
(** * Part II: lemmas and theorems                                        *)
(* ===================================================================== *)

(** ** Little-endian words *)

Lemma Z_of_byte_range (b : byte) : 0 <= Z_of_byte b < 256.
Proof.
  unfold Z_of_byte. pose proof (Byte.to_N_bounded b) as H. lia.
Qed.

Lemma Z_of_byte_of_Z (z : Z) : Z_of_byte (byte_of_Z z) = z mod 256.
Proof.
  unfold Z_of_byte, byte_of_Z.
  assert (Hr : 0 <= z mod 256 < 256) by (apply Z.mod_pos_bound; lia).
  destruct (Byte.of_N (Z.to_N (z mod 256))) as [b|] eqn:E.
  - apply Byte.to_of_N in E. rewrite E. lia.
  - apply Byte.of_N_None_iff in E. lia.
Qed.

Lemma length_put_le (n : nat) (v : Z) : length (put_le n v) = n.
Proof.
  revert v. induction n as [|n IH]; intros v; simpl; [reflexivity|].
  now rewrite IH.
Qed.

Lemma get_put_le (n : nat) (v : Z) : get_le (put_le n v) = v mod 256 ^ Z.of_nat n.
Proof.
  revert v. induction n as [|n IH]; intros v.
  - simpl. now rewrite Z.mod_1_r.
  - cbn [put_le get_le]. rewrite Z_of_byte_of_Z, IH.
    rewrite Z.shiftr_div_pow2 by lia. change (2 ^ 8) with 256.
    rewrite Nat2Z.inj_succ, Z.pow_succ_r by lia.
    rewrite Z.rem_mul_r by lia. reflexivity.
Qed.

Lemma Uint32_PutUint32 (v : Z) (rest : list byte) :
  0 <= v < 2 ^ 32 -> Uint32 (PutUint32 v ++ rest) = v.
Proof.
  intros Hv. unfold Uint32, PutUint32.
  rewrite firstn_app, length_put_le, Nat.sub_diag, firstn_O, app_nil_r.
  rewrite firstn_all2 by (rewrite length_put_le; lia).
  rewrite get_put_le. change (256 ^ Z.of_nat 4) with (2 ^ 32).
  apply Z.mod_small; lia.
Qed.

Lemma Uint64_PutUint64 (v : Z) (rest : list byte) :
  0 <= v < 2 ^ 64 -> Uint64 (PutUint64 v ++ rest) = v.
Proof.
  intros Hv. unfold Uint64, PutUint64.
  rewrite firstn_app, length_put_le, Nat.sub_diag, firstn_O, app_nil_r.
  rewrite firstn_all2 by (rewrite length_put_le; lia).
  rewrite get_put_le. change (256 ^ Z.of_nat 8) with (2 ^ 64).
  apply Z.mod_small; lia.
Qed.

Lemma int64_uint64 (z : Z) : is_int64 z -> int64 (uint64 z) = z.
Proof.
  unfold is_int64, int64, uint64. intros Hz.
  rewrite Zplus_mod_idemp_l.
  rewrite Z.mod_small; lia.
Qed.

Lemma int64_range (z : Z) : is_int64 (int64 z).
Proof.
  unfold is_int64, int64.
  pose proof (Z.mod_pos_bound (z + 2 ^ 63) (2 ^ 64)). lia.
Qed.

Lemma int64_small (z : Z) : is_int64 z -> int64 z = z.
Proof.
  unfold is_int64, int64. intros Hz. rewrite Z.mod_small; lia.
Qed.

(** ** Instants *)

Lemma Unix_UnixNano (t : time.Time) :
  time.wf t ->
  is_int64 (time.unixSec t * 10 ^ 9 + time.nsec t) ->
  time.Unix 0 (time.UnixNano t) = t.
Proof.
  destruct t as [s ns]. unfold time.wf, time.UnixNano. cbn [time.unixSec time.nsec].
  intros Hns Hr. rewrite int64_small by exact Hr.
  assert (HB : 10 ^ 9 = 1000000000) by reflexivity.
  unfold time.Unix. rewrite !HB in *.
  remember (s * 1000000000 + ns) as n eqn:Hn.
  destruct ((n <? 0) || (1000000000 <=? n)) eqn:Eout.
  - pose proof (Z.quot_rem' n 1000000000) as Hqr.
    assert (Hab : Z.abs (Z.rem n 1000000000) < Z.abs 1000000000)
      by (apply Z.rem_bound_abs; lia).
    remember (Z.quot n 1000000000) as q eqn:Hq.
    remember (Z.rem n 1000000000) as r eqn:Hrem.
    replace (n - q * 1000000000) with r by lia.
    destruct (r <? 0) eqn:Er.
    + apply Z.ltb_lt in Er. f_equal; nia.
    + apply Z.ltb_ge in Er. f_equal; nia.
  - apply orb_false_iff in Eout as [H1 H2].
    apply Z.ltb_ge in H1. apply Z.leb_gt in H2.
    f_equal; nia.
Qed.

(** ** EntryMeta codec *)

Lemma length_WriteTo (em : cache.EntryMeta) :
  length (cache.WriteTo em) = cache.SerializedSize em.
Proof.
  unfold cache.WriteTo, cache.SerializedSize, PutUint32, PutUint64.
  rewrite !length_app, !length_put_le. lia.
Qed.

Lemma ReadFull_app (bs rest : list byte) (f : bool) (n : nat) :
  n = length bs ->
  io.ReadFull (io.mkReader (bs ++ rest) f) n = Ok (bs, io.mkReader rest f).
Proof.
  intros ->. unfold io.ReadFull. cbn [io.avail io.failing].
  destruct (Nat.leb_spec (length bs) (length (bs ++ rest))) as [_|Hbad];
    [|rewrite length_app in Hbad; lia].
  rewrite firstn_app, firstn_all, Nat.sub_diag, firstn_O, app_nil_r.
  rewrite skipn_app, skipn_all, Nat.sub_diag. reflexivity.
Qed.

Lemma firstn_app_exact {A : Type} (l1 l2 : list A) (n : nat) :
  n = length l1 -> firstn n (l1 ++ l2) = l1.
Proof.
  intros ->. now rewrite firstn_app, firstn_all, Nat.sub_diag, firstn_O, app_nil_r.
Qed.

Lemma skipn_app_exact {A : Type} (l1 l2 : list A) (n : nat) :
  n = length l1 -> skipn n (l1 ++ l2) = l2.
Proof.
  intros ->. now rewrite skipn_app, skipn_all, Nat.sub_diag.
Qed.

Lemma ReadEntryMeta_WriteTo (em : cache.EntryMeta) (rest : list byte) (f : bool) :
  Z.of_nat (length (cache.ActionID em)) < 2 ^ 32 ->
  Z.of_nat (length (cache.OutputID em)) < 2 ^ 32 ->
  is_int64 (cache.Size em) ->
  cache.ReadEntryMeta (io.mkReader (cache.WriteTo em ++ rest) f)
  = Ok (cache.mkEntryMeta (cache.ActionID em) (cache.OutputID em) (cache.Size em)
          (reread_time (cache.Time em)),
        io.mkReader rest f).
Proof.
  destruct em as [A O sz t]. cbn [cache.ActionID cache.OutputID cache.Size cache.Time].
  intros HA HO Hsz.
  unfold cache.ReadEntryMeta, cache.WriteTo.
  cbn [cache.ActionID cache.OutputID cache.Size cache.Time].
  set (la := PutUint32 (uint32 (Z.of_nat (length A)))).
  set (lo := PutUint32 (uint32 (Z.of_nat (length O)))).
  set (ws := PutUint64 (uint64 sz)).
  set (wt := PutUint64 (uint64 (time.UnixNano t))).
  assert (Hla : length la = 4%nat) by apply length_put_le.
  assert (Hlo : length lo = 4%nat) by apply length_put_le.
  assert (Hws : length ws = 8%nat) by apply length_put_le.
  assert (Hwt : length wt = 8%nat) by apply length_put_le.
  replace ((la ++ lo ++ A ++ O ++ ws ++ wt) ++ rest)
    with ((la ++ lo) ++ (A ++ O ++ ws ++ wt) ++ rest)
    by (now rewrite <- !app_assoc).
  rewrite ReadFull_app by (rewrite length_app; lia).
  cbn [bind].
  rewrite (firstn_app_exact la lo) by lia.
  rewrite (skipn_app_exact la lo) by lia.
  assert (E1 : Uint32 la = Z.of_nat (length A)).
  { rewrite <- (app_nil_r la). unfold la. rewrite Uint32_PutUint32; unfold uint32.
    - apply Z.mod_small; lia.
    - apply Z.mod_pos_bound; lia. }
  assert (E2 : Uint32 lo = Z.of_nat (length O)).
  { rewrite <- (app_nil_r lo). unfold lo. rewrite Uint32_PutUint32; unfold uint32.
    - apply Z.mod_small; lia.
    - apply Z.mod_pos_bound; lia. }
  rewrite E1, E2, !Nat2Z.id.
  rewrite ReadFull_app by (rewrite !length_app; lia).
  cbn [bind].
  rewrite (firstn_app_exact A) by reflexivity.
  rewrite (skipn_app_exact A) by reflexivity.
  rewrite (firstn_app_exact O) by reflexivity.
  rewrite (skipn_app_exact O) by reflexivity.
  rewrite (firstn_app_exact ws wt) by lia.
  rewrite (skipn_app_exact ws wt) by lia.
  rewrite (firstn_all2 (n := 8) wt) by lia.
  rewrite <- (app_nil_r ws), <- (app_nil_r wt). unfold ws, wt.
  rewrite !Uint64_PutUint64 by (unfold uint64; apply Z.mod_pos_bound; lia).
  rewrite (int64_uint64 sz) by exact Hsz.
  rewrite (int64_uint64 (time.UnixNano t)) by apply int64_range.
  reflexivity.
Qed.

Lemma reread_time_id (t : time.Time) : time_round_trips t -> reread_time t = t.
Proof.
  unfold reread_time. intros [->|(Hwf & Hr & Hne)].
  - reflexivity.
  - destruct (Z.eqb_spec (time.UnixNano t) (time.UnixNano time.zero)) as [E|_].
    + exfalso. apply Hne. rewrite <- E. unfold time.UnixNano.
      now rewrite int64_small.
    + now apply Unix_UnixNano.
Qed.

(** C3, the claim as stated fails: an in-range instant whose nanosecond
    count equals the stored form of the zero value is read back as the zero
    value, not as itself. *)
Lemma EntryMeta_roundtrip_fails_on_sentinel_twin :
  let m := cache.mkEntryMeta [x01] [x02] 3 sentinel_twin in
  time.wf (cache.Time m) /\
  is_int64 (time.unixSec (cache.Time m) * 10 ^ 9 + time.nsec (cache.Time m)) /\
  exists m',
    cache.ReadEntryMeta (io.of_bytes (cache.WriteTo m)) = Ok (m', io.of_bytes []) /\
    cache.Time m' = time.zero /\
    cache.Time m' <> cache.Time m.
Proof.
  cbv zeta. split; [|split].
  - unfold time.wf, sentinel_twin. cbn. lia.
  - unfold is_int64, sentinel_twin. cbn. lia.
  - eexists. split; [vm_compute; reflexivity|]. split; [reflexivity|].
    cbn. unfold time.zero, sentinel_twin. intros H. inversion H.
Qed.

(** C3 (amended): for every EntryMeta whose ID lengths fit the u32 length
    fields, whose Size is an int64 and whose Time is the zero value or an
    instant that UnixNano represents without wrapping and that differs from
    the stored form of the zero value, reading back what WriteTo wrote yields
    the same ActionID, OutputID, Size and Time, leaves the rest of the stream
    untouched, and WriteTo writes exactly SerializedSize bytes. *)
Theorem EntryMeta_roundtrip (m : cache.EntryMeta) (rest : list byte) (f : bool) :
  Z.of_nat (length (cache.ActionID m)) < 2 ^ 32 ->
  Z.of_nat (length (cache.OutputID m)) < 2 ^ 32 ->
  is_int64 (cache.Size m) ->
  time_round_trips (cache.Time m) ->
  cache.ReadEntryMeta (io.mkReader (cache.WriteTo m ++ rest) f)
    = Ok (m, io.mkReader rest f)
  /\ length (cache.WriteTo m) = cache.SerializedSize m.
Proof.
  intros HA HO Hsz Ht. split; [|apply length_WriteTo].
  rewrite ReadEntryMeta_WriteTo by assumption.
  rewrite reread_time_id by assumption.
  now destruct m.
Qed.

Lemma EntryMeta_roundtrip_witness :
  let m := cache.mkEntryMeta [x01; x02] [x03] 5 (time.Unix 1640995200 123456789) in
  let z := cache.mkEntryMeta [] [] 0 time.zero in
  (cache.ReadEntryMeta (io.mkReader (cache.WriteTo m ++ [x68; x69]) false)
     = Ok (m, io.mkReader [x68; x69] false)
   /\ length (cache.WriteTo m) = cache.SerializedSize m)
  /\ (cache.ReadEntryMeta (io.mkReader (cache.WriteTo z ++ []) false)
        = Ok (z, io.mkReader [] false)
      /\ length (cache.WriteTo z) = cache.SerializedSize z).
Proof.
  cbv zeta. split.
  - apply EntryMeta_roundtrip.
    + cbn. lia.
    + cbn. lia.
    + unfold is_int64. cbn. lia.
    + right. unfold time.wf, is_int64. vm_compute. repeat split; congruence.
  - apply EntryMeta_roundtrip.
    + cbn. lia.
    + cbn. lia.
    + unfold is_int64. cbn. lia.
    + left. reflexivity.
Defined.

(** ** Strings and paths *)

Lemma string_app_cons (c : ascii) (s t : string) :
  String c s +:+ t = String c (s +:+ t).
Proof. reflexivity. Qed.

Lemma string_app_nil (t : string) : EmptyString +:+ t = t.
Proof. reflexivity. Qed.

Lemma string_app_assoc (s1 s2 s3 : string) : (s1 +:+ s2) +:+ s3 = s1 +:+ (s2 +:+ s3).
Proof.
  induction s1 as [|c s1 IH]; [reflexivity|].
  now rewrite !string_app_cons, IH.
Qed.

Lemma string_app_length (s1 s2 : string) :
  String.length (s1 +:+ s2) = (String.length s1 + String.length s2)%nat.
Proof.
  induction s1 as [|c s1 IH]; [reflexivity|].
  rewrite string_app_cons. cbn [String.length]. now rewrite IH.
Qed.

Lemma digit_not_dot (n : N) : hex.digit n <> "."%char.
Proof.
  unfold hex.digit. destruct n as [|p]; [discriminate|].
  do 5 (try destruct p as [p|p|]; try discriminate).
Qed.

(** Hex digits never contain a dot, so the first dot of [hex ++ ".ext"]
    ends the hex stem. *)
Lemma hex_stem_inj (a b : list byte) (t1 t2 : string) :
  hex.EncodeToString a +:+ String "." t1 = hex.EncodeToString b +:+ String "." t2 ->
  hex.EncodeToString a = hex.EncodeToString b /\ t1 = t2.
Proof.
  revert b. induction a as [|a0 a IH]; intros [|b0 b];
    cbn [hex.EncodeToString hex.EncodeByte];
    rewrite ?string_app_cons, ?string_app_nil; intros H.
  - injection H as ->. now split.
  - injection H as H _. symmetry in H. now apply digit_not_dot in H.
  - injection H as H _. now apply digit_not_dot in H.
  - injection H as H1 H2 H3. apply IH in H3 as [H3 ->].
    split; [|reflexivity]. unfold hex.EncodeByte. now rewrite H1, H2, H3.
Qed.

Lemma Dir_Join2 (p : filepath.path) (a b : string) :
  filepath.Dir (filepath.Join p [a; b]) = filepath.Join p [a].
Proof.
  unfold filepath.Dir, filepath.Join.
  now rewrite removelast_app by discriminate.
Qed.

Lemma add_suffix_Join2 (p : filepath.path) (a b s : string) :
  filepath.add_suffix (filepath.Join p [a; b]) s = filepath.Join p [a; b +:+ s].
Proof.
  unfold filepath.add_suffix, filepath.Join.
  rewrite removelast_app by discriminate. cbn [removelast].
  change (p ++ [a; b]) with (p ++ [a] ++ [b]).
  rewrite app_assoc, last_last, <- app_assoc. reflexivity.
Qed.

Lemma Join_inj (p : filepath.path) (l1 l2 : list string) :
  filepath.Join p l1 = filepath.Join p l2 -> l1 = l2.
Proof. unfold filepath.Join. apply app_inv_head. Qed.

Lemma Join_length_neq (p : filepath.path) (l1 l2 : list string) :
  length l1 <> length l2 -> filepath.Join p l1 <> filepath.Join p l2.
Proof. intros Hn E. apply Join_inj in E. now subst. Qed.

Lemma string_neq_app (s t : string) : t <> EmptyString -> s +:+ t <> s.
Proof.
  intros Ht E. apply (f_equal String.length) in E.
  rewrite string_app_length in E. destruct t; [congruence|cbn in E; lia].
Qed.

(** The names [hex(a).action...] and [hex(o).output...] never coincide. *)
Lemma action_output_names_differ (a o : list byte) (t1 t2 : string) :
  hex.EncodeToString a +:+ String "." (String "a" t1)
  <> hex.EncodeToString o +:+ String "." (String "o" t2).
Proof. intros E. apply hex_stem_inj in E as [_ E]. discriminate E. Qed.

Section LocalPaths.

Variables (d : filepath.path) (a o : list byte) (dirA dirO : string).

Let nameA : string := hex.EncodeToString a +:+ ".action".
Let nameO : string := hex.EncodeToString o +:+ ".output".

Lemma actionPath_neq_outputPath :
  filepath.Join d [dirA; nameA] <> filepath.Join d [dirO; nameO].
Proof.
  intros E. apply Join_inj in E. injection E as _ E.
  exact (action_output_names_differ a o "ction" "utput" E).
Qed.

Lemma actionTmp_neq_outputPath (suffix : string) :
  filepath.Join d [dirA; nameA +:+ suffix] <> filepath.Join d [dirO; nameO].
Proof.
  intros E. apply Join_inj in E. injection E as _ E.
  unfold nameA in E. rewrite string_app_assoc in E.
  exact (action_output_names_differ a o ("ction" +:+ suffix) "utput" E).
Qed.

Lemma outputTmp_neq_actionPath (suffix : string) :
  filepath.Join d [dirO; nameO +:+ suffix] <> filepath.Join d [dirA; nameA].
Proof.
  intros E. apply Join_inj in E. injection E as _ E.
  unfold nameO in E. rewrite string_app_assoc in E. symmetry in E.
  exact (action_output_names_differ a o "ction" ("utput" +:+ suffix) E).
Qed.

Lemma tmp_neq_final (dir1 name suffix : string) :
  suffix <> EmptyString ->
  filepath.Join d [dir1; name +:+ suffix] <> filepath.Join d [dir1; name].
Proof.
  intros Hs E. apply Join_inj in E. injection E as E.
  now apply string_neq_app in E.
Qed.

End LocalPaths.

(** ** The file system calls *)

(** What the walk of [os.MkdirAll] leaves: a path holds what it held, or
    was missing and is a directory now; only the directories on the way
    change; and all of them are there afterwards. *)
Lemma mkdirAll_spec (rest : list string) : forall m done m',
  os.mkdirAll m done rest = Some m' ->
  (forall q, m' !! q = m !! q \/ (m !! q = None /\ m' !! q = Some os.Directory))
  /\ (forall q, ~ (exists k1 k2, k1 <> [] /\ rest = k1 ++ k2 /\ q = done ++ k1) ->
        m' !! q = m !! q)
  /\ (forall k1 k2, k1 <> [] -> rest = k1 ++ k2 -> m' !! (done ++ k1) = Some os.Directory).
Proof.
  induction rest as [|c rest IH]; intros m done m' H; cbn [os.mkdirAll] in H.
  - injection H as <-. split; [now left|]. split; [reflexivity|].
    intros k1 k2 Hk E. destruct k1; [congruence|discriminate].
  - cbv zeta in H.
    assert (Hm1 : exists m1,
              os.mkdirAll m1 (done ++ [c]) rest = Some m'
              /\ m1 !! (done ++ [c]) = Some os.Directory
              /\ (forall q, m1 !! q = m !! q \/ (m !! q = None /\ m1 !! q = Some os.Directory))
              /\ (forall q, q <> done ++ [c] -> m1 !! q = m !! q)).
    { destruct (m !! (done ++ [c])) as [[content|]|] eqn:E; [discriminate| |].
      - exists m. split; [exact H|]. split; [exact E|]. split; [now left|reflexivity].
      - exists (<[done ++ [c] := os.Directory]> m). split; [exact H|].
        split; [apply lookup_insert_eq|]. split.
        + intros q. destruct (decide (q = done ++ [c])) as [->|Hq].
          * right. split; [exact E|apply lookup_insert_eq].
          * left. now apply lookup_insert_ne.
        + intros q Hq. now apply lookup_insert_ne. }
    destruct Hm1 as (m1 & Hrec & Hd & Hch & Hout).
    destruct (IH _ _ _ Hrec) as (Ia & Ib & Ic). split; [|split].
    + intros q. destruct (Ia q) as [E|[E1 E2]].
      * rewrite E. apply Hch.
      * destruct (Hch q) as [E3|[E3 E4]]; [|congruence].
        right. split; [congruence|exact E2].
    + intros q Hq. rewrite Ib, Hout; [reflexivity| |].
      * intros ->. apply Hq. exists [c], rest. now repeat split.
      * intros (k1 & k2 & Hk & -> & ->). apply Hq.
        exists (c :: k1), k2. split; [discriminate|]. split; [reflexivity|].
        now rewrite <- app_assoc.
    + intros k1 k2 Hk E. destruct k1 as [|c' k1]; [congruence|].
      cbn in E. injection E as <- ->.
      destruct k1 as [|c2 k1].
      * destruct (Ia (done ++ [c])) as [E|[E _]]; congruence.
      * replace (done ++ c :: c2 :: k1) with ((done ++ [c]) ++ c2 :: k1)
          by now rewrite <- app_assoc.
        now apply (Ic (c2 :: k1) k2).
Qed.

Lemma isDir_Directory fs p :
  os.nodes fs !! p = Some os.Directory -> os.isDir fs p = true.
Proof. intros H. unfold os.isDir. destruct p; [reflexivity|]. now rewrite H. Qed.

Lemma MkdirAll_broken fs p fs' :
  os.MkdirAll fs p = Some fs' -> os.broken fs' = os.broken fs.
Proof.
  unfold os.MkdirAll. intros H.
  destruct (os.broken fs os.SysMkdirAll p); [discriminate|].
  destruct (os.nodes fs !! p) as [[c|]|]; try discriminate.
  - now injection H as <-.
  - destruct (os.mkdirAll _ _ _); [|discriminate]. now injection H as <-.
Qed.

(** A path holds after [os.MkdirAll] what it held, or was missing and is a
    directory now. *)
Lemma MkdirAll_change fs p fs' q :
  os.MkdirAll fs p = Some fs' ->
  os.nodes fs' !! q = os.nodes fs !! q
  \/ (os.nodes fs !! q = None /\ os.nodes fs' !! q = Some os.Directory).
Proof.
  unfold os.MkdirAll. intros H.
  destruct (os.broken fs os.SysMkdirAll p); [discriminate|].
  destruct (os.nodes fs !! p) as [[c|]|]; try discriminate.
  - injection H as <-. now left.
  - destruct (os.mkdirAll _ _ _) as [m'|] eqn:E; [|discriminate].
    injection H as <-. apply mkdirAll_spec in E as (Ia & _). apply Ia.
Qed.

Lemma MkdirAll_keeps fs p fs' q n :
  os.MkdirAll fs p = Some fs' ->
  os.nodes fs !! q = Some n -> os.nodes fs' !! q = Some n.
Proof.
  intros H Hq. destruct (MkdirAll_change _ _ _ q H) as [E|[E _]]; congruence.
Qed.

(** Only [p] and the directories [p] is in change. *)
Lemma MkdirAll_outside fs p fs' q :
  os.MkdirAll fs p = Some fs' -> ~ q `prefix_of` p ->
  os.nodes fs' !! q = os.nodes fs !! q.
Proof.
  unfold os.MkdirAll. intros H Hq.
  destruct (os.broken fs os.SysMkdirAll p); [discriminate|].
  destruct (os.nodes fs !! p) as [[c|]|]; try discriminate.
  - now injection H as <-.
  - destruct (os.mkdirAll _ _ _) as [m'|] eqn:E; [|discriminate].
    injection H as <-. apply mkdirAll_spec in E as (_ & Ib & _). apply Ib.
    intros (k1 & k2 & _ & -> & ->). apply Hq. now exists k2.
Qed.

Lemma MkdirAll_other fs p fs' q :
  os.MkdirAll fs p = Some fs' -> q <> p -> (length p <= length q)%nat ->
  os.nodes fs' !! q = os.nodes fs !! q.
Proof.
  intros H Hne Hlen. apply (MkdirAll_outside _ _ _ _ H).
  intros [k ->]. rewrite length_app in Hlen.
  destruct k; [now rewrite app_nil_r in Hne|cbn in Hlen; lia].
Qed.

Lemma MkdirAll_deeper fs p fs' q :
  os.MkdirAll fs p = Some fs' -> (length p < length q)%nat ->
  os.nodes fs' !! q = os.nodes fs !! q.
Proof.
  intros H Hlen. apply (MkdirAll_other _ _ _ _ H); [|lia].
  intros ->. lia.
Qed.

(** Comparing the lengths of paths built with [filepath.Join]. *)
Ltac path_len := unfold filepath.Join; rewrite ?length_app; cbn [length]; lia.

Lemma MkdirAll_isDir fs p fs' :
  os.MkdirAll fs p = Some fs' -> os.isDir fs' p = true.
Proof.
  unfold os.MkdirAll. intros H.
  destruct (os.broken fs os.SysMkdirAll p); [discriminate|].
  destruct (os.nodes fs !! p) as [[c|]|] eqn:En; try discriminate.
  - injection H as <-. now apply isDir_Directory.
  - destruct (os.mkdirAll _ _ _) as [m'|] eqn:E; [|discriminate].
    injection H as <-. destruct p as [|c p]; [reflexivity|].
    apply isDir_Directory. apply mkdirAll_spec in E as (_ & _ & Ic).
    apply (Ic (c :: p) []); [discriminate|now rewrite app_nil_r].
Qed.

Lemma parentIsDir_snoc fs (d : filepath.path) (x : string) :
  os.parentIsDir fs (d ++ [x]) = os.isDir fs d.
Proof.
  unfold os.parentIsDir, filepath.Dir. rewrite removelast_last.
  destruct d; reflexivity.
Qed.

Lemma Create_nodes fs p fs' :
  os.Create fs p = Some fs' ->
  os.nodes fs' = <[p := os.File []]> (os.nodes fs) /\ os.broken fs' = os.broken fs.
Proof.
  unfold os.Create. intros H.
  destruct (os.broken fs os.SysCreate p); [discriminate|].
  destruct (negb (os.parentIsDir fs p)); [discriminate|].
  destruct (os.nodes fs !! p) as [[c|]|]; try discriminate;
    injection H as <-; now split.
Qed.

Lemma Create_parent fs p fs' :
  os.Create fs p = Some fs' -> os.parentIsDir fs p = true.
Proof.
  unfold os.Create. intros H.
  destruct (os.broken fs os.SysCreate p); [discriminate|].
  now destruct (os.parentIsDir fs p).
Qed.

Lemma WriteFile_nodes fs p data fs' :
  os.WriteFile fs p data = Some fs' ->
  os.nodes fs' = <[p := os.File data]> (os.nodes fs) /\ os.broken fs' = os.broken fs
  /\ os.parentIsDir fs p = true /\ os.broken fs os.SysWriteFile p = false.
Proof.
  unfold os.WriteFile. intros H.
  destruct (os.broken fs os.SysWriteFile p); [discriminate|].
  destruct (os.parentIsDir fs p); [|discriminate]. cbn [negb] in H.
  destruct (os.nodes fs !! p) as [[c|]|]; try discriminate;
    injection H as <-; now repeat split.
Qed.

Lemma Write_nodes fs p data fs' :
  os.Write fs p data = Some fs' ->
  os.nodes fs' = <[p := os.File data]> (os.nodes fs) /\ os.broken fs' = os.broken fs.
Proof.
  unfold os.Write. intros H.
  destruct (os.broken fs os.SysWrite p); [discriminate|].
  injection H as <-; now split.
Qed.

Lemma Rename_nodes fs src dst fs' :
  os.Rename fs src dst = Some fs' ->
  exists n, os.nodes fs !! src = Some n
            /\ os.nodes fs' = <[dst := n]> (delete src (os.nodes fs))
            /\ os.broken fs' = os.broken fs.
Proof.
  unfold os.Rename. intros H.
  destruct (os.broken fs os.SysRename src); [discriminate|].
  destruct (os.nodes fs !! src) as [n|]; [|discriminate].
  exists n. split; [reflexivity|].
  destruct n as [c|]; [destruct (os.nodes fs !! dst) as [[c'|]|]|];
    try discriminate; injection H as <-; now split.
Qed.

(** ** Running calls that change the disk *)

Lemma bindM_Ok {A B : Type} (m : M A) (k : A -> M B) fs b fs' :
  bindM m k fs = (Ok b, fs') ->
  exists a fs1, m fs = (Ok a, fs1) /\ k a fs1 = (Ok b, fs').
Proof.
  unfold bindM. destruct (m fs) as [[a|e|] fs1]; intros H; try discriminate.
  now exists a, fs1.
Qed.

Lemma sys_Ok e call fs u fs' :
  sys e call fs = (Ok u, fs') -> call fs = Some fs'.
Proof.
  unfold sys. destruct (call fs) as [fs1|]; intros H; [|discriminate].
  now injection H as _ <-.
Qed.

Lemma lift_Ok {A : Type} (r : result A) fs a fs' :
  lift r fs = (Ok a, fs') -> r = Ok a /\ fs' = fs.
Proof. unfold lift. intros H. injection H as -> ->. now split. Qed.

(** ** The local cache: put *)

Ltac inv_bind H :=
  let a := fresh "a" in
  let fs := fresh "fs" in
  let H1 := fresh "Hstep" in
  apply bindM_Ok in H as (a & fs & H1 & H).

Lemma copyBody_Ok p body fs n failed fs' :
  local.copyBody p body fs = (Ok (n, failed), fs') ->
  failed = false ->
  n = Z.of_nat (length (io.avail body))
  /\ os.nodes fs' = <[p := os.File (io.avail body)]> (os.nodes fs)
  /\ os.broken fs' = os.broken fs.
Proof.
  unfold local.copyBody, io.Copy. intros H ->.
  destruct (os.Write fs p (io.avail body)) as [fs1|] eqn:W; [|discriminate].
  injection H as <- _ <-. apply Write_nodes in W as [W1 W2]. now repeat split.
Qed.

Lemma put_Ok_nonempty store opts uniqueId now fs resp fs' :
  local.put store opts uniqueId now fs = (Ok resp, fs') ->
  0 < protocol.BodySize (cache.put_Req opts) ->
  exists aP oP,
    local.actionPath store (protocol.put_ActionID (cache.put_Req opts)) = Ok aP
    /\ local.outputPath store (protocol.put_OutputID (cache.put_Req opts)) = Ok oP
    /\ protocol.put_DiskPath resp = oP
    /\ os.nodes fs' !! aP = Some (os.File (cache.WriteTo (put_meta opts now)))
    /\ os.nodes fs' !! oP = Some (os.File (io.avail (cache.Body opts)))
    /\ Z.of_nat (length (io.avail (cache.Body opts))) = protocol.BodySize (cache.put_Req opts).
Proof.
  intros H Hpos. unfold local.put in H.
  destruct opts as [[A O sz] body ot comp]. cbn [cache.put_Req cache.Body cache.OverrideTime
    protocol.put_ActionID protocol.put_OutputID protocol.BodySize] in *.
  destruct A as [|a0 A]; [discriminate|].
  destruct O as [|o0 O]; [discriminate|].
  cbn [local.actionPath local.outputPath] in *.
  set (dirA := hex.EncodeByte a0) in *. set (dirO := hex.EncodeByte o0) in *.
  set (nameA := hex.EncodeToString (a0 :: A) +:+ ".action") in *.
  set (nameO := hex.EncodeToString (o0 :: O) +:+ ".output") in *.
  set (d := local.dir store) in *.
  inv_bind H. apply lift_Ok in Hstep as [E ->]. injection E as <-.
  inv_bind H. apply lift_Ok in Hstep as [E ->]. injection E as <-.
  inv_bind H.
  apply Z.ltb_lt in Hpos. rewrite Hpos in Hstep.
  rewrite Dir_Join2, add_suffix_Join2 in Hstep.
  inv_bind Hstep. apply sys_Ok in Hstep0.
  inv_bind Hstep. apply sys_Ok in Hstep1.
  inv_bind Hstep. destruct a3 as [n failed].
  destruct failed; [discriminate|].
  apply copyBody_Ok in Hstep2 as (-> & Hn3 & Hb3); [|reflexivity].
  destruct (Z.eqb_spec (Z.of_nat (length (io.avail body))) sz) as [Hsz|]; [|discriminate].
  cbn [negb] in Hstep.
  inv_bind Hstep. apply sys_Ok in Hstep2.
  injection Hstep as <- <-.
  rewrite Dir_Join2, add_suffix_Join2 in H.
  inv_bind H. apply sys_Ok in Hstep.
  inv_bind H. apply sys_Ok in Hstep3.
  inv_bind H. apply sys_Ok in Hstep4.
  inv_bind H. apply sys_Ok in Hstep5.
  injection H as <- <-.
  apply Create_nodes in Hstep1 as [Hn2 Hb2].
  apply Rename_nodes in Hstep2 as (n4 & Hsrc4 & Hn4 & Hb4).
  apply Create_nodes in Hstep3 as [Hn6 Hb6].
  apply Write_nodes in Hstep4 as [Hn7 Hb7].
  apply Rename_nodes in Hstep5 as (n8 & Hsrc8 & Hn8 & Hb8).
  exists (filepath.Join d [dirA; nameA]), (filepath.Join d [dirO; nameO]).
  split; [reflexivity|]. split; [reflexivity|]. split; [reflexivity|].
  assert (HaO : filepath.Join d [dirA; nameA] <> filepath.Join d [dirO; nameO])
    by apply actionPath_neq_outputPath.
  assert (HtO : filepath.Join d [dirA; nameA +:+ ".tmp." +:+ uniqueId]
                <> filepath.Join d [dirO; nameO])
    by apply actionTmp_neq_outputPath.
  assert (HdO : filepath.Join d [dirA] <> filepath.Join d [dirO; nameO])
    by (apply Join_length_neq; discriminate).
  split; [|split].
  - rewrite Hn8, lookup_insert_eq. rewrite Hn7, lookup_insert_eq in Hsrc8.
    now injection Hsrc8 as <-.
  - rewrite Hn8, lookup_insert_ne, lookup_delete_ne by congruence.
    rewrite Hn7, lookup_insert_ne by congruence.
    rewrite Hn6, lookup_insert_ne by congruence.
    rewrite (MkdirAll_deeper _ _ _ _ Hstep) by path_len.
    rewrite Hn4, lookup_insert_eq.
    rewrite Hn3, lookup_insert_eq in Hsrc4. now injection Hsrc4 as <-.
  - exact Hsz.
Qed.

Lemma bindM_Err {A B : Type} (m : M A) (k : A -> M B) fs e fs' :
  bindM m k fs = (Err e, fs') ->
  m fs = (Err e, fs') \/ exists a fs1, m fs = (Ok a, fs1) /\ k a fs1 = (Err e, fs').
Proof.
  unfold bindM. destruct (m fs) as [[a|e1|] fs1]; intros H; try discriminate.
  - right. now exists a, fs1.
  - left. now injection H as -> ->.
Qed.

Lemma sys_Err e0 call fs e fs' :
  sys e0 call fs = (Err e, fs') -> e = e0.
Proof.
  unfold sys. destruct (call fs) as [fs1|]; intros H; [discriminate|].
  now injection H as <- _.
Qed.

Lemma EnsureEmptyOutputFile_Err store fs e fs' :
  local.EnsureEmptyOutputFile store fs = (Err e, fs') -> e = ErrEmptyOutput.
Proof.
  unfold local.EnsureEmptyOutputFile.
  destruct (os.Stat fs (local.emptyOutputPath store)) as [[[|b c]|]|se];
    try (destruct (os.WriteFile fs (local.emptyOutputPath store) []));
    intros H; try discriminate; now injection H as <- _.
Qed.

(** Whenever [put] reports a body size mismatch, the temp file it streamed
    the body into is still on disk, holding what the reader delivered. *)
Lemma put_size_mismatch_temp_file store opts uniqueId now fs expected got fs' :
  local.put store opts uniqueId now fs = (Err (ErrBodySizeMismatch expected got), fs') ->
  exists oP,
    local.outputPath store (protocol.put_OutputID (cache.put_Req opts)) = Ok oP
    /\ expected = protocol.BodySize (cache.put_Req opts)
    /\ got = Z.of_nat (length (io.avail (cache.Body opts)))
    /\ os.nodes fs' !! filepath.add_suffix oP (".tmp." +:+ uniqueId)
       = Some (os.File (io.avail (cache.Body opts))).
Proof.
  intros H. unfold local.put in H.
  destruct opts as [[A O sz] body ot comp]. cbn [cache.put_Req cache.Body cache.OverrideTime
    protocol.put_ActionID protocol.put_OutputID protocol.BodySize] in *.
  destruct A as [|a0 A]; [discriminate|].
  destruct O as [|o0 O]; [discriminate|].
  cbn [local.actionPath local.outputPath] in *.
  eexists. split; [reflexivity|].
  apply bindM_Err in H as [H|(aP & fs1 & H1 & H)]; [discriminate|].
  apply lift_Ok in H1 as [E ->]. injection E as <-.
  apply bindM_Err in H as [H|(oP & fs1 & H1 & H)]; [discriminate|].
  apply lift_Ok in H1 as [E ->]. injection E as <-.
  apply bindM_Err in H as [H|(oP' & fs1 & H1 & H)].
  - destruct (0 <? sz); [|apply EnsureEmptyOutputFile_Err in H; discriminate].
    apply bindM_Err in H as [H|(u1 & fs1 & H1 & H)];
      [apply sys_Err in H; discriminate|].
    apply bindM_Err in H as [H|(u2 & fs2 & H2 & H)];
      [apply sys_Err in H; discriminate|].
    apply bindM_Err in H as [H|([n failed] & fs3 & H3 & H)].
    { unfold local.copyBody, io.Copy in H.
      destruct (os.Write fs2 _ (io.avail body)); discriminate. }
    destruct failed; [discriminate|].
    apply copyBody_Ok in H3 as (-> & Hn3 & _); [|reflexivity].
    destruct (Z.eqb_spec (Z.of_nat (length (io.avail body))) sz) as [Hsz|Hsz].
    + cbn [negb] in H.
      apply bindM_Err in H as [H|(u4 & fs4 & H4 & H)];
        [apply sys_Err in H; discriminate|discriminate].
    + cbn [negb] in H. injection H as <- <- <-.
      repeat split. rewrite Hn3. apply lookup_insert_eq.
  - apply bindM_Err in H as [H|(u1 & fs2 & H2 & H)];
      [apply sys_Err in H; discriminate|].
    apply bindM_Err in H as [H|(u2 & fs3 & H3 & H)];
      [apply sys_Err in H; discriminate|].
    apply bindM_Err in H as [H|(u3 & fs4 & H4 & H)];
      [apply sys_Err in H; discriminate|].
    apply bindM_Err in H as [H|(u4 & fs5 & H5 & H)];
      [apply sys_Err in H; discriminate|discriminate].
Qed.

(** A put whose body length differs from a positive [BodySize] never
    succeeds, and leaves the final action and output paths as they were. *)
Lemma put_size_mismatch_final_paths store opts uniqueId now fs aP oP r fs' :
  0 < protocol.BodySize (cache.put_Req opts) ->
  Z.of_nat (length (io.avail (cache.Body opts))) <> protocol.BodySize (cache.put_Req opts) ->
  local.actionPath store (protocol.put_ActionID (cache.put_Req opts)) = Ok aP ->
  local.outputPath store (protocol.put_OutputID (cache.put_Req opts)) = Ok oP ->
  local.put store opts uniqueId now fs = (r, fs') ->
  (forall resp, r <> Ok resp)
  /\ os.nodes fs' !! aP = os.nodes fs !! aP
  /\ os.nodes fs' !! oP = os.nodes fs !! oP.
Proof.
  intros Hpos Hne HaP HoP Hput. split.
  { intros resp ->. apply put_Ok_nonempty in Hput as (? & ? & _ & _ & _ & _ & _ & Hsz);
      [contradiction|exact Hpos]. }
  unfold local.put in Hput.
  destruct opts as [[A O sz] body ot comp]. cbn [cache.put_Req cache.Body cache.OverrideTime
    protocol.put_ActionID protocol.put_OutputID protocol.BodySize] in *.
  destruct A as [|a0 A]; [discriminate|].
  destruct O as [|o0 O]; [discriminate|].
  cbn [local.actionPath local.outputPath] in *.
  set (d := local.dir store) in *.
  set (dirO := hex.EncodeByte o0) in *. set (dirA := hex.EncodeByte a0) in *.
  set (nameA := hex.EncodeToString (a0 :: A) +:+ ".action") in *.
  set (nameO := hex.EncodeToString (o0 :: O) +:+ ".output") in *.
  assert (EaP : aP = filepath.Join d [dirA; nameA]) by congruence.
  assert (EoP : oP = filepath.Join d [dirO; nameO]) by congruence.
  clear HaP HoP. subst aP oP.
  apply Z.ltb_lt in Hpos.
  unfold bindM at 1 in Hput. unfold lift at 1 in Hput.
  unfold bindM at 1 in Hput. unfold lift at 1 in Hput.
  unfold bindM at 1 in Hput. rewrite Hpos in Hput.
  rewrite Dir_Join2, add_suffix_Join2 in Hput.
  set (tmp := filepath.Join d [dirO; nameO +:+ ".tmp." +:+ uniqueId]) in *.
  assert (Ht1 : tmp <> filepath.Join d [dirA; nameA])
    by apply outputTmp_neq_actionPath.
  assert (Ht2 : tmp <> filepath.Join d [dirO; nameO])
    by (apply tmp_neq_final; discriminate).
  assert (Hd1 : filepath.Join d [dirO] <> filepath.Join d [dirA; nameA])
    by (apply Join_length_neq; discriminate).
  assert (Hd2 : filepath.Join d [dirO] <> filepath.Join d [dirO; nameO])
    by (apply Join_length_neq; discriminate).
  unfold bindM at 1 in Hput. unfold sys at 1 in Hput.
  destruct (os.MkdirAll fs (filepath.Join d [dirO])) as [fs1|] eqn:Hmk;
    [|injection Hput as <- <-; now split].
  assert (Hk : forall q, (length (filepath.Join d [dirO]) < length q)%nat ->
                         os.nodes fs1 !! q = os.nodes fs !! q)
    by (intros q Hq; now apply (MkdirAll_deeper _ _ _ _ Hmk)).
  unfold bindM at 1 in Hput. unfold sys at 1 in Hput.
  destruct (os.Create fs1 tmp) as [fs2|] eqn:Hcr.
  2:{ injection Hput as <- <-. split; apply Hk; path_len. }
  apply Create_nodes in Hcr as [Hn2 _].
  unfold bindM at 1 in Hput. unfold local.copyBody, io.Copy in Hput.
  destruct (os.Write fs2 tmp (io.avail body)) as [fs3|] eqn:Hwr.
  2:{ injection Hput as <- <-. rewrite Hn2, !lookup_insert_ne by congruence.
      split; apply Hk; path_len. }
  apply Write_nodes in Hwr as [Hn3 _].
  destruct (is_Some_b (if io.failing body then Some ErrIO else None)).
  { injection Hput as <- <-. rewrite Hn3, Hn2, !lookup_insert_ne by congruence.
    split; apply Hk; path_len. }
  destruct (Z.eqb_spec (Z.of_nat (length (io.avail body))) sz) as [|_]; [contradiction|].
  injection Hput as <- <-. rewrite Hn3, Hn2, !lookup_insert_ne by congruence.
  split; apply Hk; path_len.
Qed.

Lemma Put_Ok store opts uniqueId now fs resp fs' :
  local.Put store opts uniqueId now fs = (Ok resp, fs') ->
  local.closed store = false
  /\ local.put store opts uniqueId now fs = (Ok resp, fs').
Proof.
  unfold local.Put, util.Do. destruct (local.closed store); [discriminate|].
  destruct (local.put store opts uniqueId now fs) as [[r|e|] fs1]; try discriminate.
  - unfold bindM, logArgs, lift.
    destruct (existsb panics _); [discriminate|].
    intros H. injection H as <- <-. now split.
  - unfold bindM, logArgs, lift.
    destruct (existsb panics _); discriminate.
Qed.

(** C4, evaluated on a put that declares five bytes and streams three: the
    put fails with the size mismatch and the final action and output paths
    stay absent, but the temp file that received the three bytes is still
    on disk; nothing discards it. *)
Theorem put_size_mismatch_leaves_temp_file :
  let store := local.mkLocalBackend ["data"%string] false in
  let fs := os.mkFS ∅ (fun _ _ => false) in
  let opts :=
    cache.mkPutOpts (protocol.mkPutRequest [x01] [x02] 5)
      (io.of_bytes [x61; x62; x63]) None false in
  let out := local.Put store opts "ABCDEFGH" time.zero fs in
  fst out = Err (ErrBodySizeMismatch 5 3)
  /\ os.nodes (snd out) !! ["data"; "01"; "01.action"]%string = None
  /\ os.nodes (snd out) !! ["data"; "02"; "02.output"]%string = None
  /\ os.nodes (snd out) !! ["data"; "02"; "02.output.tmp.ABCDEFGH"]%string
     = Some (os.File [x61; x62; x63]).
Proof. cbv zeta. repeat split; vm_compute; reflexivity. Qed.

(** C8, the claim as stated fails: a put of ActionID 01 and OutputID 02
    stores the EntryMeta under shard 01 with stem 01 and the body under
    shard 02 with stem 02; the two files share neither the shard directory
    nor the stem. *)
Lemma put_layout_differs_for_action_and_output :
  let store := local.mkLocalBackend ["data"%string] false in
  let fs := os.mkFS ∅ (fun _ _ => false) in
  let opts :=
    cache.mkPutOpts (protocol.mkPutRequest [x01] [x02] 3)
      (io.of_bytes [x61; x62; x63]) None false in
  let out := local.Put store opts "ABCDEFGH" time.zero fs in
  fst out = Ok (protocol.mkPutResponse ["data"; "02"; "02.output"]%string)
  /\ os.nodes (snd out) !! ["data"; "01"; "01.action"]%string
     = Some (os.File (cache.WriteTo (cache.mkEntryMeta [x01] [x02] 3 time.zero)))
  /\ os.nodes (snd out) !! ["data"; "02"; "02.output"]%string
     = Some (os.File [x61; x62; x63])
  /\ os.nodes (snd out) !! ["data"; "01"; "01.output"]%string = None
  /\ os.nodes (snd out) !! ["data"; "02"; "02.action"]%string = None.
Proof. cbv zeta. repeat split; vm_compute; reflexivity. Qed.

(** C8 (amended): after a successful local put with BodySize > 0, the
    EntryMeta is the file [data/XX/HHHH.action] where XX is the first byte of
    the ActionID in hex and HHHH the ActionID in hex, and the body is the file
    [data/YY/GGGG.output] where YY is the first byte of the OutputID in hex
    and GGGG the OutputID in hex; the put returns the body's path. *)
Theorem put_layout store opts uniqueId now fs resp fs' :
  local.Put store opts uniqueId now fs = (Ok resp, fs') ->
  0 < protocol.BodySize (cache.put_Req opts) ->
  exists a0 A' o0 O',
    protocol.put_ActionID (cache.put_Req opts) = a0 :: A'
    /\ protocol.put_OutputID (cache.put_Req opts) = o0 :: O'
    /\ os.nodes fs' !! filepath.Join (local.dir store)
                         [hex.EncodeByte a0; hex.EncodeToString (a0 :: A') +:+ ".action"]
       = Some (os.File (cache.WriteTo (put_meta opts now)))
    /\ os.nodes fs' !! filepath.Join (local.dir store)
                         [hex.EncodeByte o0; hex.EncodeToString (o0 :: O') +:+ ".output"]
       = Some (os.File (io.avail (cache.Body opts)))
    /\ protocol.put_DiskPath resp
       = filepath.Join (local.dir store)
           [hex.EncodeByte o0; hex.EncodeToString (o0 :: O') +:+ ".output"].
Proof.
  intros H Hpos. apply Put_Ok in H as [_ H].
  apply put_Ok_nonempty in H as (aP & oP & HaP & HoP & Hresp & Ha & Ho & _); [|exact Hpos].
  destruct (protocol.put_ActionID (cache.put_Req opts)) as [|a0 A'] eqn:EA; [discriminate|].
  destruct (protocol.put_OutputID (cache.put_Req opts)) as [|o0 O'] eqn:EO; [discriminate|].
  exists a0, A', o0, O'.
  cbn [local.actionPath local.outputPath] in HaP, HoP.
  assert (EaP : aP = filepath.Join (local.dir store)
                  [hex.EncodeByte a0; hex.EncodeToString (a0 :: A') +:+ ".action"])
    by congruence.
  assert (EoP : oP = filepath.Join (local.dir store)
                  [hex.EncodeByte o0; hex.EncodeToString (o0 :: O') +:+ ".output"])
    by congruence.
  rewrite <- EaP, <- EoP. now repeat split.
Qed.

Lemma put_layout_witness :
  let store := local.mkLocalBackend ["data"%string] false in
  let fs := os.mkFS ∅ (fun _ _ => false) in
  let opts :=
    cache.mkPutOpts (protocol.mkPutRequest [x01] [x02] 3)
      (io.of_bytes [x61; x62; x63]) None false in
  let out := local.Put store opts "ABCDEFGH" time.zero fs in
  exists a0 A' o0 O',
    [x01] = a0 :: A' /\ [x02] = o0 :: O'
    /\ os.nodes (snd out) !! filepath.Join ["data"%string]
                         [hex.EncodeByte a0; hex.EncodeToString (a0 :: A') +:+ ".action"]
       = Some (os.File (cache.WriteTo (put_meta opts time.zero)))
    /\ os.nodes (snd out) !! filepath.Join ["data"%string]
                         [hex.EncodeByte o0; hex.EncodeToString (o0 :: O') +:+ ".output"]
       = Some (os.File [x61; x62; x63])
    /\ protocol.put_DiskPath (protocol.mkPutResponse ["data"; "02"; "02.output"]%string)
       = filepath.Join ["data"%string]
           [hex.EncodeByte o0; hex.EncodeToString (o0 :: O') +:+ ".output"].
Proof.
  cbv zeta.
  apply (put_layout (local.mkLocalBackend ["data"%string] false)
           (cache.mkPutOpts (protocol.mkPutRequest [x01] [x02] 3)
              (io.of_bytes [x61; x62; x63]) None false)
           "ABCDEFGH" time.zero (os.mkFS ∅ (fun _ _ => false))
           (protocol.mkPutResponse ["data"; "02"; "02.output"]%string)).
  - vm_compute. reflexivity.
  - cbn. lia.
Defined.

(** ** Object keys *)

Lemma DecodeString_not_Panic (s : string) : hex.DecodeString s <> Panic.
Proof.
  assert (H : forall n s, (String.length s <= n)%nat -> hex.DecodeString s <> Panic).
  { induction n as [|n IH]; intros [|p [|q s']] Hlen; cbn in *; try discriminate; try lia.
    destruct (hex.fromHexChar p), (hex.fromHexChar q); try discriminate.
    specialize (IH s' ltac:(lia)).
    destruct (hex.DecodeString s'); [discriminate|discriminate|contradiction]. }
  now apply (H (String.length s)).
Qed.

Lemma DecodeString_nil (s : string) : hex.DecodeString s = Ok [] -> s = EmptyString.
Proof.
  destruct s as [|p [|q s']]; cbn; [reflexivity|discriminate|].
  destruct (hex.fromHexChar p), (hex.fromHexChar q); try discriminate.
  destruct (hex.DecodeString s'); discriminate.
Qed.

(** The decoder panics exactly on the five-character keys [b/??/]: the hex
    remainder is empty, it decodes to an empty ActionID, and rebuilding the
    key indexes [actionID[0]]. *)
Lemma DecodeCacheEntityKey_Panic_iff (key : string) :
  blob.DecodeCacheEntityKey key = Panic
  <-> exists c2 c3, key = String "b" (String "/" (String c2 (String c3 (String "/" EmptyString)))).
Proof.
  split.
  - destruct key as [|c0 [|c1 [|c2 [|c3 [|c4 rest]]]]]; try discriminate.
    unfold blob.DecodeCacheEntityKey, char_differs. cbn [String.length String.get string_drop].
    replace (S (S (S (S (S (String.length rest))))) <? 5)%nat with false
      by (symmetry; apply Nat.ltb_ge; lia).
    cbn [Nat.eqb orb].
    destruct (Ascii.eqb_spec c0 "b") as [->|]; [|discriminate].
    destruct (Ascii.eqb_spec c1 "/") as [->|]; [|discriminate].
    destruct (Ascii.eqb_spec c4 "/") as [->|]; [|discriminate].
    cbn [negb orb].
    destruct (hex.DecodeString rest) as [bs|e|] eqn:E.
    + destruct bs as [|b0 bs].
      * apply DecodeString_nil in E as ->. intros _. now exists c2, c3.
      * cbn [blob.CacheEntityKey bind]. destruct (String.eqb _ _); discriminate.
    + discriminate.
    + now apply DecodeString_not_Panic in E.
  - intros (c2 & c3 & ->). reflexivity.
Qed.

(** ** The blob backend: Get *)

Lemma Get_error_becomes_miss store opts uniqueId now fs e fs' :
  blob.closed store = false ->
  protocol.get_ActionID (cache.get_Req opts) <> [] ->
  blob.BlobBackend.get store opts uniqueId now fs = (Err e, fs') ->
  blob.BlobBackend.Get store opts uniqueId now fs = (Ok protocol.miss, fs').
Proof.
  intros Hopen Hne Hget. unfold blob.BlobBackend.Get, util.Do.
  rewrite Hopen, Hget.
  destruct (protocol.get_ActionID (cache.get_Req opts)) as [|a0 A]; [contradiction|].
  reflexivity.
Qed.

Lemma Get_never_returns_error store opts uniqueId now fs e :
  blob.closed store = false ->
  fst (blob.BlobBackend.Get store opts uniqueId now fs) <> Err e.
Proof.
  intros Hopen. unfold blob.BlobBackend.Get, util.Do. rewrite Hopen.
  destruct (blob.BlobBackend.get store opts uniqueId now fs) as [[r|e'|] fs'] eqn:Hget.
  - cbn. discriminate.
  - unfold bindM, logArgs, ret.
    destruct (existsb panics _); cbn; discriminate.
  - cbn. discriminate.
Qed.

(** C1, evaluated on a get request without ActionID sent to an open
    backend: the internal get fails with its "actionID must be specified"
    error, and the public Get, instead of turning that error into a miss,
    panics while it builds the object key for the warning. *)
Theorem Get_panics_on_empty_ActionID store opts uniqueId now fs :
  blob.closed store = false ->
  protocol.get_ActionID (cache.get_Req opts) = [] ->
  blob.BlobBackend.get store opts uniqueId now fs = (Err ErrActionIDUnspecified, fs)
  /\ blob.BlobBackend.Get store opts uniqueId now fs = (Panic, fs).
Proof.
  intros Hopen HA.
  assert (Hget : blob.BlobBackend.get store opts uniqueId now fs
                 = (Err ErrActionIDUnspecified, fs)).
  { unfold blob.BlobBackend.get. rewrite HA. reflexivity. }
  split; [exact Hget|].
  unfold blob.BlobBackend.Get, util.Do. rewrite Hopen, Hget, HA. reflexivity.
Qed.

Lemma Get_panics_on_empty_ActionID_witness :
  let store :=
    blob.mkBlobBackend false (fun _ => blob.NotFound)
      (local.mkLocalBackend ["data"%string] false)
      (blob.ArLocalStore.NewArLocalStore ["work"%string]) in
  let opts := cache.mkGetOpts (protocol.mkGetRequest []) false in
  let fs := os.mkFS ∅ (fun _ _ => false) in
  blob.BlobBackend.get store opts "ABCDEFGH" time.zero fs = (Err ErrActionIDUnspecified, fs)
  /\ blob.BlobBackend.Get store opts "ABCDEFGH" time.zero fs = (Panic, fs).
Proof.
  cbv zeta. apply Get_panics_on_empty_ActionID; reflexivity.
Defined.

(** ** Compaction *)

(** C9, evaluated on the key [b/00/] (a zero-length object stored under the
    shard prefix): the decoder neither yields an ActionID nor reports a
    parse failure, it panics, and so does the listing loop of step 1 that
    meets such an object. *)
Theorem DecodeCacheEntityKey_panics_on_empty_hex :
  blob.DecodeCacheEntityKey "b/00/" = Panic
  /\ fst (blob.CompactionJob.step1FindBlobsToCompact
            (blob.CompactionJob.NewCompactionJob "0")
            (blob.mkListing [blob.mkListObject "b/00/" 0 false] false)
            None) = Panic.
Proof. split; reflexivity. Qed.

(** ** The bundle local store: readers handed out stay open *)

Section ArLocalStoreInvariant.

Variable parse : list byte -> option (gmap string blob.ArEntry).

Lemma wf_NewArLocalStore (wd : filepath.path) :
  store_wf (blob.ArLocalStore.NewArLocalStore wd).
Proof.
  split.
  - intros k p H. cbn in H. now rewrite lookup_empty in H.
  - intros p [r H]. cbn in H. now rewrite lookup_empty in H.
Qed.

Lemma installed_true (s : blob.ArLocalStore) (k : string) (p : nat) :
  blob.readers s !! k = Some p -> blob.ArLocalStore.installed s p = true.
Proof.
  intros H. unfold blob.ArLocalStore.installed. apply bool_decide_eq_true.
  apply list_elem_of_fmap. exists (k, p). split; [reflexivity|].
  now apply elem_of_map_to_list.
Qed.

Lemma wf_install (s : blob.ArLocalStore) (k : string) (r : blob.ArReader) :
  store_wf s -> blob.z_closed r = false ->
  store_wf (blob.ArLocalStore.set (blob.ArLocalStore.alloc s r).2 k (blob.next s)).
Proof.
  intros [Hi Hh] Hr. split; cbn.
  - intros k' p H. destruct (decide (k = k')) as [->|Hk].
    + rewrite lookup_insert_eq in H. injection H as <-.
      exists r. now rewrite lookup_insert_eq.
    + rewrite lookup_insert_ne in H by exact Hk.
      destruct (Hi _ _ H) as (r' & Hr' & Hopen). exists r'. split; [|exact Hopen].
      rewrite lookup_insert_ne; [exact Hr'|].
      intros <-. specialize (Hh (blob.next s) (ex_intro _ r' Hr')). lia.
  - intros p [r' H]. destruct (decide (blob.next s = p)) as [<-|Hp]; [lia|].
    rewrite lookup_insert_ne in H by exact Hp.
    specialize (Hh p (ex_intro _ r' H)). lia.
Qed.

Lemma keeps_install (s : blob.ArLocalStore) (k : string) (r : blob.ArReader) (p : nat) :
  store_wf s ->
  keeps p s (blob.ArLocalStore.set (blob.ArLocalStore.alloc s r).2 k (blob.next s)).
Proof.
  intros [_ Hh] r' H. cbn. rewrite lookup_insert_ne; [exact H|].
  intros <-. specialize (Hh (blob.next s) (ex_intro _ r' H)). lia.
Qed.

Lemma wf_alloc_close (s : blob.ArLocalStore) (r : blob.ArReader) :
  store_wf s ->
  store_wf (blob.ArLocalStore.close (blob.ArLocalStore.alloc s r).2 (blob.next s)).
Proof.
  intros [Hi Hh]. split; cbn.
  - intros k p H. destruct (Hi _ _ H) as (r' & Hr' & Hopen). exists r'.
    split; [|exact Hopen].
    assert (Hp : blob.next s <> p).
    { intros <-. specialize (Hh (blob.next s) (ex_intro _ r' Hr')). lia. }
    now rewrite lookup_alter_ne, lookup_insert_ne.
  - intros p [r' H]. destruct (decide (blob.next s = p)) as [<-|Hp]; [lia|].
    rewrite lookup_alter_ne, lookup_insert_ne in H by exact Hp.
    specialize (Hh p (ex_intro _ r' H)). lia.
Qed.

Lemma keeps_alloc_close (s : blob.ArLocalStore) (r : blob.ArReader) (p : nat) :
  store_wf s ->
  keeps p s (blob.ArLocalStore.close (blob.ArLocalStore.alloc s r).2 (blob.next s)).
Proof.
  intros [_ Hh] r' H. cbn.
  assert (Hp : blob.next s <> p).
  { intros <-. specialize (Hh (blob.next s) (ex_intro _ r' H)). lia. }
  now rewrite lookup_alter_ne, lookup_insert_ne.
Qed.

Lemma NewArReader_open fs p r :
  blob.ArLocalStore.NewArReader parse fs p = Some r -> blob.z_closed r = false.
Proof.
  unfold blob.ArLocalStore.NewArReader.
  destruct (os.Open fs p) as [[c|]|]; try discriminate.
  destruct (parse c); [|discriminate]. now intros [= <-].
Qed.

Lemma LoadLocal_cases s k fs :
  (blob.ArLocalStore.LoadLocal parse s k fs).2 = s
  \/ exists r, blob.z_closed r = false
       /\ (blob.ArLocalStore.LoadLocal parse s k fs).2
          = blob.ArLocalStore.set (blob.ArLocalStore.alloc s r).2 k (blob.next s).
Proof.
  unfold blob.ArLocalStore.LoadLocal.
  destruct (os.Stat fs _) as [n|[|]]; [|now left|now left].
  destruct (blob.ArLocalStore.NewArReader parse fs _) as [r|] eqn:E; [|now left].
  right. exists r. split; [now apply NewArReader_open in E|reflexivity].
Qed.

Lemma Put_cases s k rd uniqueId fs :
  let s' := (blob.ArLocalStore.Put parse s k rd uniqueId fs).1.2 in
  s' = s
  \/ (exists r, s' = blob.ArLocalStore.close (blob.ArLocalStore.alloc s r).2 (blob.next s))
  \/ (exists r, blob.z_closed r = false
        /\ s' = blob.ArLocalStore.set (blob.ArLocalStore.alloc s r).2 k (blob.next s)).
Proof.
  cbv zeta. unfold blob.ArLocalStore.Put.
  destruct (os.Create _ _) as [fs1|]; [|now left].
  unfold io.Copy.
  destruct (if is_Some_b _ then None else os.Write fs1 _ _) as [fs2|]; [|now left].
  destruct (blob.ArLocalStore.NewArReader parse fs2 _) as [r|] eqn:E; [|now left].
  cbn [blob.ArLocalStore.alloc].
  destruct (os.Rename fs2 _ _) as [fs3|].
  - right. right. exists r. split; [now apply NewArReader_open in E|reflexivity].
  - right. left. exists r. reflexivity.
Qed.

Lemma wf_finalize held s p :
  store_wf s -> store_wf (blob.ArLocalStore.finalize held s p).
Proof.
  intros [Hi Hh]. unfold blob.ArLocalStore.finalize.
  destruct (blob.ArLocalStore.installed s p) eqn:Hinst; [now split|].
  destruct (bool_decide (p ∈ held)); [now split|].
  cbn [orb]. split; cbn.
  - intros k q H. destruct (Hi _ _ H) as (r & Hr & Hopen). exists r.
    split; [|exact Hopen].
    rewrite lookup_alter_ne; [exact Hr|].
    intros <-. apply installed_true in H. congruence.
  - intros q [r H]. apply Hh.
    destruct (decide (p = q)) as [<-|Hq].
    + rewrite lookup_alter_eq in H. destruct (blob.heap s !! p); [eauto|discriminate].
    + rewrite lookup_alter_ne in H by exact Hq. eauto.
Qed.

Lemma keeps_finalize held s p q :
  q ∈ held -> keeps q s (blob.ArLocalStore.finalize held s p).
Proof.
  intros Hq r H. unfold blob.ArLocalStore.finalize.
  destruct (blob.ArLocalStore.installed s p); [exact H|].
  destruct (bool_decide_reflect (p ∈ held)) as [|Hp]; [exact H|].
  cbn. rewrite lookup_alter_ne; [exact H|]. intros ->. contradiction.
Qed.

Lemma step_wf_keeps held st o q :
  store_wf st.1 -> q ∈ held ->
  store_wf (blob.ArLocalStore.step parse held st o).1
  /\ keeps q st.1 (blob.ArLocalStore.step parse held st o).1.
Proof.
  destruct st as [s fs]. cbn [fst]. intros Hwf Hq.
  destruct o as [k|k rd uniqueId|k|p]; cbn [blob.ArLocalStore.step].
  - cbn [fst]. destruct (LoadLocal_cases s k fs) as [->|(r & Hr & ->)].
    + split; [exact Hwf|now intros r].
    + split; [now apply wf_install|now apply keeps_install].
  - pose proof (Put_cases s k rd uniqueId fs) as Hc. cbv zeta in Hc.
    destruct (blob.ArLocalStore.Put parse s k rd uniqueId fs) as [[res s'] fs'].
    cbn [fst snd] in *.
    destruct Hc as [->|[(r & ->)|(r & Hr & ->)]].
    + split; [exact Hwf|now intros r].
    + split; [now apply wf_alloc_close|now apply keeps_alloc_close].
    + split; [now apply wf_install|now apply keeps_install].
  - cbn [fst]. split; [exact Hwf|now intros r].
  - cbn [fst]. split; [now apply wf_finalize|now apply keeps_finalize].
Qed.

Lemma run_wf_keeps held ops st q :
  store_wf st.1 -> q ∈ held ->
  store_wf (blob.ArLocalStore.run parse held st ops).1
  /\ keeps q st.1 (blob.ArLocalStore.run parse held st ops).1.
Proof.
  revert st. induction ops as [|o ops IH]; intros st Hwf Hq.
  - split; [exact Hwf|now intros r].
  - cbn [blob.ArLocalStore.run fold_left].
    destruct (step_wf_keeps held st o q Hwf Hq) as [Hwf1 Hk1].
    destruct (IH _ Hwf1 Hq) as [Hwf2 Hk2].
    split; [exact Hwf2|]. intros r H. apply Hk2, Hk1, H.
Qed.

(** Whatever was done to the store before does not matter: [run] keeps the
    invariant whichever pointers were held. *)
Lemma run_wf held ops st :
  store_wf st.1 -> store_wf (blob.ArLocalStore.run parse held st ops).1.
Proof.
  revert st. induction ops as [|o ops IH]; intros st Hwf; [exact Hwf|].
  cbn [blob.ArLocalStore.run fold_left]. apply IH.
  destruct st as [s fs]. cbn [fst] in *.
  destruct o as [k|k rd uniqueId|k|p]; cbn [blob.ArLocalStore.step].
  - cbn [fst]. destruct (LoadLocal_cases s k fs) as [->|(r & Hr & ->)];
      [exact Hwf|now apply wf_install].
  - pose proof (Put_cases s k rd uniqueId fs) as Hc. cbv zeta in Hc.
    destruct (blob.ArLocalStore.Put parse s k rd uniqueId fs) as [[res s'] fs'].
    cbn [fst snd] in *.
    destruct Hc as [->|[(r & ->)|(r & Hr & ->)]];
      [exact Hwf|now apply wf_alloc_close|now apply wf_install].
  - exact Hwf.
  - now apply wf_finalize.
Qed.

(** C7: take any store reached from a new one by loads, puts, gets and
    finalizer runs. Once [Get] has handed out the reader of a keyspace and a
    consumer holds it, no further sequence of loads, puts (for this keyspace
    or another), gets and finalizer runs closes that reader or changes the
    entries it serves. *)
Theorem handed_out_reader_stays_open
    (wd : filepath.path) (fs0 : os.FS) (held0 held : gset nat)
    (before after : list blob.ArLocalStore.op) (k : string) (p : nat) :
  let st := blob.ArLocalStore.run parse held0
              (blob.ArLocalStore.NewArLocalStore wd, fs0) before in
  blob.ArLocalStore.Get st.1 k = Some p ->
  p ∈ held ->
  exists r,
    blob.heap st.1 !! p = Some r
    /\ blob.z_closed r = false
    /\ blob.heap (blob.ArLocalStore.run parse held st after).1 !! p = Some r.
Proof.
  intros st Hget Hheld.
  assert (Hwf : store_wf st.1) by (apply run_wf, wf_NewArLocalStore).
  destruct (proj1 Hwf k p Hget) as (r & Hr & Hopen).
  exists r. split; [exact Hr|]. split; [exact Hopen|].
  destruct (run_wf_keeps held after st p Hwf Hheld) as [_ Hk]. now apply Hk.
Qed.

End ArLocalStoreInvariant.

Lemma handed_out_reader_stays_open_witness :
  let parse := fun bs : list byte =>
    Some ({[ "e"%string := blob.mkArEntry (cache.mkEntryMeta [x01] [x02] 1 time.zero)
                             (Some (io.of_bytes bs)) ]} : gmap string blob.ArEntry) in
  let before := [blob.ArLocalStore.OpPut "a" (io.of_bytes [x61]) "AAAAAAAA";
                 blob.ArLocalStore.OpGet "a"] in
  let after := [blob.ArLocalStore.OpPut "a" (io.of_bytes [x62]) "BBBBBBBB";
                blob.ArLocalStore.OpFinalize 0;
                blob.ArLocalStore.OpLoadLocal "a";
                blob.ArLocalStore.OpFinalize 0] in
  let st := blob.ArLocalStore.run parse ∅
              (blob.ArLocalStore.NewArLocalStore ["work"%string],
               os.mkFS ∅ (fun _ _ => false)) before in
  exists r,
    blob.heap st.1 !! 0%nat = Some r
    /\ blob.z_closed r = false
    /\ blob.heap (blob.ArLocalStore.run parse {[0%nat]} st after).1 !! 0%nat = Some r.
Proof.
  intros parse before after st.
  apply (handed_out_reader_stays_open parse ["work"%string]
           (os.mkFS ∅ (fun _ _ => false)) ∅ {[0%nat]} before after "a" 0%nat).
  - vm_compute. reflexivity.
  - apply elem_of_singleton. reflexivity.
Defined.

(** ** The protocol engine: empty lines *)

Lemma ends_nonempty_snoc (pre : list (list byte * bool)) (line : list byte) (b : bool) :
  line <> [] -> ends_nonempty (pre ++ [(line, b)]).
Proof.
  intros Hne pre0 b0 H. apply app_inj_tail in H as [_ H]. apply Hne. congruence.
Qed.

Lemma nextValidLine_skip (k n : nat) (rest : list (list byte * bool)) (f : error) :
  LineChunkedReader.nextValidLine (k + n) (mkLineChunkedReader (emptyLines k ++ rest) f)
  = LineChunkedReader.nextValidLine n (mkLineChunkedReader rest f).
Proof.
  induction k as [|k IH]; [reflexivity|].
  cbn [Nat.add emptyLines repeat app LineChunkedReader.nextValidLine
       LineChunkedReader.ReadLine pending final].
  cbn [length Nat.eqb is_Some_b negb andb]. exact IH.
Qed.

Lemma nextValidLine_first (n m : nat) (rest : list (list byte * bool)) (f : error) :
  starts_nonempty rest ->
  LineChunkedReader.nextValidLine (S n) (mkLineChunkedReader rest f)
  = LineChunkedReader.nextValidLine (S m) (mkLineChunkedReader rest f).
Proof.
  intros Hs. cbn [LineChunkedReader.nextValidLine LineChunkedReader.ReadLine pending final].
  destruct rest as [|[line b] rest']; [reflexivity|].
  destruct line as [|c line]; [now contradiction (Hs b rest')|reflexivity].
Qed.

Lemma NextValidLine_skip (k : nat) (rest : list (list byte * bool)) (f : error) :
  (k <= 9)%nat -> starts_nonempty rest ->
  LineChunkedReader.NextValidLine (mkLineChunkedReader (emptyLines k ++ rest) f)
  = LineChunkedReader.NextValidLine (mkLineChunkedReader rest f).
Proof.
  intros Hk Hs. unfold LineChunkedReader.NextValidLine.
  replace 10%nat with (k + S (9 - k))%nat at 1 by lia.
  rewrite nextValidLine_skip. now apply nextValidLine_first.
Qed.

(** Inside [pre], which does not end with an empty line, the scan for the
    next valid line never reaches what follows [pre]. *)
Lemma nextValidLine_within (n : nat) (pre : list (list byte * bool)) (f : error) :
  pre <> [] -> ends_nonempty pre ->
  exists res pre',
    ends_nonempty pre'
    /\ forall X,
         LineChunkedReader.nextValidLine n (mkLineChunkedReader (pre ++ X) f)
         = (res, mkLineChunkedReader (pre' ++ X) f).
Proof.
  revert pre. induction n as [|n IH]; intros pre Hne Hend.
  - exists ([], false, Some ErrNoProgress), pre. split; [exact Hend|reflexivity].
  - destruct pre as [|[line b] pre']; [contradiction|].
    destruct line as [|c line].
    + assert (Hne' : pre' <> []).
      { intros ->. now apply (Hend [] b). }
      assert (Hend' : ends_nonempty pre').
      { intros pre0 b0 ->. now apply (Hend (([], b) :: pre0) b0). }
      destruct (IH pre' Hne' Hend') as (res & pre'' & H1 & H2).
      exists res, pre''. split; [exact H1|]. intros X.
      cbn [app LineChunkedReader.nextValidLine LineChunkedReader.ReadLine pending final].
      cbn [length Nat.eqb is_Some_b negb andb]. apply H2.
    + exists (c :: line, b, None), pre'. split.
      * intros pre0 b0 ->. now apply (Hend ((c :: line, b) :: pre0) b0).
      * intros X. reflexivity.
Qed.

Lemma NextValidLine_differ (r1 r2 : LineChunkedReader) :
  differ_by_empty_lines r1 r2 ->
  exists res r1' r2',
    LineChunkedReader.NextValidLine r1 = (res, r1')
    /\ LineChunkedReader.NextValidLine r2 = (res, r2')
    /\ differ_by_empty_lines r1' r2'.
Proof.
  intros [->|(pre & k & rest & Hk & Hend & Hstart & H1 & H2 & Hf)].
  - destruct (LineChunkedReader.NextValidLine r2) as [res r'].
    exists res, r', r'. repeat split. now left.
  - destruct r1 as [p1 f1], r2 as [p2 f2]. cbn in H1, H2, Hf. subst p1 p2 f2.
    destruct pre as [|x pre].
    + cbn [app]. rewrite NextValidLine_skip by assumption.
      destruct (LineChunkedReader.NextValidLine (mkLineChunkedReader rest f1)) as [res r'].
      exists res, r', r'. repeat split. now left.
    + destruct (nextValidLine_within 10 (x :: pre) f1 ltac:(discriminate) Hend)
        as (res & pre' & Hend' & Hx).
      exists res, (mkLineChunkedReader (pre' ++ emptyLines k ++ rest) f1),
        (mkLineChunkedReader (pre' ++ rest) f1).
      split; [apply Hx|]. split; [apply Hx|].
      right. exists pre', k, rest. now repeat split.
Qed.

Lemma nextValidLine_consumes (n : nat) (r r' : LineChunkedReader) line isPrefix :
  LineChunkedReader.nextValidLine n r = ((line, isPrefix, None), r') ->
  (length (pending r') < length (pending r))%nat.
Proof.
  revert r. induction n as [|n IH]; intros r H; [discriminate|].
  cbn [LineChunkedReader.nextValidLine] in H. unfold LineChunkedReader.ReadLine in H.
  destruct r as [[|[l b] rest] f]; cbn [pending final] in *.
  - cbn in H. discriminate.
  - destruct ((length l =? 0)%nat && negb (is_Some_b (@None error))).
    + apply IH in H. cbn in *. lia.
    + injection H as _ _ <-. cbn. lia.
Qed.

Section ReadLoopEmptyLines.

Variable decode : list byte -> option cacheprog.CacheProgRequest.

Lemma readBody_differ (n : nat) :
  forall (m : nat) (r1 r2 : LineChunkedReader) (acc : list byte),
    differ_by_empty_lines r1 r2 ->
    (length (pending r1) < n)%nat -> (length (pending r2) < m)%nat ->
    exists body err r1' r2',
      cacheprog.readBody n r1 acc = Some (body, err, r1')
      /\ cacheprog.readBody m r2 acc = Some (body, err, r2')
      /\ differ_by_empty_lines r1' r2'
      /\ (err = None ->
          (length (pending r1') < length (pending r1))%nat
          /\ (length (pending r2') < length (pending r2))%nat).
Proof.
  induction n as [|n IH]; intros m r1 r2 acc Hd H1 H2; [lia|].
  destruct m as [|m]; [lia|].
  destruct (NextValidLine_differ r1 r2 Hd) as ([[chunk isPrefix] err] & r1' & r2' & E1 & E2 & Hd').
  cbn [cacheprog.readBody]. rewrite E1, E2.
  destruct err as [e|].
  - exists acc, (Some e), r1', r2'.
    split; [reflexivity|]. split; [reflexivity|]. split; [exact Hd'|discriminate].
  - pose proof (nextValidLine_consumes _ _ _ _ _ E1) as L1.
    pose proof (nextValidLine_consumes _ _ _ _ _ E2) as L2.
    destruct isPrefix; cbn [negb].
    + destruct (IH m r1' r2' (acc ++ chunk) Hd' ltac:(lia) ltac:(lia))
        as (body & err & r1'' & r2'' & B1 & B2 & Hd'' & Hlen).
      exists body, err, r1'', r2''.
      split; [exact B1|]. split; [exact B2|]. split; [exact Hd''|].
      intros He. destruct (Hlen He). lia.
    + exists (acc ++ chunk), None, r1', r2'.
      split; [reflexivity|]. split; [reflexivity|]. split; [exact Hd'|].
      intros _. lia.
Qed.

Lemma readLoop_fuel_differ (n : nat) :
  forall (m : nat) (r1 r2 : LineChunkedReader),
    differ_by_empty_lines r1 r2 ->
    (length (pending r1) < n)%nat -> (length (pending r2) < m)%nat ->
    cacheprog.readLoop_fuel decode n r1 = cacheprog.readLoop_fuel decode m r2
    /\ (cacheprog.readLoop_fuel decode n r1).2 <> cacheprog.OutOfFuel.
Proof.
  induction n as [|n IH]; intros m r1 r2 Hd H1 H2; [lia|].
  destruct m as [|m]; [lia|].
  destruct (NextValidLine_differ r1 r2 Hd) as ([[line isPrefix] err] & r1' & r2' & E1 & E2 & Hd').
  cbn [cacheprog.readLoop_fuel]. rewrite E1, E2.
  destruct err as [e|].
  { destruct (cacheprog.isEOF e); split; [reflexivity|discriminate|reflexivity|discriminate]. }
  pose proof (nextValidLine_consumes _ _ _ _ _ E1) as L1.
  pose proof (nextValidLine_consumes _ _ _ _ _ E2) as L2.
  destruct isPrefix; [split; [reflexivity|discriminate]|].
  destruct (decode line) as [req|]; [|split; [reflexivity|discriminate]].
  assert (Hrec : forall r1'' r2'',
            differ_by_empty_lines r1'' r2'' ->
            (length (pending r1'') <= length (pending r1'))%nat ->
            (length (pending r2'') <= length (pending r2'))%nat ->
            cacheprog.readLoop_fuel decode n r1'' = cacheprog.readLoop_fuel decode m r2''
            /\ (cacheprog.readLoop_fuel decode n r1'').2 <> cacheprog.OutOfFuel).
  { intros r1'' r2'' Hd'' La Lb. apply IH; [exact Hd''|lia|lia]. }
  destruct (cacheprog.Command req).
  - destruct (cacheprog.BodySize req =? 0).
    + destruct (Hrec r1' r2' Hd' ltac:(lia) ltac:(lia)) as [Heq Hfuel].
      rewrite <- Heq.
      destruct (cacheprog.readLoop_fuel decode n r1') as [ds e]. now split.
    + destruct (readBody_differ n m r1' r2' [] Hd' ltac:(lia) ltac:(lia))
        as (body & err & r1'' & r2'' & B1 & B2 & Hd'' & Hlen).
      rewrite B1, B2. destruct err as [e|]; [split; [reflexivity|discriminate]|].
      destruct (Hlen eq_refl) as [La Lb].
      destruct (Hrec r1'' r2'' Hd'' ltac:(lia) ltac:(lia)) as [Heq Hfuel].
      rewrite <- Heq.
      destruct (cacheprog.readLoop_fuel decode n r1'') as [ds e]. now split.
  - destruct (Hrec r1' r2' Hd' ltac:(lia) ltac:(lia)) as [Heq Hfuel].
    rewrite <- Heq.
    destruct (cacheprog.readLoop_fuel decode n r1') as [ds e]. now split.
  - split; [reflexivity|discriminate].
  - destruct (Hrec r1' r2' Hd' ltac:(lia) ltac:(lia)) as [Heq Hfuel].
    rewrite <- Heq.
    destruct (cacheprog.readLoop_fuel decode n r1') as [ds e]. now split.
Qed.

(** [readLoop] returns: the fuel it starts with is never used up. *)
Lemma readLoop_returns (r : LineChunkedReader) :
  (cacheprog.readLoop decode r).2 <> cacheprog.OutOfFuel.
Proof.
  unfold cacheprog.readLoop.
  apply (readLoop_fuel_differ _ (S (length (pending r))) r r); [now left|lia|lia].
Qed.

(** C10 (amended): the engine does not tell how long a run of consecutive
    empty reads is, as long as the run has at most nine. When [k] empty
    lines are inserted at a place of the request stream where [j] empty
    reads stand already, between a read that is not empty and the next one
    that is not, and [j + k] is at most nine, the engine dispatches the
    same handlers with the same bodies in the same order and ends the same
    way as without the inserted lines, and it returns. Between two records
    [j] is zero, so up to nine empty lines are ignored there; directly
    after a line whose length is a positive multiple of the size of the
    buffer, the body line of a put for one, [j] is one, so up to eight
    are. *)
Theorem empty_lines_ignored
    (pre rest : list (list byte * bool)) (j k : nat) (f : error) :
  (j + k <= 9)%nat -> ends_nonempty pre -> starts_nonempty rest ->
  cacheprog.readLoop decode (mkLineChunkedReader (pre ++ emptyLines (j + k) ++ rest) f)
  = cacheprog.readLoop decode (mkLineChunkedReader (pre ++ emptyLines j ++ rest) f)
  /\ (cacheprog.readLoop decode
        (mkLineChunkedReader (pre ++ emptyLines (j + k) ++ rest) f)).2
     <> cacheprog.OutOfFuel.
Proof.
  intros Hk Hend Hstart.
  assert (A : forall i, (i <= 9)%nat ->
            cacheprog.readLoop decode (mkLineChunkedReader (pre ++ emptyLines i ++ rest) f)
            = cacheprog.readLoop decode (mkLineChunkedReader (pre ++ rest) f)).
  { intros i Hi. unfold cacheprog.readLoop.
    apply readLoop_fuel_differ; [|lia|lia].
    right. exists pre, i, rest. now repeat split. }
  split.
  - rewrite (A (j + k)%nat) by exact Hk. rewrite (A j) by lia. reflexivity.
  - apply readLoop_returns.
Qed.

End ReadLoopEmptyLines.

(** C10, the claim as stated fails: with ten empty lines between a get
    record and a close record the engine stops with a read error, where
    without them it ends normally. *)
Lemma ten_empty_lines_stop_the_engine :
  let get := ([x67], false) in
  let close := ([x63], false) in
  cacheprog.readLoop decode_letter (mkLineChunkedReader [get; close] ErrEOF)
  = ([cacheprog.DispatchGet (cacheprog.mkCacheProgRequest 1 cacheprog.CmdGet [x01] [] 0)],
     cacheprog.Returned None)
  /\ cacheprog.readLoop decode_letter
       (mkLineChunkedReader ([get] ++ emptyLines 10 ++ [close]) ErrEOF)
     = ([cacheprog.DispatchGet (cacheprog.mkCacheProgRequest 1 cacheprog.CmdGet [x01] [] 0)],
        cacheprog.Returned (Some (ErrReadStdin ErrNoProgress))).
Proof. split; vm_compute; reflexivity. Qed.

(** Why eight and not nine after a body line of 4096 bytes: the line ends
    in an empty read, and with nine empty lines after it the engine stops
    with a read error, where with eight it takes the record after them
    into the body. *)
Example nine_empty_lines_after_a_full_body_line :
  let put := ([x50], false) in
  let body := (repeat x61 4096, true) in
  let get := ([x67], false) in
  let close := ([x63], false) in
  let req := cacheprog.mkCacheProgRequest 4 cacheprog.CmdPut [x01] [x02] 4096 in
  cacheprog.readLoop decode_letter
    (mkLineChunkedReader ([put; body; ([], false)] ++ emptyLines 8 ++ [get; close]) ErrEOF)
  = ([cacheprog.DispatchPut req (repeat x61 4096 ++ [x67]) false], cacheprog.Returned None)
  /\ cacheprog.readLoop decode_letter
       (mkLineChunkedReader ([put; body; ([], false)] ++ emptyLines 9 ++ [get; close]) ErrEOF)
     = ([cacheprog.DispatchPut req (repeat x61 4096) true],
        cacheprog.Returned (Some (ErrReadPutBody ErrNoProgress))).
Proof. split; vm_compute; reflexivity. Qed.

Lemma empty_lines_ignored_witness :
  let put := ([x50], false) in
  let body := (repeat x61 4096, true) in
  let get := ([x67], false) in
  let close := ([x63], false) in
  (* nine empty lines between two records *)
  (cacheprog.readLoop decode_letter
     (mkLineChunkedReader ([get] ++ emptyLines (0 + 9) ++ [get; close]) ErrEOF)
   = cacheprog.readLoop decode_letter
       (mkLineChunkedReader ([get] ++ emptyLines 0 ++ [get; close]) ErrEOF)
   /\ (cacheprog.readLoop decode_letter
         (mkLineChunkedReader ([get] ++ emptyLines (0 + 9) ++ [get; close]) ErrEOF)).2
      <> cacheprog.OutOfFuel)
  (* eight empty lines after a body line of 4096 bytes *)
  /\ (cacheprog.readLoop decode_letter
        (mkLineChunkedReader ([put; body] ++ emptyLines (1 + 8) ++ [get; close]) ErrEOF)
      = cacheprog.readLoop decode_letter
          (mkLineChunkedReader ([put; body] ++ emptyLines 1 ++ [get; close]) ErrEOF)
      /\ (cacheprog.readLoop decode_letter
            (mkLineChunkedReader ([put; body] ++ emptyLines (1 + 8) ++ [get; close])
               ErrEOF)).2
         <> cacheprog.OutOfFuel).
Proof.
  cbv zeta. split.
  - apply (empty_lines_ignored decode_letter [([x67], false)]
             [([x67], false); ([x63], false)] 0 9 ErrEOF).
    + lia.
    + apply (ends_nonempty_snoc []). discriminate.
    + intros b rest' H. discriminate.
  - apply (empty_lines_ignored decode_letter [([x50], false); (repeat x61 4096, true)]
             [([x67], false); ([x63], false)] 1 8 ErrEOF).
    + lia.
    + apply (ends_nonempty_snoc [([x50], false)]). discriminate.
    + intros b rest' H. discriminate.
Defined.

(** ** The blob backend: the order of resolution *)

Lemma Put_materializes disk m body comp uniqueId now fs putResp fs' :
  local.Put disk (blob.BlobBackend.putOpts m body comp) uniqueId now fs = (Ok putResp, fs') ->
  0 < cache.Size m ->
  materialized disk m (io.avail body) (protocol.put_DiskPath putResp) fs'.
Proof.
  intros H Hpos. apply Put_Ok in H as [_ H].
  apply put_Ok_nonempty in H as (aP & oP & HaP & HoP & Hresp & Ha & Ho & _);
    [|exact Hpos].
  exists aP. cbn in HaP, HoP, Ha, Ho. rewrite Hresp.
  replace (put_meta (blob.BlobBackend.putOpts m body comp) now) with m in Ha
    by (now destruct m).
  now repeat split.
Qed.

Lemma wrapM_Ok {A : Type} (w : error -> error) (m : M A) fs a fs' :
  wrapM w m fs = (Ok a, fs') -> m fs = (Ok a, fs').
Proof.
  unfold wrapM. destruct (m fs) as [[a'|e|] fs1]; cbn; intros H; try discriminate.
  now injection H as <- <-.
Qed.

Lemma EnsureEmptyOutputFile_Ok disk fs p fs' :
  local.EnsureEmptyOutputFile disk fs = (Ok p, fs') ->
  p = local.emptyOutputPath disk
  /\ (forall q, q <> local.emptyOutputPath disk -> os.nodes fs' !! q = os.nodes fs !! q)
  /\ (os.Stat fs (local.emptyOutputPath disk) = inl (os.File []) -> fs' = fs).
Proof.
  unfold local.EnsureEmptyOutputFile.
  set (path := local.emptyOutputPath disk).
  assert (Hw : forall fs1, os.WriteFile fs path [] = Some fs1 ->
               forall q, q <> path -> os.nodes fs1 !! q = os.nodes fs !! q).
  { intros fs1 H q Hq. apply WriteFile_nodes in H as (Hn & _ & _ & _).
    rewrite Hn. now apply lookup_insert_ne. }
  destruct (os.Stat fs path) as [[[|b c]|]|se] eqn:Hstat.
  - intros H. injection H as <- <-. now repeat split.
  - destruct (os.WriteFile fs path []) as [fs1|] eqn:W; [|discriminate].
    intros H. injection H as <- <-. repeat split; [now apply Hw|discriminate].
  - destruct (os.WriteFile fs path []) as [fs1|] eqn:W; [|discriminate].
    intros H. injection H as <- <-. repeat split; [now apply Hw|discriminate].
  - destruct (os.WriteFile fs path []) as [fs1|] eqn:W; [|discriminate].
    intros H. injection H as <- <-. repeat split; [now apply Hw|discriminate].
Qed.

Section ResolutionOrder.

Variables (store : blob.BlobBackend) (opts : cache.GetOpts)
          (uniqueId : string) (now : time.Time).
Variables (a0 : byte) (A : list byte).
Hypothesis HactionID : protocol.get_ActionID (cache.get_Req opts) = a0 :: A.

Local Abbreviation actionID := (a0 :: A).
Local Abbreviation disk := (blob.diskStore store).
Local Abbreviation comp := (cache.get_IsInCompaction opts).
Local Abbreviation get := (blob.BlobBackend.get store opts uniqueId now).
Local Abbreviation entry := (bundleEntry store a0 A).
Local Abbreviation key := (objectKey a0 A).
Local Abbreviation tier1 := (tier1 store opts uniqueId now a0 A).
Local Abbreviation tier2 := (tier2 store opts uniqueId now a0 A).
Local Abbreviation tier3 := (tier3 store opts uniqueId now a0 A).
Local Abbreviation tier4 := (tier4 store opts uniqueId now a0 A).

Lemma get_unfold fs :
  get fs =
  match entry with
  | Some e =>
      if cache.Size (blob.meta e) =? 0 then blob.BlobBackend.fastPath store e fs
      else blob.BlobBackend.afterFastPath store opts uniqueId now entry fs
  | None => blob.BlobBackend.afterFastPath store opts uniqueId now entry fs
  end.
Proof.
  unfold blob.BlobBackend.get, bundleEntry. rewrite HactionID.
  cbn [length Nat.eqb blob.CacheEntityKeyspace]. unfold bindM at 1, lift at 1.
  destruct (blob.ArStore.GetBlob _ _ _) as [e|]; [|reflexivity].
  destruct (cache.Size (blob.meta e) =? 0); reflexivity.
Qed.

Lemma afterFastPath_local_hit fs r fs1 :
  local.Get disk opts fs = (Ok r, fs1) -> protocol.Miss r = false ->
  blob.BlobBackend.afterFastPath store opts uniqueId now entry fs = (Ok r, fs1).
Proof.
  intros Hget Hhit. unfold blob.BlobBackend.afterFastPath, bindM.
  now rewrite Hget, Hhit.
Qed.

Lemma afterFastPath_local_miss fs r fs1 :
  local.Get disk opts fs = (Ok r, fs1) -> protocol.Miss r = true ->
  blob.BlobBackend.afterFastPath store opts uniqueId now entry fs
  = match entry with
    | Some e => blob.BlobBackend.fromArchive store opts uniqueId now e fs1
    | None => blob.BlobBackend.download store opts uniqueId now fs1
    end.
Proof.
  intros Hget Hmiss. unfold blob.BlobBackend.afterFastPath, bindM.
  rewrite Hget, Hmiss. cbn [negb]. now destruct entry.
Qed.

Lemma heldByBundle_GetBlob : heldByBundle store a0 A = entry.
Proof.
  unfold heldByBundle, bundleEntry, keyspaceOf, blob.ArStore.GetBlob,
    blob.ArStore.GetArchive, blob.ArLocalStore.Get, blob.ArReader.Get,
    blob.CacheEntityNameInArchive, bytes_Equal.
  destruct (blob.readers _ !! _) as [p|]; [|reflexivity]. cbn.
  destruct (blob.heap _ !! p) as [r|]; [|reflexivity].
  destruct (blob.files r !! _) as [e|]; [|reflexivity].
  destruct (decide _) as [E|E].
  - now rewrite bool_decide_eq_true_2 by exact E.
  - now rewrite bool_decide_eq_false_2 by exact E.
Qed.

Lemma tier1_holds fs : tier1 fs.
Proof.
  intros e He Hsz p. rewrite heldByBundle_GetBlob in He.
  assert (Hg : get fs = blob.BlobBackend.fastPath store e fs).
  { rewrite get_unfold, He, Hsz. reflexivity. }
  unfold blob.BlobBackend.fastPath, bindM, local.EnsureEmptyOutputFile in Hg.
  fold p in Hg.
  assert (Hfile : os.Stat fs p <> inl (os.File []) ->
            get fs = match os.WriteFile fs p [] with
                     | Some fs' => (Ok (hitWith (blob.meta e) p), fs')
                     | None => (Err ErrEmptyOutput, fs)
                     end).
  { intros Hne. rewrite Hg.
    destruct (os.Stat fs p) as [[[|b c]|]|se]; [now contradiction Hne| | |];
      now destruct (os.WriteFile fs p []). }
  split; [|split; [|split]].
  - intros Hstat. rewrite Hg, Hstat. reflexivity.
  - intros Hne fs' W. rewrite (Hfile Hne), W. reflexivity.
  - intros Hne W. exists ErrEmptyOutput. rewrite (Hfile Hne), W. reflexivity.
  - intros r fs' H q Hq.
    assert (Hdec : os.Stat fs p = inl (os.File []) \/ os.Stat fs p <> inl (os.File [])).
    { destruct (os.Stat fs p) as [[[|b c]|]|se]; [now left|right..]; discriminate. }
    destruct Hdec as [Hstat|Hne].
    + rewrite Hg, Hstat in H. now injection H as _ <-.
    + rewrite (Hfile Hne) in H.
      destruct (os.WriteFile fs p []) as [fs1|] eqn:W.
      * injection H as _ <-. apply WriteFile_nodes in W as (Hn & _).
        rewrite Hn. now apply lookup_insert_ne.
      * now injection H as _ <-.
Qed.

Lemma not_fast_path fs :
  (forall e, entry = Some e -> cache.Size (blob.meta e) <> 0) ->
  get fs = blob.BlobBackend.afterFastPath store opts uniqueId now entry fs.
Proof.
  intros Hnz. rewrite get_unfold. destruct entry as [e|] eqn:He; [|reflexivity].
  specialize (Hnz e eq_refl). apply Z.eqb_neq in Hnz. now rewrite Hnz.
Qed.

Lemma not_held_empty :
  (forall e, heldByBundle store a0 A = Some e -> cache.Size (blob.meta e) <> 0) ->
  forall e, entry = Some e -> cache.Size (blob.meta e) <> 0.
Proof. intros H e He. apply H. now rewrite heldByBundle_GetBlob. Qed.

Lemma tier2_holds fs : tier2 fs.
Proof.
  intros Hnz r fs1 Hget. rewrite not_fast_path by now apply not_held_empty.
  destruct r as [resp|err|].
  - intros Hhit. now apply afterFastPath_local_hit.
  - unfold blob.BlobBackend.afterFastPath, bindM. now rewrite Hget.
  - unfold blob.BlobBackend.afterFastPath, bindM. now rewrite Hget.
Qed.

Lemma tier3_holds fs : tier3 fs.
Proof.
  intros e He Hnz r fs1 Hget Hmiss. rewrite heldByBundle_GetBlob in He.
  assert (Hg : get fs = blob.BlobBackend.fromArchive store opts uniqueId now e fs1).
  { rewrite not_fast_path by (intros e' He'; congruence).
    rewrite (afterFastPath_local_miss fs r fs1 Hget Hmiss). now rewrite He. }
  rewrite Hg. unfold blob.BlobBackend.fromArchive, blob.Open, localPutOf.
  unfold bindM, lift, wrapM, blob.BlobBackend.putOpts.
  split; [|split; [|split]].
  - intros body putResp fs' Hf HP. rewrite Hf, HP. cbn [wrap].
    split; [reflexivity|]. intros Hpos.
    exact (Put_materializes _ _ _ _ _ _ _ _ _ HP Hpos).
  - intros body err fs' Hf HP. rewrite Hf, HP. cbn [wrap]. now eexists.
  - intros body fs' Hf HP. rewrite Hf, HP. reflexivity.
  - intros Hf. rewrite Hf. now eexists.
Qed.

Lemma download_unfold fs1 :
  blob.BlobBackend.download store opts uniqueId now fs1
  = match blob.bucket store key with
    | blob.NotFound => (Ok protocol.miss, fs1)
    | blob.Unavailable => (Err ErrIO, fs1)
    | blob.Object rd =>
        (let! (m, r') := lift (wrap ErrReadMeta (cache.ReadEntryMeta rd)) in
         if negb (bytes_Equal (cache.ActionID m) (a0 :: A))
         then fail ErrActionIDMismatch
         else
           let! diskPutResp :=
             wrapM ErrPutDownloaded
               (local.Put disk (blob.BlobBackend.putOpts m r' comp) uniqueId now) in
           ret (blob.BlobBackend.hit m (protocol.put_DiskPath diskPutResp))) fs1
    end.
Proof.
  unfold blob.BlobBackend.download. rewrite HactionID.
  cbn [blob.CacheEntityKey]. fold (objectKey a0 A).
  unfold bindM at 1, lift at 1.
  now destruct (blob.bucket store key).
Qed.

Lemma tier4_holds fs : tier4 fs.
Proof.
  intros He r fs1 Hget Hmiss. rewrite heldByBundle_GetBlob in He.
  assert (Hg : get fs = blob.BlobBackend.download store opts uniqueId now fs1).
  { rewrite not_fast_path by (intros e' He'; congruence).
    rewrite (afterFastPath_local_miss fs r fs1 Hget Hmiss). now rewrite He. }
  rewrite Hg, download_unfold.
  split; [|split].
  - now intros ->.
  - intros ->. now eexists.
  - intros rd ->.
    split; [|split].
    + intros err ->. unfold bindM, lift. cbn [wrap]. now eexists.
    + intros m rd' -> Hne. unfold bindM at 1, lift at 1. cbn [wrap]. unfold bytes_Equal.
      rewrite bool_decide_eq_false_2 by exact Hne. reflexivity.
    + intros m rd' -> HA.
      assert (Hd : forall res fs',
                localPutOf store opts uniqueId now m rd' fs1 = (res, fs') ->
                (let! (m0, r') := lift (wrap ErrReadMeta (Ok (m, rd'))) in
                 if negb (bytes_Equal (cache.ActionID m0) (a0 :: A))
                 then fail ErrActionIDMismatch
                 else
                   let! diskPutResp :=
                     wrapM ErrPutDownloaded
                       (local.Put disk (blob.BlobBackend.putOpts m0 r' comp) uniqueId now) in
                   ret (blob.BlobBackend.hit m0 (protocol.put_DiskPath diskPutResp))) fs1
                = match res with
                  | Ok putResp => (Ok (hitWith m (protocol.put_DiskPath putResp)), fs')
                  | Err err => (Err (ErrPutDownloaded err), fs')
                  | Panic => (Panic, fs')
                  end).
      { intros res fs' HP. unfold bindM at 1, lift at 1. cbn [wrap]. unfold bytes_Equal.
        rewrite bool_decide_eq_true_2 by exact HA. cbn [negb].
        unfold localPutOf in HP. unfold bindM, wrapM, blob.BlobBackend.putOpts.
        rewrite HP. now destruct res. }
      split; [|split].
      * intros putResp fs' HP. rewrite (Hd _ _ HP). split; [reflexivity|].
        intros Hpos. exact (Put_materializes _ _ _ _ _ _ _ _ _ HP Hpos).
      * intros err fs' HP. rewrite (Hd _ _ HP). now eexists.
      * intros fs' HP. now rewrite (Hd _ _ HP).
Qed.

End ResolutionOrder.

(** C2: a get of a non-empty ActionID is resolved in this order. (1) When
    the keyspace bundle holds the entry with an empty body, the answer is a
    hit at the shared empty-output path, with no put on the local cache: the
    disk is left as it is when the empty output file is in place, and else
    only that file is written. (2) Otherwise the local disk cache is asked
    and its hit is returned as it is. (3) Otherwise a non-empty entry of
    the bundle is put in the local cache with the entry's time as
    [OverrideTime], and the answer is a hit at the path of the file just
    written. (4) Otherwise the remote object [b/XX/hex(ActionID)] is
    asked for: a miss when it is not found, a failure when its EntryMeta
    names another ActionID, and otherwise a put of the rest of the stream
    with the meta's time, answered with a hit at the path of the file just
    written. In (3) and (4) the get fails when the local put does. *)
Theorem get_resolution_order
    (store : blob.BlobBackend) (opts : cache.GetOpts)
    (uniqueId : string) (now : time.Time) (a0 : byte) (A : list byte) (fs : os.FS) :
  protocol.get_ActionID (cache.get_Req opts) = a0 :: A ->
  tier1 store opts uniqueId now a0 A fs
  /\ tier2 store opts uniqueId now a0 A fs
  /\ tier3 store opts uniqueId now a0 A fs
  /\ tier4 store opts uniqueId now a0 A fs.
Proof.
  intros HA. split; [|split; [|split]].
  - now apply tier1_holds.
  - now apply tier2_holds.
  - now apply tier3_holds.
  - now apply tier4_holds.
Qed.

Lemma get_resolution_order_witness :
  let disk := local.mkLocalBackend ["data"%string] false in
  let opts := cache.mkGetOpts (protocol.mkGetRequest [xab; xcd]) false in
  let t := time.Unix 1640995200 5 in
  let bundleOf := fun e : blob.ArEntry =>
    blob.mkArLocalStore ["work"%string] {[ "a"%string := 0%nat ]}
      {[ 0%nat := blob.mkArReader false {[ "abcd"%string := e ]} ]} 1 in
  let noBundle := blob.ArLocalStore.NewArLocalStore ["work"%string] in
  let nowhere := fun _ : string => blob.NotFound in
  (* the entries: empty in the bundle, local, non-empty in the bundle, remote *)
  let m1 := cache.mkEntryMeta [xab; xcd] [x10] 0 t in
  let m2 := cache.mkEntryMeta [xab; xcd] [x20] 3 t in
  let m3 := cache.mkEntryMeta [xab; xcd] [x30] 3 t in
  let m4 := cache.mkEntryMeta [xab; xcd] [x40] 3 t in
  let other := cache.mkEntryMeta [xab; xce] [x40] 3 t in
  let e1 := blob.mkArEntry m1 (Some (io.of_bytes [])) in
  let e3 := blob.mkArEntry m3 (Some (io.of_bytes [x62; x61; x72])) in
  let remote := fun m : cache.EntryMeta => fun key : string =>
    if String.eqb key "b/ab/abcd"
    then blob.Object (io.of_bytes (cache.WriteTo m ++ [x66; x6f; x6f]))
    else blob.NotFound in
  (* the disks: an opened store, and one that holds the entry [m2] as well *)
  let opened := os.mkFS {[ ["data"%string] := os.Directory;
                           ["data"; "_empty.output"]%string := os.File [] ]}
                  (fun _ _ => false) in
  let withLocal := os.mkFS {[ ["data"%string] := os.Directory;
                              ["data"; "_empty.output"]%string := os.File [];
                              ["data"; "ab"]%string := os.Directory;
                              ["data"; "ab"; "abcd.action"]%string
                                := os.File (cache.WriteTo m2);
                              ["data"; "20"]%string := os.Directory;
                              ["data"; "20"; "20.output"]%string
                                := os.File [x62; x61; x7a] ]}
                     (fun _ _ => false) in
  let get := fun bucket ar =>
    blob.BlobBackend.get (blob.mkBlobBackend false bucket disk ar) opts
      "ABCDEFGH" time.zero in
  let put := fun m body =>
    localPutOf (blob.mkBlobBackend false nowhere disk noBundle) opts
      "ABCDEFGH" time.zero m (io.of_bytes body) opened in
  (* (1) the bundle holds the empty entry: it answers, though the local
     cache and the bucket hold the entry too *)
  get (remote m4) (bundleOf e1) withLocal
  = (Ok (protocol.mkGetResponse false [x10] 0 (Some t) ["data"; "_empty.output"]%string),
     withLocal)
  (* (2) the local cache answers, though the bundle and the bucket hold the
     entry too *)
  /\ get (remote m4) (bundleOf e3) withLocal
     = (Ok (protocol.mkGetResponse false [x20] 3 (Some t) ["data"; "20"; "20.output"]%string),
        withLocal)
  (* (3) the bundle answers, though the bucket holds the entry too *)
  /\ (get (remote m4) (bundleOf e3) opened
      = (Ok (protocol.mkGetResponse false [x30] 3 (Some t)
               ["data"; "30"; "30.output"]%string),
         snd (put m3 [x62; x61; x72]))
      /\ materialized disk m3 [x62; x61; x72] ["data"; "30"; "30.output"]%string
           (snd (put m3 [x62; x61; x72])))
  (* (4) the bucket answers *)
  /\ (get (remote m4) noBundle opened
      = (Ok (protocol.mkGetResponse false [x40] 3 (Some t)
               ["data"; "40"; "40.output"]%string),
         snd (put m4 [x66; x6f; x6f]))
      /\ materialized disk m4 [x66; x6f; x6f] ["data"; "40"; "40.output"]%string
           (snd (put m4 [x66; x6f; x6f])))
  /\ get nowhere noBundle opened = (Ok protocol.miss, opened)
  /\ get (remote other) noBundle opened = (Err ErrActionIDMismatch, opened).
Proof.
  cbv zeta.
  set (disk := local.mkLocalBackend ["data"%string] false).
  set (opts := cache.mkGetOpts (protocol.mkGetRequest [xab; xcd]) false).
  set (t := time.Unix 1640995200 5).
  set (m1 := cache.mkEntryMeta [xab; xcd] [x10] 0 t).
  set (m2 := cache.mkEntryMeta [xab; xcd] [x20] 3 t).
  set (m3 := cache.mkEntryMeta [xab; xcd] [x30] 3 t).
  set (m4 := cache.mkEntryMeta [xab; xcd] [x40] 3 t).
  set (other := cache.mkEntryMeta [xab; xce] [x40] 3 t).
  set (e1 := blob.mkArEntry m1 (Some (io.of_bytes []))).
  set (e3 := blob.mkArEntry m3 (Some (io.of_bytes [x62; x61; x72]))).
  set (opened := os.mkFS {[ ["data"%string] := os.Directory;
                            ["data"; "_empty.output"]%string := os.File [] ]}
                   (fun _ _ => false)).
  set (withLocal := os.mkFS _ _).
  set (noBundle := blob.ArLocalStore.NewArLocalStore ["work"%string]).
  pose (bundleOf := fun e : blob.ArEntry =>
    blob.mkArLocalStore ["work"%string] {[ "a"%string := 0%nat ]}
      {[ 0%nat := blob.mkArReader false {[ "abcd"%string := e ]} ]} 1).
  pose (remote := fun m : cache.EntryMeta => fun key : string =>
    if String.eqb key "b/ab/abcd"
    then blob.Object (io.of_bytes (cache.WriteTo m ++ [x66; x6f; x6f]))
    else blob.NotFound).
  pose (order := fun bucket ar =>
    get_resolution_order (blob.mkBlobBackend false bucket disk ar) opts
      "ABCDEFGH" time.zero xab [xcd]).
  split; [|split; [|split; [|split; [|split]]]].
  - destruct (order (remote m4) (bundleOf e1) withLocal eq_refl) as (T1 & _).
    destruct (T1 e1 ltac:(vm_compute; reflexivity) eq_refl) as (H & _).
    apply H. vm_compute. reflexivity.
  - destruct (order (remote m4) (bundleOf e3) withLocal eq_refl) as (_ & T2 & _).
    refine (T2 _ (Ok (protocol.mkGetResponse false [x20] 3 (Some t)
                        ["data"; "20"; "20.output"]%string)) withLocal _ eq_refl).
    + intros e He. vm_compute in He. injection He as <-. cbn. lia.
    + vm_compute. reflexivity.
  - destruct (order (remote m4) (bundleOf e3) opened eq_refl) as (_ & _ & T3 & _).
    destruct (T3 e3 ltac:(vm_compute; reflexivity) ltac:(cbn; lia) protocol.miss opened
                ltac:(vm_compute; reflexivity) eq_refl) as (H & _).
    destruct (H (io.of_bytes [x62; x61; x72])
                (protocol.mkPutResponse ["data"; "30"; "30.output"]%string)
                (snd (localPutOf (blob.mkBlobBackend false (fun _ => blob.NotFound) disk
                                    noBundle) opts "ABCDEFGH" time.zero m3
                        (io.of_bytes [x62; x61; x72]) opened))
                eq_refl ltac:(vm_compute; reflexivity)) as [Hget Hmat].
    split; [exact Hget|]. apply Hmat. cbn. lia.
  - destruct (order (remote m4) noBundle opened eq_refl) as (_ & _ & _ & T4).
    destruct (T4 ltac:(vm_compute; reflexivity) protocol.miss opened
                ltac:(vm_compute; reflexivity) eq_refl) as (_ & _ & H).
    destruct (H (io.of_bytes (cache.WriteTo m4 ++ [x66; x6f; x6f])) eq_refl)
      as (_ & _ & H4).
    destruct (H4 m4 (io.mkReader [x66; x6f; x6f] false)
                ltac:(vm_compute; reflexivity) eq_refl) as (Hput & _).
    destruct (Hput (protocol.mkPutResponse ["data"; "40"; "40.output"]%string)
                (snd (localPutOf (blob.mkBlobBackend false (fun _ => blob.NotFound) disk
                                    noBundle) opts "ABCDEFGH" time.zero m4
                        (io.of_bytes [x66; x6f; x6f]) opened))
                ltac:(vm_compute; reflexivity)) as [Hget Hmat].
    split; [exact Hget|]. apply Hmat. cbn. lia.
  - destruct (order (fun _ => blob.NotFound) noBundle opened eq_refl) as (_ & _ & _ & T4).
    destruct (T4 ltac:(vm_compute; reflexivity) protocol.miss opened
                ltac:(vm_compute; reflexivity) eq_refl) as (H & _).
    now apply H.
  - destruct (order (remote other) noBundle opened eq_refl) as (_ & _ & _ & T4).
    destruct (T4 ltac:(vm_compute; reflexivity) protocol.miss opened
                ltac:(vm_compute; reflexivity) eq_refl) as (_ & _ & H).
    destruct (H (io.of_bytes (cache.WriteTo other ++ [x66; x6f; x6f])) eq_refl)
      as (_ & Hne & _).
    apply (Hne other (io.mkReader [x66; x6f; x6f] false)).
    + vm_compute. reflexivity.
    + discriminate.
Defined.



(** ** Object keys: the two directions *)

Lemma byte_of_Z_of_byte (b : byte) : byte_of_Z (Z_of_byte b) = b.
Proof.
  unfold byte_of_Z, Z_of_byte.
  pose proof (Byte.to_N_bounded b) as Hb.
  rewrite Z.mod_small by lia. rewrite N2Z.id. now rewrite Byte.of_to_N.
Qed.

Lemma fromHexChar_digit (n : N) :
  (n < 16)%N -> hex.fromHexChar (hex.digit n) = Some n.
Proof.
  intros Hn.
  destruct n as [|p]; [reflexivity|].
  do 4 (destruct p as [p|p|]; try reflexivity; try lia).
Qed.

Lemma DecodeString_EncodeToString (bs : list byte) :
  hex.DecodeString (hex.EncodeToString bs) = Ok bs.
Proof.
  induction bs as [|b bs IH]; [reflexivity|].
  cbn [hex.EncodeToString]. unfold hex.EncodeByte.
  rewrite !string_app_cons, string_app_nil.
  cbn [hex.DecodeString].
  pose proof (Byte.to_N_bounded b) as Hb.
  rewrite !fromHexChar_digit.
  - rewrite IH. cbn [bind]. f_equal. f_equal.
    rewrite <- (byte_of_Z_of_byte b) at 3. f_equal. unfold Z_of_byte. f_equal.
    pose proof (N.div_mod (Byte.to_N b) 16 ltac:(lia)). lia.
  - apply N.mod_lt. lia.
  - apply N.Div0.div_lt_upper_bound. lia.
Qed.

Lemma CacheEntityKey_Decode (a0 : byte) (A : list byte) (key : string) :
  blob.CacheEntityKey (a0 :: A) = Ok key ->
  blob.DecodeCacheEntityKey key = Ok (a0 :: A).
Proof.
  cbn [blob.CacheEntityKey]. intros E. injection E as <-.
  unfold hex.EncodeByte at 1.
  rewrite !string_app_cons, !string_app_nil.
  unfold blob.DecodeCacheEntityKey, char_differs.
  cbn [String.length String.get string_drop Nat.ltb Nat.leb orb Nat.eqb].
  rewrite !Ascii.eqb_refl. cbn [negb orb].
  change (hex.EncodeByte a0 +:+ hex.EncodeToString A) with (hex.EncodeToString (a0 :: A)).
  rewrite DecodeString_EncodeToString.
  cbn [blob.CacheEntityKey bind].
  unfold hex.EncodeByte at 1.
  rewrite !string_app_cons, !string_app_nil.
  now rewrite String.eqb_refl.
Qed.

Lemma DecodeCacheEntityKey_Ok (key : string) (actionID : list byte) :
  blob.DecodeCacheEntityKey key = Ok actionID -> blob.CacheEntityKey actionID = Ok key.
Proof.
  unfold blob.DecodeCacheEntityKey.
  destruct (_ || _ || _ || _); [discriminate|].
  destruct (hex.DecodeString (string_drop 5 key)) as [bs|e|]; try discriminate.
  destruct (blob.CacheEntityKey bs) as [key'|e|] eqn:E; cbn [bind]; try discriminate.
  destruct (String.eqb_spec key' key) as [->|]; [|discriminate].
  intros H. injection H as <-. exact E.
Qed.

Lemma CacheEntityKey_Ok (key : string) (actionID : list byte) :
  blob.CacheEntityKey actionID = Ok key -> blob.DecodeCacheEntityKey key = Ok actionID.
Proof.
  destruct actionID as [|a0 A]; [discriminate|]. apply CacheEntityKey_Decode.
Qed.

(** X1: [DecodeCacheEntityKey] and [CacheEntityKey] are inverse to each other: a
    key decodes to an ActionID exactly when it is the key of that ActionID.
    So every key that decodes is a key [CacheEntityKey] produces, and every
    key it produces (of a non-empty ActionID) decodes to its ActionID. *)
Theorem DecodeCacheEntityKey_inverts_CacheEntityKey (key : string) (actionID : list byte) :
  blob.DecodeCacheEntityKey key = Ok actionID <-> blob.CacheEntityKey actionID = Ok key.
Proof.
  split.
  - apply DecodeCacheEntityKey_Ok.
  - destruct actionID as [|a0 A]; [discriminate|]. apply CacheEntityKey_Decode.
Qed.

Lemma prefix_list_key (c d : ascii) (rest : string) :
  String.prefix (blob.ArchiveListPrefixKey (String c EmptyString))
    (String "b" (String "/" (String d rest))) = Ascii.eqb c d.
Proof.
  unfold blob.ArchiveListPrefixKey. rewrite !string_app_cons, string_app_nil.
  cbn [String.prefix].
  destruct (ascii_dec "b" "b") as [_|n]; [|congruence].
  destruct (ascii_dec "/" "/") as [_|n]; [|congruence].
  destruct (ascii_dec c d) as [->|n].
  - rewrite Ascii.eqb_refl. now destruct rest.
  - symmetry. now apply Ascii.eqb_neq.
Qed.

Lemma digit_keyspace (n : N) :
  (n < 16)%N -> In (String (hex.digit n) EmptyString) blob.ArchiveKeyspaces.
Proof.
  intros Hn. destruct n as [|p]; [cbn; tauto|].
  do 4 (destruct p as [p|p|]; try lia; try (cbn; tauto)).
Qed.

Lemma keyspace_single_char (ks : string) :
  In ks blob.ArchiveKeyspaces -> exists c, ks = String c EmptyString.
Proof.
  unfold blob.ArchiveKeyspaces. cbn [In].
  intros H. repeat (destruct H as [<-|H]; [eexists; reflexivity|]). contradiction.
Qed.

(** X2: The keyspaces partition the entity keys: the key of a non-empty
    ActionID lies under the list prefix of [CacheEntityKeyspace] of the
    ActionID, which is one of [ArchiveKeyspaces], and under the list prefix
    of no other keyspace. *)
Theorem keyspaces_partition_entity_keys (a0 : byte) (A : list byte) :
  exists ks key,
    blob.CacheEntityKeyspace (a0 :: A) = Ok ks
    /\ blob.CacheEntityKey (a0 :: A) = Ok key
    /\ In ks blob.ArchiveKeyspaces
    /\ forall ks', In ks' blob.ArchiveKeyspaces ->
         (String.prefix (blob.ArchiveListPrefixKey ks') key = true <-> ks' = ks).
Proof.
  pose proof (Byte.to_N_bounded a0) as Hb.
  exists (String (hex.digit (Byte.to_N a0 / 16)) EmptyString).
  eexists. split; [reflexivity|]. split; [reflexivity|]. split.
  - apply digit_keyspace. apply N.Div0.div_lt_upper_bound. lia.
  - intros ks' Hin. apply keyspace_single_char in Hin as [c ->].
    unfold hex.EncodeByte at 1. rewrite !string_app_cons, !string_app_nil.
    rewrite prefix_list_key. split.
    + intros H. apply Ascii.eqb_eq in H. now subst.
    + intros H. injection H as ->. apply Ascii.eqb_refl.
Qed.

(** X3: The bundle object of a keyspace is kept apart from the entries: its key
    is rejected by [DecodeCacheEntityKey] as invalid, and it lies under the
    list prefix of no keyspace, whatever strings the keyspaces are. *)
Theorem ArchiveKey_is_no_entity_key (keyspace ks' : string) :
  blob.DecodeCacheEntityKey (blob.ArchiveKey keyspace) = Err ErrInvalidKey
  /\ String.prefix (blob.ArchiveListPrefixKey ks') (blob.ArchiveKey keyspace) = false.
Proof.
  unfold blob.ArchiveKey, blob.ArchiveListPrefixKey.
  rewrite !string_app_cons, !string_app_nil. split.
  - unfold blob.DecodeCacheEntityKey, char_differs.
    cbn [String.get]. cbn [Ascii.eqb Bool.eqb negb orb andb].
    now rewrite orb_true_r.
  - cbn [String.prefix].
    destruct (ascii_dec "b" "b") as [_|n]; [|congruence].
    now destruct (ascii_dec "/" "l").
Qed.

(** ** EntryMeta codec: reading, then writing *)

Lemma get_le_range (bs : list byte) : 0 <= get_le bs < 256 ^ Z.of_nat (length bs).
Proof.
  induction bs as [|b bs IH]; [cbn; lia|].
  cbn [get_le length]. rewrite Nat2Z.inj_succ, Z.pow_succ_r by lia.
  pose proof (Z_of_byte_range b). lia.
Qed.

Lemma put_get_le (bs : list byte) : put_le (length bs) (get_le bs) = bs.
Proof.
  induction bs as [|b bs IH]; [reflexivity|].
  cbn [length put_le get_le].
  pose proof (Z_of_byte_range b) as Hb.
  assert (Em : (Z_of_byte b + 256 * get_le bs) mod 256 = Z_of_byte b).
  { replace (Z_of_byte b + 256 * get_le bs) with (Z_of_byte b + get_le bs * 256) by lia.
    rewrite Z.mod_add by lia. apply Z.mod_small; lia. }
  assert (Ed : (Z_of_byte b + 256 * get_le bs) / 256 = get_le bs).
  { replace (Z_of_byte b + 256 * get_le bs) with (Z_of_byte b + get_le bs * 256) by lia.
    rewrite Z.div_add by lia. rewrite Z.div_small by lia. lia. }
  f_equal.
  - rewrite <- (byte_of_Z_of_byte b) at 2. unfold byte_of_Z at 1 2.
    rewrite Em. rewrite (Z.mod_small (Z_of_byte b)) by lia. reflexivity.
  - rewrite Z.shiftr_div_pow2 by lia. change (2 ^ 8) with 256.
    rewrite Ed. exact IH.
Qed.

Lemma ReadFull_Ok (r r1 : io.Reader) (n : nat) (bs : list byte) :
  io.ReadFull r n = Ok (bs, r1) ->
  io.avail r = bs ++ io.avail r1 /\ length bs = n /\ io.failing r1 = io.failing r.
Proof.
  unfold io.ReadFull.
  destruct (Nat.leb_spec n (length (io.avail r))) as [Hle|Hgt].
  - intros H. injection H as <- <-. cbn [io.avail io.failing].
    split; [now rewrite firstn_skipn|]. split; [|reflexivity].
    rewrite length_firstn. lia.
  - destruct (io.failing r); [discriminate|]. destruct (io.avail r); discriminate.
Qed.

Lemma uint64_int64 (u : Z) : 0 <= u < 2 ^ 64 -> uint64 (int64 u) = u.
Proof.
  unfold uint64, int64. intros Hu.
  rewrite Zminus_mod_idemp_l.
  replace (u + 2 ^ 63 - 2 ^ 63) with u by lia.
  apply Z.mod_small; lia.
Qed.

(** [time.Unix(0, n)] is the instant [n] nanoseconds after the epoch. *)
Lemma UnixNano_Unix (n : Z) : is_int64 n -> time.UnixNano (time.Unix 0 n) = n.
Proof.
  intros Hn. unfold time.UnixNano.
  assert (E : time.unixSec (time.Unix 0 n) * 10 ^ 9 + time.nsec (time.Unix 0 n) = n).
  { unfold time.Unix.
    assert (HB : 10 ^ 9 = 1000000000) by reflexivity. rewrite !HB.
    destruct ((n <? 0) || (1000000000 <=? n)); [|cbn; lia].
    pose proof (Z.quot_rem' n 1000000000) as Hqr.
    remember (Z.quot n 1000000000) as q. remember (Z.rem n 1000000000) as r.
    destruct (n - q * 1000000000 <? 0); cbn [time.unixSec time.nsec]; lia. }
  rewrite E. now apply int64_small.
Qed.

Lemma reencode_time (u : Z) :
  0 <= u < 2 ^ 64 ->
  uint64 (time.UnixNano
            (if int64 u =? time.UnixNano time.zero then time.zero
             else time.Unix 0 (int64 u))) = u.
Proof.
  intros Hu. destruct (Z.eqb_spec (int64 u) (time.UnixNano time.zero)) as [E|_].
  - rewrite <- E. now apply uint64_int64.
  - rewrite UnixNano_Unix by apply int64_range. now apply uint64_int64.
Qed.

Lemma firstn_skipn_length {A : Type} (n : nat) (l : list A) :
  (n <= length l)%nat -> length (firstn n l) = n.
Proof. intros H. rewrite length_firstn. lia. Qed.

(** X4: Whatever [ReadEntryMeta] accepts is a serialization: when it returns
    [m], the bytes it consumed are exactly [WriteTo m], the rest of the
    stream (the body) is left in the reader untouched. This direction holds
    without any condition on the times. *)
Theorem WriteTo_inverts_ReadEntryMeta (r r' : io.Reader) (m : cache.EntryMeta) :
  cache.ReadEntryMeta r = Ok (m, r') ->
  io.avail r = cache.WriteTo m ++ io.avail r'
  /\ io.failing r' = io.failing r.
Proof.
  unfold cache.ReadEntryMeta.
  destruct (io.ReadFull r 8) as [[lengthHeader r1]|e|] eqn:E1; cbn [bind]; try discriminate.
  apply ReadFull_Ok in E1 as (Ha1 & Hl1 & Hf1).
  set (actionIDLen := Z.to_nat (Uint32 (firstn 4 lengthHeader))).
  set (outputIDLen := Z.to_nat (Uint32 (skipn 4 lengthHeader))).
  destruct (io.ReadFull r1 (actionIDLen + outputIDLen + 16))
    as [[remainingBuf r2]|e|] eqn:E2; cbn [bind]; try discriminate.
  apply ReadFull_Ok in E2 as (Ha2 & Hl2 & Hf2).
  intros H. injection H as <- <-. split; [|congruence].
  rewrite Ha1, Ha2. rewrite app_assoc. f_equal.
  unfold cache.WriteTo. cbn [cache.ActionID cache.OutputID cache.Size cache.Time].
  set (A := firstn actionIDLen remainingBuf).
  set (buf1 := skipn actionIDLen remainingBuf).
  set (O := firstn outputIDLen buf1).
  set (buf2 := skipn outputIDLen buf1).
  assert (HlA : length A = actionIDLen) by (apply firstn_skipn_length; lia).
  assert (Hlb1 : length buf1 = (outputIDLen + 16)%nat)
    by (unfold buf1; rewrite length_skipn; lia).
  assert (HlO : length O = outputIDLen) by (apply firstn_skipn_length; lia).
  assert (Hlb2 : length buf2 = 16%nat) by (unfold buf2; rewrite length_skipn; lia).
  assert (Hh : lengthHeader = firstn 4 lengthHeader ++ skipn 4 lengthHeader)
    by (now rewrite firstn_skipn).
  assert (Hh1 : length (firstn 4 lengthHeader) = 4%nat) by (apply firstn_skipn_length; lia).
  assert (Hh2 : length (skipn 4 lengthHeader) = 4%nat) by (rewrite length_skipn; lia).
  assert (Hr : remainingBuf = A ++ O ++ firstn 8 buf2 ++ skipn 8 buf2).
  { unfold A, O, buf2, buf1. now rewrite !firstn_skipn. }
  assert (Hs1 : length (firstn 8 buf2) = 8%nat) by (apply firstn_skipn_length; lia).
  assert (Hs2 : length (skipn 8 buf2) = 8%nat) by (rewrite length_skipn; lia).
  assert (Hu32 : forall bs, length bs = 4%nat ->
            PutUint32 (uint32 (Z.of_nat (Z.to_nat (Uint32 bs)))) = bs).
  { intros bs Hbs. unfold Uint32. rewrite firstn_all2 by lia.
    pose proof (get_le_range bs) as Hg. rewrite Hbs in Hg.
    change (256 ^ Z.of_nat 4) with (2 ^ 32) in Hg.
    rewrite Z2Nat.id by lia. unfold uint32. rewrite Z.mod_small by lia.
    unfold PutUint32. rewrite <- Hbs at 1. apply put_get_le. }
  assert (Hu64 : forall bs, length bs = 8%nat -> 0 <= Uint64 bs < 2 ^ 64
                            /\ PutUint64 (Uint64 bs) = bs).
  { intros bs Hbs. unfold Uint64. rewrite firstn_all2 by lia.
    pose proof (get_le_range bs) as Hg. rewrite Hbs in Hg.
    change (256 ^ Z.of_nat 8) with (2 ^ 64) in Hg. split; [exact Hg|].
    unfold PutUint64. rewrite <- Hbs at 1. apply put_get_le. }
  rewrite Hh at 1. rewrite Hr at 1.
  rewrite HlA, HlO. fold actionIDLen outputIDLen.
  unfold actionIDLen at 1, outputIDLen at 1.
  rewrite !Hu32 by assumption.
  rewrite (firstn_all2 (n := 8) (skipn 8 buf2)) by lia.
  destruct (Hu64 (firstn 8 buf2) Hs1) as [Hrange1 Hput1].
  destruct (Hu64 (skipn 8 buf2) Hs2) as [Hrange2 Hput2].
  rewrite uint64_int64 by exact Hrange1.
  rewrite reencode_time by exact Hrange2.
  rewrite Hput1, Hput2.
  now rewrite <- !app_assoc.
Qed.

Lemma WriteTo_inverts_ReadEntryMeta_witness :
  let m := cache.mkEntryMeta [x01] [x02] 3 (time.Unix 7 0) in
  io.avail (io.of_bytes (cache.WriteTo m ++ [x66; x6f; x6f]))
  = cache.WriteTo m ++ io.avail (io.of_bytes [x66; x6f; x6f])
  /\ io.failing (io.of_bytes [x66; x6f; x6f])
     = io.failing (io.of_bytes (cache.WriteTo m ++ [x66; x6f; x6f])).
Proof.
  cbv zeta.
  apply (WriteTo_inverts_ReadEntryMeta
           (io.of_bytes (cache.WriteTo (cache.mkEntryMeta [x01] [x02] 3 (time.Unix 7 0))
                         ++ [x66; x6f; x6f]))
           (io.of_bytes [x66; x6f; x6f])
           (cache.mkEntryMeta [x01] [x02] 3 (time.Unix 7 0))).
  vm_compute. reflexivity.
Defined.

Lemma ReadFull_short (bs : list byte) (n : nat) :
  (length bs < n)%nat ->
  io.ReadFull (io.of_bytes bs) n
  = Err (if (length bs =? 0)%nat then ErrEOF else ErrUnexpectedEOF).
Proof.
  intros H. unfold io.ReadFull, io.of_bytes. cbn [io.avail io.failing].
  destruct (Nat.leb_spec n (length bs)); [lia|].
  now destruct bs.
Qed.

(** X5: A truncated header is never accepted: on every proper prefix of
    [WriteTo m], [ReadEntryMeta] fails, with [io.EOF] when the prefix is
    empty or ends right after the two length fields, and with
    [io.ErrUnexpectedEOF] otherwise. *)
Theorem ReadEntryMeta_rejects_truncated (m : cache.EntryMeta) (k : nat) :
  Z.of_nat (length (cache.ActionID m)) < 2 ^ 32 ->
  Z.of_nat (length (cache.OutputID m)) < 2 ^ 32 ->
  (k < cache.SerializedSize m)%nat ->
  cache.ReadEntryMeta (io.of_bytes (firstn k (cache.WriteTo m)))
  = Err (if (k =? 0)%nat || (k =? 8)%nat then ErrEOF else ErrUnexpectedEOF).
Proof.
  intros HA HO Hk.
  pose proof (length_WriteTo m) as HW.
  unfold cache.ReadEntryMeta. unfold cache.SerializedSize in Hk, HW.
  destruct (Nat.lt_ge_cases k 8) as [Hlt|Hge].
  - rewrite ReadFull_short by (rewrite length_firstn; lia).
    rewrite length_firstn, Nat.min_l by lia. cbn [bind].
    destruct k as [|k]; [reflexivity|].
    replace (S k =? 8)%nat with false by (symmetry; apply Nat.eqb_neq; lia).
    reflexivity.
  - unfold cache.WriteTo in *. destruct m as [A O sz t].
    unfold cache.SerializedSize in *.
    cbn [cache.ActionID cache.OutputID cache.Size cache.Time] in *.
    set (la := PutUint32 (uint32 (Z.of_nat (length A)))) in *.
    set (lo := PutUint32 (uint32 (Z.of_nat (length O)))) in *.
    set (body := A ++ O ++ PutUint64 (uint64 sz) ++ PutUint64 (uint64 (time.UnixNano t))) in *.
    assert (Hla : length la = 4%nat) by apply length_put_le.
    assert (Hlo : length lo = 4%nat) by apply length_put_le.
    assert (Hlb : length body = (length A + length O + 16)%nat).
    { unfold body, PutUint64. rewrite !length_app, !length_put_le. lia. }
    assert (Hsplit : firstn k (la ++ lo ++ body) = (la ++ lo) ++ firstn (k - 8) body).
    { rewrite app_assoc. rewrite firstn_app. rewrite length_app, Hla, Hlo.
      rewrite firstn_all2 by (rewrite length_app; lia). reflexivity. }
    rewrite Hsplit. unfold io.of_bytes.
    rewrite ReadFull_app by (rewrite length_app; lia). cbn [bind].
    rewrite (firstn_app_exact la lo) by lia.
    rewrite (skipn_app_exact la lo) by lia.
    assert (E1 : Uint32 la = Z.of_nat (length A)).
    { rewrite <- (app_nil_r la). unfold la. rewrite Uint32_PutUint32; unfold uint32.
      - apply Z.mod_small; lia.
      - apply Z.mod_pos_bound; lia. }
    assert (E2 : Uint32 lo = Z.of_nat (length O)).
    { rewrite <- (app_nil_r lo). unfold lo. rewrite Uint32_PutUint32; unfold uint32.
      - apply Z.mod_small; lia.
      - apply Z.mod_pos_bound; lia. }
    rewrite E1, E2, !Nat2Z.id.
    change (io.mkReader (firstn (k - 8) body) false) with (io.of_bytes (firstn (k - 8) body)).
    rewrite ReadFull_short by (rewrite length_firstn; lia).
    rewrite length_firstn, Nat.min_l by lia. cbn [bind].
    replace (k =? 0)%nat with false by (symmetry; apply Nat.eqb_neq; lia).
    cbn [orb].
    destruct (Nat.eqb_spec k 8) as [->|Hne]; [reflexivity|].
    replace (k - 8 =? 0)%nat with false by (symmetry; apply Nat.eqb_neq; lia).
    reflexivity.
Qed.

Lemma ReadEntryMeta_rejects_truncated_witness :
  cache.ReadEntryMeta
    (io.of_bytes (firstn 10 (cache.WriteTo (cache.mkEntryMeta [x01] [x02] 3 (time.Unix 7 0)))))
  = Err (if (10 =? 0)%nat || (10 =? 8)%nat then ErrEOF else ErrUnexpectedEOF).
Proof.
  apply (ReadEntryMeta_rejects_truncated
           (cache.mkEntryMeta [x01] [x02] 3 (time.Unix 7 0)) 10).
  - cbn. lia.
  - cbn. lia.
  - cbn. lia.
Defined.

(** ** What a call leaves on the disk

    [frame P] and [only_removes P] are preorders, and [respects] goes
    through the combinators calls are written with. *)

Lemma frame_refl P fs : frame P fs fs.
Proof. now split. Qed.

Lemma frame_trans P fs1 fs2 fs3 : frame P fs1 fs2 -> frame P fs2 fs3 -> frame P fs1 fs3.
Proof.
  intros [B1 N1] [B2 N2]. split; [congruence|].
  intros q Hq. rewrite N2, N1 by assumption. reflexivity.
Qed.

Lemma frame_weaken (P Q : filepath.path -> Prop) fs fs' :
  (forall q, P q -> Q q) -> frame P fs fs' -> frame Q fs fs'.
Proof. intros HPQ [B N]. split; [exact B|]. intros q Hq. apply N. auto. Qed.

Lemma only_removes_refl P fs : only_removes P fs fs.
Proof. split; [reflexivity|]. intros; now left. Qed.

Lemma only_removes_trans P fs1 fs2 fs3 :
  only_removes P fs1 fs2 -> only_removes P fs2 fs3 -> only_removes P fs1 fs3.
Proof.
  intros [B1 N1] [B2 N2]. split; [congruence|].
  intros q Hq. destruct (N2 q Hq) as [E|E]; [|now right].
  rewrite E. now apply N1.
Qed.

Lemma frame_only_removes P fs fs' : frame P fs fs' -> only_removes P fs fs'.
Proof. intros [B N]. split; [exact B|]. intros q Hq. left. now apply N. Qed.

Section Respects.

Variable R : os.FS -> os.FS -> Prop.
Hypothesis R_refl : forall fs, R fs fs.
Hypothesis R_trans : forall fs1 fs2 fs3, R fs1 fs2 -> R fs2 fs3 -> R fs1 fs3.

Lemma respects_ret {A : Type} (a : A) : respects R (ret a).
Proof. intros fs r fs' H. injection H as _ <-. apply R_refl. Qed.

Lemma respects_fail {A : Type} (e : error) : respects R (@fail A e).
Proof. intros fs r fs' H. injection H as _ <-. apply R_refl. Qed.

Lemma respects_lift {A : Type} (x : result A) : respects R (lift x).
Proof. intros fs r fs' H. injection H as _ <-. apply R_refl. Qed.

Lemma respects_logArgs {A : Type} (args : list (result A)) : respects R (logArgs args).
Proof. intros fs r fs' H. injection H as _ <-. apply R_refl. Qed.

Lemma respects_bindM {A B : Type} (m : M A) (k : A -> M B) :
  respects R m -> (forall a, respects R (k a)) -> respects R (bindM m k).
Proof.
  intros Hm Hk fs r fs' H. unfold bindM in H.
  destruct (m fs) as [[a|e|] fs1] eqn:E.
  - eapply R_trans; [eapply Hm; exact E|eapply Hk; exact H].
  - injection H as _ <-. eapply Hm; exact E.
  - injection H as _ <-. eapply Hm; exact E.
Qed.

Lemma respects_sys (e : error) (call : os.FS -> option os.FS) :
  (forall fs fs', call fs = Some fs' -> R fs fs') -> respects R (sys e call).
Proof.
  intros Hc fs r fs' H. unfold sys in H.
  destruct (call fs) as [fs1|] eqn:E; injection H as _ <-; [now apply Hc|apply R_refl].
Qed.

Lemma respects_wrapM {A : Type} (w : error -> error) (m : M A) :
  respects R m -> respects R (wrapM w m).
Proof.
  intros Hm fs r fs' H. unfold wrapM in H.
  destruct (m fs) as [r1 fs1] eqn:E. injection H as _ <-. eapply Hm; exact E.
Qed.

End Respects.

(** ** Footprints of the file system calls *)

Lemma MkdirAll_frame fs p fs' :
  os.MkdirAll fs p = Some fs' -> frame (fun q => q `prefix_of` p) fs fs'.
Proof.
  intros H. split; [now apply (MkdirAll_broken _ _ _ H)|].
  intros q Hq. now apply (MkdirAll_outside _ _ _ _ H).
Qed.

Lemma Create_frame fs p fs' :
  os.Create fs p = Some fs' -> frame (fun q => q = p) fs fs'.
Proof.
  intros H. apply Create_nodes in H as [N B]. split; [exact B|].
  intros q Hq. rewrite N. now apply lookup_insert_ne; congruence.
Qed.

Lemma Write_frame fs p data fs' :
  os.Write fs p data = Some fs' -> frame (fun q => q = p) fs fs'.
Proof.
  intros H. apply Write_nodes in H as [N B]. split; [exact B|].
  intros q Hq. rewrite N. now apply lookup_insert_ne; congruence.
Qed.

Lemma WriteFile_frame fs p data fs' :
  os.WriteFile fs p data = Some fs' -> frame (fun q => q = p) fs fs'.
Proof.
  intros H. apply WriteFile_nodes in H as (N & B & _ & _). split; [exact B|].
  intros q Hq. rewrite N. now apply lookup_insert_ne; congruence.
Qed.

Lemma Rename_frame fs src dst fs' :
  os.Rename fs src dst = Some fs' -> frame (fun q => q = src \/ q = dst) fs fs'.
Proof.
  intros H. apply Rename_nodes in H as (n & _ & N & B). split; [exact B|].
  intros q Hq. rewrite N.
  rewrite lookup_insert_ne by (intros ->; tauto).
  apply lookup_delete_ne. intros ->; tauto.
Qed.

Lemma Remove_frame fs p : frame (fun q => q = p) fs (os.Remove fs p).
Proof.
  unfold os.Remove. destruct (os.broken fs os.SysRemove p); [apply frame_refl|].
  split; [reflexivity|]. intros q Hq. cbn. apply lookup_delete_ne. congruence.
Qed.

Lemma Remove_only_removes P fs p : only_removes P fs (os.Remove fs p).
Proof.
  unfold os.Remove. destruct (os.broken fs os.SysRemove p); [apply only_removes_refl|].
  split; [reflexivity|]. intros q _. cbn.
  destruct (decide (q = p)) as [->|Hne].
  - right. apply lookup_delete_eq.
  - left. now apply lookup_delete_ne.
Qed.

Lemma EnsureEmptyOutputFile_frame store :
  respects (frame (fun q => q = local.emptyOutputPath store))
    (local.EnsureEmptyOutputFile store).
Proof.
  intros fs r fs' H. unfold local.EnsureEmptyOutputFile in H.
  assert (Hw : forall r fs',
            match os.WriteFile fs (local.emptyOutputPath store) [] with
            | Some fs'0 => (Ok (local.emptyOutputPath store), fs'0)
            | None => (Err ErrEmptyOutput, fs)
            end = (r, fs') ->
            frame (fun q => q = local.emptyOutputPath store) fs fs').
  { intros r0 fs0 H0.
    destruct (os.WriteFile fs (local.emptyOutputPath store) []) as [fs1|] eqn:W;
      injection H0 as _ <-; [now apply (WriteFile_frame _ _ _ _ W)|apply frame_refl]. }
  destruct (os.Stat fs (local.emptyOutputPath store)) as [[[|b c]|]|se];
    try (now apply (Hw r fs')).
  injection H as _ <-. apply frame_refl.
Qed.

(** ** The local cache: a get of an entry that is on disk *)

Lemma EnsureEmptyOutputFile_node store fs p fs' :
  local.EnsureEmptyOutputFile store fs = (Ok p, fs') ->
  os.nodes fs' !! local.emptyOutputPath store = Some (os.File []).
Proof.
  unfold local.EnsureEmptyOutputFile, os.Stat, os.WriteFile.
  destruct (os.broken fs os.SysStat (local.emptyOutputPath store));
    destruct (os.broken fs os.SysWriteFile (local.emptyOutputPath store));
    destruct (negb (os.parentIsDir fs (local.emptyOutputPath store)));
    destruct (os.nodes fs !! local.emptyOutputPath store) as [[[|b c]|]|] eqn:E;
    intros H; try discriminate; injection H as _ <-;
    try exact E; cbn; apply lookup_insert_eq.
Qed.

Lemma readMeta_WriteTo (m : cache.EntryMeta) :
  Z.of_nat (length (cache.ActionID m)) < 2 ^ 32 ->
  Z.of_nat (length (cache.OutputID m)) < 2 ^ 32 ->
  is_int64 (cache.Size m) ->
  local.readMeta (os.File (cache.WriteTo m))
  = Ok (cache.mkEntryMeta (cache.ActionID m) (cache.OutputID m) (cache.Size m)
          (reread_time (cache.Time m))).
Proof.
  intros HA HO Hsz. unfold local.readMeta, io.of_bytes.
  rewrite <- (app_nil_r (cache.WriteTo m)).
  rewrite ReadEntryMeta_WriteTo by assumption. reflexivity.
Qed.

Lemma get_hit store opts m aP oP fs :
  local.actionPath store (protocol.get_ActionID (cache.get_Req opts)) = Ok aP ->
  local.outputPath store (cache.OutputID m) = Ok oP ->
  os.broken fs os.SysOpen aP = false ->
  os.nodes fs !! aP = Some (os.File (cache.WriteTo m)) ->
  cache.ActionID m = protocol.get_ActionID (cache.get_Req opts) ->
  Z.of_nat (length (cache.ActionID m)) < 2 ^ 32 ->
  Z.of_nat (length (cache.OutputID m)) < 2 ^ 32 ->
  is_int64 (cache.Size m) ->
  (if cache.Size m =? 0
   then os.Stat fs (local.emptyOutputPath store) = inl (os.File [])
   else exists body, os.Stat fs oP = inl (os.File body)
                     /\ Z.of_nat (length body) = cache.Size m) ->
  local.get store opts fs
  = (Ok (hit_of m (if cache.Size m =? 0 then local.emptyOutputPath store else oP)), fs).
Proof.
  intros HaP HoP Hopen Hnode HA HlA HlO Hsz Hbody.
  unfold local.get. rewrite HaP. unfold bindM at 1, lift at 1.
  unfold os.Open. rewrite Hopen, Hnode.
  rewrite readMeta_WriteTo by assumption.
  unfold bindM at 1, lift at 1. cbn [cache.ActionID cache.OutputID cache.Size cache.Time].
  rewrite HA. unfold bytes_Equal. rewrite bool_decide_eq_true_2 by reflexivity.
  cbn [negb]. rewrite HoP. unfold bindM at 1, lift at 1.
  unfold bindM, ret, hit_of.
  destruct (cache.Size m =? 0) eqn:Ez.
  - unfold local.EnsureEmptyOutputFile. rewrite Hbody. reflexivity.
  - destruct Hbody as (body & Hst & Hlen).
    unfold local.checkOutput. rewrite Hst.
    rewrite (proj2 (Z.eqb_eq _ _) Hlen). reflexivity.
Qed.

Lemma Get_of_get store opts fs r fs' :
  local.closed store = false ->
  local.get store opts fs = (Ok r, fs') ->
  local.Get store opts fs = (Ok r, fs').
Proof.
  intros Hc H. unfold local.Get, util.Do. now rewrite Hc, H.
Qed.

Lemma put_Ok_empty store opts uniqueId now fs resp fs' :
  local.put store opts uniqueId now fs = (Ok resp, fs') ->
  ~ 0 < protocol.BodySize (cache.put_Req opts) ->
  exists aP oP,
    local.actionPath store (protocol.put_ActionID (cache.put_Req opts)) = Ok aP
    /\ local.outputPath store (protocol.put_OutputID (cache.put_Req opts)) = Ok oP
    /\ protocol.put_DiskPath resp = local.emptyOutputPath store
    /\ os.nodes fs' !! aP = Some (os.File (cache.WriteTo (put_meta opts now)))
    /\ os.nodes fs' !! local.emptyOutputPath store = Some (os.File []).
Proof.
  intros H Hpos. unfold local.put in H.
  destruct opts as [[A O sz] body ot comp]. cbn [cache.put_Req cache.Body cache.OverrideTime
    protocol.put_ActionID protocol.put_OutputID protocol.BodySize] in *.
  destruct A as [|a0 A]; [discriminate|].
  destruct O as [|o0 O]; [discriminate|].
  cbn [local.actionPath local.outputPath] in *.
  set (dirA := hex.EncodeByte a0) in *. set (dirO := hex.EncodeByte o0) in *.
  set (nameA := hex.EncodeToString (a0 :: A) +:+ ".action") in *.
  set (nameO := hex.EncodeToString (o0 :: O) +:+ ".output") in *.
  set (d := local.dir store) in *.
  inv_bind H. apply lift_Ok in Hstep as [E ->]. injection E as <-.
  inv_bind H. apply lift_Ok in Hstep as [E ->]. injection E as <-.
  inv_bind H.
  replace (0 <? sz) with false in Hstep by (symmetry; apply Z.ltb_ge; lia).
  pose proof (EnsureEmptyOutputFile_node _ _ _ _ Hstep) as Hempty.
  apply EnsureEmptyOutputFile_Ok in Hstep as (-> & _ & _).
  rewrite Dir_Join2, add_suffix_Join2 in H.
  inv_bind H. apply sys_Ok in Hstep.
  inv_bind H. apply sys_Ok in Hstep0.
  inv_bind H. apply sys_Ok in Hstep1.
  inv_bind H. apply sys_Ok in Hstep2.
  injection H as <- <-.
  apply Create_nodes in Hstep0 as [Hn6 Hb6].
  apply Write_nodes in Hstep1 as [Hn7 Hb7].
  apply Rename_nodes in Hstep2 as (n8 & Hsrc8 & Hn8 & Hb8).
  exists (filepath.Join d [dirA; nameA]), (filepath.Join d [dirO; nameO]).
  split; [reflexivity|]. split; [reflexivity|]. split; [reflexivity|].
  assert (He1 : filepath.Join d [dirA; nameA] <> local.emptyOutputPath store)
    by (apply Join_length_neq; discriminate).
  assert (He2 : filepath.Join d [dirA; nameA +:+ ".tmp." +:+ uniqueId]
                <> local.emptyOutputPath store)
    by (apply Join_length_neq; discriminate).
  assert (He3 : filepath.Join d [dirA] <> local.emptyOutputPath store).
  { unfold local.emptyOutputPath. fold d. intros E. apply Join_inj in E.
    assert (E' : String.length dirA = String.length "_empty.output") by congruence.
    discriminate E'. }
  split.
  - rewrite Hn8, lookup_insert_eq. rewrite Hn7, lookup_insert_eq in Hsrc8.
    now injection Hsrc8 as <-.
  - rewrite Hn8, lookup_insert_ne, lookup_delete_ne by congruence.
    rewrite Hn7, lookup_insert_ne by congruence.
    rewrite Hn6, lookup_insert_ne by congruence.
    rewrite (MkdirAll_other _ _ _ _ Hstep)
      by first [congruence | unfold local.emptyOutputPath; fold d; path_len].
    exact Hempty.
Qed.

(** ** The footprint of a local put *)

Lemma frame_bindM P {A B : Type} (m : M A) (k : A -> M B) :
  respects (frame P) m -> (forall a, respects (frame P) (k a)) ->
  respects (frame P) (bindM m k).
Proof. exact (respects_bindM (frame P) (frame_trans P) m k). Qed.

Lemma frame_sys P (e : error) (call : os.FS -> option os.FS) :
  (forall fs fs', call fs = Some fs' -> frame P fs fs') -> respects (frame P) (sys e call).
Proof. exact (respects_sys (frame P) (frame_refl P) e call). Qed.

Lemma bindM_lift_Ok {A B : Type} (a : A) (k : A -> M B) : bindM (lift (Ok a)) k = k a.
Proof. reflexivity. Qed.

Lemma frame_pure P {A : Type} (m : M A) :
  (forall fs, snd (m fs) = fs) -> respects (frame P) m.
Proof.
  intros Hm fs r fs' H. specialize (Hm fs). rewrite H in Hm. cbn in Hm. subst.
  apply frame_refl.
Qed.

Lemma respects_weaken {A : Type} (P Q : filepath.path -> Prop) (m : M A) :
  (forall q, P q -> Q q) -> respects (frame P) m -> respects (frame Q) m.
Proof. intros HPQ Hm fs r fs' H. eapply frame_weaken; [exact HPQ|]. eapply Hm; exact H. Qed.

Lemma copyBody_frame p body :
  respects (frame (fun q => q = p)) (local.copyBody p body).
Proof.
  intros fs r fs' H. unfold local.copyBody, io.Copy in H.
  destruct (os.Write fs p (io.avail body)) as [fs1|] eqn:W; injection H as _ <-;
    [now apply (Write_frame _ _ _ _ W)|apply frame_refl].
Qed.

Lemma put_frame store opts uniqueId now :
  respects
    (frame (put_footprint store (protocol.put_ActionID (cache.put_Req opts))
              (protocol.put_OutputID (cache.put_Req opts)) uniqueId))
    (local.put store opts uniqueId now).
Proof.
  unfold local.put.
  destruct opts as [[A O sz] body ot comp]. cbn [cache.put_Req cache.Body cache.OverrideTime
    protocol.put_ActionID protocol.put_OutputID protocol.BodySize].
  set (P := put_footprint store A O uniqueId).
  destruct (local.actionPath store A) as [aP|e|] eqn:EA;
    [|apply frame_pure; reflexivity|apply frame_pure; reflexivity].
  destruct (local.outputPath store O) as [oP|e|] eqn:EO;
    [|apply frame_pure; reflexivity|apply frame_pure; reflexivity].
  assert (Pa : forall q, q `prefix_of` filepath.Dir aP
                         \/ q = filepath.add_suffix aP (".tmp." +:+ uniqueId)
                         \/ q = aP -> P q).
  { intros q Hq. right. exists aP. split; [now left|exact Hq]. }
  assert (Po : forall q, q `prefix_of` filepath.Dir oP
                         \/ q = filepath.add_suffix oP (".tmp." +:+ uniqueId)
                         \/ q = oP -> P q).
  { intros q Hq. right. exists oP. split; [now right|exact Hq]. }
  assert (Pe : P (local.emptyOutputPath store)) by now left.
  rewrite !bindM_lift_Ok.
  assert (Hmk : forall p, (forall q, q `prefix_of` filepath.Dir p -> P q) ->
            respects (frame P) (sys ErrMkdir (fun fs => os.MkdirAll fs (filepath.Dir p)))).
  { intros p Hp. apply frame_sys. intros fs fs' H. apply MkdirAll_frame in H.
    eapply frame_weaken; [|exact H]. exact Hp. }
  assert (Hcr : forall p, P p ->
            respects (frame P) (sys ErrCreate (fun fs => os.Create fs p))).
  { intros p Hp. apply frame_sys. intros fs fs' H. apply Create_frame in H.
    eapply frame_weaken; [|exact H]. now intros q ->. }
  assert (Hrn : forall p p', P p -> P p' ->
            respects (frame P) (sys ErrRename (fun fs => os.Rename fs p p'))).
  { intros p p' Hp Hp'. apply frame_sys. intros fs fs' H. apply Rename_frame in H.
    eapply frame_weaken; [|exact H]. now intros q [->| ->]. }
  apply frame_bindM.
  - destruct (0 <? sz).
    + apply frame_bindM; [apply Hmk; auto|intros _].
      apply frame_bindM; [apply Hcr; auto|intros _].
      apply frame_bindM.
      { eapply respects_weaken; [|apply copyBody_frame]. intros q ->. auto. }
      intros [n failed]. destruct failed; [apply frame_pure; reflexivity|].
      destruct (negb (n =? sz)); [apply frame_pure; reflexivity|].
      apply frame_bindM; [apply Hrn; auto|intros _].
      apply frame_pure; reflexivity.
    + eapply respects_weaken; [|apply EnsureEmptyOutputFile_frame]. now intros q ->.
  - intros oP'.
    apply frame_bindM; [apply Hmk; auto|intros _].
    apply frame_bindM; [apply Hcr; auto|intros _].
    apply frame_bindM.
    { apply frame_sys. intros fs fs' H. apply Write_frame in H.
      eapply frame_weaken; [|exact H]. intros q ->. auto. }
    intros _.
    apply frame_bindM; [apply Hrn; auto|intros _].
    apply frame_pure; reflexivity.
Qed.

Lemma Put_frame store opts uniqueId now :
  respects
    (frame (put_footprint store (protocol.put_ActionID (cache.put_Req opts))
              (protocol.put_OutputID (cache.put_Req opts)) uniqueId))
    (local.Put store opts uniqueId now).
Proof.
  intros fs r fs' H. unfold local.Put, util.Do in H.
  destruct (local.closed store).
  { injection H as _ <-. apply frame_refl. }
  destruct (local.put store opts uniqueId now fs) as [r1 fs1] eqn:E.
  apply put_frame in E.
  assert (fs' = fs1); [|now subst].
  destruct r1 as [a|e|]; [| |now injection H as _ <-];
    unfold bindM, logArgs, lift in H;
    destruct (existsb panics _); now injection H as _ <-.
Qed.

Lemma Put_Ok_put store opts uniqueId now fs resp fs' :
  local.Put store opts uniqueId now fs = (Ok resp, fs') ->
  local.closed store = false
  /\ local.put store opts uniqueId now fs = (Ok resp, fs')
  /\ os.broken fs' = os.broken fs.
Proof.
  intros HPut.
  pose proof (Put_frame _ _ _ _ _ _ _ HPut) as [Hb _].
  apply Put_Ok in HPut as [Hclosed Hput]. now repeat split.
Qed.

Lemma get_after_put store opts uniqueId now fs resp fs' comp :
  local.put store opts uniqueId now fs = (Ok resp, fs') ->
  os.broken fs' = os.broken fs ->
  (forall p, os.broken fs os.SysOpen p = false) ->
  (forall p, os.broken fs os.SysStat p = false) ->
  0 <= protocol.BodySize (cache.put_Req opts) < 2 ^ 63 ->
  Z.of_nat (length (protocol.put_ActionID (cache.put_Req opts))) < 2 ^ 32 ->
  Z.of_nat (length (protocol.put_OutputID (cache.put_Req opts))) < 2 ^ 32 ->
  local.get store
    (cache.mkGetOpts (protocol.mkGetRequest (protocol.put_ActionID (cache.put_Req opts))) comp)
    fs'
  = (Ok (hit_of (put_meta opts now) (protocol.put_DiskPath resp)), fs').
Proof.
  intros Hput Hb Hopen Hstat Hsz HlA HlO.
  set (m := put_meta opts now).
  destruct (Z.ltb_spec 0 (protocol.BodySize (cache.put_Req opts))) as [Hpos|Hzero].
  - apply put_Ok_nonempty in Hput as (aP & oP & HaP & HoP & -> & Ha & Ho & Hlen);
      [|exact Hpos].
    replace oP with (if cache.Size m =? 0 then local.emptyOutputPath store else oP)
      by (cbn; now destruct (Z.eqb_spec (protocol.BodySize (cache.put_Req opts)) 0); [lia|]).
    apply (get_hit store _ m aP oP); cbn; try assumption; try reflexivity.
    + now rewrite Hb.
    + unfold is_int64. lia.
    + destruct (Z.eqb_spec (protocol.BodySize (cache.put_Req opts)) 0); [lia|].
      exists (io.avail (cache.Body opts)). split; [|exact Hlen].
      unfold os.Stat. rewrite Hb, Hstat. now rewrite Ho.
  - apply put_Ok_empty in Hput as (aP & oP & HaP & HoP & -> & Ha & He); [|lia].
    assert (Ez : protocol.BodySize (cache.put_Req opts) = 0) by lia.
    replace (local.emptyOutputPath store)
      with (if cache.Size m =? 0 then local.emptyOutputPath store else oP) at 1
      by (cbn; now rewrite Ez).
    apply (get_hit store _ m aP oP); cbn; try assumption; try reflexivity.
    + now rewrite Hb.
    + unfold is_int64. lia.
    + rewrite Ez. cbn. unfold os.Stat. rewrite Hb, Hstat. now rewrite He.
Qed.

(** X6: A local put that succeeds is read back: on a disk whose [open] and
    [stat] calls work, the get of the same ActionID right after it is a hit
    with the OutputID and the size of the put, the time as the codec reads
    it back, and the [DiskPath] the put returned; the get leaves the disk
    as it is. This covers the empty body ([BodySize = 0]). *)
Theorem Put_then_Get store opts uniqueId now fs resp fs' comp :
  local.Put store opts uniqueId now fs = (Ok resp, fs') ->
  (forall p, os.broken fs os.SysOpen p = false) ->
  (forall p, os.broken fs os.SysStat p = false) ->
  0 <= protocol.BodySize (cache.put_Req opts) < 2 ^ 63 ->
  Z.of_nat (length (protocol.put_ActionID (cache.put_Req opts))) < 2 ^ 32 ->
  Z.of_nat (length (protocol.put_OutputID (cache.put_Req opts))) < 2 ^ 32 ->
  local.Get store
    (cache.mkGetOpts (protocol.mkGetRequest (protocol.put_ActionID (cache.put_Req opts))) comp)
    fs'
  = (Ok (hit_of (put_meta opts now) (protocol.put_DiskPath resp)), fs').
Proof.
  intros HPut Hopen Hstat Hsz HlA HlO.
  apply Put_Ok_put in HPut as (Hclosed & Hput & Hb).
  apply Get_of_get; [exact Hclosed|].
  now apply (get_after_put store opts uniqueId now fs).
Qed.

Lemma Put_then_Get_witness :
  let store := local.mkLocalBackend ["data"%string] false in
  let fs := os.mkFS ∅ (fun _ _ => false) in
  let opts :=
    cache.mkPutOpts (protocol.mkPutRequest [x01] [x02] 3)
      (io.of_bytes [x61; x62; x63]) None false in
  let out := local.Put store opts "ABCDEFGH" time.zero fs in
  local.Get store (cache.mkGetOpts (protocol.mkGetRequest [x01]) false) (snd out)
  = (Ok (hit_of (put_meta opts time.zero) ["data"; "02"; "02.output"]%string), snd out).
Proof.
  cbv zeta.
  apply (Put_then_Get (local.mkLocalBackend ["data"%string] false)
           (cache.mkPutOpts (protocol.mkPutRequest [x01] [x02] 3)
              (io.of_bytes [x61; x62; x63]) None false)
           "ABCDEFGH" time.zero (os.mkFS ∅ (fun _ _ => false))
           (protocol.mkPutResponse ["data"; "02"; "02.output"]%string)).
  - vm_compute. reflexivity.
  - intros p. reflexivity.
  - intros p. reflexivity.
  - cbn. lia.
  - cbn. lia.
  - cbn. lia.
Defined.

(** ** What a local get does to the disk *)

Lemma checkOutput_only_removes P aP oP size :
  respects (only_removes P) (local.checkOutput aP oP size).
Proof.
  intros fs r fs' H. unfold local.checkOutput in H.
  destruct (os.Stat fs oP) as [[content|]|se].
  - destruct (Z.of_nat (length content) =? size); injection H as _ <-;
      [apply only_removes_refl|].
    eapply only_removes_trans; apply Remove_only_removes.
  - injection H as _ <-. eapply only_removes_trans; apply Remove_only_removes.
  - injection H as _ <-. apply Remove_only_removes.
Qed.

Lemma get_only_removes store opts :
  respects (only_removes (fun q => q = local.emptyOutputPath store)) (local.get store opts).
Proof.
  set (P := fun q => q = local.emptyOutputPath store).
  intros fs r fs' H. unfold local.get in H.
  destruct (local.actionPath store _) as [aP|e|];
    [rewrite bindM_lift_Ok in H|injection H as _ <-; apply only_removes_refl
    |injection H as _ <-; apply only_removes_refl].
  destruct (os.Open fs aP) as [actionFile|[|]];
    [|injection H as _ <-; apply only_removes_refl
     |injection H as _ <-; apply only_removes_refl].
  destruct (local.readMeta actionFile) as [meta|e|];
    [rewrite bindM_lift_Ok in H|injection H as _ <-; apply only_removes_refl
    |injection H as _ <-; apply only_removes_refl].
  destruct (negb _); [injection H as _ <-; apply only_removes_refl|].
  destruct (local.outputPath store _) as [oP|e|];
    [rewrite bindM_lift_Ok in H|injection H as _ <-; apply only_removes_refl
    |injection H as _ <-; apply only_removes_refl].
  revert H.
  apply (respects_bindM (only_removes P) (only_removes_trans P)).
  - destruct (cache.Size meta =? 0).
    + intros fs0 r0 fs0' H0. apply frame_only_removes.
      now apply (EnsureEmptyOutputFile_frame store fs0 r0 fs0').
    + apply checkOutput_only_removes.
  - intros p fs0 r0 fs0' H0. injection H0 as _ <-. apply only_removes_refl.
Qed.

Lemma Get_only_removes store opts :
  respects (only_removes (fun q => q = local.emptyOutputPath store)) (local.Get store opts).
Proof.
  intros fs r fs'.
  unfold local.Get, util.Do. destruct (local.closed store).
  { intros H. injection H as _ <-. apply only_removes_refl. }
  destruct (local.get store opts fs) as [r1 fs1] eqn:E.
  apply get_only_removes in E. intros H.
  assert (fs' = fs1); [|now subst].
  destruct r1 as [a|e|]; [now injection H as _ <- | |now injection H as _ <-].
  unfold bindM, logArgs, ret in H. destruct (existsb panics _); now injection H as _ <-.
Qed.

Lemma EnsureEmptyOutputFile_empty store fs r fs' :
  local.EnsureEmptyOutputFile store fs = (r, fs') ->
  os.nodes fs' !! local.emptyOutputPath store = os.nodes fs !! local.emptyOutputPath store
  \/ os.nodes fs' !! local.emptyOutputPath store = Some (os.File []).
Proof.
  unfold local.EnsureEmptyOutputFile, bindM, sys, ret, fail, os.Stat, os.WriteFile.
  destruct (os.broken fs os.SysStat (local.emptyOutputPath store));
    destruct (os.broken fs os.SysWriteFile (local.emptyOutputPath store));
    destruct (negb (os.parentIsDir fs (local.emptyOutputPath store)));
    destruct (os.nodes fs !! local.emptyOutputPath store) as [[[|b c]|]|] eqn:E;
    intros H; injection H as _ <-; try (now left); right; cbn; apply lookup_insert_eq.
Qed.

(** X7: A local get, whatever it returns, writes nothing but the shared empty
    output: every other path holds after it what it held before, or
    nothing, and the faults of the disk are the same. *)
Theorem Get_only_removes_files store opts fs r fs' :
  local.Get store opts fs = (r, fs') ->
  os.broken fs' = os.broken fs
  /\ forall q, q <> local.emptyOutputPath store ->
       os.nodes fs' !! q = os.nodes fs !! q \/ os.nodes fs' !! q = None.
Proof.
  intros H. apply Get_only_removes in H as [Hb Hf]. split; [exact Hb|].
  intros q Hq. now apply Hf.
Qed.

Lemma Get_only_removes_files_witness :
  let store := local.mkLocalBackend ["data"%string] false in
  let fs :=
    os.mkFS {[ ["data"%string] := os.Directory;
               ["data"; "01"]%string := os.Directory;
               ["data"; "01"; "01.action"]%string
               := os.File (cache.WriteTo (cache.mkEntryMeta [x01] [x02] 3 time.zero)) ]}
      (fun _ _ => false) in
  let out := local.Get store (cache.mkGetOpts (protocol.mkGetRequest [x01]) false) fs in
  os.broken (snd out) = os.broken fs
  /\ forall q, q <> local.emptyOutputPath store ->
       os.nodes (snd out) !! q = os.nodes fs !! q \/ os.nodes (snd out) !! q = None.
Proof.
  cbv zeta.
  apply (Get_only_removes_files (local.mkLocalBackend ["data"%string] false)
           (cache.mkGetOpts (protocol.mkGetRequest [x01]) false)
           (os.mkFS {[ ["data"%string] := os.Directory;
                       ["data"; "01"]%string := os.Directory;
                       ["data"; "01"; "01.action"]%string
                       := os.File (cache.WriteTo (cache.mkEntryMeta [x01] [x02] 3 time.zero)) ]}
              (fun _ _ => false))
           (Ok protocol.miss)).
  vm_compute. reflexivity.
Defined.

Lemma Get_of_get_Err store opts fs e fs' aP :
  local.closed store = false ->
  local.actionPath store (protocol.get_ActionID (cache.get_Req opts)) = Ok aP ->
  local.get store opts fs = (Err e, fs') ->
  local.Get store opts fs = (Ok protocol.miss, fs').
Proof.
  intros Hclosed HaP H. unfold local.Get, util.Do. rewrite Hclosed, H, HaP. reflexivity.
Qed.

Lemma get_prunes store opts fs aP oP content m rd :
  local.actionPath store (protocol.get_ActionID (cache.get_Req opts)) = Ok aP ->
  os.Open fs aP = inl (os.File content) ->
  cache.ReadEntryMeta (io.of_bytes content) = Ok (m, rd) ->
  cache.ActionID m = protocol.get_ActionID (cache.get_Req opts) ->
  cache.Size m <> 0 ->
  local.outputPath store (cache.OutputID m) = Ok oP ->
  (forall body, os.Stat fs oP = inl (os.File body) ->
                Z.of_nat (length body) <> cache.Size m) ->
  os.broken fs os.SysRemove aP = false ->
  exists e fs',
    local.get store opts fs = (Err e, fs')
    /\ os.broken fs' = os.broken fs
    /\ os.nodes fs' !! aP = None
    /\ (forall n, os.Stat fs oP = inl n -> os.broken fs os.SysRemove oP = false ->
          os.nodes fs' !! oP = None)
    /\ (forall q, q <> aP -> q <> oP -> os.nodes fs' !! q = os.nodes fs !! q).
Proof.
  intros HaP Hopen Hread HA Hsz HoP Hbody Hrm.
  { unfold local.get. rewrite HaP, bindM_lift_Ok, Hopen.
    unfold local.readMeta. rewrite Hread. cbn [wrap bind]. rewrite bindM_lift_Ok.
    rewrite HA. unfold bytes_Equal. rewrite bool_decide_eq_true_2 by reflexivity.
    cbn [negb]. rewrite HoP, bindM_lift_Ok.
    rewrite (proj2 (Z.eqb_neq _ _) Hsz).
    unfold bindM, local.checkOutput.
    assert (Ra : os.nodes (os.Remove fs aP) = delete aP (os.nodes fs)
                 /\ os.broken (os.Remove fs aP) = os.broken fs).
    { unfold os.Remove. now rewrite Hrm. }
    destruct Ra as [Ra Rb].
    assert (Ro : forall q, q <> oP ->
              os.nodes (os.Remove (os.Remove fs aP) oP) !! q
              = os.nodes (os.Remove fs aP) !! q).
    { intros q Hq. now apply (Remove_frame (os.Remove fs aP) oP). }
    assert (Rob : os.broken (os.Remove (os.Remove fs aP) oP) = os.broken fs).
    { rewrite <- Rb. apply (Remove_frame (os.Remove fs aP) oP). }
    assert (Rn : os.broken fs os.SysRemove oP = false ->
              os.nodes (os.Remove (os.Remove fs aP) oP) !! oP = None).
    { intros Hb. unfold os.Remove at 1. rewrite Rb, Hb. cbn. apply lookup_delete_eq. }
    assert (Ra2 : os.nodes (os.Remove (os.Remove fs aP) oP) !! aP = None).
    { destruct (decide (aP = oP)) as [<-|Hne].
      - unfold os.Remove at 1. rewrite Rb, Hrm. cbn. apply lookup_delete_eq.
      - rewrite Ro by exact Hne. rewrite Ra. apply lookup_delete_eq. }
    destruct (os.Stat fs oP) as [[body|]|se] eqn:Est.
    - destruct (Z.eqb_spec (Z.of_nat (length body)) (cache.Size m)) as [E|_];
        [now apply Hbody in E|].
      do 2 eexists. split; [reflexivity|]. split; [exact Rob|]. split; [exact Ra2|].
      split; [intros n _ Hb; now apply Rn|].
      intros q Hq1 Hq2. rewrite Ro by exact Hq2. rewrite Ra. now apply lookup_delete_ne.
    - do 2 eexists. split; [reflexivity|]. split; [exact Rob|]. split; [exact Ra2|].
      split; [intros n _ Hb; now apply Rn|].
      intros q Hq1 Hq2. rewrite Ro by exact Hq2. rewrite Ra. now apply lookup_delete_ne.
    - do 2 eexists. split; [reflexivity|]. split; [exact Rb|].
      split; [rewrite Ra; apply lookup_delete_eq|].
      split; [intros n Hn; discriminate Hn|].
      intros q Hq1 _. rewrite Ra. now apply lookup_delete_ne. }
Qed.

(** X8: A get of an entry whose body file is missing or has another size than
    the EntryMeta says answers with a miss and removes the action file (and
    the body file, when there is one and it can be removed); nothing else on
    the disk changes, and the next get of the ActionID is a miss that
    changes nothing. *)
Theorem Get_prunes_entry_without_body store opts fs aP oP content m rd :
  local.closed store = false ->
  local.actionPath store (protocol.get_ActionID (cache.get_Req opts)) = Ok aP ->
  os.Open fs aP = inl (os.File content) ->
  cache.ReadEntryMeta (io.of_bytes content) = Ok (m, rd) ->
  cache.ActionID m = protocol.get_ActionID (cache.get_Req opts) ->
  cache.Size m <> 0 ->
  local.outputPath store (cache.OutputID m) = Ok oP ->
  (forall body, os.Stat fs oP = inl (os.File body) ->
                Z.of_nat (length body) <> cache.Size m) ->
  os.broken fs os.SysRemove aP = false ->
  exists fs',
    local.Get store opts fs = (Ok protocol.miss, fs')
    /\ os.nodes fs' !! aP = None
    /\ (forall n, os.Stat fs oP = inl n -> os.broken fs os.SysRemove oP = false ->
          os.nodes fs' !! oP = None)
    /\ (forall q, q <> aP -> q <> oP -> os.nodes fs' !! q = os.nodes fs !! q)
    /\ local.Get store opts fs' = (Ok protocol.miss, fs').
Proof.
  intros Hclosed HaP Hopen Hread HA Hsz HoP Hbody Hrm.
  destruct (get_prunes store opts fs aP oP content m rd HaP Hopen Hread HA Hsz HoP Hbody Hrm)
    as (e & fs' & Hget & Hb & Hgone & HoGone & Hframe).
  exists fs'.
  split; [now apply (Get_of_get_Err store opts fs e fs' aP)|].
  split; [exact Hgone|]. split; [exact HoGone|]. split; [exact Hframe|].
  unfold local.Get, util.Do. rewrite Hclosed.
  unfold local.get. rewrite HaP, bindM_lift_Ok.
  unfold os.Open in *. rewrite Hb.
  destruct (os.broken fs os.SysOpen aP); [discriminate|].
  now rewrite Hgone.
Qed.

Lemma Get_prunes_entry_without_body_witness :
  let store := local.mkLocalBackend ["data"%string] false in
  let aP := ["data"; "01"; "01.action"]%string in
  let oP := ["data"; "02"; "02.output"]%string in
  let opts := cache.mkGetOpts (protocol.mkGetRequest [x01]) false in
  let fs :=
    os.mkFS {[ ["data"%string] := os.Directory;
               ["data"; "01"]%string := os.Directory;
               aP := os.File (cache.WriteTo (cache.mkEntryMeta [x01] [x02] 3 time.zero)) ]}
      (fun _ _ => false) in
  exists fs',
    local.Get store opts fs = (Ok protocol.miss, fs')
    /\ os.nodes fs' !! aP = None
    /\ (forall n, os.Stat fs oP = inl n -> os.broken fs os.SysRemove oP = false ->
          os.nodes fs' !! oP = None)
    /\ (forall q, q <> aP -> q <> oP -> os.nodes fs' !! q = os.nodes fs !! q)
    /\ local.Get store opts fs' = (Ok protocol.miss, fs').
Proof.
  cbv zeta.
  apply (Get_prunes_entry_without_body (local.mkLocalBackend ["data"%string] false)
           (cache.mkGetOpts (protocol.mkGetRequest [x01]) false)
           (os.mkFS {[ ["data"%string] := os.Directory;
                       ["data"; "01"]%string := os.Directory;
                       ["data"; "01"; "01.action"]%string
                       := os.File (cache.WriteTo (cache.mkEntryMeta [x01] [x02] 3 time.zero)) ]}
              (fun _ _ => false))
           ["data"; "01"; "01.action"]%string ["data"; "02"; "02.output"]%string
           (cache.WriteTo (cache.mkEntryMeta [x01] [x02] 3 time.zero))
           (cache.mkEntryMeta [x01] [x02] 3 time.zero) (io.of_bytes [])).
  - reflexivity.
  - reflexivity.
  - vm_compute. reflexivity.
  - vm_compute. reflexivity.
  - reflexivity.
  - cbn. lia.
  - reflexivity.
  - intros body H. vm_compute in H. discriminate H.
  - reflexivity.
Defined.

Lemma EncodeToString_inj (a b : list byte) :
  hex.EncodeToString a = hex.EncodeToString b -> a = b.
Proof.
  intros E. apply (f_equal hex.DecodeString) in E.
  rewrite !DecodeString_EncodeToString in E. now injection E.
Qed.

Lemma Join2_name (d : filepath.path) (a b a' b' : string) :
  filepath.Join d [a; b] = filepath.Join d [a'; b'] -> b = b'.
Proof.
  intros E. apply Join_inj in E.
  now apply (f_equal (fun l => nth 1 l EmptyString)) in E.
Qed.

Lemma actionPath_cons store (a0 : byte) (A : list byte) (p : filepath.path) :
  local.actionPath store (a0 :: A) = Ok p ->
  p = filepath.Join (local.dir store)
        [hex.EncodeByte a0; hex.EncodeToString (a0 :: A) +:+ ".action"].
Proof. cbn [local.actionPath]. congruence. Qed.

Lemma outputPath_cons store (o0 : byte) (O : list byte) (p : filepath.path) :
  local.outputPath store (o0 :: O) = Ok p ->
  p = filepath.Join (local.dir store)
        [hex.EncodeByte o0; hex.EncodeToString (o0 :: O) +:+ ".output"].
Proof. cbn [local.outputPath]. congruence. Qed.

(** The path of another entry's action or output file is outside the
    footprint of a put. *)
Lemma other_action_outside store a o uniqueId a' aP' :
  a' <> a -> local.actionPath store a' = Ok aP' ->
  ~ put_footprint store a o uniqueId aP'.
Proof.
  intros Hne HaP' [He|(p & Hp & Hq)].
  - destruct a' as [|a0' A']; [discriminate|]. apply actionPath_cons in HaP'. subst aP'.
    revert He. apply Join_length_neq. discriminate.
  - destruct a' as [|a0' A']; [discriminate|]. apply actionPath_cons in HaP'. subst aP'.
    destruct Hp as [Hp|Hp].
    + destruct a as [|a0 A]; [discriminate|]. apply actionPath_cons in Hp. subst p. rewrite Dir_Join2, add_suffix_Join2 in Hq.
      destruct Hq as [Hq|[Hq|Hq]].
      * apply prefix_length in Hq. revert Hq. path_len.
      * apply Join2_name in Hq.
        rewrite string_app_assoc in Hq.
        apply hex_stem_inj in Hq as [_ Hq]. discriminate Hq.
      * apply Join2_name in Hq.
        apply hex_stem_inj in Hq as [Hq _]. apply EncodeToString_inj in Hq.
        contradiction.
    + destruct o as [|o0 O]; [discriminate|]. apply outputPath_cons in Hp. subst p. rewrite Dir_Join2, add_suffix_Join2 in Hq.
      destruct Hq as [Hq|[Hq|Hq]].
      * apply prefix_length in Hq. revert Hq. path_len.
      * apply Join2_name in Hq.
        rewrite string_app_assoc in Hq.
        apply hex_stem_inj in Hq as [_ Hq]. discriminate Hq.
      * apply Join2_name in Hq.
        apply hex_stem_inj in Hq as [_ Hq]. discriminate Hq.
Qed.

Lemma other_output_outside store a o uniqueId o' oP' :
  o' <> o -> local.outputPath store o' = Ok oP' ->
  ~ put_footprint store a o uniqueId oP'.
Proof.
  intros Hne HoP' [He|(p & Hp & Hq)].
  - destruct o' as [|o0' O']; [discriminate|]. apply outputPath_cons in HoP'. subst oP'.
    revert He. apply Join_length_neq. discriminate.
  - destruct o' as [|o0' O']; [discriminate|]. apply outputPath_cons in HoP'. subst oP'.
    destruct Hp as [Hp|Hp].
    + destruct a as [|a0 A]; [discriminate|]. apply actionPath_cons in Hp. subst p. rewrite Dir_Join2, add_suffix_Join2 in Hq.
      destruct Hq as [Hq|[Hq|Hq]].
      * apply prefix_length in Hq. revert Hq. path_len.
      * apply Join2_name in Hq.
        rewrite string_app_assoc in Hq.
        apply hex_stem_inj in Hq as [_ Hq]. discriminate Hq.
      * apply Join2_name in Hq.
        apply hex_stem_inj in Hq as [_ Hq]. discriminate Hq.
    + destruct o as [|o0 O]; [discriminate|]. apply outputPath_cons in Hp. subst p. rewrite Dir_Join2, add_suffix_Join2 in Hq.
      destruct Hq as [Hq|[Hq|Hq]].
      * apply prefix_length in Hq. revert Hq. path_len.
      * apply Join2_name in Hq.
        rewrite string_app_assoc in Hq.
        apply hex_stem_inj in Hq as [_ Hq]. discriminate Hq.
      * apply Join2_name in Hq.
        apply hex_stem_inj in Hq as [Hq _]. apply EncodeToString_inj in Hq.
        contradiction.
Qed.

(** X9: A local put, whether it succeeds or fails, leaves the files of the
    other entries alone: the action file of every other ActionID and the
    output file of every other OutputID hold what they held. *)
Theorem Put_leaves_other_entries store opts uniqueId now fs r fs' :
  local.Put store opts uniqueId now fs = (r, fs') ->
  (forall a' aP', a' <> protocol.put_ActionID (cache.put_Req opts) ->
     local.actionPath store a' = Ok aP' ->
     os.nodes fs' !! aP' = os.nodes fs !! aP')
  /\ (forall o' oP', o' <> protocol.put_OutputID (cache.put_Req opts) ->
        local.outputPath store o' = Ok oP' ->
        os.nodes fs' !! oP' = os.nodes fs !! oP').
Proof.
  intros H. apply Put_frame in H as [_ Hf]. split.
  - intros a' aP' Hne HaP'. apply Hf. now apply (other_action_outside _ _ _ _ a').
  - intros o' oP' Hne HoP'. apply Hf. now apply (other_output_outside _ _ _ _ o').
Qed.

Lemma Put_leaves_other_entries_witness :
  let store := local.mkLocalBackend ["data"%string] false in
  let fs :=
    os.mkFS {[ ["data"%string] := os.Directory;
               ["data"; "07"]%string := os.Directory;
               ["data"; "07"; "07.action"]%string := os.File [x00] ]} (fun _ _ => false) in
  let opts :=
    cache.mkPutOpts (protocol.mkPutRequest [x01] [x02] 3)
      (io.of_bytes [x61; x62; x63]) None false in
  let out := local.Put store opts "ABCDEFGH" time.zero fs in
  (forall a' aP', a' <> [x01] -> local.actionPath store a' = Ok aP' ->
     os.nodes (snd out) !! aP' = os.nodes fs !! aP')
  /\ (forall o' oP', o' <> [x02] -> local.outputPath store o' = Ok oP' ->
        os.nodes (snd out) !! oP' = os.nodes fs !! oP').
Proof.
  cbv zeta.
  apply (Put_leaves_other_entries (local.mkLocalBackend ["data"%string] false)
           (cache.mkPutOpts (protocol.mkPutRequest [x01] [x02] 3)
              (io.of_bytes [x61; x62; x63]) None false)
           "ABCDEFGH" time.zero
           (os.mkFS {[ ["data"%string] := os.Directory;
                       ["data"; "07"]%string := os.Directory;
                       ["data"; "07"; "07.action"]%string := os.File [x00] ]}
              (fun _ _ => false))
           (Ok (protocol.mkPutResponse ["data"; "02"; "02.output"]%string))).
  vm_compute. reflexivity.
Defined.

(** ** Opening the local cache *)

Lemma MkdirAll_dir fs p fs' :
  os.MkdirAll fs p = Some fs' -> p <> [] -> os.nodes fs' !! p = Some os.Directory.
Proof.
  intros H Hp. apply MkdirAll_isDir in H.
  destruct p as [|c p]; [congruence|]. unfold os.isDir in H.
  destruct (_ !! _) as [[content|]|]; first [reflexivity | discriminate H].
Qed.

(** What [os.MkdirAll] changes is a missing path on the way to [p], where a
    directory is afterwards. *)
Lemma MkdirAll_classify fs p fs' q :
  os.MkdirAll fs p = Some fs' ->
  os.nodes fs' !! q = os.nodes fs !! q
  \/ (os.nodes fs !! q = None /\ os.nodes fs' !! q = Some os.Directory /\ q `prefix_of` p).
Proof.
  intros H. destruct (decide (q `prefix_of` p)) as [Hpre|Hpre].
  - destruct (MkdirAll_change _ _ _ q H) as [E|[E1 E2]]; [now left|now right].
  - left. now apply (MkdirAll_outside _ _ _ _ H).
Qed.

Lemma prefix_of_snoc (q d : filepath.path) (x : string) :
  q `prefix_of` d ++ [x] -> q = d ++ [x] \/ q `prefix_of` d.
Proof.
  intros [k E]. destruct k as [|y k _] using rev_ind.
  - left. now rewrite app_nil_r in E.
  - right. rewrite app_assoc in E. apply app_inj_tail in E as [-> _]. now exists k.
Qed.

Lemma MkdirAll_again fs p fs' fs2 :
  os.MkdirAll fs p = Some fs' ->
  os.broken fs2 = os.broken fs -> os.nodes fs2 !! p = Some os.Directory ->
  os.MkdirAll fs2 p = Some fs2.
Proof.
  unfold os.MkdirAll. intros H Hb Hn. rewrite Hb.
  destruct (os.broken fs os.SysMkdirAll p); [discriminate|]. now rewrite Hn.
Qed.

Lemma mkdirShards_Ok store n : forall i fs fs',
  local.mkdirShards store i n fs = (Ok tt, fs') ->
  os.broken fs' = os.broken fs
  /\ (forall j, (i <= j < i + n)%nat ->
        os.nodes fs' !! shardPath store (byte_of_Z (Z.of_nat j)) = Some os.Directory)
  /\ (forall q, kept_or_made store fs fs' q)
  /\ (forall fs2, os.broken fs2 = os.broken fs ->
        (forall j, (i <= j < i + n)%nat ->
           os.nodes fs2 !! shardPath store (byte_of_Z (Z.of_nat j)) = Some os.Directory) ->
        local.mkdirShards store i n fs2 = (Ok tt, fs2)).
Proof.
  induction n as [|n IH]; intros i fs fs' H.
  - injection H as <-. split; [reflexivity|]. split; [intros j Hj; lia|].
    split; [now left|]. reflexivity.
  - cbn [local.mkdirShards] in H. inv_bind H. apply sys_Ok in Hstep.
    fold (shardPath store (byte_of_Z (Z.of_nat i))) in Hstep.
    apply IH in H as (Hb & Hd & Hk & Hagain).
    pose proof (MkdirAll_broken _ _ _ Hstep) as Hb1.
    assert (Hkeep : forall (q : filepath.path) nd,
              os.nodes fs0 !! q = Some nd -> os.nodes fs' !! q = Some nd).
    { intros q nd Hq. destruct (Hk q) as [E|(E & _)]; congruence. }
    split; [congruence|]. split; [|split].
    + intros j Hj. destruct (decide (j = i)) as [->|Hne].
      * apply Hkeep. apply (MkdirAll_dir _ _ _ Hstep).
        unfold shardPath, filepath.Join. now destruct (local.dir store).
      * apply Hd. lia.
    + intros q. destruct (MkdirAll_classify _ _ _ q Hstep) as [E|(E1 & E2 & E3)].
      * destruct (Hk q) as [E'|(E1 & E2 & E3)]; [left; exact (eq_trans E' E)|].
        right. split; [exact (eq_trans (eq_sym E) E1)|]. now split.
      * right. split; [exact E1|]. split; [now apply Hkeep|].
        apply prefix_of_snoc in E3 as [->|E3]; [left; now eexists|now right].
    + intros fs2 Hb2 Hd2. cbn [local.mkdirShards].
      fold (shardPath store (byte_of_Z (Z.of_nat i))).
      unfold bindM at 1, sys at 1.
      rewrite (MkdirAll_again _ _ _ fs2 Hstep Hb2) by (apply Hd2; lia).
      apply Hagain; [congruence|]. intros j Hj. apply Hd2. lia.
Qed.

Lemma shardPath_neq_empty store b : shardPath store b <> local.emptyOutputPath store.
Proof.
  unfold shardPath, local.emptyOutputPath. intros E. apply Join_inj in E.
  assert (E' : String.length (hex.EncodeByte b) = String.length "_empty.output")
    by congruence.
  discriminate E'.
Qed.

Lemma byte_index (b : byte) :
  exists j, (j < 256)%nat /\ byte_of_Z (Z.of_nat j) = b.
Proof.
  exists (N.to_nat (Byte.to_N b)). pose proof (Byte.to_N_bounded b). split; [lia|].
  rewrite <- (byte_of_Z_of_byte b) at 2. unfold Z_of_byte. f_equal. lia.
Qed.

Lemma FS_eta (fs : os.FS) (m : gmap (list string) os.node) :
  m = os.nodes fs -> os.with_nodes fs m = fs.
Proof. intros ->. now destruct fs. Qed.

Lemma isDir_ext fs fs2 p :
  os.nodes fs2 !! p = os.nodes fs !! p -> os.isDir fs2 p = os.isDir fs p.
Proof. intros E. unfold os.isDir. now rewrite E. Qed.

Lemma emptyOutputPath_neq_dir store : local.dir store <> local.emptyOutputPath store.
Proof.
  unfold local.emptyOutputPath, filepath.Join. intros E.
  apply (f_equal (@length _)) in E. rewrite length_app in E. cbn in E. lia.
Qed.

Lemma EnsureEmptyOutputFile_again store fs p fs' :
  local.EnsureEmptyOutputFile store fs = (Ok p, fs') ->
  forall fs2, os.broken fs2 = os.broken fs ->
    os.nodes fs2 !! local.emptyOutputPath store = Some (os.File []) ->
    (os.isDir fs (local.dir store) = true -> os.isDir fs2 (local.dir store) = true) ->
    local.EnsureEmptyOutputFile store fs2 = (Ok p, fs2).
Proof.
  intros H fs2 Hb Hn Hdir.
  pose proof (EnsureEmptyOutputFile_Ok _ _ _ _ H) as (-> & _ & _).
  revert H. unfold local.EnsureEmptyOutputFile, os.Stat. rewrite Hb, Hn.
  destruct (os.broken fs os.SysStat (local.emptyOutputPath store)); [|reflexivity].
  destruct (os.WriteFile fs (local.emptyOutputPath store) []) as [fs1|] eqn:W;
    [|discriminate].
  intros _. apply WriteFile_nodes in W as (_ & _ & Hpar & Hbw).
  unfold local.emptyOutputPath, filepath.Join in Hpar. rewrite parentIsDir_snoc in Hpar.
  unfold os.WriteFile. rewrite Hb, Hbw.
  unfold local.emptyOutputPath at 1, filepath.Join. rewrite parentIsDir_snoc.
  rewrite (Hdir Hpar). cbn [negb].
  fold (filepath.Join (local.dir store) ["_empty.output"%string]).
  fold (local.emptyOutputPath store). rewrite Hn.
  rewrite FS_eta; [reflexivity|]. now apply insert_id.
Qed.

(** X10: When [Open] succeeds, the 256 shard directories [00] to [ff] exist
    and the shared empty output exists and is empty. Nothing that was on the
    disk is changed or removed, the empty output apart: what [Open] adds are
    directories, namely shards and the directories on the way to the store's
    directory, that one included. Opening once more succeeds and changes
    nothing. *)
Theorem Open_prepares_the_cache_directory store fs fs' :
  local.Open store fs = (Ok tt, fs') ->
  (forall b : byte, os.nodes fs' !! shardPath store b = Some os.Directory)
  /\ os.nodes fs' !! local.emptyOutputPath store = Some (os.File [])
  /\ (forall q, q <> local.emptyOutputPath store -> kept_or_made store fs fs' q)
  /\ local.Open store fs' = (Ok tt, fs').
Proof.
  unfold local.Open. intros H.
  inv_bind H. destruct a. inv_bind H. injection H as <-.
  pose proof (EnsureEmptyOutputFile_frame store _ _ _ Hstep0) as [Hb2 Hf2].
  pose proof (EnsureEmptyOutputFile_node _ _ _ _ Hstep0) as He.
  pose proof (mkdirShards_Ok _ _ _ _ _ Hstep) as (Hb1 & Hd & Hk & Hagain).
  assert (Hdirs : forall b : byte, os.nodes fs1 !! shardPath store b = Some os.Directory).
  { intros b. rewrite Hf2 by apply shardPath_neq_empty.
    destruct (byte_index b) as (j & Hj & <-). apply Hd. lia. }
  split; [exact Hdirs|]. split; [exact He|]. split.
  - intros q Hq1. unfold kept_or_made. rewrite Hf2 by exact Hq1. apply Hk.
  - unfold bindM at 1. rewrite (Hagain fs1); [|congruence|intros j _; apply Hdirs].
    unfold bindM. rewrite (EnsureEmptyOutputFile_again _ _ _ _ Hstep0 fs1);
      [reflexivity|congruence|exact He|].
    intros Hdir. rewrite <- Hdir. apply isDir_ext. apply Hf2.
    apply emptyOutputPath_neq_dir.
Qed.

Lemma Open_prepares_the_cache_directory_witness :
  let store := local.mkLocalBackend ["data"%string] false in
  let fs := os.mkFS ∅ (fun _ _ => false) in
  let fs' := snd (local.Open store fs) in
  (forall b : byte, os.nodes fs' !! shardPath store b = Some os.Directory)
  /\ os.nodes fs' !! local.emptyOutputPath store = Some (os.File [])
  /\ (forall q, q <> local.emptyOutputPath store -> kept_or_made store fs fs' q)
  /\ local.Open store fs' = (Ok tt, fs').
Proof.
  cbv zeta.
  apply (Open_prepares_the_cache_directory (local.mkLocalBackend ["data"%string] false)
           (os.mkFS ∅ (fun _ _ => false))).
  rewrite (surjective_pairing (local.Open _ _)). f_equal.
Defined.

(** ** The blob backend: what is uploaded, and what a download makes of it *)

Lemma doBgUpload_after_Put disk opts uniqueId now fs resp fs' nowU :
  local.Put disk opts uniqueId now fs = (Ok resp, fs') ->
  (0 < protocol.BodySize (cache.put_Req opts) ->
   os.broken fs os.SysOpen (protocol.put_DiskPath resp) = false) ->
  exists key,
    blob.CacheEntityKey (protocol.put_ActionID (cache.put_Req opts)) = Ok key
    /\ blob.BlobBackend.doBgUpload opts (protocol.put_DiskPath resp) nowU fs'
       = Ok (Some (key, cache.WriteTo (put_meta opts nowU) ++ put_payload opts)).
Proof.
  intros HPut Hopen.
  pose proof (Put_frame _ _ _ _ _ _ _ HPut) as [Hb _].
  apply Put_Ok in HPut as [_ Hput].
  unfold blob.BlobBackend.doBgUpload, put_payload.
  destruct (Z.ltb_spec 0 (protocol.BodySize (cache.put_Req opts))) as [Hpos|Hzero].
  - apply put_Ok_nonempty in Hput as (aP & oP & HaP & HoP & Hresp & Ha & Ho & Hlen);
      [|exact Hpos].
    rewrite Hresp in *.
    destruct (protocol.put_ActionID (cache.put_Req opts)) as [|a0 A] eqn:EA; [discriminate|].
    eexists. split; [reflexivity|]. cbn [blob.CacheEntityKey bind].
    unfold os.Open. rewrite Hb, (Hopen Hpos), Ho. unfold put_meta. now rewrite EA.
  - apply put_Ok_empty in Hput as (aP & oP & HaP & HoP & _); [|lia].
    destruct (protocol.put_ActionID (cache.put_Req opts)) as [|a0 A] eqn:EA; [discriminate|].
    eexists. split; [reflexivity|]. cbn [blob.CacheEntityKey bind].
    unfold put_meta. now rewrite EA, app_nil_r.
Qed.

Lemma download_of_object store opts uniqueId now fs (a0 : byte) (A : list byte)
    (m : cache.EntryMeta) (payload : list byte) :
  protocol.get_ActionID (cache.get_Req opts) = a0 :: A ->
  blob.bucket store (objectKey a0 A) = blob.Object (io.of_bytes (cache.WriteTo m ++ payload)) ->
  cache.ActionID m = a0 :: A ->
  Z.of_nat (length (cache.ActionID m)) < 2 ^ 32 ->
  Z.of_nat (length (cache.OutputID m)) < 2 ^ 32 ->
  is_int64 (cache.Size m) ->
  let m' := cache.mkEntryMeta (cache.ActionID m) (cache.OutputID m) (cache.Size m)
              (reread_time (cache.Time m)) in
  blob.BlobBackend.download store opts uniqueId now fs
  = (let! diskPutResp :=
       wrapM ErrPutDownloaded
         (local.Put (blob.diskStore store)
            (blob.BlobBackend.putOpts m' (io.of_bytes payload) (cache.get_IsInCompaction opts))
            uniqueId now) in
     ret (blob.BlobBackend.hit m' (protocol.put_DiskPath diskPutResp))) fs.
Proof.
  intros HA Hobj HmA HlA HlO Hsz m'.
  rewrite (download_unfold store opts uniqueId now a0 A HA).
  rewrite Hobj. unfold io.of_bytes.
  rewrite ReadEntryMeta_WriteTo by assumption.
  cbn [wrap]. rewrite bindM_lift_Ok.
  cbn [cache.ActionID]. subst m'. rewrite !HmA. unfold bytes_Equal.
  rewrite bool_decide_eq_true_2 by reflexivity. reflexivity.
Qed.

(** X11: What one machine uploads, another downloads. The object [doBgUpload]
    builds after a successful put is what [download] expects under the key
    of the ActionID: the download parses it, stores the entry in the local
    cache of the reader with the uploaded time, and whenever that succeeds
    the answer is a hit with the OutputID and the size of the put, and for
    a non-empty body the file at [DiskPath] holds the bytes that were put. *)
Theorem uploaded_entry_downloads
    (diskA : local.LocalBackend) (opts : cache.PutOpts) (uidA : string)
    (nowA nowU : time.Time) (fsA fsA' : os.FS) (respA : protocol.PutResponse)
    (key : string) (obj : list byte)
    (storeB : blob.BlobBackend) (comp : bool) (uidB : string) (nowB : time.Time)
    (fsB : os.FS) :
  local.Put diskA opts uidA nowA fsA = (Ok respA, fsA') ->
  blob.BlobBackend.doBgUpload opts (protocol.put_DiskPath respA) nowU fsA'
    = Ok (Some (key, obj)) ->
  Z.of_nat (length (protocol.put_ActionID (cache.put_Req opts))) < 2 ^ 32 ->
  Z.of_nat (length (protocol.put_OutputID (cache.put_Req opts))) < 2 ^ 32 ->
  is_int64 (protocol.BodySize (cache.put_Req opts)) ->
  blob.bucket storeB key = blob.Object (io.of_bytes obj) ->
  blob.BlobBackend.download storeB
    (cache.mkGetOpts (protocol.mkGetRequest (protocol.put_ActionID (cache.put_Req opts))) comp)
    uidB nowB fsB
  = (let! r :=
       wrapM ErrPutDownloaded
         (local.Put (blob.diskStore storeB)
            (blob.BlobBackend.putOpts (stored_meta opts nowU)
               (io.of_bytes (put_payload opts)) comp)
            uidB nowB) in
     ret (blob.BlobBackend.hit (stored_meta opts nowU) (protocol.put_DiskPath r))) fsB
  /\ forall resp fsB',
       blob.BlobBackend.download storeB
         (cache.mkGetOpts
            (protocol.mkGetRequest (protocol.put_ActionID (cache.put_Req opts))) comp)
         uidB nowB fsB = (Ok resp, fsB') ->
       protocol.Miss resp = false
       /\ protocol.OutputID resp = protocol.put_OutputID (cache.put_Req opts)
       /\ protocol.Size resp = protocol.BodySize (cache.put_Req opts)
       /\ (0 < protocol.BodySize (cache.put_Req opts) ->
           os.nodes fsB' !! protocol.DiskPath resp
           = Some (os.File (io.avail (cache.Body opts)))).
Proof.
  intros HPut Hup HlA HlO Hsz Hobj.
  assert (Hobj' : exists a0 A,
            protocol.put_ActionID (cache.put_Req opts) = a0 :: A
            /\ key = objectKey a0 A
            /\ obj = cache.WriteTo (put_meta opts nowU) ++ put_payload opts).
  { pose proof (Put_frame _ _ _ _ _ _ _ HPut) as [Hb _].
    apply Put_Ok in HPut as [_ Hput].
    unfold blob.BlobBackend.doBgUpload in Hup.
    destruct (protocol.put_ActionID (cache.put_Req opts)) as [|a0 A] eqn:EA;
      [discriminate|].
    exists a0, A. split; [reflexivity|].
    cbn [blob.CacheEntityKey bind] in Hup. unfold put_payload, put_meta. rewrite EA.
    destruct (Z.ltb_spec 0 (protocol.BodySize (cache.put_Req opts))) as [Hpos|Hzero].
    - apply put_Ok_nonempty in Hput as (aP & oP & HaP & HoP & Hresp & Ha & Ho & Hlen);
        [|exact Hpos].
      rewrite Hresp in Hup. unfold os.Open in Hup.
      destruct (os.broken fsA' os.SysOpen oP); [discriminate|].
      rewrite Ho in Hup. now injection Hup as <- <-.
    - injection Hup as <- <-. now rewrite app_nil_r. }
  destruct Hobj' as (a0 & A & EA & -> & ->).
  assert (Hdl := download_of_object storeB
            (cache.mkGetOpts (protocol.mkGetRequest (a0 :: A)) comp) uidB nowB fsB a0 A
            (put_meta opts nowU) (put_payload opts) eq_refl Hobj).
  cbn [cache.ActionID cache.OutputID cache.Size cache.Time put_meta] in Hdl.
  specialize (Hdl EA HlA HlO Hsz). cbv zeta in Hdl.
  cbn [cache.get_IsInCompaction] in Hdl.
  rewrite EA.
  assert (Est : stored_meta opts nowU
                = cache.mkEntryMeta (a0 :: A) (protocol.put_OutputID (cache.put_Req opts))
                    (protocol.BodySize (cache.put_Req opts))
                    (reread_time (match cache.OverrideTime opts with
                                  | Some t => t
                                  | None => nowU
                                  end))).
  { unfold stored_meta, put_meta. cbn [cache.Time]. now rewrite EA. }
  rewrite Est. rewrite EA in Hdl. split; [exact Hdl|].
  intros resp fsB' Hok. rewrite Hdl in Hok.
  inv_bind Hok. injection Hok as <- <-.
  cbn [blob.BlobBackend.hit protocol.Miss protocol.OutputID protocol.Size protocol.DiskPath
       cache.OutputID cache.Size].
  split; [reflexivity|]. split; [reflexivity|]. split; [reflexivity|].
  intros Hpos. apply wrapM_Ok in Hstep.
  apply Put_materializes in Hstep; [|exact Hpos].
  destruct Hstep as (aP & _ & _ & _ & Hbody).
  rewrite Hbody. unfold put_payload, io.of_bytes. cbn [io.avail].
  now rewrite (proj2 (Z.ltb_lt _ _) Hpos).
Qed.

Lemma uploaded_entry_downloads_witness :
  let diskA := local.mkLocalBackend ["a"%string] false in
  let opts :=
    cache.mkPutOpts (protocol.mkPutRequest [x01] [x02] 3)
      (io.of_bytes [x61; x62; x63]) None false in
  let obj := cache.WriteTo (cache.mkEntryMeta [x01] [x02] 3 (time.Unix 9 0))
             ++ [x61; x62; x63] in
  let storeB :=
    blob.mkBlobBackend false
      (fun key => if String.eqb key "b/01/01" then blob.Object (io.of_bytes obj)
                  else blob.NotFound)
      (local.mkLocalBackend ["b"%string] false)
      (blob.ArLocalStore.NewArLocalStore ["work"%string]) in
  let fsB := os.mkFS ∅ (fun _ _ => false) in
  let get := cache.mkGetOpts (protocol.mkGetRequest [x01]) false in
  blob.BlobBackend.download storeB get "IJKLMNOP" time.zero fsB
  = (let! r :=
       wrapM ErrPutDownloaded
         (local.Put (blob.diskStore storeB)
            (blob.BlobBackend.putOpts (stored_meta opts (time.Unix 9 0))
               (io.of_bytes (put_payload opts)) false)
            "IJKLMNOP" time.zero) in
     ret (blob.BlobBackend.hit (stored_meta opts (time.Unix 9 0)) (protocol.put_DiskPath r)))
      fsB
  /\ forall resp fsB',
       blob.BlobBackend.download storeB get "IJKLMNOP" time.zero fsB = (Ok resp, fsB') ->
       protocol.Miss resp = false
       /\ protocol.OutputID resp = [x02]
       /\ protocol.Size resp = 3
       /\ (0 < 3 ->
           os.nodes fsB' !! protocol.DiskPath resp = Some (os.File [x61; x62; x63])).
Proof.
  cbv zeta.
  apply (uploaded_entry_downloads (local.mkLocalBackend ["a"%string] false)
           (cache.mkPutOpts (protocol.mkPutRequest [x01] [x02] 3)
              (io.of_bytes [x61; x62; x63]) None false)
           "ABCDEFGH" (time.Unix 8 0) (time.Unix 9 0)
           (os.mkFS ∅ (fun _ _ => false))
           (snd (local.Put (local.mkLocalBackend ["a"%string] false)
                   (cache.mkPutOpts (protocol.mkPutRequest [x01] [x02] 3)
                      (io.of_bytes [x61; x62; x63]) None false)
                   "ABCDEFGH" (time.Unix 8 0) (os.mkFS ∅ (fun _ _ => false))))
           (protocol.mkPutResponse ["a"; "02"; "02.output"]%string)
           "b/01/01"
           (cache.WriteTo (cache.mkEntryMeta [x01] [x02] 3 (time.Unix 9 0))
            ++ [x61; x62; x63])).
  - vm_compute. reflexivity.
  - vm_compute. reflexivity.
  - cbn. lia.
  - cbn. lia.
  - unfold is_int64. cbn. lia.
  - reflexivity.
Defined.

(** ** The blob backend: reading what was written or downloaded *)

Lemma BlobBackend_Get_local_hit store opts uniqueId now (a0 : byte) (A : list byte) fs r :
  blob.closed store = false ->
  protocol.get_ActionID (cache.get_Req opts) = a0 :: A ->
  (forall e, bundleEntry store a0 A = Some e -> cache.Size (blob.meta e) <> 0) ->
  local.Get (blob.diskStore store) opts fs = (Ok r, fs) ->
  protocol.Miss r = false ->
  blob.BlobBackend.Get store opts uniqueId now fs = (Ok r, fs).
Proof.
  intros Hc HA Hbundle Hget Hhit.
  unfold blob.BlobBackend.Get, util.Do. rewrite Hc.
  rewrite (not_fast_path store opts uniqueId now a0 A HA fs Hbundle).
  now rewrite (afterFastPath_local_hit store opts uniqueId now a0 A fs r fs Hget Hhit).
Qed.

Lemma BlobBackend_Put_Ok store opts uniqueId now fs resp fs' :
  blob.BlobBackend.Put store opts uniqueId now fs = (Ok resp, fs') ->
  blob.closed store = false
  /\ exists r, local.Put (blob.diskStore store) opts uniqueId now fs = (Ok r, fs')
               /\ resp = protocol.mkPutResponse (protocol.put_DiskPath r).
Proof.
  unfold blob.BlobBackend.Put. destruct (blob.closed store); [discriminate|].
  intros H. split; [reflexivity|]. inv_bind H. apply wrapM_Ok in Hstep.
  injection H as <- <-. now exists a.
Qed.

(** X12: Read your writes: after a successful [Put] on the blob backend, a
    [Get] of the same ActionID on a backend with the same local cache and
    bundles is a hit served from the local disk, whatever the bucket holds
    or answers, unless the bundle of the keyspace holds the ActionID with an
    empty body (the fast path, which comes first). *)
Theorem BlobBackend_Put_then_Get
    (store : blob.BlobBackend) (opts : cache.PutOpts) (uniqueId : string) (now : time.Time)
    (fs fs' : os.FS) (resp : protocol.PutResponse) (a0 : byte) (A : list byte)
    (store2 : blob.BlobBackend) (comp : bool) (uniqueId2 : string) (now2 : time.Time) :
  blob.BlobBackend.Put store opts uniqueId now fs = (Ok resp, fs') ->
  protocol.put_ActionID (cache.put_Req opts) = a0 :: A ->
  (forall e, bundleEntry store a0 A = Some e -> cache.Size (blob.meta e) <> 0) ->
  (forall p, os.broken fs os.SysOpen p = false) ->
  (forall p, os.broken fs os.SysStat p = false) ->
  0 <= protocol.BodySize (cache.put_Req opts) < 2 ^ 63 ->
  Z.of_nat (length (protocol.put_ActionID (cache.put_Req opts))) < 2 ^ 32 ->
  Z.of_nat (length (protocol.put_OutputID (cache.put_Req opts))) < 2 ^ 32 ->
  blob.closed store2 = false ->
  blob.diskStore store2 = blob.diskStore store ->
  blob.archiveStore store2 = blob.archiveStore store ->
  blob.BlobBackend.Get store2
    (cache.mkGetOpts (protocol.mkGetRequest (a0 :: A)) comp) uniqueId2 now2 fs'
  = (Ok (hit_of (put_meta opts now) (protocol.put_DiskPath resp)), fs').
Proof.
  intros HPut EA Hbundle Hopen Hstat Hsz HlA HlO Hc2 Hd2 Har2.
  apply BlobBackend_Put_Ok in HPut as (_ & r & HPut & ->).
  apply Put_Ok_put in HPut as (Hdc & Hput & Hb).
  pose proof (Get_of_get _ _ _ _ _ Hdc
                (get_after_put _ _ _ _ _ _ _ comp Hput Hb Hopen Hstat Hsz HlA HlO)) as Hget.
  rewrite EA in Hget. cbn [protocol.put_DiskPath].
  apply (BlobBackend_Get_local_hit store2 _ uniqueId2 now2 a0 A); try assumption.
  - reflexivity.
  - unfold bundleEntry in *. now rewrite Har2.
  - now rewrite Hd2.
  - reflexivity.
Qed.

Lemma BlobBackend_Put_then_Get_witness :
  let store :=
    blob.mkBlobBackend false (fun _ => blob.Unavailable)
      (local.mkLocalBackend ["data"%string] false)
      (blob.ArLocalStore.NewArLocalStore ["work"%string]) in
  let opts :=
    cache.mkPutOpts (protocol.mkPutRequest [x01] [x02] 3)
      (io.of_bytes [x61; x62; x63]) None false in
  let out := blob.BlobBackend.Put store opts "ABCDEFGH" time.zero
               (os.mkFS ∅ (fun _ _ => false)) in
  blob.BlobBackend.Get store (cache.mkGetOpts (protocol.mkGetRequest [x01]) false)
    "IJKLMNOP" time.zero (snd out)
  = (Ok (hit_of (put_meta opts time.zero) ["data"; "02"; "02.output"]%string), snd out).
Proof.
  cbv zeta.
  apply (BlobBackend_Put_then_Get
           (blob.mkBlobBackend false (fun _ => blob.Unavailable)
              (local.mkLocalBackend ["data"%string] false)
              (blob.ArLocalStore.NewArLocalStore ["work"%string]))
           (cache.mkPutOpts (protocol.mkPutRequest [x01] [x02] 3)
              (io.of_bytes [x61; x62; x63]) None false)
           "ABCDEFGH" time.zero (os.mkFS ∅ (fun _ _ => false))
           _ (protocol.mkPutResponse ["data"; "02"; "02.output"]%string) x01 []).
  - vm_compute. reflexivity.
  - reflexivity.
  - intros e H. vm_compute in H. discriminate H.
  - intros p. reflexivity.
  - intros p. reflexivity.
  - cbn. lia.
  - cbn. lia.
  - cbn. lia.
  - reflexivity.
  - reflexivity.
  - reflexivity.
Defined.

(** What [ReadEntryMeta] returns survives another round through the codec. *)
Lemma ReadEntryMeta_ranges (r r' : io.Reader) (m : cache.EntryMeta) :
  cache.ReadEntryMeta r = Ok (m, r') ->
  Z.of_nat (length (cache.ActionID m)) < 2 ^ 32
  /\ Z.of_nat (length (cache.OutputID m)) < 2 ^ 32
  /\ is_int64 (cache.Size m)
  /\ reread_time (cache.Time m) = cache.Time m.
Proof.
  unfold cache.ReadEntryMeta.
  destruct (io.ReadFull r 8) as [[lengthHeader r1]|e|] eqn:E1; cbn [bind]; try discriminate.
  apply ReadFull_Ok in E1 as (Ha1 & Hl1 & Hf1).
  set (actionIDLen := Z.to_nat (Uint32 (firstn 4 lengthHeader))).
  set (outputIDLen := Z.to_nat (Uint32 (skipn 4 lengthHeader))).
  destruct (io.ReadFull r1 (actionIDLen + outputIDLen + 16))
    as [[remainingBuf r2]|e|] eqn:E2; cbn [bind]; try discriminate.
  apply ReadFull_Ok in E2 as (Ha2 & Hl2 & Hf2).
  intros H. injection H as <- <-.
  cbn [cache.ActionID cache.OutputID cache.Size cache.Time].
  assert (Hu : forall bs, 0 <= Uint32 bs < 2 ^ 32).
  { intros bs. unfold Uint32. pose proof (get_le_range (firstn 4 bs)) as Hg.
    assert (length (firstn 4 bs) <= 4)%nat by (rewrite length_firstn; lia).
    assert (256 ^ Z.of_nat (length (firstn 4 bs)) <= 256 ^ 4)
      by (apply Z.pow_le_mono_r; lia).
    change (256 ^ 4) with (2 ^ 32) in *. lia. }
  split; [|split; [|split]].
  - rewrite length_firstn. unfold actionIDLen.
    pose proof (Hu (firstn 4 lengthHeader)). lia.
  - rewrite length_firstn. unfold outputIDLen.
    pose proof (Hu (skipn 4 lengthHeader)). lia.
  - apply int64_range.
  - match goal with |- reread_time (if ?n =? _ then _ else _) = _ => set (n0 := n) end.
    unfold reread_time.
    destruct (Z.eqb_spec n0 (time.UnixNano time.zero)) as [E|Hne]; [reflexivity|].
    rewrite UnixNano_Unix by apply int64_range.
    now rewrite (proj2 (Z.eqb_neq _ _) Hne).
Qed.

(** X13: A download is cached: when a get misses the local cache and the
    bundle and answers with a hit from the bucket, the same request asked
    again gets the same answer from the local disk, without any change to
    the disk and whatever the bucket has become. *)
Theorem downloaded_entry_is_served_locally
    (store : blob.BlobBackend) (opts : cache.GetOpts) (uniqueId : string) (now : time.Time)
    (a0 : byte) (A : list byte) (fs fs1 fs' : os.FS) (r resp : protocol.GetResponse)
    (store2 : blob.BlobBackend) (uniqueId2 : string) (now2 : time.Time) :
  protocol.get_ActionID (cache.get_Req opts) = a0 :: A ->
  bundleEntry store a0 A = None ->
  local.Get (blob.diskStore store) opts fs = (Ok r, fs1) ->
  protocol.Miss r = true ->
  blob.BlobBackend.get store opts uniqueId now fs = (Ok resp, fs') ->
  protocol.Miss resp = false ->
  0 <= protocol.Size resp ->
  (forall p, os.broken fs os.SysOpen p = false) ->
  (forall p, os.broken fs os.SysStat p = false) ->
  blob.closed store2 = false ->
  blob.diskStore store2 = blob.diskStore store ->
  blob.archiveStore store2 = blob.archiveStore store ->
  blob.BlobBackend.Get store2 opts uniqueId2 now2 fs' = (Ok resp, fs').
Proof.
  intros HA Hnone Hlocal Hmiss Hget Hhit Hsz Hopen Hstat Hc2 Hd2 Har2.
  assert (Hb1 : os.broken fs1 = os.broken fs)
    by (apply Get_only_removes in Hlocal as [Hb _]; exact Hb).
  rewrite (not_fast_path store opts uniqueId now a0 A HA fs) in Hget
    by (intros e He; congruence).
  rewrite (afterFastPath_local_miss store opts uniqueId now a0 A fs r fs1 Hlocal Hmiss)
    in Hget.
  rewrite Hnone in Hget.
  rewrite (download_unfold store opts uniqueId now a0 A HA) in Hget.
  destruct (blob.bucket store (objectKey a0 A)) as [| |rd].
  - injection Hget as <- <-. discriminate Hhit.
  - discriminate Hget.
  - inv_bind Hget. destruct a as [m rd']. apply lift_Ok in Hstep as [Hread ->].
    destruct (cache.ReadEntryMeta rd) as [[m1 rd1]|e|] eqn:Erd; try discriminate.
    cbn [wrap] in Hread. injection Hread as -> ->.
    apply ReadEntryMeta_ranges in Erd as (HlA & HlO & Hint & Htime).
    unfold bytes_Equal in Hget.
    destruct (bool_decide_reflect (cache.ActionID m = a0 :: A)) as [EmA|]; [|discriminate].
    cbn [negb] in Hget. inv_bind Hget. apply wrapM_Ok in Hstep.
    injection Hget as <- <-.
    cbn [blob.BlobBackend.hit protocol.Size] in Hsz.
    apply Put_Ok_put in Hstep as (Hdc & Hput & Hbp).
    pose proof (fun H1 H2 H3 H4 H5 =>
                  Get_of_get _ _ _ _ _ Hdc
                    (get_after_put _ _ _ _ _ _ _ (cache.get_IsInCompaction opts)
                       Hput Hbp H1 H2 H3 H4 H5)) as Hg.
    cbn [blob.BlobBackend.putOpts cache.put_Req protocol.put_ActionID protocol.put_OutputID
         protocol.BodySize] in Hg.
    assert (Hb : forall c p, os.broken fs1 c p = os.broken fs c p) by (intros; now rewrite Hb1).
    specialize (Hg ltac:(intros; rewrite Hb; apply Hopen)
                   ltac:(intros; rewrite Hb; apply Hstat)
                   ltac:(unfold is_int64 in Hint; lia) HlA HlO).
    rewrite EmA in Hg.
    assert (Eo : cache.mkGetOpts (protocol.mkGetRequest (a0 :: A)) (cache.get_IsInCompaction opts)
                 = opts).
    { destruct opts as [[aid] c0]. cbn in HA. now subst. }
    rewrite Eo in Hg.
    assert (Eh : hit_of (put_meta (blob.BlobBackend.putOpts m rd' (cache.get_IsInCompaction opts)) now)
                   (protocol.put_DiskPath a)
                 = blob.BlobBackend.hit m (protocol.put_DiskPath a)).
    { unfold hit_of, blob.BlobBackend.hit, put_meta, blob.BlobBackend.putOpts.
      cbn [cache.put_Req cache.OverrideTime cache.OutputID cache.Size cache.Time
           protocol.put_OutputID protocol.BodySize].
      now rewrite Htime. }
    rewrite Eh in Hg.
    apply (BlobBackend_Get_local_hit store2 opts uniqueId2 now2 a0 A); try assumption.
    + unfold bundleEntry in *. rewrite Har2, Hnone. discriminate.
    + now rewrite Hd2.
Qed.

Lemma downloaded_entry_is_served_locally_witness :
  let disk := local.mkLocalBackend ["data"%string] false in
  let ar := blob.ArLocalStore.NewArLocalStore ["work"%string] in
  let m := cache.mkEntryMeta [xab; xcd] [x10] 3 (time.Unix 1640995200 5) in
  let bucket := fun key : string =>
    if String.eqb key "b/ab/abcd"
    then blob.Object (io.of_bytes (cache.WriteTo m ++ [x66; x6f; x6f]))
    else blob.NotFound in
  let opts := cache.mkGetOpts (protocol.mkGetRequest [xab; xcd]) false in
  let first := blob.BlobBackend.get (blob.mkBlobBackend false bucket disk ar) opts
                 "ABCDEFGH" time.zero (os.mkFS ∅ (fun _ _ => false)) in
  blob.BlobBackend.Get (blob.mkBlobBackend false (fun _ => blob.Unavailable) disk ar) opts
    "IJKLMNOP" time.zero (snd first)
  = (Ok (protocol.mkGetResponse false [x10] 3 (Some (time.Unix 1640995200 5))
           ["data"; "10"; "10.output"]%string), snd first).
Proof.
  cbv zeta.
  apply (downloaded_entry_is_served_locally
           (blob.mkBlobBackend false
              (fun key : string =>
                 if String.eqb key "b/ab/abcd"
                 then blob.Object
                        (io.of_bytes
                           (cache.WriteTo
                              (cache.mkEntryMeta [xab; xcd] [x10] 3 (time.Unix 1640995200 5))
                            ++ [x66; x6f; x6f]))
                 else blob.NotFound)
              (local.mkLocalBackend ["data"%string] false)
              (blob.ArLocalStore.NewArLocalStore ["work"%string]))
           (cache.mkGetOpts (protocol.mkGetRequest [xab; xcd]) false)
           "ABCDEFGH" time.zero xab [xcd] (os.mkFS ∅ (fun _ _ => false))
           (os.mkFS ∅ (fun _ _ => false)) _ protocol.miss).
  - reflexivity.
  - vm_compute. reflexivity.
  - vm_compute. reflexivity.
  - reflexivity.
  - vm_compute. reflexivity.
  - reflexivity.
  - cbn. lia.
  - intros p. reflexivity.
  - intros p. reflexivity.
  - reflexivity.
  - reflexivity.
  - reflexivity.
Defined.

(** ** The local bundle store: installing a bundle *)

Section BundleInstall.

Variable parse : list byte -> option (gmap string blob.ArEntry).

Lemma bundleTmp_neq_final s keyspace uniqueId :
  bundleTmpPath s keyspace uniqueId <> bundlePath s keyspace.
Proof.
  unfold bundleTmpPath, bundlePath, blob.ArchiveFilePath.
  rewrite add_suffix_Join2. apply tmp_neq_final. discriminate.
Qed.

Lemma bundleDir_neq s keyspace uniqueId :
  filepath.Dir (bundleTmpPath s keyspace uniqueId) <> bundlePath s keyspace
  /\ filepath.Dir (bundleTmpPath s keyspace uniqueId) <> bundleTmpPath s keyspace uniqueId.
Proof.
  unfold bundleTmpPath, bundlePath, blob.ArchiveFilePath.
  rewrite add_suffix_Join2, Dir_Join2.
  split; apply Join_length_neq; discriminate.
Qed.

Lemma NewArReader_Some fs p r :
  blob.ArLocalStore.NewArReader parse fs p = Some r ->
  exists content entries,
    os.broken fs os.SysOpen p = false
    /\ os.nodes fs !! p = Some (os.File content)
    /\ parse content = Some entries
    /\ r = blob.mkArReader false entries.
Proof.
  unfold blob.ArLocalStore.NewArReader, os.Open.
  destruct (os.broken fs os.SysOpen p); [discriminate|].
  destruct (os.nodes fs !! p) as [[content|]|]; try discriminate.
  destruct (parse content) as [entries|] eqn:E; [|discriminate].
  intros H. injection H as <-. now exists content, entries.
Qed.

(** The outcome of [Put], case by case. On the disk, whatever the outcome,
    the faults are the same and nothing that was there is changed or
    removed, the temporary file and the bundle file apart. *)
Lemma ArLocalStore_Put_spec s keyspace rd uniqueId fs res s' fs' :
  blob.ArLocalStore.Put parse s keyspace rd uniqueId fs = (res, s', fs') ->
  let tmp := bundleTmpPath s keyspace uniqueId in
  let final := bundlePath s keyspace in
  (os.broken fs' = os.broken fs
   /\ forall q n, q <> tmp -> q <> final ->
        os.nodes fs !! q = Some n -> os.nodes fs' !! q = Some n)
  /\ match res with
     | Ok _ =>
         exists entries,
           io.failing rd = false
           /\ parse (io.avail rd) = Some entries
           /\ s' = blob.ArLocalStore.set
                     (blob.ArLocalStore.alloc s (blob.mkArReader false entries)).2
                     keyspace (blob.next s)
           /\ os.nodes fs' !! final = Some (os.File (io.avail rd))
           /\ os.nodes fs' !! tmp = None
     | Err e =>
         blob.readers s' = blob.readers s
         /\ (forall p, (p < blob.next s)%nat -> blob.heap s' !! p = blob.heap s !! p)
         /\ os.nodes fs' !! final = os.nodes fs !! final
         /\ (e <> ErrCreate -> os.broken fs os.SysRemove tmp = false ->
             os.nodes fs' !! tmp = None)
     | Panic => False
     end.
Proof.
  intros H tmp final. unfold blob.ArLocalStore.Put in H.
  fold (bundlePath s keyspace) in H. fold final in H.
  change (filepath.add_suffix final (".tmp." +:+ uniqueId)) with tmp in H.
  set (P := fun q : filepath.path => q = tmp \/ q = final).
  destruct (bundleDir_neq s keyspace uniqueId) as [Hd1 Hd2]. fold tmp final in Hd1, Hd2.
  pose proof (bundleTmp_neq_final s keyspace uniqueId) as Htf. fold tmp final in Htf.
  set (fs0 := match os.MkdirAll fs (filepath.Dir tmp) with
              | Some fs'0 => fs'0
              | None => fs
              end) in H.
  assert (Hlen : (length (filepath.Dir tmp) < length final)%nat).
  { unfold tmp, final, bundleTmpPath, bundlePath, blob.ArchiveFilePath.
    rewrite add_suffix_Join2, Dir_Join2. path_len. }
  assert (B0 : os.broken fs0 = os.broken fs).
  { unfold fs0. destruct (os.MkdirAll fs (filepath.Dir tmp)) as [fs1|] eqn:E;
      [now apply (MkdirAll_broken _ _ _ E)|reflexivity]. }
  assert (K0 : forall (q : filepath.path) n,
            os.nodes fs !! q = Some n -> os.nodes fs0 !! q = Some n).
  { intros q n Hq. unfold fs0.
    destruct (os.MkdirAll fs (filepath.Dir tmp)) as [fs1|] eqn:E;
      [now apply (MkdirAll_keeps _ _ _ _ _ E)|exact Hq]. }
  assert (N0 : os.nodes fs0 !! final = os.nodes fs !! final).
  { unfold fs0. destruct (os.MkdirAll fs (filepath.Dir tmp)) as [fs1|] eqn:E;
      [now apply (MkdirAll_deeper _ _ _ _ E)|reflexivity]. }
  assert (Conv : forall fsx, frame P fs0 fsx ->
            os.broken fsx = os.broken fs
            /\ forall q n, q <> tmp -> q <> final ->
                 os.nodes fs !! q = Some n -> os.nodes fsx !! q = Some n).
  { intros fsx [Bx Nx]. split; [congruence|]. intros q n Hq1 Hq2 Hq.
    rewrite Nx by (unfold P; tauto). now apply K0. }
  assert (F0' : frame P fs0 fs0) by apply frame_refl.
  destruct (os.Create fs0 tmp) as [fs1|] eqn:Ecr.
  2:{ injection H as <- <- <-. split; [now apply Conv|].
      split; [reflexivity|]. split; [reflexivity|]. split; [exact N0|].
      intros He. congruence. }
  assert (F1 : frame P fs0 fs1).
  { eapply frame_weaken; [|apply (Create_frame _ _ _ Ecr)].
    unfold P. intros q ->. tauto. }
  assert (Hrm : forall fsx, frame P fs0 fsx -> frame P fs0 (os.Remove fsx tmp)).
  { intros fsx Hx. eapply frame_trans; [exact Hx|].
    eapply frame_weaken; [|apply Remove_frame]. unfold P. intros q ->. tauto. }
  assert (Hgone : forall fsx, frame P fs0 fsx -> os.broken fs os.SysRemove tmp = false ->
            os.nodes (os.Remove fsx tmp) !! tmp = None).
  { intros fsx [Hbx _] Hb. unfold os.Remove. rewrite Hbx, B0, Hb. cbn.
    apply lookup_delete_eq. }
  assert (Hfinal : forall fsx, frame P fs0 fsx ->
            os.nodes (os.Remove fsx tmp) !! final = os.nodes fsx !! final).
  { intros fsx _. apply (Remove_frame fsx tmp). congruence. }
  unfold io.Copy in H.
  destruct (io.failing rd) eqn:Ef; cbn [is_Some_b] in H.
  { injection H as <- <- <-. split; [now apply Conv, Hrm|].
    split; [reflexivity|]. split; [reflexivity|]. split.
    - rewrite Hfinal by exact F1. apply Create_nodes in Ecr as [N1 _].
      rewrite N1, lookup_insert_ne by congruence. exact N0.
    - intros _ Hb. now apply Hgone. }
  destruct (os.Write fs1 tmp (io.avail rd)) as [fs2|] eqn:Ewr.
  2:{ injection H as <- <- <-. split; [now apply Conv, Hrm|].
      split; [reflexivity|]. split; [reflexivity|]. split.
      - rewrite Hfinal by exact F1. apply Create_nodes in Ecr as [N1 _].
        rewrite N1, lookup_insert_ne by congruence. exact N0.
      - intros _ Hb. now apply Hgone. }
  assert (F2 : frame P fs0 fs2).
  { eapply frame_trans; [exact F1|]. eapply frame_weaken; [|apply (Write_frame _ _ _ _ Ewr)].
    unfold P. intros q ->. tauto. }
  assert (Hfin2 : os.nodes fs2 !! final = os.nodes fs !! final).
  { apply Write_nodes in Ewr as [N2 _]. apply Create_nodes in Ecr as [N1 _].
    rewrite N2, lookup_insert_ne by congruence.
    rewrite N1, lookup_insert_ne by congruence. exact N0. }
  destruct (blob.ArLocalStore.NewArReader parse fs2 tmp) as [arReader|] eqn:Enr.
  2:{ injection H as <- <- <-. split; [now apply Conv, Hrm|].
      split; [reflexivity|]. split; [reflexivity|]. split.
      - now rewrite Hfinal by exact F2.
      - intros _ Hb. now apply Hgone. }
  apply NewArReader_Some in Enr as (content & entries & _ & Hn & Hparse & ->).
  assert (content = io.avail rd) as ->.
  { apply Write_nodes in Ewr as [N2 _]. rewrite N2, lookup_insert_eq in Hn. congruence. }
  cbn [blob.ArLocalStore.alloc] in H.
  destruct (os.Rename fs2 tmp final) as [fs3|] eqn:Ern.
  - injection H as <- <- <-. split.
    { apply Conv. eapply frame_trans; [exact F2|].
      eapply frame_weaken; [|apply (Rename_frame _ _ _ _ Ern)].
      unfold P. intros q [->| ->]; tauto. }
    exists entries. split; [reflexivity|]. split; [exact Hparse|]. split; [reflexivity|].
    apply Rename_nodes in Ern as (n & Hsrc & N3 & _).
    rewrite N3. split.
    + rewrite lookup_insert_eq. congruence.
    + rewrite lookup_insert_ne by congruence. apply lookup_delete_eq.
  - injection H as <- <- <-. split; [now apply Conv, Hrm|].
    cbn [blob.ArLocalStore.close blob.readers blob.heap blob.next].
    split; [reflexivity|]. split; [|split].
    + intros p Hp. rewrite lookup_alter_ne by lia. apply lookup_insert_ne. lia.
    + now rewrite Hfinal by exact F2.
    + intros _ Hb. now apply Hgone.
Qed.

Lemma wf_pointer_below s k p :
  store_wf s -> blob.readers s !! k = Some p -> (p < blob.next s)%nat.
Proof.
  intros [Hwf1 Hwf2] Hk. destruct (Hwf1 k p Hk) as (r & Hr & _).
  apply Hwf2. now rewrite Hr.
Qed.

Lemma GetArchive_same s s' :
  store_wf s ->
  blob.readers s' = blob.readers s ->
  (forall p, (p < blob.next s)%nat -> blob.heap s' !! p = blob.heap s !! p) ->
  forall k, blob.ArStore.GetArchive s' k = blob.ArStore.GetArchive s k.
Proof.
  intros Hwf Hr Hh k. unfold blob.ArStore.GetArchive, blob.ArLocalStore.Get. rewrite Hr.
  destruct (blob.readers s !! k) as [p|] eqn:E; [|reflexivity].
  cbn. apply Hh. now apply (wf_pointer_below s k).
Qed.

Lemma GetArchive_install s keyspace r :
  store_wf s ->
  let s' := blob.ArLocalStore.set (blob.ArLocalStore.alloc s r).2 keyspace (blob.next s) in
  blob.ArStore.GetArchive s' keyspace = Some r
  /\ forall k, k <> keyspace -> blob.ArStore.GetArchive s' k = blob.ArStore.GetArchive s k.
Proof.
  intros Hwf s'. unfold blob.ArStore.GetArchive, blob.ArLocalStore.Get. subst s'.
  cbn [blob.ArLocalStore.set blob.ArLocalStore.alloc snd blob.readers blob.heap
       blob.workDir blob.next]. split.
  - rewrite lookup_insert_eq. cbn. apply lookup_insert_eq.
  - intros k Hk. rewrite lookup_insert_ne by congruence.
    destruct (blob.readers s !! k) as [p|] eqn:E; [|reflexivity].
    cbn. apply lookup_insert_ne. pose proof (wf_pointer_below s k p Hwf E). lia.
Qed.

(** X14: A failed install of a bundle leaves no trace: every keyspace is
    served by the reader it had, the bundle file is what it was, and unless
    the temporary file could not even be created it is removed (when the
    disk lets it be removed). *)
Theorem failed_bundle_install_is_rolled_back
    (s s' : blob.ArLocalStore) (keyspace uniqueId : string) (rd : io.Reader)
    (fs fs' : os.FS) (e : error) :
  store_wf s ->
  blob.ArLocalStore.Put parse s keyspace rd uniqueId fs = (Err e, s', fs') ->
  (forall k, blob.ArStore.GetArchive s' k = blob.ArStore.GetArchive s k)
  /\ os.nodes fs' !! bundlePath s keyspace = os.nodes fs !! bundlePath s keyspace
  /\ (e <> ErrCreate ->
      os.broken fs os.SysRemove (bundleTmpPath s keyspace uniqueId) = false ->
      os.nodes fs' !! bundleTmpPath s keyspace uniqueId = None).
Proof.
  intros Hwf H. apply ArLocalStore_Put_spec in H as [_ (Hr & Hh & Hfinal & Htmp)].
  split; [now apply GetArchive_same|]. now split.
Qed.

(** X15: A successful install of a bundle puts it in service and on disk: the
    keyspace is served by an open reader of the new content, the other
    keyspaces by the readers they had, the bundle file holds the content and
    the temporary file is gone; and a store that starts afresh on this disk
    loads the same bundle with [LoadLocal]. *)
Theorem installed_bundle_is_served_and_reloaded
    (s s' : blob.ArLocalStore) (keyspace uniqueId : string) (rd : io.Reader)
    (fs fs' : os.FS) :
  store_wf s ->
  blob.ArLocalStore.Put parse s keyspace rd uniqueId fs = (Ok tt, s', fs') ->
  exists entries,
    io.failing rd = false
    /\ parse (io.avail rd) = Some entries
    /\ blob.ArStore.GetArchive s' keyspace = Some (blob.mkArReader false entries)
    /\ (forall k, k <> keyspace ->
          blob.ArStore.GetArchive s' k = blob.ArStore.GetArchive s k)
    /\ os.nodes fs' !! bundlePath s keyspace = Some (os.File (io.avail rd))
    /\ os.nodes fs' !! bundleTmpPath s keyspace uniqueId = None
    /\ (os.broken fs os.SysStat (bundlePath s keyspace) = false ->
        os.broken fs os.SysOpen (bundlePath s keyspace) = false ->
        exists s2,
          blob.ArLocalStore.LoadLocal parse
            (blob.ArLocalStore.NewArLocalStore (blob.workDir s)) keyspace fs' = (Ok tt, s2)
          /\ blob.ArStore.GetArchive s2 keyspace = Some (blob.mkArReader false entries)).
Proof.
  intros Hwf H. apply ArLocalStore_Put_spec in H as [[Hb _] (entries & Hf & Hp & -> & Hfin & Htmp)].
  exists entries. split; [exact Hf|]. split; [exact Hp|].
  destruct (GetArchive_install s keyspace (blob.mkArReader false entries) Hwf) as [G1 G2].
  split; [exact G1|]. split; [exact G2|]. split; [exact Hfin|]. split; [exact Htmp|].
  intros Hstat Hopen.
  unfold blob.ArLocalStore.LoadLocal, blob.ArLocalStore.NewArReader, os.Stat, os.Open.
  cbn [blob.ArLocalStore.NewArLocalStore blob.workDir].
  fold (bundlePath s keyspace). rewrite Hb, Hstat, Hopen, Hfin, Hp.
  eexists. split; [reflexivity|].
  unfold blob.ArStore.GetArchive, blob.ArLocalStore.Get.
  cbn. rewrite lookup_insert_eq. cbn. apply lookup_insert_eq.
Qed.

End BundleInstall.

Lemma failed_bundle_install_is_rolled_back_witness :
  let parse := fun _ : list byte => @None (gmap string blob.ArEntry) in
  let s := blob.ArLocalStore.NewArLocalStore ["work"%string] in
  let fs := os.mkFS ∅ (fun _ _ => false) in
  let out := blob.ArLocalStore.Put parse s "a" (io.of_bytes [x61]) "AAAAAAAA" fs in
  (forall k, blob.ArStore.GetArchive (snd (fst out)) k = blob.ArStore.GetArchive s k)
  /\ os.nodes (snd out) !! bundlePath s "a" = os.nodes fs !! bundlePath s "a"
  /\ (ErrIO <> ErrCreate ->
      os.broken fs os.SysRemove (bundleTmpPath s "a" "AAAAAAAA") = false ->
      os.nodes (snd out) !! bundleTmpPath s "a" "AAAAAAAA" = None).
Proof.
  cbv zeta.
  eapply (failed_bundle_install_is_rolled_back
            (fun _ : list byte => @None (gmap string blob.ArEntry))
            (blob.ArLocalStore.NewArLocalStore ["work"%string]) _ "a" "AAAAAAAA"
            (io.of_bytes [x61]) (os.mkFS ∅ (fun _ _ => false)) _ ErrIO).
  - apply wf_NewArLocalStore.
  - vm_compute. reflexivity.
Defined.

Lemma installed_bundle_is_served_and_reloaded_witness :
  let parse := fun bs : list byte =>
    Some ({[ "e"%string := blob.mkArEntry (cache.mkEntryMeta [x01] [x02] 1 time.zero)
                             (Some (io.of_bytes bs)) ]} : gmap string blob.ArEntry) in
  let s := blob.ArLocalStore.NewArLocalStore ["work"%string] in
  let fs := os.mkFS ∅ (fun _ _ => false) in
  let rd := io.of_bytes [x61] in
  let out := blob.ArLocalStore.Put parse s "a" rd "AAAAAAAA" fs in
  exists entries,
    io.failing rd = false
    /\ parse (io.avail rd) = Some entries
    /\ blob.ArStore.GetArchive (snd (fst out)) "a" = Some (blob.mkArReader false entries)
    /\ (forall k, k <> "a"%string ->
          blob.ArStore.GetArchive (snd (fst out)) k = blob.ArStore.GetArchive s k)
    /\ os.nodes (snd out) !! bundlePath s "a" = Some (os.File (io.avail rd))
    /\ os.nodes (snd out) !! bundleTmpPath s "a" "AAAAAAAA" = None
    /\ (os.broken fs os.SysStat (bundlePath s "a") = false ->
        os.broken fs os.SysOpen (bundlePath s "a") = false ->
        exists s2,
          blob.ArLocalStore.LoadLocal parse
            (blob.ArLocalStore.NewArLocalStore (blob.workDir s)) "a" (snd out) = (Ok tt, s2)
          /\ blob.ArStore.GetArchive s2 "a" = Some (blob.mkArReader false entries)).
Proof.
  cbv zeta.
  eapply (installed_bundle_is_served_and_reloaded
            (fun bs : list byte =>
               Some ({[ "e"%string := blob.mkArEntry (cache.mkEntryMeta [x01] [x02] 1 time.zero)
                                        (Some (io.of_bytes bs)) ]} : gmap string blob.ArEntry))
            (blob.ArLocalStore.NewArLocalStore ["work"%string]) _ "a" "AAAAAAAA"
            (io.of_bytes [x61]) (os.mkFS ∅ (fun _ _ => false))).
  - apply wf_NewArLocalStore.
  - vm_compute. reflexivity.
Defined.

(** ** The bundle store and the bucket *)

Section SyncTheorems.

Variable parse : list byte -> option (gmap string blob.ArEntry).

(** X16: [SyncFromRemote] is all or nothing for its keyspace and never touches
    another: either the bundle in service and the time of the last sync are
    what they were, or the call succeeded, the bundle in service is the
    remote object of the keyspace, and the time of the last sync is the time
    the download finished. *)
Theorem SyncFromRemote_installs_remote_bundle_or_nothing
    (bucket : string -> blob.remote) (s s' : blob.ArStore) (keyspace uniqueId : string)
    (now done : Z) (fs fs' : os.FS) (res : result unit) :
  store_wf (blob.local s) ->
  blob.ArStore.SyncFromRemote parse bucket s keyspace now done uniqueId fs = (res, s', fs') ->
  (forall k, k <> keyspace ->
     blob.ArStore.GetArchive (blob.local s') k = blob.ArStore.GetArchive (blob.local s) k)
  /\ ((blob.ArStore.GetArchive (blob.local s') keyspace
       = blob.ArStore.GetArchive (blob.local s) keyspace
       /\ blob.lastSyncAt s' = blob.lastSyncAt s)
      \/ (res = Ok tt
          /\ exists rd entries,
               bucket (blob.ArchiveKey keyspace) = blob.Object rd
               /\ io.failing rd = false
               /\ parse (io.avail rd) = Some entries
               /\ blob.ArStore.GetArchive (blob.local s') keyspace
                  = Some (blob.mkArReader false entries)
               /\ blob.lastSyncAt s' = <[keyspace := done]> (blob.lastSyncAt s))).
Proof.
  intros Hwf H. unfold blob.ArStore.SyncFromRemote in H.
  assert (Hsame : forall r0, (r0, s, fs) = (res, s', fs') ->
            (forall k, k <> keyspace ->
               blob.ArStore.GetArchive (blob.local s') k
               = blob.ArStore.GetArchive (blob.local s) k)
            /\ ((blob.ArStore.GetArchive (blob.local s') keyspace
                 = blob.ArStore.GetArchive (blob.local s) keyspace
                 /\ blob.lastSyncAt s' = blob.lastSyncAt s)
                \/ (res = Ok tt
                    /\ exists rd entries,
                         bucket (blob.ArchiveKey keyspace) = blob.Object rd
                         /\ io.failing rd = false
                         /\ parse (io.avail rd) = Some entries
                         /\ blob.ArStore.GetArchive (blob.local s') keyspace
                            = Some (blob.mkArReader false entries)
                         /\ blob.lastSyncAt s' = <[keyspace := done]> (blob.lastSyncAt s)))).
  { intros r0 E. injection E as _ <- _. split; [reflexivity|]. left. now split. }
  destruct (match blob.lastSyncAt s !! keyspace with
            | Some lastSync => now - lastSync <? blob.ArStoreMinSyncInterval
            | None => false
            end); [now apply (Hsame (Ok tt))|].
  destruct (bucket (blob.ArchiveKey keyspace)) as [| |rd] eqn:Eb;
    [now apply (Hsame (Ok tt))|now apply (Hsame (Err ErrIO))|].
  destruct (blob.ArLocalStore.Put parse (blob.local s) keyspace rd uniqueId fs)
    as [[r1 l'] fs1] eqn:EP.
  destruct r1 as [[]|e|].
  - injection H as <- <- <-. cbn [blob.local blob.lastSyncAt].
    apply (ArLocalStore_Put_spec parse) in EP as [_ (entries & Hf & Hp & -> & _)].
    destruct (GetArchive_install (blob.local s) keyspace (blob.mkArReader false entries) Hwf)
      as [G1 G2].
    split; [exact G2|]. right. split; [reflexivity|].
    exists rd, entries. now repeat split.
  - injection H as <- <- <-. cbn [blob.local blob.lastSyncAt].
    apply (ArLocalStore_Put_spec parse) in EP as [_ (Hr & Hh & _)].
    pose proof (GetArchive_same _ _ Hwf Hr Hh) as G.
    split; [intros k _; apply G|]. left. split; [apply G|reflexivity].
  - now apply ArLocalStore_Put_spec in EP as [_ []].
Qed.

(** X17: After a sync that downloaded the bundle, be it the first sync of the
    keyspace or a later one that was not itself throttled, a sync of the
    same keyspace that starts less than [ArStoreMinSyncInterval] after the
    download finished succeeds at once: it does not look at the bucket and
    changes neither the store nor the disk. *)
Theorem SyncFromRemote_is_throttled_after_a_download
    (bucket bucket2 : string -> blob.remote) (s s' : blob.ArStore)
    (keyspace uniqueId uniqueId2 : string) (now done now2 done2 : Z) (fs fs' : os.FS)
    (rd : io.Reader) :
  (forall lastSync, blob.lastSyncAt s !! keyspace = Some lastSync ->
     blob.ArStoreMinSyncInterval <= now - lastSync) ->
  bucket (blob.ArchiveKey keyspace) = blob.Object rd ->
  blob.ArStore.SyncFromRemote parse bucket s keyspace now done uniqueId fs = (Ok tt, s', fs') ->
  now2 - done < blob.ArStoreMinSyncInterval ->
  blob.ArStore.SyncFromRemote parse bucket2 s' keyspace now2 done2 uniqueId2 fs'
  = (Ok tt, s', fs').
Proof.
  intros Hdue Hb H Hlt. unfold blob.ArStore.SyncFromRemote in H.
  assert (Hskip : match blob.lastSyncAt s !! keyspace with
                  | Some lastSync => now - lastSync <? blob.ArStoreMinSyncInterval
                  | None => false
                  end = false).
  { destruct (blob.lastSyncAt s !! keyspace) as [l|] eqn:El; [|reflexivity].
    apply Z.ltb_ge. now apply Hdue. }
  rewrite Hskip, Hb in H.
  destruct (blob.ArLocalStore.Put parse (blob.local s) keyspace rd uniqueId fs)
    as [[r1 l'] fs1] eqn:EP.
  destruct r1 as [[]|e|]; try discriminate.
  injection H as <- <-.
  unfold blob.ArStore.SyncFromRemote. cbn [blob.lastSyncAt].
  rewrite lookup_insert_eq.
  now rewrite (proj2 (Z.ltb_lt _ _) Hlt).
Qed.

(** X18: [IngestNewArchive] never uploads a bundle it could not install
    locally: when it succeeds, the file it was given is in service for the
    keyspace, the bucket holds the same bytes under the bundle key and is
    otherwise unchanged, and the time of the last sync is set; when it
    fails, the bucket and the times of the last sync are unchanged. It does
    not panic. *)
Theorem IngestNewArchive_local_first
    (bucket bucket' : string -> blob.remote) (uploadFails : bool) (s s' : blob.ArStore)
    (keyspace uniqueId : string) (localFilePath : filepath.path) (done : Z)
    (fs fs' : os.FS) (res : result unit) :
  store_wf (blob.local s) ->
  localFilePath <> bundleTmpPath (blob.local s) keyspace uniqueId ->
  localFilePath <> filepath.Dir (bundleTmpPath (blob.local s) keyspace uniqueId) ->
  blob.ArStore.IngestNewArchive parse bucket uploadFails s keyspace localFilePath done
    uniqueId fs = (res, s', bucket', fs') ->
  match res with
  | Ok _ =>
      exists content entries,
        os.nodes fs !! localFilePath = Some (os.File content)
        /\ parse content = Some entries
        /\ blob.ArStore.GetArchive (blob.local s') keyspace
           = Some (blob.mkArReader false entries)
        /\ bucket' (blob.ArchiveKey keyspace) = blob.Object (io.of_bytes content)
        /\ (forall k, k <> blob.ArchiveKey keyspace -> bucket' k = bucket k)
        /\ blob.lastSyncAt s' !! keyspace = Some done
  | Err _ => bucket' = bucket /\ blob.lastSyncAt s' = blob.lastSyncAt s
  | Panic => False
  end.
Proof.
  intros Hwf Hne Hnd H. unfold blob.ArStore.IngestNewArchive in H.
  destruct (os.Open fs localFilePath) as [file|se] eqn:Eo.
  2:{ injection H as <- <- <- <-. now split. }
  set (r := match file with
            | os.File content => io.of_bytes content
            | os.Directory => io.mkReader [] true
            end) in H.
  destruct (blob.ArLocalStore.Put parse (blob.local s) keyspace r uniqueId fs)
    as [[r1 l'] fs1] eqn:EP.
  destruct r1 as [[]|e|].
  - pose proof (ArLocalStore_Put_spec parse _ _ _ _ _ _ _ _ EP)
      as [[Hb Hframe] (entries & Hf & Hp & El & Hfin & _)].
    assert (G1 : blob.ArStore.GetArchive l' keyspace = Some (blob.mkArReader false entries)).
    { rewrite El.
      apply (GetArchive_install (blob.local s) keyspace (blob.mkArReader false entries) Hwf). }
    assert (Hfile : exists content, file = os.File content /\ io.avail r = content).
    { destruct file as [content|]; [now exists content|discriminate Hf]. }
    destruct Hfile as (content & -> & Hr).
    assert (Hbo : os.broken fs os.SysOpen localFilePath = false
                  /\ os.nodes fs !! localFilePath = Some (os.File content)).
    { unfold os.Open in Eo. destruct (os.broken fs os.SysOpen localFilePath); [discriminate|].
      destruct (os.nodes fs !! localFilePath); [now injection Eo as ->|discriminate]. }
    destruct Hbo as [Hbo Hn].
    assert (Hn1 : os.nodes fs1 !! localFilePath = Some (os.File content)).
    { destruct (decide (localFilePath = bundlePath (blob.local s) keyspace)) as [->|Hnf].
      - cbv zeta in Hfin. rewrite Hfin. now rewrite Hr.
      - now apply Hframe. }
    unfold os.Open in H. rewrite Hb, Hbo, Hn1 in H.
    destruct uploadFails.
    + injection H as <- <- <- <-. now split.
    + injection H as <- <- <- <-. exists content, entries.
      split; [exact Hn|]. split; [now rewrite <- Hr|]. split; [exact G1|].
      unfold blob.Upload. split; [now rewrite String.eqb_refl|]. split.
      * intros k Hk. now rewrite (proj2 (String.eqb_neq _ _) Hk).
      * cbn [blob.lastSyncAt]. apply lookup_insert_eq.
  - injection H as <- <- <- <-. now split.
  - now apply ArLocalStore_Put_spec in EP as [_ []].
Qed.

End SyncTheorems.

Lemma SyncFromRemote_installs_remote_bundle_or_nothing_witness :
  let parse := fun bs : list byte =>
    Some ({[ "e"%string := blob.mkArEntry (cache.mkEntryMeta [x01] [x02] 1 time.zero)
                             (Some (io.of_bytes bs)) ]} : gmap string blob.ArEntry) in
  let bucket := fun k : string =>
    if String.eqb k "blobar/a.zip" then blob.Object (io.of_bytes [x61]) else blob.NotFound in
  let s := blob.mkArStore (blob.ArLocalStore.NewArLocalStore ["work"%string]) ∅ in
  let out := blob.ArStore.SyncFromRemote parse bucket s "a" 100 200 "AAAAAAAA"
               (os.mkFS ∅ (fun _ _ => false)) in
  let s' := snd (fst out) in
  (forall k, k <> "a"%string ->
     blob.ArStore.GetArchive (blob.local s') k = blob.ArStore.GetArchive (blob.local s) k)
  /\ ((blob.ArStore.GetArchive (blob.local s') "a" = blob.ArStore.GetArchive (blob.local s) "a"
       /\ blob.lastSyncAt s' = blob.lastSyncAt s)
      \/ (Ok tt = Ok tt
          /\ exists rd entries,
               bucket (blob.ArchiveKey "a") = blob.Object rd
               /\ io.failing rd = false
               /\ parse (io.avail rd) = Some entries
               /\ blob.ArStore.GetArchive (blob.local s') "a"
                  = Some (blob.mkArReader false entries)
               /\ blob.lastSyncAt s' = <[("a"%string) := 200]> (blob.lastSyncAt s))).
Proof.
  cbv zeta.
  eapply (SyncFromRemote_installs_remote_bundle_or_nothing
            (fun bs : list byte =>
               Some ({[ "e"%string := blob.mkArEntry (cache.mkEntryMeta [x01] [x02] 1 time.zero)
                                        (Some (io.of_bytes bs)) ]} : gmap string blob.ArEntry))
            (fun k : string =>
               if String.eqb k "blobar/a.zip" then blob.Object (io.of_bytes [x61])
               else blob.NotFound)
            (blob.mkArStore (blob.ArLocalStore.NewArLocalStore ["work"%string]) ∅)
            _ "a" "AAAAAAAA" 100 200 (os.mkFS ∅ (fun _ _ => false)) _ (Ok tt)).
  - apply wf_NewArLocalStore.
  - vm_compute. reflexivity.
Defined.

Lemma SyncFromRemote_is_throttled_after_a_download_witness :
  let parse := fun bs : list byte =>
    Some ({[ "e"%string := blob.mkArEntry (cache.mkEntryMeta [x01] [x02] 1 time.zero)
                             (Some (io.of_bytes bs)) ]} : gmap string blob.ArEntry) in
  let bucket := fun k : string =>
    if String.eqb k "blobar/a.zip" then blob.Object (io.of_bytes [x61]) else blob.NotFound in
  let s := blob.mkArStore (blob.ArLocalStore.NewArLocalStore ["work"%string])
             {[ "a"%string := 1000000000 ]} in
  let out := blob.ArStore.SyncFromRemote parse bucket s "a" 7000000000 7000000200 "AAAAAAAA"
               (os.mkFS ∅ (fun _ _ => false)) in
  blob.lastSyncAt (snd (fst out)) !! "a"%string = Some 7000000200
  /\ blob.ArStore.SyncFromRemote parse (fun _ => blob.Object (io.of_bytes [x62]))
       (snd (fst out)) "a" 11000000000 11000000100 "BBBBBBBB" (snd out)
     = (Ok tt, snd (fst out), snd out).
Proof.
  cbv zeta. split; [vm_compute; reflexivity|].
  eapply (SyncFromRemote_is_throttled_after_a_download
            (fun bs : list byte =>
               Some ({[ "e"%string := blob.mkArEntry (cache.mkEntryMeta [x01] [x02] 1 time.zero)
                                        (Some (io.of_bytes bs)) ]} : gmap string blob.ArEntry))
            (fun k : string =>
               if String.eqb k "blobar/a.zip" then blob.Object (io.of_bytes [x61])
               else blob.NotFound)
            (fun _ => blob.Object (io.of_bytes [x62]))
            (blob.mkArStore (blob.ArLocalStore.NewArLocalStore ["work"%string])
               {[ "a"%string := 1000000000 ]})
            _ "a" "AAAAAAAA" "BBBBBBBB" 7000000000 7000000200 11000000000 11000000100
            (os.mkFS ∅ (fun _ _ => false)) _ (io.of_bytes [x61])).
  - intros lastSync E. cbn [blob.lastSyncAt] in E. rewrite lookup_singleton_eq in E.
    injection E as <-. unfold blob.ArStoreMinSyncInterval. lia.
  - reflexivity.
  - vm_compute. reflexivity.
  - unfold blob.ArStoreMinSyncInterval. lia.
Defined.

Lemma IngestNewArchive_local_first_witness :
  let parse := fun bs : list byte =>
    Some ({[ "e"%string := blob.mkArEntry (cache.mkEntryMeta [x01] [x02] 1 time.zero)
                             (Some (io.of_bytes bs)) ]} : gmap string blob.ArEntry) in
  let bucket := fun _ : string => blob.NotFound in
  let s := blob.mkArStore (blob.ArLocalStore.NewArLocalStore ["work"%string]) ∅ in
  let fs := os.mkFS {[ ["tmp"%string] := os.Directory;
                       ["tmp"; "new.zip"]%string := os.File [x61] ]} (fun _ _ => false) in
  let out := blob.ArStore.IngestNewArchive parse bucket false s "a" ["tmp"; "new.zip"]%string
               200 "AAAAAAAA" fs in
  let s' := snd (fst (fst out)) in
  let bucket' := snd (fst out) in
  exists content entries,
    os.nodes fs !! ["tmp"; "new.zip"]%string = Some (os.File content)
    /\ parse content = Some entries
    /\ blob.ArStore.GetArchive (blob.local s') "a" = Some (blob.mkArReader false entries)
    /\ bucket' (blob.ArchiveKey "a") = blob.Object (io.of_bytes content)
    /\ (forall k, k <> blob.ArchiveKey "a" -> bucket' k = bucket k)
    /\ blob.lastSyncAt s' !! "a"%string = Some 200.
Proof.
  cbv zeta.
  eapply (IngestNewArchive_local_first
            (fun bs : list byte =>
               Some ({[ "e"%string := blob.mkArEntry (cache.mkEntryMeta [x01] [x02] 1 time.zero)
                                        (Some (io.of_bytes bs)) ]} : gmap string blob.ArEntry))
            (fun _ : string => blob.NotFound) _ false
            (blob.mkArStore (blob.ArLocalStore.NewArLocalStore ["work"%string]) ∅)
            _ "a" "AAAAAAAA" ["tmp"; "new.zip"]%string 200
            (os.mkFS {[ ["tmp"%string] := os.Directory;
                        ["tmp"; "new.zip"]%string := os.File [x61] ]} (fun _ _ => false))
            _ (Ok tt)).
  - apply wf_NewArLocalStore.
  - vm_compute. discriminate.
  - vm_compute. discriminate.
  - vm_compute. reflexivity.
Defined.

(** ** Compaction: what step 1 plans *)

Lemma scan_spec (objs : list blob.ListObject) :
  forall planned0 total0 planned total,
    blob.CompactionJob.scan objs planned0 total0 = Ok (planned, total) ->
    exists added,
      planned = planned0 ++ added
      /\ total = total0 + fold_right (fun item acc => blob.ObjectSize item + acc) 0 added
      /\ Forall (fun item =>
                   exists obj, In obj objs
                     /\ blob.IsDir obj = false
                     /\ blob.Size obj < blob.CompactionSmallBlobSize
                     /\ blob.Key obj = blob.ObjectKey item
                     /\ blob.Size obj = blob.ObjectSize item
                     /\ blob.CacheEntityKey (blob.ActionID item) = Ok (blob.ObjectKey item))
           added
      /\ (forall obj actionID, In obj objs -> plannable obj actionID ->
            In (blob.mkCompactItem actionID (blob.Key obj) (blob.Size obj)) added).
Proof.
  induction objs as [|obj rest IH]; intros planned0 total0 planned total H.
  - cbn in H. injection H as <- <-. exists []. rewrite app_nil_r. cbn.
    split; [reflexivity|]. split; [lia|]. split; [constructor|]. intros ? ? [].
  - cbn [blob.CompactionJob.scan] in H.
    assert (Hskip : (forall actionID, ~ plannable obj actionID) ->
              blob.CompactionJob.scan rest planned0 total0 = Ok (planned, total) ->
              exists added,
                planned = planned0 ++ added
                /\ total = total0
                           + fold_right (fun item acc => blob.ObjectSize item + acc) 0 added
                /\ Forall (fun item =>
                     exists obj0, In obj0 (obj :: rest)
                       /\ blob.IsDir obj0 = false
                       /\ blob.Size obj0 < blob.CompactionSmallBlobSize
                       /\ blob.Key obj0 = blob.ObjectKey item
                       /\ blob.Size obj0 = blob.ObjectSize item
                       /\ blob.CacheEntityKey (blob.ActionID item) = Ok (blob.ObjectKey item))
                     added
                /\ (forall obj0 actionID, In obj0 (obj :: rest) -> plannable obj0 actionID ->
                      In (blob.mkCompactItem actionID (blob.Key obj0) (blob.Size obj0)) added)).
    { intros Hno H0. apply IH in H0 as (added & E1 & E2 & F & C).
      exists added. split; [exact E1|]. split; [exact E2|]. split.
      - eapply Forall_impl; [exact F|]. intros item (o & Hin & Hrest).
        exists o. split; [now right|exact Hrest].
      - intros obj0 a [<-|Hin] Hp; [now apply Hno in Hp|now apply C]. }
    destruct (blob.IsDir obj) eqn:Edir.
    { apply Hskip; [|exact H]. intros a (Hd & _). congruence. }
    destruct (Z.leb_spec blob.CompactionSmallBlobSize (blob.Size obj)) as [Hbig|Hsmall].
    { apply Hskip; [|exact H]. intros a (_ & Hs & _). lia. }
    destruct (blob.DecodeCacheEntityKey (blob.Key obj)) as [actionID|e|] eqn:Edec.
    + apply IH in H as (added & E1 & E2 & F & C).
      apply DecodeCacheEntityKey_Ok in Edec.
      exists (blob.mkCompactItem actionID (blob.Key obj) (blob.Size obj) :: added).
      split; [now rewrite E1, <- app_assoc|]. split; [cbn; lia|]. split.
      * constructor.
        -- exists obj. cbn. repeat split; try assumption. now left.
        -- eapply Forall_impl; [exact F|]. intros item (o & Hin & Hrest).
           exists o. split; [now right|exact Hrest].
      * intros obj0 a [<-|Hin] Hp.
        -- destruct Hp as (_ & _ & Hk).
           apply CacheEntityKey_Ok in Hk.
           apply CacheEntityKey_Ok in Edec.
           assert (a = actionID) by congruence. subst. now left.
        -- right. now apply C.
    + apply Hskip; [|exact H]. intros a (_ & _ & Hk).
      apply CacheEntityKey_Ok in Hk. congruence.
    + discriminate.
Qed.

(** ** Compaction: the threshold *)

Lemma addedCount_None (planned : list blob.compactItem) :
  addedCount None planned = Z.of_nat (length planned).
Proof.
  induction planned as [|item planned IH]; [reflexivity|].
  cbn [addedCount length]. rewrite IH. lia.
Qed.

Lemma addedCount_all_present (r : blob.ArReader) (planned : list blob.compactItem) :
  (forall item, In item planned ->
     is_Some (blob.files r !! hex.EncodeToString (blob.ActionID item))) ->
  addedCount (Some r) planned = 0.
Proof.
  induction planned as [|item planned IH]; intros Hall; [reflexivity|].
  cbn [addedCount]. destruct (Hall item (or_introl eq_refl)) as [e ->].
  apply IH. intros item' Hin. apply Hall. now right.
Qed.

(** The count the job keeps is the number of listed objects that the bundle
    does not hold. *)
Lemma countAdded_addedCount (r : blob.ArReader) (planned : list blob.compactItem) :
  blob.CompactionJob.countAdded r planned = addedCount (Some r) planned.
Proof.
  unfold blob.CompactionJob.countAdded.
  induction planned as [|item planned IH]; [reflexivity|].
  rewrite filter_cons. cbn [addedCount]. rewrite <- IH.
  unfold blob.CompactionJob.isAdded, blob.ArReader.Get, blob.CacheEntityNameInArchive.
  destruct (blob.files r !! hex.EncodeToString (blob.ActionID item)) as [e|];
    cbn [is_Some_b negb].
  - destruct (decide (false = true)) as [E|_]; [discriminate E|reflexivity].
  - destruct (decide (true = true)) as [_|E]; [|now contradiction E].
    cbn [length]. lia.
Qed.

Section CompactionThreshold.

Context {W : Type}.
Variable SyncFromRemote : string -> W -> W.
Variable List : string -> W -> blob.listing.
Variable GetArchive : string -> W -> option blob.ArReader.
Variable step2DownloadAndFill : list blob.compactItem -> W -> result unit * W.
Variable step3IngestNewArFile : string -> W -> result unit * W.

Let work := blob.CompactionJob.work SyncFromRemote List GetArchive
              step2DownloadAndFill step3IngestNewArFile.

Lemma step1_outcome (c : blob.CompactionJob) (l : blob.listing) (ar : option blob.ArReader)
    planned total :
  blob.CompactionJob.scan (blob.objects l) [] 0 = Ok (planned, total) ->
  blob.listFails l = false ->
  blob.nNewlyAddedFiles c = 0 ->
  exists c1,
    blob.CompactionJob.step1FindBlobsToCompact c l ar
      = (Ok (negb (addedCount ar planned <? 10)), c1)
    /\ blob.plannedList c1 = planned
    /\ blob.isSkipped c1 = blob.isSkipped c
    /\ blob.Keyspace c1 = blob.Keyspace c
    /\ blob.nNewlyAddedFiles c1 = addedCount ar planned.
Proof.
  intros Hscan Hlist Hzero. unfold blob.CompactionJob.step1FindBlobsToCompact.
  rewrite Hscan, Hlist.
  destruct planned as [|item planned].
  - cbn [length Nat.eqb]. eexists. split.
    + destruct ar as [r|]; reflexivity.
    + repeat split. cbn [blob.nNewlyAddedFiles]. rewrite Hzero. now destruct ar.
  - cbn [length Nat.eqb].
    unfold blob.CompactionAtLeastAddFiles.
    destruct ar as [r|]; cbn [blob.nNewlyAddedFiles].
    + rewrite countAdded_addedCount.
      destruct (_ <? 10); eexists; (split; [reflexivity|now repeat split]).
    + change (Z.of_nat (S (length planned))) with (Z.of_nat (length (item :: planned))).
      rewrite <- addedCount_None.
      destruct (_ <? 10); eexists; (split; [reflexivity|now repeat split]).
Qed.

(** C5: for the job of a keyspace, when the listing succeeds. The planned
    list is made of the listed small entry objects, all of them, and
    [addedCount] is the number of those that the current bundle does not
    hold, all of them when there is no bundle; it is the count the job
    keeps. With [addedCount] below 10 the job is marked skipped and leaves
    the world as the refresh left it: no bundle is built or ingested. This is
    so in particular when the bundle holds every listed object. With
    [addedCount] at 10 or more the job is not skipped: the new bundle is built
    from the planned list and then ingested. *)
Theorem compaction_threshold (k : string) (w : W)
    (planned : list blob.compactItem) (total : Z) :
  let c := blob.CompactionJob.NewCompactionJob k in
  let w1 := SyncFromRemote k w in
  let l := List (blob.ArchiveListPrefixKey k) w1 in
  let ar := GetArchive k w1 in
  blob.CompactionJob.scan (blob.objects l) [] 0 = Ok (planned, total) ->
  blob.listFails l = false ->
  let res := (work c w).1.1 in
  let c' := (work c w).1.2 in
  let w' := (work c w).2 in
  let n := addedCount ar planned in
  (Forall (planned_for l) planned
   /\ forall obj actionID, In obj (blob.objects l) -> plannable obj actionID ->
        In (blob.mkCompactItem actionID (blob.Key obj) (blob.Size obj)) planned)
  /\ blob.plannedList c' = planned
  /\ blob.nNewlyAddedFiles c' = n
  /\ (n < 10 -> res = Ok tt /\ blob.isSkipped c' = true /\ w' = w1)
  /\ (10 <= n ->
      blob.isSkipped c' = false
      /\ (res, w') = buildAndIngest step2DownloadAndFill step3IngestNewArFile planned k w1)
  /\ (ar = None -> n = Z.of_nat (length planned))
  /\ (forall r, ar = Some r ->
      (forall item, In item planned ->
         is_Some (blob.files r !! hex.EncodeToString (blob.ActionID item))) ->
      res = Ok tt /\ blob.isSkipped c' = true /\ w' = w1).
Proof.
  intros c w1 l ar Hscan Hlist.
  destruct (step1_outcome c _ ar planned total Hscan Hlist eq_refl)
    as (c1 & Hstep1 & Hplanned & Hsk1 & Hk1 & Hadded).
  cbn [blob.isSkipped blob.Keyspace c blob.CompactionJob.NewCompactionJob] in Hsk1, Hk1.
  assert (Hlow : addedCount ar planned < 10 ->
                 work c w = (Ok tt, blob.CompactionJob.setSkipped c1, w1)).
  { intros Hlt. unfold work, blob.CompactionJob.work.
    cbn [blob.Keyspace c blob.CompactionJob.NewCompactionJob].
    fold w1. fold l. fold ar. fold c.
    rewrite Hstep1. apply Z.ltb_lt in Hlt. rewrite Hlt. reflexivity. }
  assert (Hhigh : 10 <= addedCount ar planned ->
                  work c w
                  = ((buildAndIngest step2DownloadAndFill step3IngestNewArFile planned k w1).1,
                     c1,
                     (buildAndIngest step2DownloadAndFill step3IngestNewArFile planned k w1).2)).
  { intros Hge. unfold work, blob.CompactionJob.work.
    cbn [blob.Keyspace c blob.CompactionJob.NewCompactionJob].
    fold w1. fold l. fold ar. fold c.
    rewrite Hstep1. apply Z.ltb_ge in Hge. rewrite Hge. cbn [negb].
    rewrite Hplanned, Hk1. unfold buildAndIngest.
    destruct (step2DownloadAndFill planned w1) as [[u|e|] w2]; try reflexivity.
    destruct (step3IngestNewArFile k w2) as [[u3|e3|] w3]; try reflexivity.
    now destruct u3. }
  assert (Hc' : blob.plannedList (work c w).1.2 = planned
                /\ blob.nNewlyAddedFiles (work c w).1.2 = addedCount ar planned).
  { destruct (Z.lt_ge_cases (addedCount ar planned) 10) as [Hlt|Hge].
    - rewrite (Hlow Hlt). now split.
    - rewrite (Hhigh Hge). now split. }
  cbv zeta. split; [|split; [|split; [|split; [|split; [|split]]]]].
  - apply scan_spec in Hscan as (added & -> & _ & F & C). cbn [app].
    split; [exact F|exact C].
  - apply Hc'.
  - apply Hc'.
  - intros Hlt. rewrite (Hlow Hlt). now repeat split.
  - intros Hge. rewrite (Hhigh Hge). cbn. split; [congruence|].
    now destruct (buildAndIngest step2DownloadAndFill step3IngestNewArFile planned k w1).
  - intros Har. rewrite Har. apply addedCount_None.
  - intros r Har Hall.
    rewrite Hlow; [now repeat split|].
    rewrite Har. rewrite addedCount_all_present by assumption. lia.
Qed.

End CompactionThreshold.

Lemma compaction_threshold_witness :
  let sync := fun (_ : string) (w : nat) => w in
  let objs :=
    [blob.mkListObject "b/a0/a0" 20 false; blob.mkListObject "b/a1/a1" 20 false;
     blob.mkListObject "b/a2/a2" 20 false; blob.mkListObject "b/a3/a3" 20 false;
     blob.mkListObject "b/a4/a4" 20 false; blob.mkListObject "b/a5/a5" 20 false;
     blob.mkListObject "b/a6/a6" 20 false; blob.mkListObject "b/a7/a7" 20 false;
     blob.mkListObject "b/a8/a8" 20 false; blob.mkListObject "b/a9/a9" 20 false;
     blob.mkListObject "b/aa/aa" 20 false; blob.mkListObject "b/ab/ab" 20 false;
     blob.mkListObject "b/ac" 20 true; blob.mkListObject "b/ad/ad" 2000000 false;
     blob.mkListObject "blobar/a.zip" 500 false] in
  let lst := fun (_ : string) (_ : nat) => blob.mkListing objs false in
  let entry := fun b : byte =>
    blob.mkArEntry (cache.mkEntryMeta [b] [x01] 1 time.zero) (Some (io.of_bytes [x61])) in
  (* a bundle that holds three of the twelve small objects, and one that
     holds two of them *)
  let three := blob.mkArReader false
                 {[ "a0"%string := entry xa0; "a1"%string := entry xa1;
                    "a2"%string := entry xa2 ]} in
  let two := blob.mkArReader false
               {[ "a0"%string := entry xa0; "a1"%string := entry xa1;
                  "ff"%string := entry xff ]} in
  let s2 := fun (_ : list blob.compactItem) (w : nat) => (Ok tt, w) in
  let s3 := fun (_ : string) (w : nat) => (Ok tt, S w) in
  let c := blob.CompactionJob.NewCompactionJob "a" in
  let planned :=
    [blob.mkCompactItem [xa0] "b/a0/a0" 20;
     blob.mkCompactItem [xa1] "b/a1/a1" 20;
     blob.mkCompactItem [xa2] "b/a2/a2" 20;
     blob.mkCompactItem [xa3] "b/a3/a3" 20;
     blob.mkCompactItem [xa4] "b/a4/a4" 20;
     blob.mkCompactItem [xa5] "b/a5/a5" 20;
     blob.mkCompactItem [xa6] "b/a6/a6" 20;
     blob.mkCompactItem [xa7] "b/a7/a7" 20;
     blob.mkCompactItem [xa8] "b/a8/a8" 20;
     blob.mkCompactItem [xa9] "b/a9/a9" 20;
     blob.mkCompactItem [xaa] "b/aa/aa" 20;
     blob.mkCompactItem [xab] "b/ab/ab" 20] in
  let run := fun ar : option blob.ArReader =>
    blob.CompactionJob.work sync lst (fun _ _ => ar) s2 s3 c 0%nat in
  (* nine objects to add: skipped, nothing built *)
  (blob.plannedList (run (Some three)).1.2 = planned
   /\ blob.nNewlyAddedFiles (run (Some three)).1.2 = 9
   /\ (run (Some three)).1.1 = Ok tt
   /\ blob.isSkipped (run (Some three)).1.2 = true
   /\ (run (Some three)).2 = 0%nat)
  (* ten objects to add: the bundle is built and ingested *)
  /\ (blob.plannedList (run (Some two)).1.2 = planned
      /\ blob.nNewlyAddedFiles (run (Some two)).1.2 = 10
      /\ blob.isSkipped (run (Some two)).1.2 = false
      /\ ((run (Some two)).1.1, (run (Some two)).2) = (Ok tt, 1%nat))
  (* no bundle: the twelve objects are all to add *)
  /\ (blob.nNewlyAddedFiles (run None).1.2 = 12
      /\ blob.isSkipped (run None).1.2 = false
      /\ ((run None).1.1, (run None).2) = (Ok tt, 1%nat)).
Proof.
  intros sync objs lst entry three two s2 s3 c planned run.
  pose (threshold := fun ar : option blob.ArReader =>
    compaction_threshold sync lst (fun _ _ => ar) s2 s3 "a" 0%nat planned 240
      ltac:(vm_compute; reflexivity) eq_refl).
  split; [|split].
  - destruct (threshold (Some three)) as (_ & Hp & Hn & Hlow & _).
    split; [exact Hp|]. split; [exact Hn|]. apply Hlow. vm_compute. reflexivity.
  - destruct (threshold (Some two)) as (_ & Hp & Hn & _ & Hhigh & _).
    split; [exact Hp|]. split; [exact Hn|]. apply Hhigh. vm_compute. discriminate.
  - destruct (threshold None) as (_ & _ & Hn & _ & Hhigh & _).
    split; [exact Hn|]. apply Hhigh. vm_compute. discriminate.
Defined.

(** X19: Step 1 of the compaction plans exactly the small entry objects of the
    listing: every planned item stands for a listed object that is no
    directory, is smaller than [CompactionSmallBlobSize] and whose key is
    the key of the item's ActionID, with the listed size; and every such
    object of the listing is planned. This holds for each outcome of step 1
    other than a panic. *)
Theorem step1_plans_the_small_entity_objects
    (c c' : blob.CompactionJob) (l : blob.listing) (ar : option blob.ArReader)
    (res : result bool) :
  blob.CompactionJob.step1FindBlobsToCompact c l ar = (res, c') ->
  res <> Panic ->
  Forall (planned_for l) (blob.plannedList c')
  /\ (forall obj actionID, In obj (blob.objects l) -> plannable obj actionID ->
        In (blob.mkCompactItem actionID (blob.Key obj) (blob.Size obj)) (blob.plannedList c')).
Proof.
  unfold blob.CompactionJob.step1FindBlobsToCompact. intros H Hres.
  destruct (blob.CompactionJob.scan (blob.objects l) [] 0) as [[planned total]|e|] eqn:Es.
  - apply scan_spec in Es as (added & -> & _ & F & C). cbn [app] in *.
    assert (Hc : blob.plannedList c' = added).
    { destruct (blob.listFails l); [now injection H as _ <-|].
      destruct (length added =? 0)%nat; [now injection H as _ <-|].
      destruct ar as [r|]; cbn [blob.nNewlyAddedFiles] in H;
        match type of H with
        | (if ?b then _ else _) = _ => destruct b
        end; now injection H as _ <-. }
    rewrite Hc. split; [exact F|exact C].
  - exfalso. clear - Es. revert Es. generalize (@nil blob.compactItem) 0.
    induction (blob.objects l) as [|obj rest IH]; intros p t; cbn; [discriminate|].
    destruct (blob.IsDir obj); [apply IH|].
    destruct (blob.CompactionSmallBlobSize <=? blob.Size obj); [apply IH|].
    destruct (blob.DecodeCacheEntityKey (blob.Key obj)); [apply IH|apply IH|discriminate].
  - injection H as <- _. contradiction.
Qed.

Lemma step1_plans_the_small_entity_objects_witness :
  let l :=
    blob.mkListing
      [blob.mkListObject "b/a0/a0" 20 false; blob.mkListObject "b/a1" 20 true;
       blob.mkListObject "b/a2/a2" 2000000 false;
       blob.mkListObject "blobar/a.zip" 20 false] false in
  let out := blob.CompactionJob.step1FindBlobsToCompact
               (blob.CompactionJob.NewCompactionJob "a") l None in
  Forall (planned_for l) (blob.plannedList (snd out))
  /\ (forall obj actionID, In obj (blob.objects l) -> plannable obj actionID ->
        In (blob.mkCompactItem actionID (blob.Key obj) (blob.Size obj))
          (blob.plannedList (snd out))).
Proof.
  cbv zeta.
  eapply (step1_plans_the_small_entity_objects
            (blob.CompactionJob.NewCompactionJob "a") _
            (blob.mkListing
               [blob.mkListObject "b/a0/a0" 20 false; blob.mkListObject "b/a1" 20 true;
                blob.mkListObject "b/a2/a2" 2000000 false;
                blob.mkListObject "blobar/a.zip" 20 false] false)
            None (Ok false)).
  - vm_compute. reflexivity.
  - discriminate.
Defined.

(** ** The line reader *)

Lemma nextValidLine_spec (n : nat) : forall r line isPrefix err r',
  LineChunkedReader.nextValidLine n r = ((line, isPrefix, err), r') ->
  exists skipped,
    Forall (fun c => c.1 = []) skipped
    /\ (length skipped <= n)%nat
    /\ final r' = final r
    /\ match err with
       | None =>
           line <> [] /\ (length skipped < n)%nat
           /\ pending r = skipped ++ (line, isPrefix) :: pending r'
       | Some e =>
           line = [] /\ isPrefix = false
           /\ pending r = skipped ++ pending r'
           /\ ((length skipped = n /\ e = ErrNoProgress)
               \/ (pending r' = [] /\ e = final r))
       end.
Proof.
  induction n as [|n IH]; intros r line isPrefix err r' H.
  - cbn in H. injection H as <- <- <- <-. exists []. cbn.
    split; [constructor|]. split; [lia|]. split; [reflexivity|].
    repeat split. now left.
  - cbn [LineChunkedReader.nextValidLine] in H.
    unfold LineChunkedReader.ReadLine in H.
    destruct r as [[|[l p] rest] f]; cbn [pending final] in *.
    + cbn in H. injection H as <- <- <- <-. exists []. cbn.
      split; [constructor|]. split; [lia|]. split; [reflexivity|].
      repeat split. now right.
    + cbn [is_Some_b negb andb] in H. rewrite andb_true_r in H.
      destruct l as [|b l].
      * cbn [length Nat.eqb] in H. apply IH in H as (skipped & F & Hlen & Hf & Hm).
        cbn [pending final] in *.
        exists (([], p) :: skipped). split; [constructor; [reflexivity|exact F]|].
        split; [cbn; lia|]. split; [exact Hf|].
        destruct err as [e|].
        -- destruct Hm as (-> & -> & Hp & Hcase). repeat split.
           ++ cbn. now rewrite Hp.
           ++ destruct Hcase as [[Hl ->]|[Hp' ->]]; [left; cbn; split; [lia|reflexivity]|].
              right. now split.
        -- destruct Hm as (Hne & Hl & Hp). repeat split; [exact Hne|cbn; lia|].
           cbn. now rewrite Hp.
      * cbn [length Nat.eqb] in H. injection H as <- <- <- <-. exists []. cbn.
        split; [constructor|]. split; [lia|]. split; [reflexivity|].
        repeat split; [discriminate|lia].
Qed.

(** X20: What [NextValidLine] returns: it consumes a run of empty reads and
    then either returns the next non-empty read as it is (after at most
    nine empty ones), or fails with an empty line: with [io.ErrNoProgress]
    after ten empty reads in a row, or with the error of the underlying
    reader at the end of the input. Nothing else is consumed. *)
Theorem NextValidLine_skips_empty_lines
    (r r' : LineChunkedReader) (line : list byte) (isPrefix : bool) (err : option error) :
  LineChunkedReader.NextValidLine r = ((line, isPrefix, err), r') ->
  exists skipped,
    Forall (fun c => c.1 = []) skipped
    /\ final r' = final r
    /\ match err with
       | None =>
           line <> [] /\ (length skipped <= 9)%nat
           /\ pending r = skipped ++ (line, isPrefix) :: pending r'
       | Some e =>
           line = [] /\ isPrefix = false
           /\ pending r = skipped ++ pending r'
           /\ ((length skipped = 10%nat /\ e = ErrNoProgress)
               \/ ((length skipped <= 10)%nat /\ pending r' = [] /\ e = final r))
       end.
Proof.
  unfold LineChunkedReader.NextValidLine. intros H.
  apply nextValidLine_spec in H as (skipped & F & Hlen & Hf & Hm).
  exists skipped. split; [exact F|]. split; [exact Hf|].
  destruct err as [e|].
  - destruct Hm as (-> & -> & Hp & Hcase). repeat split; [exact Hp|].
    destruct Hcase as [?|[? ?]]; [now left|right; now repeat split].
  - destruct Hm as (Hne & Hl & Hp). repeat split; [exact Hne|lia|exact Hp].
Qed.

Lemma NextValidLine_skips_empty_lines_witness :
  let r := mkLineChunkedReader [([], false); ([], false); ([x47], false); ([x48], false)]
             ErrEOF in
  let r' := mkLineChunkedReader [([x48], false)] ErrEOF in
  exists skipped,
    Forall (fun c : list byte * bool => c.1 = []) skipped
    /\ final r' = final r
    /\ [x47] <> []
    /\ (length skipped <= 9)%nat
    /\ pending r = skipped ++ ([x47], false) :: pending r'.
Proof.
  cbv zeta.
  apply (NextValidLine_skips_empty_lines
           (mkLineChunkedReader [([], false); ([], false); ([x47], false); ([x48], false)]
              ErrEOF)
           (mkLineChunkedReader [([x48], false)] ErrEOF) [x47] false None).
  vm_compute. reflexivity.
Defined.

(** ** The read loop: the body of a put *)

Lemma NextValidLine_head (line : list byte) (isPrefix : bool)
    (rest : list (list byte * bool)) (f : error) :
  line <> [] ->
  LineChunkedReader.NextValidLine (mkLineChunkedReader ((line, isPrefix) :: rest) f)
  = ((line, isPrefix, None), mkLineChunkedReader rest f).
Proof.
  intros Hne. unfold LineChunkedReader.NextValidLine.
  cbn [LineChunkedReader.nextValidLine LineChunkedReader.ReadLine pending final].
  destruct line; [contradiction|reflexivity].
Qed.

Lemma NextValidLine_end (f : error) :
  LineChunkedReader.NextValidLine (mkLineChunkedReader [] f)
  = (([], false, Some f), mkLineChunkedReader [] f).
Proof. reflexivity. Qed.

Section PutBody.

Variable decode : list byte -> option cacheprog.CacheProgRequest.

Lemma NextValidLine_skip_head (k : nat) (line : list byte) (isPrefix : bool)
    (rest : list (list byte * bool)) (f : error) :
  (k <= 9)%nat -> line <> [] ->
  LineChunkedReader.NextValidLine
    (mkLineChunkedReader (emptyLines k ++ (line, isPrefix) :: rest) f)
  = ((line, isPrefix, None), mkLineChunkedReader rest f).
Proof.
  intros Hk Hne. rewrite NextValidLine_skip; [now apply NextValidLine_head|exact Hk|].
  intros b rest' E. apply Hne. congruence.
Qed.

Lemma NextValidLine_skip_end (k : nat) (f : error) :
  (k <= 9)%nat ->
  LineChunkedReader.NextValidLine (mkLineChunkedReader (emptyLines k) f)
  = (([], false, Some f), mkLineChunkedReader [] f).
Proof.
  intros Hk. rewrite <- (app_nil_r (emptyLines k)).
  rewrite NextValidLine_skip; [apply NextValidLine_end|exact Hk|].
  intros b rest' E. discriminate E.
Qed.

Lemma NextValidLine_ten (rest : list (list byte * bool)) (f : error) :
  LineChunkedReader.NextValidLine (mkLineChunkedReader (emptyLines 10 ++ rest) f)
  = (([], false, Some ErrNoProgress), mkLineChunkedReader rest f).
Proof. exact (nextValidLine_skip 10 0 rest f). Qed.

Lemma bodyReads_length (segs : list (nat * list byte)) :
  (length segs <= length (bodyReads segs))%nat.
Proof.
  induction segs as [|[k c] segs IH]; [reflexivity|].
  cbn [bodyReads length]. rewrite length_app. cbn [length]. lia.
Qed.

Lemma readBody_reads (segs : list (nat * list byte)) (f : error) :
  Forall (fun s => (s.1 <= 9)%nat /\ s.2 <> []) segs ->
  forall fuel acc,
    (length segs < fuel)%nat ->
    (forall k last rest, (k <= 9)%nat -> last <> [] ->
       cacheprog.readBody fuel
         (mkLineChunkedReader (bodyReads segs ++ emptyLines k ++ (last, false) :: rest) f)
         acc
       = Some (acc ++ bodyBytes segs ++ last, None, mkLineChunkedReader rest f))
    /\ (forall k, (k <= 9)%nat ->
          cacheprog.readBody fuel
            (mkLineChunkedReader (bodyReads segs ++ emptyLines k) f) acc
          = Some (acc ++ bodyBytes segs, Some f, mkLineChunkedReader [] f))
    /\ (forall rest,
          cacheprog.readBody fuel
            (mkLineChunkedReader (bodyReads segs ++ emptyLines 10 ++ rest) f) acc
          = Some (acc ++ bodyBytes segs, Some ErrNoProgress, mkLineChunkedReader rest f)).
Proof.
  unfold bodyBytes.
  induction 1 as [|[k0 c] segs [Hk0 Hc] _ IH]; intros fuel acc Hfuel.
  - destruct fuel as [|fuel]; [cbn in Hfuel; lia|]. cbn [bodyReads map concat app].
    split; [|split].
    + intros k last rest Hk Hlast. cbn [cacheprog.readBody].
      now rewrite NextValidLine_skip_head.
    + intros k Hk. cbn [cacheprog.readBody].
      rewrite NextValidLine_skip_end by exact Hk. now rewrite app_nil_r.
    + intros rest. cbn [cacheprog.readBody].
      rewrite NextValidLine_ten. now rewrite app_nil_r.
  - destruct fuel as [|fuel]; [cbn in Hfuel; lia|].
    cbn [length] in Hfuel. cbn [fst snd] in Hk0, Hc.
    destruct (IH fuel (acc ++ c) ltac:(lia)) as (IH1 & IH2 & IH3).
    cbn [bodyReads map concat snd]. split; [|split].
    + intros k last rest Hk Hlast. cbn [cacheprog.readBody].
      rewrite <- app_assoc. cbn [app].
      rewrite NextValidLine_skip_head by assumption. cbn [negb].
      rewrite IH1 by assumption. now rewrite <- !app_assoc.
    + intros k Hk. cbn [cacheprog.readBody].
      rewrite <- app_assoc. cbn [app].
      rewrite NextValidLine_skip_head by assumption. cbn [negb].
      rewrite IH2 by assumption. now rewrite <- !app_assoc.
    + intros rest. cbn [cacheprog.readBody].
      rewrite <- app_assoc. cbn [app].
      rewrite NextValidLine_skip_head by assumption. cbn [negb].
      rewrite IH3. now rewrite <- !app_assoc.
Qed.

Lemma readLoop_fuel_enough (n : nat) (r : LineChunkedReader) :
  (length (pending r) < n)%nat ->
  cacheprog.readLoop_fuel decode n r = cacheprog.readLoop decode r.
Proof.
  intros Hn. unfold cacheprog.readLoop.
  apply (readLoop_fuel_differ decode n (S (length (pending r))) r r); [now left|exact Hn|lia].
Qed.

Lemma readLoop_fuel_put (fuel : nat) (r r' : LineChunkedReader) (line : list byte)
    (req : cacheprog.CacheProgRequest) :
  LineChunkedReader.NextValidLine r = ((line, false, None), r') ->
  decode line = Some req ->
  cacheprog.Command req = cacheprog.CmdPut ->
  cacheprog.BodySize req <> 0 ->
  cacheprog.readLoop_fuel decode (S fuel) r
  = match cacheprog.readBody fuel r' [] with
    | None => ([], cacheprog.OutOfFuel)
    | Some (body, Some e, _) =>
        ([cacheprog.DispatchPut req body true],
         cacheprog.Returned (Some (ErrReadPutBody e)))
    | Some (body, None, r'') =>
        let '(ds, e) := cacheprog.readLoop_fuel decode fuel r'' in
        (cacheprog.DispatchPut req body false :: ds, e)
    end.
Proof.
  intros Hn Hdec Hcmd Hsz. cbn [cacheprog.readLoop_fuel].
  rewrite Hn, Hdec, Hcmd. now rewrite (proj2 (Z.eqb_neq _ _) Hsz).
Qed.

(** X21: The body of a put is what is read up to the end of the next line
    that does not end in an empty read. After a put request with [BodySize]
    not zero the loop hands the put handler the chunks it reads, joined,
    up to and including the first read that is not empty and not flagged
    [isPrefix]; runs of at most nine empty reads before a chunk are skipped;
    the loop then goes on with what follows. A following line whose length is
    no multiple of the buffer size is therefore the whole body, however long
    it is. A following line that is empty, or whose length is a positive
    multiple of the buffer size (it ends in an empty read), does not end the
    body: the line after it, a request record as may be, is made part of
    the body. When the input ends before the body does, the handler gets
    what was read with the error flag set and the loop stops with the read
    error, and likewise, with [ErrNoProgress], at ten empty reads in a
    row. *)
Theorem put_body_is_read_up_to_a_line_end
    (line : list byte) (req : cacheprog.CacheProgRequest)
    (segs : list (nat * list byte)) (f : error) :
  line <> [] ->
  decode line = Some req ->
  cacheprog.Command req = cacheprog.CmdPut ->
  cacheprog.BodySize req <> 0 ->
  Forall (fun s => (s.1 <= 9)%nat /\ s.2 <> []) segs ->
  (forall k last rest, (k <= 9)%nat -> last <> [] ->
     cacheprog.readLoop decode
       (mkLineChunkedReader
          ((line, false) :: bodyReads segs ++ emptyLines k ++ (last, false) :: rest) f)
     = (cacheprog.DispatchPut req (bodyBytes segs ++ last) false
          :: (cacheprog.readLoop decode (mkLineChunkedReader rest f)).1,
        (cacheprog.readLoop decode (mkLineChunkedReader rest f)).2))
  /\ (forall k, (k <= 9)%nat ->
        cacheprog.readLoop decode
          (mkLineChunkedReader ((line, false) :: bodyReads segs ++ emptyLines k) f)
        = ([cacheprog.DispatchPut req (bodyBytes segs) true],
           cacheprog.Returned (Some (ErrReadPutBody f))))
  /\ (forall rest,
        cacheprog.readLoop decode
          (mkLineChunkedReader ((line, false) :: bodyReads segs ++ emptyLines 10 ++ rest) f)
        = ([cacheprog.DispatchPut req (bodyBytes segs) true],
           cacheprog.Returned (Some (ErrReadPutBody ErrNoProgress)))).
Proof.
  intros Hline Hdec Hcmd Hsz Hsegs.
  pose proof (bodyReads_length segs) as Hlen.
  split; [|split].
  - intros k last rest Hk Hlast. unfold cacheprog.readLoop at 1. cbn [pending length].
    rewrite (readLoop_fuel_put _ _ _ line req (NextValidLine_head _ _ _ _ Hline)
               Hdec Hcmd Hsz).
    destruct (readBody_reads segs f Hsegs
                (S (length (bodyReads segs ++ emptyLines k ++ (last, false) :: rest))) [])
      as (Hb & _ & _); [rewrite length_app; lia|].
    rewrite Hb by assumption. cbn [app].
    rewrite readLoop_fuel_enough
      by (cbn [pending]; rewrite !length_app; cbn [length]; lia).
    now destruct (cacheprog.readLoop decode (mkLineChunkedReader rest f)).
  - intros k Hk. unfold cacheprog.readLoop. cbn [pending length].
    rewrite (readLoop_fuel_put _ _ _ line req (NextValidLine_head _ _ _ _ Hline)
               Hdec Hcmd Hsz).
    destruct (readBody_reads segs f Hsegs
                (S (length (bodyReads segs ++ emptyLines k))) [])
      as (_ & Hb & _); [rewrite length_app; lia|].
    now rewrite Hb.
  - intros rest. unfold cacheprog.readLoop. cbn [pending length].
    rewrite (readLoop_fuel_put _ _ _ line req (NextValidLine_head _ _ _ _ Hline)
               Hdec Hcmd Hsz).
    destruct (readBody_reads segs f Hsegs
                (S (length (bodyReads segs ++ emptyLines 10 ++ rest))) [])
      as (_ & _ & Hb); [rewrite length_app; lia|].
    now rewrite Hb.
Qed.

End PutBody.

Lemma put_body_is_read_up_to_a_line_end_witness :
  let decode := fun line : list byte =>
    match line with
    | [x50] => Some (cacheprog.mkCacheProgRequest 1 cacheprog.CmdPut [x01] [x02] 9)
    | [x47] => Some (cacheprog.mkCacheProgRequest 2 cacheprog.CmdGet [x01] [] 0)
    | [x43] => Some (cacheprog.mkCacheProgRequest 3 cacheprog.CmdClose [] [] 0)
    | _ => None
    end in
  let req := cacheprog.mkCacheProgRequest 1 cacheprog.CmdPut [x01] [x02] 9 in
  let full := repeat x61 4096 in
  let get := ([x47], false) in
  let close := ([x43], false) in
  (* a body line shorter than the buffer *)
  cacheprog.readLoop decode
    (mkLineChunkedReader [([x50], false); ([x22; x64; x47], false); get; close] ErrEOF)
  = ([cacheprog.DispatchPut req [x22; x64; x47] false; cacheprog.DispatchGet
        (cacheprog.mkCacheProgRequest 2 cacheprog.CmdGet [x01] [] 0)],
     cacheprog.Returned None)
  (* a body line of 4096 bytes: the get record after it is part of the body *)
  /\ cacheprog.readLoop decode
       (mkLineChunkedReader [([x50], false); (full, true); ([], false); get; close] ErrEOF)
     = ([cacheprog.DispatchPut req (full ++ [x47]) false], cacheprog.Returned None)
  (* the input ends after that body line *)
  /\ cacheprog.readLoop decode
       (mkLineChunkedReader [([x50], false); (full, true); ([], false)] ErrEOF)
     = ([cacheprog.DispatchPut req full true],
        cacheprog.Returned (Some (ErrReadPutBody ErrEOF)))
  (* ten empty lines after the request *)
  /\ cacheprog.readLoop decode
       (mkLineChunkedReader (([x50], false) :: emptyLines 10 ++ [get; close]) ErrEOF)
     = ([cacheprog.DispatchPut req [] true],
        cacheprog.Returned (Some (ErrReadPutBody ErrNoProgress))).
Proof.
  cbv zeta.
  set (decode := fun line : list byte =>
    match line with
    | [x50] => Some (cacheprog.mkCacheProgRequest 1 cacheprog.CmdPut [x01] [x02] 9)
    | [x47] => Some (cacheprog.mkCacheProgRequest 2 cacheprog.CmdGet [x01] [] 0)
    | [x43] => Some (cacheprog.mkCacheProgRequest 3 cacheprog.CmdClose [] [] 0)
    | _ => None
    end).
  set (req := cacheprog.mkCacheProgRequest 1 cacheprog.CmdPut [x01] [x02] 9).
  assert (Hreq : cacheprog.BodySize req <> 0) by (cbn; lia).
  assert (Hne : [x50] <> []) by discriminate.
  assert (Hfull : Forall (fun s : nat * list byte => (s.1 <= 9)%nat /\ s.2 <> [])
                    [(0%nat, repeat x61 4096)]).
  { repeat constructor. discriminate. }
  destruct (put_body_is_read_up_to_a_line_end decode [x50] req [] ErrEOF
              Hne eq_refl eq_refl Hreq (List.Forall_nil _)) as (S1 & _ & S3).
  destruct (put_body_is_read_up_to_a_line_end decode [x50] req
              [(0%nat, repeat x61 4096)] ErrEOF Hne eq_refl eq_refl Hreq Hfull)
    as (L1 & L2 & _).
  split; [|split; [|split]].
  - exact (S1 0%nat [x22; x64; x47] [([x47], false); ([x43], false)]
             ltac:(lia) ltac:(discriminate)).
  - exact (L1 1%nat [x47] [([x43], false)] ltac:(lia) ltac:(discriminate)).
  - exact (L2 1%nat ltac:(lia)).
  - exact (S3 [([x47], false); ([x43], false)]).
Defined.

(** ** The read loop: the order of dispatch *)

Section DispatchOrder.

Variable decode : list byte -> option cacheprog.CacheProgRequest.

Lemma readLoop_bodyless (line : list byte) (req : cacheprog.CacheProgRequest)
    (rest : list (list byte * bool)) (f : error) :
  line <> [] -> decode line = Some req -> bodyless req ->
  cacheprog.readLoop decode (mkLineChunkedReader ((line, false) :: rest) f)
  = (dispatch_of req :: (cacheprog.readLoop decode (mkLineChunkedReader rest f)).1,
     (cacheprog.readLoop decode (mkLineChunkedReader rest f)).2).
Proof.
  intros Hline Hdec Hb.
  assert (Hstep : forall fuel,
            cacheprog.readLoop_fuel decode (S fuel)
              (mkLineChunkedReader ((line, false) :: rest) f)
            = let '(ds, e) := cacheprog.readLoop_fuel decode fuel
                                (mkLineChunkedReader rest f) in
              (dispatch_of req :: ds, e)).
  { intros fuel. cbn [cacheprog.readLoop_fuel].
    rewrite NextValidLine_head by exact Hline. rewrite Hdec.
    unfold bodyless, dispatch_of in *.
    destruct (cacheprog.Command req); [|reflexivity|contradiction|reflexivity].
    now rewrite Hb. }
  unfold cacheprog.readLoop at 1. cbn [pending length]. rewrite Hstep.
  rewrite readLoop_fuel_enough by (cbn; lia).
  now destruct (cacheprog.readLoop decode (mkLineChunkedReader rest f)).
Qed.

Lemma readLoop_bodyless_lines (lines : list (list byte))
    (reqs : list cacheprog.CacheProgRequest) (rest : list (list byte * bool)) (f : error) :
  Forall2 (fun line req => line <> [] /\ decode line = Some req /\ bodyless req) lines reqs ->
  cacheprog.readLoop decode (mkLineChunkedReader (fullLines lines ++ rest) f)
  = (map dispatch_of reqs ++ (cacheprog.readLoop decode (mkLineChunkedReader rest f)).1,
     (cacheprog.readLoop decode (mkLineChunkedReader rest f)).2).
Proof.
  induction 1 as [|line req lines reqs (Hl & Hd & Hb) _ IH].
  - cbn [fullLines map app]. now destruct (cacheprog.readLoop decode (mkLineChunkedReader rest f)).
  - cbn [fullLines map app]. fold (fullLines lines).
    rewrite (readLoop_bodyless line req) by assumption. now rewrite IH.
Qed.

(** X22: Requests are dispatched in the order they arrive, one handler call per
    request, until a close request or the end of the input: for requests
    without body followed by a close request the loop returns without error
    and nothing after the close request is read; at the end of the input the
    loop returns without error on [io.EOF] and with the read error
    otherwise. *)
Theorem requests_are_dispatched_in_order_until_close
    (lines : list (list byte)) (reqs : list cacheprog.CacheProgRequest)
    (closeLine : list byte) (closeReq : cacheprog.CacheProgRequest)
    (rest : list (list byte * bool)) (f : error) :
  Forall2 (fun line req => line <> [] /\ decode line = Some req /\ bodyless req) lines reqs ->
  closeLine <> [] ->
  decode closeLine = Some closeReq ->
  cacheprog.Command closeReq = cacheprog.CmdClose ->
  cacheprog.readLoop decode
    (mkLineChunkedReader (fullLines lines ++ (closeLine, false) :: rest) f)
  = (map dispatch_of reqs, cacheprog.Returned None)
  /\ cacheprog.readLoop decode (mkLineChunkedReader (fullLines lines) f)
     = (map dispatch_of reqs,
        cacheprog.Returned (if cacheprog.isEOF f then None else Some (ErrReadStdin f))).
Proof.
  intros Hreqs Hcl Hdec Hcmd. split.
  - rewrite (readLoop_bodyless_lines lines reqs) by exact Hreqs.
    assert (E : cacheprog.readLoop decode (mkLineChunkedReader ((closeLine, false) :: rest) f)
                = ([], cacheprog.Returned None)).
    { unfold cacheprog.readLoop. cbn [pending length cacheprog.readLoop_fuel].
      rewrite NextValidLine_head by exact Hcl. now rewrite Hdec, Hcmd. }
    rewrite E. cbn. now rewrite app_nil_r.
  - rewrite <- (app_nil_r (fullLines lines)).
    rewrite (readLoop_bodyless_lines lines reqs) by exact Hreqs.
    assert (E : cacheprog.readLoop decode (mkLineChunkedReader [] f)
                = ([], cacheprog.Returned
                         (if cacheprog.isEOF f then None else Some (ErrReadStdin f)))).
    { unfold cacheprog.readLoop. cbn [pending length cacheprog.readLoop_fuel].
      rewrite NextValidLine_end. now destruct (cacheprog.isEOF f). }
    rewrite E. cbn. now rewrite app_nil_r.
Qed.

End DispatchOrder.

Lemma requests_are_dispatched_in_order_until_close_witness :
  let decode := fun line : list byte =>
    match line with
    | [x50] => Some (cacheprog.mkCacheProgRequest 1 cacheprog.CmdPut [x01] [x02] 0)
    | [x47] => Some (cacheprog.mkCacheProgRequest 2 cacheprog.CmdGet [x01] [] 0)
    | [x43] => Some (cacheprog.mkCacheProgRequest 3 cacheprog.CmdClose [] [] 0)
    | _ => None
    end in
  let reqs := [cacheprog.mkCacheProgRequest 2 cacheprog.CmdGet [x01] [] 0;
               cacheprog.mkCacheProgRequest 1 cacheprog.CmdPut [x01] [x02] 0] in
  cacheprog.readLoop decode
    (mkLineChunkedReader (fullLines [[x47]; [x50]] ++ ([x43], false) :: [([x47], false)])
       ErrEOF)
  = (map dispatch_of reqs, cacheprog.Returned None)
  /\ cacheprog.readLoop decode (mkLineChunkedReader (fullLines [[x47]; [x50]]) ErrEOF)
     = (map dispatch_of reqs,
        cacheprog.Returned
          (if cacheprog.isEOF ErrEOF then None else Some (ErrReadStdin ErrEOF))).
Proof.
  cbv zeta.
  apply (requests_are_dispatched_in_order_until_close
           (fun line : list byte =>
              match line with
              | [x50] => Some (cacheprog.mkCacheProgRequest 1 cacheprog.CmdPut [x01] [x02] 0)
              | [x47] => Some (cacheprog.mkCacheProgRequest 2 cacheprog.CmdGet [x01] [] 0)
              | [x43] => Some (cacheprog.mkCacheProgRequest 3 cacheprog.CmdClose [] [] 0)
              | _ => None
              end)
           [[x47]; [x50]]
           [cacheprog.mkCacheProgRequest 2 cacheprog.CmdGet [x01] [] 0;
            cacheprog.mkCacheProgRequest 1 cacheprog.CmdPut [x01] [x02] 0]
           [x43] (cacheprog.mkCacheProgRequest 3 cacheprog.CmdClose [] [] 0)
           [([x47], false)] ErrEOF).
  - repeat constructor; try discriminate; reflexivity.
  - discriminate.
  - reflexivity.
  - reflexivity.
Defined.

(** ** The reader of a put body *)

Lemma indexQuote_Some (p : list byte) (i : nat) :
  server.indexQuote p = Some i ->
  firstn i p = before_quote p /\ forall q, before_quote (p ++ q) = before_quote p.
Proof.
  revert i. induction p as [|b p IH]; intros i; cbn; [discriminate|].
  destruct (Byte.eqb b x22); [intros H; injection H as <-; now split|].
  destruct (server.indexQuote p) as [j|]; [|discriminate].
  cbn. intros H. injection H as <-. destruct (IH j eq_refl) as [E1 E2].
  cbn. split; [now rewrite E1|]. intros q. now rewrite E2.
Qed.

Lemma indexQuote_None (p : list byte) :
  server.indexQuote p = None ->
  before_quote p = p /\ forall q, before_quote (p ++ q) = p ++ before_quote q.
Proof.
  induction p as [|b p IH]; cbn; [now split|].
  destruct (Byte.eqb b x22); [discriminate|].
  destruct (server.indexQuote p) as [j|]; [discriminate|].
  intros _. destruct (IH eq_refl) as [E1 E2]. split; [now rewrite E1|].
  intros q. now rewrite E2.
Qed.

Lemma reads_closed (k : nat) (r : server.quoteCloseReader) :
  server.closed r = true -> reads k r = ([], r).
Proof.
  intros Hc. induction k as [|k IH]; [reflexivity|].
  cbn [reads]. unfold server.Read. rewrite Hc. now rewrite IH.
Qed.

Lemma indexQuote_In (p : list byte) :
  (exists i, server.indexQuote p = Some i) <-> In x22 p.
Proof.
  induction p as [|b p IH]; cbn.
  - split; [intros [i H]; discriminate|intros []].
  - destruct (Byte.eqb b x22) eqn:E.
    + apply Byte.byte_dec_bl in E. subst. split; [now left|intros _; now exists O].
    + assert (b <> x22) by (intros ->; discriminate E).
      destruct (server.indexQuote p) as [j|]; cbn.
      * split; [intros _; right; apply IH; now exists j|intros _; now exists (S j)].
      * split; [intros [i Hi]; discriminate|].
        intros [Hb|Hin]; [congruence|]. apply IH in Hin as [i Hi]. discriminate.
Qed.

Lemma reads_closed_state (k : nat) : forall r,
  server.closed r = false ->
  (server.closed (reads k r).2 = true
   <-> In x22 (concat (map fst (firstn k (server.wrapped r))))).
Proof.
  induction k as [|k IH]; intros r Hopen.
  - cbn. rewrite Hopen. split; [discriminate|intros []].
  - cbn [reads]. unfold server.Read. rewrite Hopen.
    destruct r as [[|[p err] rest] f c];
      cbn [server.wrapped server.wrappedFinal server.closed] in *.
    + specialize (IH (server.mkQuoteCloseReader [] f c) Hopen).
      cbn [server.wrapped] in IH. rewrite firstn_nil in IH.
      destruct (reads k _) as [more r2]. exact IH.
    + cbn [firstn map concat fst]. rewrite in_app_iff.
      destruct (server.indexQuote p) as [i|] eqn:Ei.
      * rewrite reads_closed by reflexivity. cbn. split; [|reflexivity].
        intros _. left. apply indexQuote_In. now exists i.
      * specialize (IH (server.mkQuoteCloseReader rest f false) eq_refl).
        cbn [server.wrapped] in IH.
        destruct (reads k _) as [more r2]. cbn [snd] in *. rewrite IH.
        split; [now right|]. intros [Hin|Hin]; [|exact Hin].
        apply indexQuote_In in Hin as [i Hi]. congruence.
Qed.

(** X23: [quoteCloseReader] delivers the bytes before the first quote and
    nothing else: the bytes returned by [k] reads in a row are the bytes of
    the first [k] reads of the wrapped reader up to the first quote, the
    quote excluded; once a quote has been met every further read returns
    no bytes and [io.EOF]. *)
Theorem quoteCloseReader_delivers_the_bytes_before_the_quote
    (k : nat) (r : server.quoteCloseReader) :
  server.closed r = false ->
  (reads k r).1 = before_quote (concat (map fst (firstn k (server.wrapped r))))
  /\ (In x22 (concat (map fst (firstn k (server.wrapped r)))) ->
      server.Read (reads k r).2 = (([], Some ErrEOF), (reads k r).2)).
Proof.
  intros Hopen. split.
  2:{ intros Hin. apply (reads_closed_state k r Hopen) in Hin.
      unfold server.Read. now rewrite Hin. }
  revert r Hopen. induction k as [|k IH]; intros r Hopen; [reflexivity|].
  cbn [reads]. unfold server.Read. rewrite Hopen.
  destruct r as [[|[p err] rest] f c]; cbn [server.wrapped server.wrappedFinal server.closed] in *.
  - specialize (IH (server.mkQuoteCloseReader [] f c) Hopen).
    cbn [server.wrapped] in IH. rewrite firstn_nil in IH.
    destruct (reads k _) as [more r2]. cbn in *. now rewrite IH.
  - cbn [firstn map concat fst].
    destruct (server.indexQuote p) as [i|] eqn:Ei.
    + rewrite reads_closed by reflexivity. cbn.
      apply indexQuote_Some in Ei as [E1 E2]. now rewrite app_nil_r, E1, E2.
    + specialize (IH (server.mkQuoteCloseReader rest f false) eq_refl).
      cbn [server.wrapped] in IH.
      destruct (reads k _) as [more r2]. cbn in *.
      apply indexQuote_None in Ei as [_ E2]. now rewrite E2, IH.
Qed.

Lemma quoteCloseReader_delivers_the_bytes_before_the_quote_witness :
  let r := server.mkQuoteCloseReader
             [([x61; x62], None); ([x63; x22; x64], None); ([x65], None)] ErrEOF false in
  (reads 3 r).1 = before_quote (concat (map fst (firstn 3 (server.wrapped r))))
  /\ (In x22 (concat (map fst (firstn 3 (server.wrapped r)))) ->
      server.Read (reads 3 r).2 = (([], Some ErrEOF), (reads 3 r).2)).
Proof.
  cbv zeta.
  apply (quoteCloseReader_delivers_the_bytes_before_the_quote 3
           (server.mkQuoteCloseReader
              [([x61; x62], None); ([x63; x22; x64], None); ([x65], None)] ErrEOF false)).
  reflexivity.
Defined.

(** ** Persisting the statistics *)

(** X24: [Persist] saves at most once per [MinPersistInterval] and loses no
    request: a save happens no sooner than one interval after the previous
    one, and when a call does not save, a timer is pending afterwards and
    [Persist] called when it fires, or later, saves. The invariant kept is
    that a pending timer fires no sooner than one interval after the last
    save. *)
Theorem Persist_saves_at_a_limited_rate_and_loses_nothing
    (m m' : stats.Metrics) (now now' : Z) (saved : bool) :
  stats.diskPath m <> EmptyString ->
  timer_after_interval m ->
  now <= now' ->
  stats.Persist m now now' = (m', saved) ->
  timer_after_interval m'
  /\ (saved = true ->
      stats.lastPersistAt m' = Some now'
      /\ stats.pendingPersist m' = None
      /\ forall l, stats.lastPersistAt m = Some l -> l + stats.MinPersistInterval <= now')
  /\ (saved = false ->
      stats.lastPersistAt m' = stats.lastPersistAt m
      /\ exists t,
           stats.pendingPersist m' = Some t
           /\ forall fire fire', t <= fire -> (stats.Persist m' fire fire').2 = true).
Proof.
  intros Hpath Hinv Hle H. unfold stats.Persist in H.
  rewrite (proj2 (String.eqb_neq _ _) Hpath) in H.
  assert (Hfire : forall (m0 : stats.Metrics) l t fire fire',
            stats.diskPath m0 = stats.diskPath m ->
            stats.lastPersistAt m0 = Some l -> l + stats.MinPersistInterval <= t ->
            t <= fire -> (stats.Persist m0 fire fire').2 = true).
  { intros m0 l t fire fire' Hd Hl Ht Hf. unfold stats.Persist. rewrite Hd.
    rewrite (proj2 (String.eqb_neq _ _) Hpath). rewrite Hl. cbn [stats.Since].
    destruct (Z.ltb_spec (fire - l) stats.MinPersistInterval); [lia|reflexivity]. }
  destruct (Z.ltb_spec (stats.Since (stats.lastPersistAt m) now) stats.MinPersistInterval)
    as [Hlt|Hge].
  - destruct (stats.lastPersistAt m) as [l|] eqn:El;
      [|cbn in Hlt; unfold stats.MinPersistInterval in Hlt; lia].
    cbn [stats.Since] in *.
    destruct (stats.pendingPersist m) as [t|] eqn:Ep.
    + injection H as <- <-. split; [exact Hinv|]. split; [discriminate|].
      intros _. split; [exact El|]. exists t. split; [exact Ep|].
      intros fire fire' Hf. destruct (Hinv t Ep) as (l' & El' & Hl').
      apply (Hfire m l' t); [reflexivity|exact El'|exact Hl'|exact Hf].
    + injection H as <- <-.
      cbn [stats.lastPersistAt stats.pendingPersist stats.diskPath].
      split; [|split; [discriminate|]].
      * intros t Ht. injection Ht as <-. exists l. split; [reflexivity|].
        unfold stats.MinPersistInterval. lia.
      * intros _. split; [reflexivity|]. eexists. split; [reflexivity|].
        intros fire fire' Hf.
        apply (Hfire _ l (now + (stats.MinPersistInterval - (now - l) + 50 * 10 ^ 6)));
          [reflexivity|reflexivity|unfold stats.MinPersistInterval; lia|exact Hf].
  - injection H as <- <-.
    cbn [stats.lastPersistAt stats.pendingPersist stats.diskPath].
    split; [intros t Ht; discriminate|]. split; [|discriminate].
    intros _. split; [reflexivity|]. split; [reflexivity|].
    intros l El. rewrite El in Hge. cbn [stats.Since] in Hge. lia.
Qed.

Lemma Persist_saves_at_a_limited_rate_and_loses_nothing_witness :
  let m := stats.mkMetrics "stats.json" (Some 0) None in
  let m' := stats.mkMetrics "stats.json" (Some 0) (Some 1050000000) in
  timer_after_interval m'
  /\ (false = true ->
      stats.lastPersistAt m' = Some 600
      /\ stats.pendingPersist m' = None
      /\ forall l, stats.lastPersistAt m = Some l -> l + stats.MinPersistInterval <= 600)
  /\ (false = false ->
      stats.lastPersistAt m' = stats.lastPersistAt m
      /\ exists t,
           stats.pendingPersist m' = Some t
           /\ forall fire fire', t <= fire -> (stats.Persist m' fire fire').2 = true).
Proof.
  cbv zeta.
  apply (Persist_saves_at_a_limited_rate_and_loses_nothing
           (stats.mkMetrics "stats.json" (Some 0) None)
           (stats.mkMetrics "stats.json" (Some 0) (Some 1050000000)) 500 600 false).
  - discriminate.
  - intros t H. discriminate H.
  - lia.
  - vm_compute. reflexivity.
Defined.

(** ** Empty identifiers *)

(** X25: The local cache does not guard empty identifiers: on an open store a
    get with an empty ActionID panics, and so does a put with an empty
    ActionID or an empty OutputID; the disk is untouched. ([actionPath] and
    [outputPath] index the first byte.) *)
Theorem local_backend_panics_on_empty_ids (store : local.LocalBackend) :
  local.closed store = false ->
  (forall comp fs,
     local.Get store (cache.mkGetOpts (protocol.mkGetRequest []) comp) fs = (Panic, fs))
  /\ (forall opts uniqueId now fs,
        protocol.put_ActionID (cache.put_Req opts) = []
        \/ protocol.put_OutputID (cache.put_Req opts) = [] ->
        local.Put store opts uniqueId now fs = (Panic, fs)).
Proof.
  intros Hc. split.
  - intros comp fs. unfold local.Get, util.Do. now rewrite Hc.
  - intros opts uniqueId now fs Hid. unfold local.Put, util.Do. rewrite Hc.
    assert (Hput : local.put store opts uniqueId now fs = (Panic, fs)).
    { unfold local.put. destruct Hid as [-> | ->]; [reflexivity|].
      now destruct (protocol.put_ActionID (cache.put_Req opts)). }
    now rewrite Hput.
Qed.

Lemma local_backend_panics_on_empty_ids_witness :
  let store := local.mkLocalBackend ["data"%string] false in
  (forall comp fs,
     local.Get store (cache.mkGetOpts (protocol.mkGetRequest []) comp) fs = (Panic, fs))
  /\ (forall opts uniqueId now fs,
        protocol.put_ActionID (cache.put_Req opts) = []
        \/ protocol.put_OutputID (cache.put_Req opts) = [] ->
        local.Put store opts uniqueId now fs = (Panic, fs)).
Proof.
  cbv zeta.
  apply (local_backend_panics_on_empty_ids (local.mkLocalBackend ["data"%string] false)).
  reflexivity.
Defined.

(** X26: A remote object whose EntryMeta has the requested ActionID and an
    empty OutputID makes [Get] panic: the download hands it to the local
    put, which indexes the first byte of the OutputID. The error-to-miss
    conversion of [Get] does not catch it. *)
Theorem Get_panics_on_remote_entry_without_OutputID
    (store : blob.BlobBackend) (opts : cache.GetOpts) (uniqueId : string) (now : time.Time)
    (a0 : byte) (A : list byte) (fs fs1 : os.FS) (r : protocol.GetResponse)
    (rd rd' : io.Reader) (m : cache.EntryMeta) :
  blob.closed store = false ->
  local.closed (blob.diskStore store) = false ->
  protocol.get_ActionID (cache.get_Req opts) = a0 :: A ->
  bundleEntry store a0 A = None ->
  local.Get (blob.diskStore store) opts fs = (Ok r, fs1) ->
  protocol.Miss r = true ->
  blob.bucket store (objectKey a0 A) = blob.Object rd ->
  cache.ReadEntryMeta rd = Ok (m, rd') ->
  cache.ActionID m = a0 :: A ->
  cache.OutputID m = [] ->
  blob.BlobBackend.Get store opts uniqueId now fs = (Panic, fs1).
Proof.
  intros Hc Hdc HA Hnone Hlocal Hmiss Hobj Hread HmA HmO.
  unfold blob.BlobBackend.Get, util.Do. rewrite Hc.
  rewrite (not_fast_path store opts uniqueId now a0 A HA fs) by (intros e He; congruence).
  rewrite (afterFastPath_local_miss store opts uniqueId now a0 A fs r fs1 Hlocal Hmiss).
  rewrite Hnone, (download_unfold store opts uniqueId now a0 A HA), Hobj, Hread.
  cbn [wrap]. rewrite bindM_lift_Ok. rewrite HmA. unfold bytes_Equal.
  rewrite bool_decide_eq_true_2 by reflexivity. cbn [negb].
  assert (HPut : local.Put (blob.diskStore store)
                   (blob.BlobBackend.putOpts m rd' (cache.get_IsInCompaction opts))
                   uniqueId now fs1 = (Panic, fs1)).
  { unfold local.Put, util.Do. rewrite Hdc.
    unfold local.put, blob.BlobBackend.putOpts.
    cbn [cache.put_Req protocol.put_ActionID protocol.put_OutputID].
    rewrite HmA, HmO. reflexivity. }
  unfold bindM, wrapM. now rewrite HPut.
Qed.

Lemma Get_panics_on_remote_entry_without_OutputID_witness :
  let m := cache.mkEntryMeta [xab; xcd] [] 3 (time.Unix 1640995200 5) in
  let bucket := fun key : string =>
    if String.eqb key "b/ab/abcd"
    then blob.Object (io.of_bytes (cache.WriteTo m ++ [x66; x6f; x6f]))
    else blob.NotFound in
  let store :=
    blob.mkBlobBackend false bucket (local.mkLocalBackend ["data"%string] false)
      (blob.ArLocalStore.NewArLocalStore ["work"%string]) in
  let fs := os.mkFS ∅ (fun _ _ => false) in
  blob.BlobBackend.Get store (cache.mkGetOpts (protocol.mkGetRequest [xab; xcd]) false)
    "ABCDEFGH" time.zero fs
  = (Panic, fs).
Proof.
  cbv zeta.
  apply (Get_panics_on_remote_entry_without_OutputID
           (blob.mkBlobBackend false
              (fun key : string =>
                 if String.eqb key "b/ab/abcd"
                 then blob.Object
                        (io.of_bytes
                           (cache.WriteTo
                              (cache.mkEntryMeta [xab; xcd] [] 3 (time.Unix 1640995200 5))
                            ++ [x66; x6f; x6f]))
                 else blob.NotFound)
              (local.mkLocalBackend ["data"%string] false)
              (blob.ArLocalStore.NewArLocalStore ["work"%string]))
           (cache.mkGetOpts (protocol.mkGetRequest [xab; xcd]) false)
           "ABCDEFGH" time.zero xab [xcd] (os.mkFS ∅ (fun _ _ => false))
           (os.mkFS ∅ (fun _ _ => false)) protocol.miss
           (io.of_bytes
              (cache.WriteTo (cache.mkEntryMeta [xab; xcd] [] 3 (time.Unix 1640995200 5))
               ++ [x66; x6f; x6f]))
           (io.of_bytes [x66; x6f; x6f])
           (cache.mkEntryMeta [xab; xcd] [] 3 (time.Unix 1640995200 5))).
  - reflexivity.
  - reflexivity.
  - reflexivity.
  - vm_compute. reflexivity.
  - vm_compute. reflexivity.
  - reflexivity.
  - reflexivity.
  - vm_compute. reflexivity.
  - reflexivity.
  - reflexivity.
Defined.

(** X27: A put with a negative [BodySize] is accepted and then lost: when the
    put succeeds, it has stored the EntryMeta with the negative size and
    returned the shared empty output; the next get of the ActionID finds no
    body of that size, answers with a miss and removes the action file. *)
Theorem Put_with_negative_BodySize_is_dropped_by_Get
    (store : local.LocalBackend) (opts : cache.PutOpts) (uniqueId : string) (now : time.Time)
    (fs fs' : os.FS) (resp : protocol.PutResponse) (comp : bool) :
  local.Put store opts uniqueId now fs = (Ok resp, fs') ->
  - 2 ^ 63 <= protocol.BodySize (cache.put_Req opts) < 0 ->
  Z.of_nat (length (protocol.put_ActionID (cache.put_Req opts))) < 2 ^ 32 ->
  Z.of_nat (length (protocol.put_OutputID (cache.put_Req opts))) < 2 ^ 32 ->
  (forall p, os.broken fs os.SysOpen p = false) ->
  (forall p, os.broken fs os.SysRemove p = false) ->
  exists aP fs'',
    local.actionPath store (protocol.put_ActionID (cache.put_Req opts)) = Ok aP
    /\ protocol.put_DiskPath resp = local.emptyOutputPath store
    /\ os.nodes fs' !! aP = Some (os.File (cache.WriteTo (put_meta opts now)))
    /\ local.Get store
         (cache.mkGetOpts (protocol.mkGetRequest (protocol.put_ActionID (cache.put_Req opts)))
            comp) fs'
       = (Ok protocol.miss, fs'')
    /\ os.nodes fs'' !! aP = None.
Proof.
  intros HPut Hneg HlA HlO Hopen Hrm.
  pose proof (Put_frame _ _ _ _ _ _ _ HPut) as [Hb _].
  apply Put_Ok in HPut as [Hclosed Hput].
  apply put_Ok_empty in Hput as (aP & oP & HaP & HoP & Hresp & Ha & He); [|lia].
  set (m := put_meta opts now) in *.
  assert (Hread : cache.ReadEntryMeta (io.of_bytes (cache.WriteTo m))
                  = Ok (cache.mkEntryMeta (cache.ActionID m) (cache.OutputID m) (cache.Size m)
                          (reread_time (cache.Time m)), io.mkReader [] false)).
  { unfold io.of_bytes. rewrite <- (app_nil_r (cache.WriteTo m)).
    apply ReadEntryMeta_WriteTo; cbn; try assumption. unfold is_int64. lia. }
  destruct (get_prunes store
              (cache.mkGetOpts
                 (protocol.mkGetRequest (protocol.put_ActionID (cache.put_Req opts))) comp)
              fs' aP oP (cache.WriteTo m)
              (cache.mkEntryMeta (cache.ActionID m) (cache.OutputID m) (cache.Size m)
                 (reread_time (cache.Time m)))
              (io.mkReader [] false) HaP)
    as (e & fs'' & Hget & _ & Hgone & _).
  - unfold os.Open. rewrite Hb, Hopen. now rewrite Ha.
  - exact Hread.
  - reflexivity.
  - cbn. lia.
  - exact HoP.
  - intros body _. cbn. lia.
  - now rewrite Hb.
  - exists aP, fs''. repeat split; try assumption.
    now apply (Get_of_get_Err _ _ _ e _ aP).
Qed.

Lemma Put_with_negative_BodySize_is_dropped_by_Get_witness :
  let store := local.mkLocalBackend ["data"%string] false in
  let opts :=
    cache.mkPutOpts (protocol.mkPutRequest [x01] [x02] (-1))
      (io.of_bytes [x61; x62; x63]) None false in
  let fs := os.mkFS {[ ["data"%string] := os.Directory ]} (fun _ _ => false) in
  let out := local.Put store opts "ABCDEFGH" time.zero fs in
  exists aP fs'',
    local.actionPath store [x01] = Ok aP
    /\ protocol.put_DiskPath (protocol.mkPutResponse ["data"; "_empty.output"]%string)
       = local.emptyOutputPath store
    /\ os.nodes (snd out) !! aP = Some (os.File (cache.WriteTo (put_meta opts time.zero)))
    /\ local.Get store (cache.mkGetOpts (protocol.mkGetRequest [x01]) false) (snd out)
       = (Ok protocol.miss, fs'')
    /\ os.nodes fs'' !! aP = None.
Proof.
  cbv zeta.
  apply (Put_with_negative_BodySize_is_dropped_by_Get
           (local.mkLocalBackend ["data"%string] false)
           (cache.mkPutOpts (protocol.mkPutRequest [x01] [x02] (-1))
              (io.of_bytes [x61; x62; x63]) None false)
           "ABCDEFGH" time.zero
           (os.mkFS {[ ["data"%string] := os.Directory ]} (fun _ _ => false))).
  - vm_compute. reflexivity.
  - cbn. lia.
  - cbn. lia.
  - cbn. lia.
  - intros p. reflexivity.
  - intros p. reflexivity.
Defined.

(** ** The scenarios of the repository's tests, run on the embedding *)

(** [TestDecodeCacheEntityKey_RoundTrip] *)
Example DecodeCacheEntityKey_round_trip :
  Forall (fun actionID =>
            exists key, blob.CacheEntityKey actionID = Ok key
                        /\ blob.DecodeCacheEntityKey key = Ok actionID)
    [[x00]; [xff]; [xab; xcd];
     [x12; x34; x56; x78; x90; xab; xcd; xef];
     [x00; x11; x22; x33; x44; x55; x66; x77; x88; x99; xaa; xbb; xcc; xdd; xee; xff]].
Proof. repeat constructor; eexists; split; vm_compute; reflexivity. Qed.

(** Keys that are well formed except for the letter case, the length of the
    hex part or the shard are reported as invalid. *)
Example DecodeCacheEntityKey_rejects :
  blob.DecodeCacheEntityKey "b/ab/ABCD" = Err ErrInvalidKey
  /\ blob.DecodeCacheEntityKey "b/ab/abc" = Err ErrInvalidKey
  /\ blob.DecodeCacheEntityKey "b/ac/abcd" = Err ErrInvalidKey
  /\ blob.DecodeCacheEntityKey "blobar/a.zip" = Err ErrInvalidKey.
Proof. repeat split; vm_compute; reflexivity. Qed.

(** [TestEntryMeta_ZeroValues] *)
Example EntryMeta_zero_values :
  cache.ReadEntryMeta (io.of_bytes (cache.WriteTo (cache.mkEntryMeta [] [] 0 time.zero)))
  = Ok (cache.mkEntryMeta [] [] 0 time.zero, io.of_bytes []).
Proof. vm_compute. reflexivity. Qed.

(** [TestReadEntryMeta_IncompleteData] *)
Example ReadEntryMeta_incomplete :
  cache.ReadEntryMeta (io.of_bytes []) = Err ErrEOF
  /\ cache.ReadEntryMeta (io.of_bytes [x05; x00; x00; x00]) = Err ErrUnexpectedEOF
  /\ cache.ReadEntryMeta (io.of_bytes [x05; x00; x00; x00; x06; x00; x00; x00]) = Err ErrEOF
  /\ cache.ReadEntryMeta
       (io.of_bytes [x05; x00; x00; x00; x06; x00; x00; x00; x61; x62; x63])
     = Err ErrUnexpectedEOF.
Proof. repeat split; vm_compute; reflexivity. Qed.

(** Empty entry: a put with [BodySize = 0] succeeds and a later get is a
    hit on the shared empty output. The store's directory is there, as
    after [Open]. *)
Example empty_entry_hit :
  let disk := local.mkLocalBackend ["data"%string] false in
  let fs := os.mkFS {[ ["data"%string] := os.Directory ]} (fun _ _ => false) in
  let put := local.Put disk
               (cache.mkPutOpts (protocol.mkPutRequest [x01] [x02] 0) (io.of_bytes [])
                  (Some (time.Unix 7 0)) false) "ABCDEFGH" time.zero fs in
  let get := local.Get disk (cache.mkGetOpts (protocol.mkGetRequest [x01]) false) put.2 in
  put.1 = Ok (protocol.mkPutResponse ["data"; "_empty.output"]%string)
  /\ get.1 = Ok (protocol.mkGetResponse false [x02] 0 (Some (time.Unix 7 0))
                  ["data"; "_empty.output"]%string)
  /\ os.nodes get.2 !! ["data"; "_empty.output"]%string = Some (os.File []).
Proof. cbv zeta. repeat split; vm_compute; reflexivity. Qed.

(** Remote fallback: the local cache is empty and the bucket holds
    [b/ab/abcd = EntryMeta ++ "foo"]; the get downloads it, and a second get
    is served from the local disk although the bucket is out of reach. *)
Example remote_fallback :
  let disk := local.mkLocalBackend ["data"%string] false in
  let ar := blob.ArLocalStore.NewArLocalStore ["work"%string] in
  let m := cache.mkEntryMeta [xab; xcd] [x10] 3 (time.Unix 1640995200 5) in
  let bucket := fun key : string =>
    if String.eqb key "b/ab/abcd"
    then blob.Object (io.of_bytes (cache.WriteTo m ++ [x66; x6f; x6f]))
    else blob.NotFound in
  let opts := cache.mkGetOpts (protocol.mkGetRequest [xab; xcd]) false in
  let first := blob.BlobBackend.Get (blob.mkBlobBackend false bucket disk ar) opts
                 "ABCDEFGH" time.zero (os.mkFS ∅ (fun _ _ => false)) in
  let second := blob.BlobBackend.Get
                  (blob.mkBlobBackend false (fun _ => blob.Unavailable) disk ar) opts
                  "IJKLMNOP" time.zero first.2 in
  first.1 = Ok (protocol.mkGetResponse false [x10] 3 (Some (time.Unix 1640995200 5))
                  ["data"; "10"; "10.output"]%string)
  /\ os.nodes first.2 !! ["data"; "10"; "10.output"]%string = Some (os.File [x66; x6f; x6f])
  /\ second.1 = first.1.
Proof. cbv zeta. repeat split; vm_compute; reflexivity. Qed.

(** Bundle fast path: no standalone object, the bundle of keyspace 0 holds
    [0011] with an empty body; the get is a hit on the shared empty output
    and writes no entry to the local disk. *)
Example bundle_fast_path :
  let disk := local.mkLocalBackend ["data"%string] false in
  let fs := os.mkFS {[ ["data"%string] := os.Directory;
                       ["data"; "_empty.output"]%string := os.File [] ]} (fun _ _ => false) in
  let e := blob.mkArEntry (cache.mkEntryMeta [x00; x11] [x22] 0 time.zero)
             (Some (io.of_bytes [])) in
  let ar := blob.mkArLocalStore ["work"%string] {[ "0"%string := 0%nat ]}
              {[ 0%nat := blob.mkArReader false {[ "0011"%string := e ]} ]} 1 in
  let out := blob.BlobBackend.Get
               (blob.mkBlobBackend false (fun _ => blob.NotFound) disk ar)
               (cache.mkGetOpts (protocol.mkGetRequest [x00; x11]) false)
               "ABCDEFGH" time.zero fs in
  out.1 = Ok (protocol.mkGetResponse false [x22] 0 (Some time.zero)
                ["data"; "_empty.output"]%string)
  /\ out.2 = fs.
Proof. cbv zeta. repeat split; vm_compute; reflexivity. Qed.

(** The protocol engine on a put with a body in two chunks, a get, and a
    close: the handlers are dispatched in order and the loop ends normally. *)
Example readLoop_put_get_close :
  cacheprog.readLoop
    (fun line =>
       match line with
       | [x50] => Some (cacheprog.mkCacheProgRequest 1 cacheprog.CmdPut [x01] [x02] 9)
       | [x47] => Some (cacheprog.mkCacheProgRequest 2 cacheprog.CmdGet [x01] [] 0)
       | [x43] => Some (cacheprog.mkCacheProgRequest 3 cacheprog.CmdClose [] [] 0)
       | _ => None
       end)
    (mkLineChunkedReader
       [([x50], false); ([], false); ([x22; x64; x47], true); ([x56; x22], false);
        ([], false); ([x47], false); ([x43], false); ([x47], false)] ErrEOF)
  = ([cacheprog.DispatchPut (cacheprog.mkCacheProgRequest 1 cacheprog.CmdPut [x01] [x02] 9)
        [x22; x64; x47; x56; x22] false;
      cacheprog.DispatchGet (cacheprog.mkCacheProgRequest 2 cacheprog.CmdGet [x01] [] 0)],
     cacheprog.Returned None).
Proof. vm_compute. reflexivity. Qed.
